(** * Primary/replica connection manager of go-libs: a shallow embedding

    The development follows three source files of the repository:

    - [pkg/postgres/config.go]: [Config], [MasterSlaveConfig] and their
      [Validate] methods;
    - the pgx [Connection] (package [_pgx_postgres]) with its retrying
      [Connect], and the gorm [Connection] of
      [pkg/database/postgres/gorm/connection.go], whose [Connect] has the
      same retry loop;
    - the [MasterSlaveConnection] manager of package [_pgx_postgres]
      ([Connect], [Close], the accessors, [checkHealth] and the two
      reconnect routines).  The manager of package [_gorm_postgres] is the
      same text except that it builds its per-side configuration with
      [GetMasterGormConfig] / [GetSlaveGormConfig].

    Go code runs against a network and a clock.  Both are represented by an
    environment [Env] of oracles indexed by logical time, where the logical
    time of an action is the number of events logged before it.  Every
    observable action (lock operations, connection attempts, pings, closes,
    sleeps, writes to the manager's fields) is appended to a trace, so that
    orderings ("closed before the new handle is stored", "probed while the
    lock is held") are statements about that trace.  Real time is not
    represented: a sleep or a timer is an event that carries its duration.

    The file has four parts: the embedding of the Go code, the vocabulary
    of the statements (with sample configurations, environments and runs),
    the lemmas and theorems for the statements C1 to C10 of the
    specification, and further properties of the code (X1 to X23).

    Assumptions of the embedding: the manager's [config] pointer is not nil;
    a method runs from its first to its last action without another
    goroutine's actions in between (which the mutex ensures for every method
    but [Connect]); library calls are total and their outcome is the
    environment's, with one exception: a [gorm.Open] that fails reports the
    failure through the logger it was given, and the logger of [getLogger]
    has a nil writer, so that call panics when the log level is 2 or
    more. *)

From Stdlib Require Import ZArith List String Bool Lia.
Import ListNotations.

Local Open Scope string_scope.
Local Open Scope list_scope.

(** ** Machine integers, durations, errors and contexts *)

(** Go's [int] and [time.Duration] are 64-bit signed integers; they are kept
    in [Z] and multiplication wraps around.  Loop counters never get near the
    bound and are left unwrapped. *)
Definition wrap64 (z : Z) : Z := ((z + 2 ^ 63) mod 2 ^ 64 - 2 ^ 63)%Z.

Definition Duration := Z.
Definition Second : Duration := 1000000000%Z.
Definition dur_mul (a b : Duration) : Duration := wrap64 (a * b).

(** Handles of library objects (pools, direct connections, [sql.DB]) are the
    logical time at which the attempt that built them started. *)
Definition handle := nat.

(** Go [error] values.  [None : option error] is [nil]. *)
Inductive error : Type :=
| errorString (s : string)            (* fmt.Errorf with no verb *)
| wrapError (msg : string) (e : error) (* fmt.Errorf(msg + ": %w", e) *)
| wrapRetries (n : Z) (e : error)     (* "failed to connect after %d retries: %w" *)
| externalError (code : nat).         (* an error made by a library or the network *)

(** [context.Context]: the background context, a context with a timeout,
    or a context handed in by the caller. *)
Inductive context : Type :=
| Background
| WithTimeout (parent : context) (d : Duration)
| CallerCtx (id : nat).

(** ** pkg/postgres/config.go *)

Module Postgres.

Local Open Scope Z_scope.

Record Config := mkConfig {
  Host : string;
  Port : Z;
  User : string;
  Password : string;
  Database : string;
  SSLMode : string;
  MaxOpenConns : Z;
  MaxIdleConns : Z;
  ConnMaxLifetime : Duration;
  ConnMaxIdleTime : Duration;
  ConnectTimeout : Duration;
  QueryTimeout : Duration;
  MaxRetries : Z;
  RetryInterval : Duration
}.

Definition DefaultConfig : Config := {|
  Host := "localhost";
  Port := 5432;
  User := "postgres";
  Password := "";
  Database := "postgres";
  SSLMode := "disable";
  MaxOpenConns := 25;
  MaxIdleConns := 5;
  ConnMaxLifetime := 5 * 60 * Second;
  ConnMaxIdleTime := 5 * 60 * Second;
  ConnectTimeout := 10 * Second;
  QueryTimeout := 30 * Second;
  MaxRetries := 3;
  RetryInterval := 1 * Second
|}.

(** [func (c *Config) Validate() error] *)
Definition Validate (c : Config) : option error :=
  if String.eqb (Host c) "" then
    Some (errorString "host is required")
  else if ((Port c <=? 0) || (65535 <? Port c))%Z then
    Some (errorString "port must be between 1 and 65535")
  else if String.eqb (User c) "" then
    Some (errorString "user is required")
  else if String.eqb (Database c) "" then
    Some (errorString "database is required")
  else if (MaxOpenConns c <=? 0)%Z then
    Some (errorString "max_open_conns must be greater than 0")
  else if (MaxIdleConns c <? 0)%Z then
    Some (errorString "max_idle_conns must be greater than or equal to 0")
  else if (MaxOpenConns c <? MaxIdleConns c)%Z then
    Some (errorString "max_idle_conns cannot be greater than max_open_conns")
  else None.

Record MasterSlaveConfig := mkMasterSlaveConfig {
  Master : option Config;          (* *Config, may be nil *)
  Slave : option Config;
  UseSlaveConnection : bool;
  SlaveReadOnly : bool;
  AutoFailover : bool;
  FailoverRetries : Z;
  FailoverInterval : Duration;
  HealthCheckEnabled : bool;
  HealthCheckInterval : Duration
}.

Definition DefaultMasterSlaveConfig : MasterSlaveConfig := {|
  Master := Some DefaultConfig;
  Slave := Some DefaultConfig;
  UseSlaveConnection := true;
  SlaveReadOnly := true;
  AutoFailover := true;
  FailoverRetries := 3;
  FailoverInterval := 5 * Second;
  HealthCheckEnabled := true;
  HealthCheckInterval := 30 * Second
|}.

(** [func (c *MasterSlaveConfig) Validate() error] *)
Definition ValidateMasterSlave (c : MasterSlaveConfig) : option error :=
  match Master c with
  | None => Some (errorString "master configuration is required")
  | Some m =>
    match Validate m with
    | Some err => Some (wrapError "invalid master configuration" err)
    | None =>
      if UseSlaveConnection c then
        match Slave c with
        | None =>
          Some (errorString
            "slave configuration is required when use_slave_connection is true")
        | Some s =>
          match Validate s with
          | Some err => Some (wrapError "invalid slave configuration" err)
          | None => None
          end
        end
      else None
    end
  end.

(** [GormConfig] of [pkg/database/postgres/config/config.go]: the embedded
    [*Config] and the GORM settings. *)
Record GormConfig := mkGormConfig {
  Base : Config;
  LogLevel : Z;
  SlowThreshold : Duration;
  SkipDefaultTransaction : bool;
  PrepareStmt : bool;
  DisableForeignKeyConstraintWhenMigrating : bool
}.

End Postgres.
Export Postgres.

(** ** Runtime: events, environment, and the monad of Go methods *)

(** The pgx [Connection] struct: [pool *pgxpool.Pool], [conn *pgx.Conn] and
    [config *Config] (all three may be nil). *)
Module Pgx.

Record Connection := mkConnection {
  pool : option handle;
  conn : option handle;
  config : option Config
}.

(** [func NewConnection(cfg *_postgres.Config) *Connection] *)
Definition NewConnection (cfg : option Config) : Connection :=
  {| pool := None; conn := None; config := cfg |}.

End Pgx.

(** What a run logs, in order. *)
Inductive event : Type :=
(* c.mu, a sync.RWMutex *)
| EvLock
| EvUnlock
| EvRLock
| EvRUnlock
(* one call of connectWithTimeout, with the error it ends with *)
| EvAttempt (ctx : context) (cfg : Config) (r : option error)
(* pgxpool.Pool and pgx.Conn *)
| EvPoolPing (ctx : context) (p : handle) (r : option error)
| EvPoolClose (p : handle)
| EvConnClose (q : handle) (r : option error)
(* database/sql *)
| EvSqlClose (h : handle) (r : option error)
| EvSetPoolLimits (h : handle)
(* package time and context *)
| EvTimer (d : Duration)                 (* <-time.After(d) was taken *)
| EvCtxDone (ctx : context) (e : error)  (* <-ctx.Done() was taken *)
| EvSleep (d : Duration)
| EvNewTicker (d : Duration)
| EvTickerStop
| EvGo                                   (* the health-check goroutine starts *)
| EvCloseChan                            (* close(c.stopChan) *)
| EvPrintln (s : string)
(* writes to the fields of the manager *)
| EvStoreMaster (c : option Pgx.Connection)
| EvStoreSlave (c : option Pgx.Connection)
| EvStoreRole (r : string).

Definition trace := list event.

(** What one call of the pgx [connectWithTimeout] runs into. *)
Inductive dial_outcome : Type :=
| ParseFails (e : error)        (* pgxpool.ParseConfig *)
| PoolFails (e : error)         (* pgxpool.NewWithConfig *)
| PoolPingFails (e : error)     (* pool.Ping *)
| DirectFails (e : error)       (* pgx.Connect *)
| DirectPingFails (e : error)   (* conn.Ping *)
| Established.

(** What one call of the gorm [connectWithTimeout] runs into. *)
Inductive open_outcome : Type :=
| OpenFails (e : error)         (* gorm.Open *)
| DBFails (e : error)           (* db.DB() *)
| PingFails (e : error)         (* sqlDB.PingContext *)
| Opened.

(** The world outside the program.  Each oracle is asked at the logical time
    of the action. *)
Record Env := mkEnv {
  dial : nat -> context -> Config -> dial_outcome;
  gorm_open : nat -> context -> GormConfig -> open_outcome;
  db_DB : nat -> handle -> option error;          (* db.DB() after the loop *)
  pool_ping : nat -> context -> handle -> option error;
  conn_close : nat -> handle -> option error;
  sql_close : nat -> handle -> option error;
  (** in a [select] between [ctx.Done()] and a timer: [Some e] when the
      [ctx.Done()] case is taken, [e] being [ctx.Err()] *)
  ctx_done : nat -> context -> option error
}.

(** A call returns a value or panics. *)
Inductive result (A : Type) : Type :=
| Ok (a : A)
| Panic (msg : string).
Arguments Ok {A} a.
Arguments Panic {A} msg.

(** A method with receiver of type [S]: it may change the receiver, appends
    to the trace, and returns or panics. *)
Definition M (S A : Type) : Type := S -> trace -> result A * S * trace.

(** Sequencing stops at a panic. *)
Definition ret {S A} (a : A) : M S A := fun s tr => (Ok a, s, tr).

Definition bind {S A B} (m : M S A) (k : A -> M S B) : M S B :=
  fun s tr =>
    match m s tr with
    | (Ok a, s', tr') => k a s' tr'
    | (Panic msg, s', tr') => (Panic msg, s', tr')
    end.

Declare Scope go_scope.
Delimit Scope go_scope with go.
Notation "x <- m ;; k" := (bind m (fun x => k))
  (at level 61, m at next level, right associativity) : go_scope.
Notation "' pat <- m ;; k" := (bind m (fun x => match x with pat => k end))
  (at level 61, pat pattern, m at next level, right associativity) : go_scope.
Notation "m ;; k" := (bind m (fun _ => k))
  (at level 61, right associativity) : go_scope.
Local Open Scope go_scope.

(** Reading and updating the receiver, logging an event, reading the clock,
    panicking. *)
Definition get {S} : M S S := fun s tr => (Ok s, s, tr).
Definition gets {S A} (f : S -> A) : M S A := fun s tr => (Ok (f s), s, tr).
Definition modify {S} (f : S -> S) : M S unit := fun s tr => (Ok tt, f s, tr).
Definition emit {S} (e : event) : M S unit := fun s tr => (Ok tt, s, tr ++ [e]).
Definition now {S} : M S nat := fun s tr => (Ok (List.length tr), s, tr).
Definition panic {S A} (msg : string) : M S A := fun s tr => (Panic msg, s, tr).

(** Dereferencing a pointer that may be nil. *)
Definition deref {S A} (p : option A) : M S A :=
  match p with
  | Some a => ret a
  | None => panic "invalid memory address or nil pointer dereference"
  end.

(** [defer cleanup] at the top of a function body: [cleanup] runs when the
    body returns and also when it panics. *)
Definition defer {S A} (cleanup : M S unit) (body : M S A) : M S A :=
  fun s tr =>
    match body s tr with
    | (r, s', tr') =>
      match cleanup s' tr' with
      | (Ok _, s'', tr'') => (r, s'', tr'')
      | (Panic msg, s'', tr'') => (Panic msg, s'', tr'')
      end
    end.

(** A method call [obj.m(...)] on an object other than the receiver: [m] runs
    on [obj], and the object as [m] left it is returned with the result. *)
Definition call {S T A} (obj : T) (m : M T A) : M S (A * T) :=
  fun s tr =>
    match m obj tr with
    | (Ok a, obj', tr') => (Ok (a, obj'), s, tr')
    | (Panic msg, _, tr') => (Panic msg, s, tr')
    end.

(** How a loop body ends: fall through to the next iteration, [break], or
    [return] from the enclosing function. *)
Inductive ctl (A R : Type) : Type :=
| Next (a : A)
| Break (a : A)
| Return (r : R).
Arguments Next {A R} a.
Arguments Break {A R} a.
Arguments Return {A R} r.

(** [for i := i0; <n more iterations>; i++ { body }], with the variables the
    body assigns carried in [a].  The result is [inl a] when the loop ends or
    breaks and [inr r] when the body returns [r]. *)
Fixpoint for_loop {S A R} (n : nat) (i : Z) (body : Z -> A -> M S (ctl A R))
    (a : A) : M S (A + R) :=
  match n with
  | O => ret (inl a)
  | S n' =>
    c <- body i a ;;
    match c with
    | Next a' => for_loop n' (i + 1)%Z body a'
    | Break a' => ret (inl a')
    | Return r => ret (inr r)
    end
  end.

(** ** The retry loop of [Connect]

    Both [Connect] methods (pgx and gorm) run the same loop around their
    [connectWithTimeout]:
<<
    for i := 0; i <= c.config.MaxRetries; i++ {
        ..., err = c.connectWithTimeout(ctx)
        if err == nil { break }
        if i < c.config.MaxRetries {
            select {
            case <-ctx.Done(): return ctx.Err()
            case <-time.After(c.config.RetryInterval * time.Duration(i+1)): continue
            }
        }
    }
>>
    [V] is the type of the values [connectWithTimeout] returns next to the
    error. *)
Section Retry.

Variable env : Env.
Context {S V : Type}.

Definition retry_body (attempt : M S (V * option error)) (ctx : context)
    (maxRetries : Z) (retryInterval : Duration) (i : Z) (_ : V * option error)
    : M S (ctl (V * option error) (option error)) :=
  r <- attempt ;;
  match snd r with
  | None => ret (Break r)
  | Some _ =>
    if (i <? maxRetries)%Z then
      t <- now ;;
      match ctx_done env t ctx with
      | Some e => emit (EvCtxDone ctx e) ;; ret (Return (Some e))
      | None =>
        emit (EvTimer (dur_mul retryInterval (i + 1)%Z)) ;; ret (Next r)
      end
    else ret (Next r)
  end.

Definition retry_loop (attempt : M S (V * option error)) (ctx : context)
    (maxRetries : Z) (retryInterval : Duration) (zero : V)
    : M S ((V * option error) + option error) :=
  for_loop (Z.to_nat (maxRetries + 1)) 0%Z
    (retry_body attempt ctx maxRetries retryInterval)
    (zero, None).

End Retry.

(** ** The pgx [Connection] (package [_pgx_postgres]) *)

Module PgxConnection.
Import Pgx.

Section WithEnv.

Variable env : Env.

(** [connectWithTimeout], which returns a pool, a direct connection and an
    error.
    The pool and the direct connection it builds both get the starting time
    of the call as their handle. *)
Definition connectWithTimeout (ctx : context)
    : M Connection ((option handle * option handle) * option error) :=
  c <- get ;;
  cfg <- deref (config c) ;;
  let connectCtx := WithTimeout ctx (ConnectTimeout cfg) in
  t <- now ;;
  match dial env t connectCtx cfg with
  | ParseFails e =>
    let err := wrapError "failed to parse pool config" e in
    emit (EvAttempt connectCtx cfg (Some err)) ;;
    ret ((None, None), Some err)
  | PoolFails e =>
    let err := wrapError "failed to create connection pool" e in
    emit (EvAttempt connectCtx cfg (Some err)) ;;
    ret ((None, None), Some err)
  | PoolPingFails e =>
    let err := wrapError "failed to ping pool" e in
    emit (EvAttempt connectCtx cfg (Some err)) ;;
    emit (EvPoolClose t) ;;
    ret ((None, None), Some err)
  | DirectFails e =>
    let err := wrapError "failed to create direct connection" e in
    emit (EvAttempt connectCtx cfg (Some err)) ;;
    emit (EvPoolClose t) ;;
    ret ((None, None), Some err)
  | DirectPingFails e =>
    let err := wrapError "failed to ping direct connection" e in
    emit (EvAttempt connectCtx cfg (Some err)) ;;
    emit (EvPoolClose t) ;;
    t' <- now ;;
    emit (EvConnClose t (conn_close env t' t)) ;;
    ret ((None, None), Some err)
  | Established =>
    emit (EvAttempt connectCtx cfg None) ;;
    ret ((Some t, Some t), None)
  end.

(** [func (c *Connection) Connect(ctx context.Context) error] *)
Definition Connect (ctx : context) : M Connection (option error) :=
  c <- get ;;
  cfg <- deref (config c) ;;
  match Validate cfg with
  | Some err => ret (Some (wrapError "invalid config" err))
  | None =>
    r <- retry_loop env (connectWithTimeout ctx) ctx
           (MaxRetries cfg) (RetryInterval cfg) (None, None) ;;
    match r with
    | inr e => ret e
    | inl ((pool', conn'), Some err) =>
      ret (Some (wrapRetries (MaxRetries cfg) err))
    | inl ((pool', conn'), None) =>
      modify (fun c => {| pool := pool'; conn := conn'; config := config c |}) ;;
      ret None
    end
  end.

(** [func (c *Connection) Close() error] *)
Definition Close : M Connection (option error) :=
  c <- get ;;
  match pool c with
  | Some p => emit (EvPoolClose p)
  | None => ret tt
  end ;;
  match conn c with
  | Some q =>
    t <- now ;;
    let r := conn_close env t q in
    emit (EvConnClose q r) ;;
    ret r
  | None => ret None
  end.

(** [func (c *Connection) Ping(ctx context.Context) error] *)
Definition Ping (ctx : context) : M Connection (option error) :=
  c <- get ;;
  match pool c with
  | None => ret (Some (errorString "database not connected"))
  | Some p =>
    t <- now ;;
    let r := pool_ping env t ctx p in
    emit (EvPoolPing ctx p r) ;;
    ret r
  end.

(** [func (c *Connection) IsHealthy(ctx context.Context) bool] *)
Definition IsHealthy (ctx : context) : M Connection bool :=
  r <- Ping ctx ;;
  ret (match r with None => true | Some _ => false end).

End WithEnv.

(** [func (c *Connection) GetPool() *pgxpool.Pool] and
    [func (c *Connection) GetConn() *pgx.Conn] *)
Definition GetPool : M Connection (option handle) := gets pool.

Definition GetConn : M Connection (option handle) := gets conn.

End PgxConnection.

(** ** The gorm [Connection] (pkg/database/postgres/gorm/connection.go) *)

Module GormConnection.

(** [db *gorm.DB], [sqlDB *sql.DB], [config *GormConfig] *)
Record Connection := mkConnection {
  db : option handle;
  sqlDB : option handle;
  config : option GormConfig
}.

Definition NewConnection (cfg : option GormConfig) : Connection :=
  {| db := None; sqlDB := None; config := cfg |}.

(** [func (c *Connection) getLogger() logger.Interface]:
<<
    logger.New(nil, logger.Config{LogLevel: logger.LogLevel(c.config.LogLevel), ...})
>>
    a gorm logger with a nil writer.  Of the logger only its level is
    kept. *)
Definition getLogger (cfg : GormConfig) : Z := LogLevel cfg.

(** [Logger.Error(...)] on a logger of [getLogger]: gorm's logger prints
    through its writer when its level is [Error] (2) or higher, and the
    writer is nil. *)
Definition logger_Error {S} (level : Z) : M S unit :=
  if (2 <=? level)%Z
  then panic "invalid memory address or nil pointer dereference"
  else ret tt.

Section WithEnv.

Variable env : Env.

(** [connectWithTimeout], which returns a [gorm.DB] and an error.
    [gorm.Open] reports its own failure through the logger of its
    configuration before it returns it, and that logger is the one of
    [getLogger]: with a level of 2 or more the failure of [gorm.Open] ends
    in a nil dereference instead of an error. *)
Definition connectWithTimeout (ctx : context)
    : M Connection (option handle * option error) :=
  c <- get ;;
  cfg <- deref (config c) ;;
  let connectCtx := WithTimeout ctx (ConnectTimeout (Base cfg)) in
  let lg := getLogger cfg in
  t <- now ;;
  match gorm_open env t connectCtx cfg with
  | OpenFails e =>
    emit (EvAttempt connectCtx (Base cfg) (Some e)) ;;
    logger_Error lg ;;
    ret (None, Some e)
  | DBFails e =>
    emit (EvAttempt connectCtx (Base cfg) (Some e)) ;;
    ret (None, Some e)
  | PingFails e =>
    emit (EvAttempt connectCtx (Base cfg) (Some e)) ;;
    t' <- now ;;
    emit (EvSqlClose t (sql_close env t' t)) ;;
    ret (None, Some e)
  | Opened =>
    emit (EvAttempt connectCtx (Base cfg) None) ;;
    ret (Some t, None)
  end.

(** [func (c *Connection) Connect(ctx context.Context) error] *)
Definition Connect (ctx : context) : M Connection (option error) :=
  c <- get ;;
  cfg <- deref (config c) ;;
  match Validate (Base cfg) with
  | Some err => ret (Some (wrapError "invalid config" err))
  | None =>
    r <- retry_loop env (connectWithTimeout ctx) ctx
           (MaxRetries (Base cfg)) (RetryInterval (Base cfg)) None ;;
    match r with
    | inr e => ret e
    | inl (_, Some err) =>
      ret (Some (wrapRetries (MaxRetries (Base cfg)) err))
    | inl (db', None) =>
      modify (fun c => {| db := db'; sqlDB := sqlDB c; config := config c |}) ;;
      h <- deref db' ;;
      t <- now ;;
      match db_DB env t h with
      | Some err => ret (Some (wrapError "failed to get underlying sql.DB" err))
      | None =>
        modify (fun c => {| db := db c; sqlDB := Some h; config := config c |}) ;;
        emit (EvSetPoolLimits h) ;;
        ret None
      end
    end
  end.

(** [func (c *Connection) Close() error] *)
Definition Close : M Connection (option error) :=
  c <- get ;;
  match sqlDB c with
  | Some h =>
    t <- now ;;
    let r := sql_close env t h in
    emit (EvSqlClose h r) ;;
    ret r
  | None => ret None
  end.

(** [func (c *Connection) Ping(ctx context.Context) error].  [sql.DB] is a
    pool of connections: [sqlDB.PingContext] is logged as a ping of that
    pool and answered by the same oracle as a ping of a pgx pool. *)
Definition Ping (ctx : context) : M Connection (option error) :=
  c <- get ;;
  match sqlDB c with
  | None => ret (Some (errorString "database not connected"))
  | Some h =>
    t <- now ;;
    let r := pool_ping env t ctx h in
    emit (EvPoolPing ctx h r) ;;
    ret r
  end.

(** [func (c *Connection) IsHealthy(ctx context.Context) bool] *)
Definition IsHealthy (ctx : context) : M Connection bool :=
  r <- Ping ctx ;;
  ret (match r with None => true | Some _ => false end).

End WithEnv.

(** [func (c *Connection) GetDB() *gorm.DB] *)
Definition GetDB : M Connection (option handle) := gets db.

End GormConnection.

(** ** The manager: [MasterSlaveConnection] (package [_pgx_postgres]) *)

Module MasterSlave.
Import Pgx.

(** [stopChan chan struct{}]: nothing is ever sent on it, it is only closed. *)
Inductive chan_state : Type := ChanOpen | ChanClosed.

(** The struct, without its mutex (lock operations are events of the trace).
    [healthTicker] is nil or a ticker with its period. *)
Record MasterSlaveConnection := mkMasterSlaveConnection {
  config : MasterSlaveConfig;
  masterConn : option Connection;
  slaveConn : option Connection;
  role : string;
  healthTicker : option Duration;
  stopChan : chan_state
}.

(** [func NewMasterSlaveConnection(cfg *_postgres.MasterSlaveConfig) *MasterSlaveConnection] *)
Definition NewMasterSlaveConnection (cfg : MasterSlaveConfig)
    : MasterSlaveConnection :=
  {| config := cfg;
     masterConn := None;
     slaveConn := None;
     role := "master";
     healthTicker := None;
     stopChan := ChanOpen |}.

(** Field updates. *)
Definition set_masterConn (v : option Connection) (c : MasterSlaveConnection) :=
  {| config := config c; masterConn := v; slaveConn := slaveConn c;
     role := role c; healthTicker := healthTicker c; stopChan := stopChan c |}.

Definition set_slaveConn (v : option Connection) (c : MasterSlaveConnection) :=
  {| config := config c; masterConn := masterConn c; slaveConn := v;
     role := role c; healthTicker := healthTicker c; stopChan := stopChan c |}.

Definition set_role (v : string) (c : MasterSlaveConnection) :=
  {| config := config c; masterConn := masterConn c; slaveConn := slaveConn c;
     role := v; healthTicker := healthTicker c; stopChan := stopChan c |}.

Definition set_healthTicker (v : option Duration) (c : MasterSlaveConnection) :=
  {| config := config c; masterConn := masterConn c; slaveConn := slaveConn c;
     role := role c; healthTicker := v; stopChan := stopChan c |}.

Definition set_stopChan (v : chan_state) (c : MasterSlaveConnection) :=
  {| config := config c; masterConn := masterConn c; slaveConn := slaveConn c;
     role := role c; healthTicker := healthTicker c; stopChan := v |}.

(** The assignments [c.masterConn = v], [c.slaveConn = v], [c.role = v]. *)
Definition store_masterConn (v : option Connection) : M MasterSlaveConnection unit :=
  modify (set_masterConn v) ;; emit (EvStoreMaster v).

Definition store_slaveConn (v : option Connection) : M MasterSlaveConnection unit :=
  modify (set_slaveConn v) ;; emit (EvStoreSlave v).

Definition store_role (v : string) : M MasterSlaveConnection unit :=
  modify (set_role v) ;; emit (EvStoreRole v).

(** [c.masterConn.m(...)] and [c.slaveConn.m(...)]: the field is a pointer, so
    what [m] changes in the object is seen through the field afterwards. *)
Definition on_masterConn {A} (m : M Connection A) : M MasterSlaveConnection A :=
  c <- get ;;
  mc <- deref (masterConn c) ;;
  '(a, mc') <- call mc m ;;
  modify (set_masterConn (Some mc')) ;;
  ret a.

Definition on_slaveConn {A} (m : M Connection A) : M MasterSlaveConnection A :=
  c <- get ;;
  sc <- deref (slaveConn c) ;;
  '(a, sc') <- call sc m ;;
  modify (set_slaveConn (Some sc')) ;;
  ret a.

(** [p == nil] *)
Definition is_nil {A} (p : option A) : bool :=
  match p with None => true | Some _ => false end.

Section WithEnv.

Variable env : Env.

(** [func (c *MasterSlaveConnection) startHealthCheck()].  [time.NewTicker]
    panics on a non-positive period.  The goroutine it starts is
    [healthLoopIteration] below, run by the scheduler. *)
Definition startHealthCheck : M MasterSlaveConnection unit :=
  c <- get ;;
  let d := HealthCheckInterval (config c) in
  if (d <=? 0)%Z then panic "non-positive interval for NewTicker"
  else
    modify (set_healthTicker (Some d)) ;;
    emit (EvNewTicker d) ;;
    emit EvGo.

(** [func (c *MasterSlaveConnection) Connect(ctx context.Context) error] *)
Definition Connect (ctx : context) : M MasterSlaveConnection (option error) :=
  c <- get ;;
  match ValidateMasterSlave (config c) with
  | Some err => ret (Some (wrapError "invalid master-slave config" err))
  | None =>
    store_masterConn (Some (NewConnection (Master (config c)))) ;;
    err <- on_masterConn (PgxConnection.Connect env ctx) ;;
    match err with
    | Some err => ret (Some (wrapError "failed to connect to master" err))
    | None =>
      r <- (if UseSlaveConnection (config c) then
              store_slaveConn (Some (NewConnection (Slave (config c)))) ;;
              err <- on_slaveConn (PgxConnection.Connect env ctx) ;;
              match err with
              | Some err =>
                _ <- on_masterConn (PgxConnection.Close env) ;;
                store_masterConn None ;;
                ret (Some (wrapError "failed to connect to slave" err))
              | None => ret None
              end
            else ret None) ;;
      match r with
      | Some err => ret (Some err)
      | None =>
        (if HealthCheckEnabled (config c) then startHealthCheck else ret tt) ;;
        ret None
      end
    end
  end.

(** [close(c.stopChan)]: closing a closed channel panics. *)
Definition close_stopChan : M MasterSlaveConnection unit :=
  c <- get ;;
  match stopChan c with
  | ChanClosed => panic "close of closed channel"
  | ChanOpen => modify (set_stopChan ChanClosed) ;; emit EvCloseChan
  end.

(** [func (c *MasterSlaveConnection) Close() error] *)
Definition Close : M MasterSlaveConnection (option error) :=
  emit EvLock ;;
  defer (emit EvUnlock) (
    c <- get ;;
    match healthTicker c with
    | Some _ => emit EvTickerStop ;; close_stopChan
    | None => ret tt
    end ;;
    masterErr <-
      match masterConn c with
      | Some mc =>
        '(err, _) <- call mc (PgxConnection.Close env) ;;
        store_masterConn None ;;
        ret err
      | None => ret None
      end ;;
    slaveErr <-
      match slaveConn c with
      | Some sc =>
        '(err, _) <- call sc (PgxConnection.Close env) ;;
        store_slaveConn None ;;
        ret err
      | None => ret None
      end ;;
    match masterErr, slaveErr with
    | Some e, _ => ret (Some (wrapError "error closing master connection" e))
    | None, Some e => ret (Some (wrapError "error closing slave connection" e))
    | None, None => ret None
    end).

(** [func (c *MasterSlaveConnection) Ping(ctx context.Context) error] *)
Definition Ping (ctx : context) : M MasterSlaveConnection (option error) :=
  emit EvRLock ;;
  defer (emit EvRUnlock) (
    c <- get ;;
    match masterConn c with
    | None => ret (Some (errorString "master connection not established"))
    | Some mc => '(r, _) <- call mc (PgxConnection.Ping env ctx) ;; ret r
    end).

(** [x != nil && x.IsHealthy(ctx)] *)
Definition probe (ctx : context) (x : option Connection)
    : M MasterSlaveConnection bool :=
  match x with
  | None => ret false
  | Some cn => '(h, _) <- call cn (PgxConnection.IsHealthy env ctx) ;; ret h
  end.

(** [func (c *MasterSlaveConnection) IsHealthy(ctx context.Context) bool] *)
Definition IsHealthy (ctx : context) : M MasterSlaveConnection bool :=
  emit EvRLock ;;
  defer (emit EvRUnlock) (
    c <- get ;;
    m <- probe ctx (masterConn c) ;;
    if m then ret true
    else if AutoFailover (config c) then
      s <- probe ctx (slaveConn c) ;;
      if s then ret true else ret false
    else ret false).

(** [GetMasterClient] and [GetSlaveClient] return the pointer held in the
    slot. *)
Definition GetMasterClient : M MasterSlaveConnection (option Connection) :=
  emit EvRLock ;; defer (emit EvRUnlock) (gets masterConn).

Definition GetSlaveClient : M MasterSlaveConnection (option Connection) :=
  emit EvRLock ;; defer (emit EvRUnlock) (gets slaveConn).

(** [HasSlaveConnected], [IsMaster], [IsSlave] *)
Definition HasSlaveConnected : M MasterSlaveConnection bool :=
  emit EvRLock ;;
  defer (emit EvRUnlock) (c <- get ;; ret (negb (is_nil (slaveConn c)))).

Definition IsMaster : M MasterSlaveConnection bool :=
  emit EvRLock ;;
  defer (emit EvRUnlock) (c <- get ;; ret (String.eqb (role c) "master")).

Definition IsSlave : M MasterSlaveConnection bool :=
  emit EvRLock ;;
  defer (emit EvRUnlock) (c <- get ;; ret (String.eqb (role c) "slave")).

(** [GetPool] and [GetMasterPool] (same body), [GetConn], [GetSlavePool]:
    the pool or the direct connection of the handle in the slot, nil when the
    slot is nil. *)
Definition GetPool : M MasterSlaveConnection (option handle) :=
  emit EvRLock ;;
  defer (emit EvRUnlock) (
    c <- get ;;
    match masterConn c with
    | Some mc => '(p, _) <- call mc PgxConnection.GetPool ;; ret p
    | None => ret None
    end).

Definition GetConn : M MasterSlaveConnection (option handle) :=
  emit EvRLock ;;
  defer (emit EvRUnlock) (
    c <- get ;;
    match masterConn c with
    | Some mc => '(q, _) <- call mc PgxConnection.GetConn ;; ret q
    | None => ret None
    end).

Definition GetMasterPool : M MasterSlaveConnection (option handle) :=
  emit EvRLock ;;
  defer (emit EvRUnlock) (
    c <- get ;;
    match masterConn c with
    | Some mc => '(p, _) <- call mc PgxConnection.GetPool ;; ret p
    | None => ret None
    end).

Definition GetSlavePool : M MasterSlaveConnection (option handle) :=
  emit EvRLock ;;
  defer (emit EvRUnlock) (
    c <- get ;;
    match slaveConn c with
    | Some sc => '(p, _) <- call sc PgxConnection.GetPool ;; ret p
    | None => ret None
    end).

(** [func (c *MasterSlaveConnection) attemptMasterReconnect(ctx context.Context)] *)
Definition attemptMasterReconnect (ctx : context) : M MasterSlaveConnection unit :=
  c <- get ;;
  r <- for_loop (Z.to_nat (FailoverRetries (config c))) 0%Z
         (fun _ _ =>
            '(err, conn) <- call (NewConnection (Master (config c)))
                                 (PgxConnection.Connect env ctx) ;;
            match err with
            | None =>
              c <- get ;;
              match masterConn c with
              | Some old => _ <- call old (PgxConnection.Close env) ;; ret tt
              | None => ret tt
              end ;;
              store_masterConn (Some conn) ;;
              store_role "master" ;;
              emit (EvPrintln "Successfully reconnected to master") ;;
              ret (Return tt)
            | Some _ =>
              emit (EvSleep (FailoverInterval (config c))) ;;
              ret (Next tt)
            end)
         tt ;;
  match r with
  | inr _ => ret tt
  | inl _ =>
    emit (EvPrintln "Failed to reconnect to master after multiple attempts")
  end.

(** [func (c *MasterSlaveConnection) attemptSlaveReconnect(ctx context.Context)] *)
Definition attemptSlaveReconnect (ctx : context) : M MasterSlaveConnection unit :=
  c <- get ;;
  r <- for_loop (Z.to_nat (FailoverRetries (config c))) 0%Z
         (fun _ _ =>
            '(err, conn) <- call (NewConnection (Slave (config c)))
                                 (PgxConnection.Connect env ctx) ;;
            match err with
            | None =>
              c <- get ;;
              match slaveConn c with
              | Some old => _ <- call old (PgxConnection.Close env) ;; ret tt
              | None => ret tt
              end ;;
              store_slaveConn (Some conn) ;;
              emit (EvPrintln "Successfully reconnected to slave") ;;
              ret (Return tt)
            | Some _ =>
              emit (EvSleep (FailoverInterval (config c))) ;;
              ret (Next tt)
            end)
         tt ;;
  match r with
  | inr _ => ret tt
  | inl _ =>
    emit (EvPrintln "Failed to reconnect to slave after multiple attempts")
  end.

(** [func (c *MasterSlaveConnection) checkHealth()] *)
Definition checkHealth : M MasterSlaveConnection unit :=
  let ctx := WithTimeout Background (5 * Second)%Z in
  emit EvLock ;;
  defer (emit EvUnlock) (
    c <- get ;;
    masterHealthy <- probe ctx (masterConn c) ;;
    slaveHealthy <- probe ctx (slaveConn c) ;;
    if negb masterHealthy && slaveHealthy && AutoFailover (config c) then
      store_role "slave" ;;
      emit (EvPrintln "Master connection is down, operating in slave-only mode")
    else if masterHealthy && negb slaveHealthy && negb (is_nil (slaveConn c)) then
      emit (EvPrintln "Slave connection is down, attempting to reconnect") ;;
      attemptSlaveReconnect ctx
    else if negb masterHealthy && negb slaveHealthy then
      emit (EvPrintln
        "Both master and slave connections are down, attempting to reconnect") ;;
      attemptMasterReconnect ctx ;;
      c <- get ;;
      if negb (is_nil (slaveConn c)) then attemptSlaveReconnect ctx else ret tt
    else ret tt).

(** One turn of the goroutine started by [startHealthCheck]:
<<
    select {
    case <-c.stopChan: return
    case <-c.healthTicker.C: c.checkHealth()
    }
>>
    The result tells whether the goroutine goes on. *)
Inductive select_case : Type := StopCase | TickCase.

Definition healthLoopIteration (which : select_case)
    : M MasterSlaveConnection bool :=
  match which with
  | StopCase => ret false
  | TickCase => checkHealth ;; ret true
  end.

End WithEnv.

End MasterSlave.

(** * Vocabulary of the statements

    Everything the theorems below are stated with: predicates on traces,
    the events and results a method is expected to produce, the operations
    of a manager, and sample configurations, environments and runs. *)

(** ** Program logic *)

(** [sat t0 m I P]: started at logical time [t0] or later in a receiver that
    satisfies [I], the method [m] only appends events that satisfy [P] and
    leaves a receiver that satisfies [I], whether it returns or panics. *)
Definition sat {S A} (t0 : nat) (m : M S A) (I : S -> Prop)
    (P : event -> Prop) : Prop :=
  forall s tr, t0 <= List.length tr -> I s ->
    exists r s' evs, m s tr = (r, s', tr ++ evs) /\ I s' /\ Forall P evs.

(** ** Retry schedules *)

(** The part of a trace that matters for the retry policy: which attempts
    were made with which result, which timers were waited for, and whether
    the wait was cut short by the context. *)
Inductive step : Type :=
| SAttempt (r : option error)
| SWait (d : Duration)
| SCancel (e : error).

(** The steps an event stands for: one, or none. *)
Definition step_of (e : event) : list step :=
  match e with
  | EvAttempt _ _ r => [SAttempt r]
  | EvTimer d => [SWait d]
  | EvCtxDone _ e => [SCancel e]
  | _ => []
  end.

(** The retry steps of a trace, in order. *)
Definition schedule (evs : trace) : list step := flat_map step_of evs.

(** Steps that are attempts. *)
Definition is_attempt (s : step) : bool :=
  match s with SAttempt _ => true | _ => false end.

(** Number of calls of [connectWithTimeout] in a trace. *)
Definition attempts (evs : trace) : nat :=
  List.length (filter is_attempt (schedule evs)).

(** Linear backoff: attempts that fail with [errs], the [k]-th wait (counted
    from [k0]) lasting [interval * k], and no wait after the last attempt. *)
Fixpoint linear_backoff (interval : Duration) (k0 : Z) (errs : list error)
    : list step :=
  match errs with
  | [] => []
  | e :: rest =>
    match rest with
    | [] => [SAttempt (Some e)]
    | _ :: _ =>
      SAttempt (Some e) :: SWait (dur_mul interval k0)
        :: linear_backoff interval (k0 + 1)%Z rest
    end
  end.

(** What [Connect] does when every attempt fails: [n + 1] attempts with the
    waits of a linear backoff in between, then the last error wrapped ... *)
Definition retries_exhausted (interval : Duration) (n : Z) (evs : trace)
    (r : option error) : Prop :=
  exists errs e,
    Z.of_nat (List.length errs) = n /\
    attempts evs = Datatypes.S (List.length errs) /\
    schedule evs = linear_backoff interval 1%Z (errs ++ [e]) /\
    r = Some (wrapRetries n e).

(** ... unless one of the waits is cut short by the context; then the
    context's error is returned as it is and nothing more is attempted. *)
Definition retry_cancelled (env : Env) (ctx : context) (interval : Duration)
    (n : Z) (evs : trace) (r : option error) : Prop :=
  exists errs e0 e t,
    (Z.of_nat (List.length errs) < n)%Z /\
    schedule evs = linear_backoff interval 1%Z (errs ++ [e0]) ++ [SCancel e] /\
    ctx_done env t ctx = Some e /\
    r = Some e.

(** Every [select] between [ctx.Done()] and a timer in the trace [evs],
    which starts at time [t], took the case the environment decides at that
    time: the timer was awaited only when the context was not done, and the
    context's case was taken only when it was, with its error. *)
Fixpoint selects_follow (env : Env) (ctx : context) (t : nat) (evs : trace)
    : Prop :=
  match evs with
  | [] => True
  | EvTimer _ :: rest =>
    ctx_done env t ctx = None /\ selects_follow env ctx (Datatypes.S t) rest
  | EvCtxDone c e :: rest =>
    c = ctx /\ ctx_done env t ctx = Some e /\
    selects_follow env ctx (Datatypes.S t) rest
  | _ :: rest => selects_follow env ctx (Datatypes.S t) rest
  end.

(** The two cases together, for a trace that starts at time [t0].  Which of
    the two it is, is not left open: a wait is sat out only if the context
    is not done then, and it is cut short as soon as the context is done.
    With a context that is never done only the first case remains. *)
Definition bounded_retry (env : Env) (ctx : context) (interval : Duration)
    (n : Z) (t0 : nat) (evs : trace) (r : option error) : Prop :=
  (retries_exhausted interval n evs r \/
   retry_cancelled env ctx interval n evs r) /\
  selects_follow env ctx t0 evs /\
  ((forall t, ctx_done env t ctx = None) -> retries_exhausted interval n evs r).

(** A failure of [gorm.Open] comes back as an error: the logger of
    [getLogger] prints nothing at its level (below [Error], which is 2), or
    [gorm.Open] itself never fails and the attempts fail later, at [db.DB()]
    or at the ping. *)
Definition open_failure_returns (env : Env) (gcfg : GormConfig) : Prop :=
  (LogLevel gcfg < 2)%Z \/
  forall t c e, gorm_open env t c gcfg <> OpenFails e.

(** ** Configurations *)

(** The configurations the manager refuses, in the words of the
    specification: the master configuration is missing or invalid, or the
    slave connection is wanted and its configuration is missing or invalid. *)
Inductive config_rejected (cfg : MasterSlaveConfig) : Prop :=
| master_missing :
    Master cfg = None -> config_rejected cfg
| master_invalid m :
    Master cfg = Some m -> Validate m <> None -> config_rejected cfg
| slave_missing :
    UseSlaveConnection cfg = true -> Slave cfg = None -> config_rejected cfg
| slave_invalid s :
    UseSlaveConnection cfg = true -> Slave cfg = Some s ->
    Validate s <> None -> config_rejected cfg.

(** ** Events and results of the [Connection] methods *)

(** Events of building a connection at time [t0] or later: attempts, waits,
    and the closing of what a failed attempt had half built. *)
Definition build_event (t0 : nat) (e : event) : Prop :=
  match e with
  | EvAttempt _ _ _ | EvTimer _ | EvCtxDone _ _ => True
  | EvPoolClose p => t0 <= p
  | EvConnClose q _ => t0 <= q
  | _ => False
  end.

(** The result of [Close] started at time [t], and its events. *)
Definition close_result (env : Env) (t : nat) (c : Pgx.Connection)
    : option error :=
  match Pgx.conn c with
  | Some q =>
    conn_close env
      (match Pgx.pool c with Some _ => Datatypes.S t | None => t end) q
  | None => None
  end.

Definition close_events (env : Env) (t : nat) (c : Pgx.Connection) : trace :=
  match Pgx.pool c with Some p => [EvPoolClose p] | None => [] end ++
  match Pgx.conn c with
  | Some q => [EvConnClose q (close_result env t c)]
  | None => []
  end.

(** The result and the events of [x != nil && x.IsHealthy(ctx)] at time
    [t]. *)
Definition probe_result (env : Env) (ctx : context)
    (x : option Pgx.Connection) (t : nat) : bool :=
  match x with
  | Some {| Pgx.pool := Some p |} => MasterSlave.is_nil (pool_ping env t ctx p)
  | _ => false
  end.

Definition probe_events (env : Env) (ctx : context)
    (x : option Pgx.Connection) (t : nat) : trace :=
  match x with
  | Some {| Pgx.pool := Some p |} => [EvPoolPing ctx p (pool_ping env t ctx p)]
  | _ => []
  end.

(** Events of the methods of a [Connection]. *)
Definition conn_event (e : event) : Prop :=
  match e with
  | EvAttempt _ _ _ | EvPoolPing _ _ _ | EvPoolClose _ | EvConnClose _ _
  | EvTimer _ | EvCtxDone _ _ => True
  | _ => False
  end.

(** ** [Close] of the manager *)

(** [Close] on the handle in a slot, if there is one, followed by the reset
    of the slot: its result and its events when started at time [t]. *)
Definition slot_close_result (env : Env) (t : nat)
    (x : option Pgx.Connection) : option error :=
  match x with
  | Some cn => close_result env t cn
  | None => None
  end.

Definition slot_close_events (env : Env) (t : nat)
    (x : option Pgx.Connection) (reset : event) : trace :=
  match x with
  | Some cn => close_events env t cn ++ [reset]
  | None => []
  end.

(** What stopping the health checker logs, if it was started. *)
Definition stop_events (c : MasterSlave.MasterSlaveConnection) : trace :=
  match MasterSlave.healthTicker c with
  | Some _ => [EvTickerStop; EvCloseChan]
  | None => []
  end.

(** The manager after a [Close] that returned. *)
Definition closed (c : MasterSlave.MasterSlaveConnection)
    : MasterSlave.MasterSlaveConnection :=
  {| MasterSlave.config := MasterSlave.config c;
     MasterSlave.masterConn := None;
     MasterSlave.slaveConn := None;
     MasterSlave.role := MasterSlave.role c;
     MasterSlave.healthTicker := MasterSlave.healthTicker c;
     MasterSlave.stopChan :=
       match MasterSlave.healthTicker c with
       | Some _ => MasterSlave.ChanClosed
       | None => MasterSlave.stopChan c
       end |}.

(** What [Close] returns from the results of the two closes. *)
Definition close_error (masterErr slaveErr : option error) : option error :=
  match masterErr, slaveErr with
  | Some e, _ => Some (wrapError "error closing master connection" e)
  | None, Some e => Some (wrapError "error closing slave connection" e)
  | None, None => None
  end.

(** ** The health check *)

(** The context [checkHealth] probes and reconnects with. *)
Definition health_ctx : context := WithTimeout Background (5 * Second)%Z.

(** What [checkHealth] does once it has the two probe results [mh] and [sh]:
    the if-chain of its body, with [c] the manager as read at its start. *)
Definition health_decision (env : Env) (c : MasterSlave.MasterSlaveConnection)
    (mh sh : bool) : M MasterSlave.MasterSlaveConnection unit :=
  if negb mh && sh && AutoFailover (MasterSlave.config c) then
    MasterSlave.store_role "slave" ;;
    emit (EvPrintln "Master connection is down, operating in slave-only mode")
  else if mh && negb sh && negb (MasterSlave.is_nil (MasterSlave.slaveConn c)) then
    emit (EvPrintln "Slave connection is down, attempting to reconnect") ;;
    MasterSlave.attemptSlaveReconnect env health_ctx
  else if negb mh && negb sh then
    emit (EvPrintln
      "Both master and slave connections are down, attempting to reconnect") ;;
    MasterSlave.attemptMasterReconnect env health_ctx ;;
    c <- get ;;
    if negb (MasterSlave.is_nil (MasterSlave.slaveConn c))
    then MasterSlave.attemptSlaveReconnect env health_ctx else ret tt
  else ret tt.

(** C1 needs to say what the probes see.  The primary fails its probes from
    time [t] on (or there is nothing to probe) ... *)
Definition master_down (env : Env) (t : nat)
    (c : MasterSlave.MasterSlaveConnection) : Prop :=
  forall cn p, MasterSlave.masterConn c = Some cn -> Pgx.pool cn = Some p ->
    forall t' ctx, t <= t' -> pool_ping env t' ctx p <> None.

(** ... and a replica is connected and answers its probes from [t] on. *)
Definition replica_up (env : Env) (t : nat)
    (c : MasterSlave.MasterSlaveConnection) : Prop :=
  exists cn p, MasterSlave.slaveConn c = Some cn /\ Pgx.pool cn = Some p /\
    forall t' ctx, t <= t' -> pool_ping env t' ctx p = None.

(** The replica fails its probes from time [t] on, or there is none. *)
Definition replica_down (env : Env) (t : nat)
    (c : MasterSlave.MasterSlaveConnection) : Prop :=
  forall cn p, MasterSlave.slaveConn c = Some cn -> Pgx.pool cn = Some p ->
    forall t' ctx, t <= t' -> pool_ping env t' ctx p <> None.

(** New connections to the endpoint [m] get through from time [t] on. *)
Definition endpoint_reachable (env : Env) (t : nat) (m : Config) : Prop :=
  forall t' ctx, t <= t' -> dial env t' ctx m = Established.

(** Inside [checkHealth], between its lock and its unlock: no lock
    operation, and the role is only ever set to one of its two values. *)
Definition inner_event (e : event) : Prop :=
  match e with
  | EvLock | EvUnlock | EvRLock | EvRUnlock => False
  | EvStoreRole r => r = "master" \/ r = "slave"
  | _ => True
  end.

(** Outside [checkHealth]: the role is not written. *)
Definition quiet_event (e : event) : Prop :=
  match e with
  | EvStoreRole _ => False
  | _ => True
  end.

(** [time.Sleep] events. *)
Definition is_sleep (e : event) : Prop :=
  match e with EvSleep _ => True | _ => False end.

(** The sleeps of a trace, in order. *)
Definition sleeps (evs : trace) : list Duration :=
  flat_map (fun e => match e with EvSleep d => [d] | _ => [] end) evs.

(** ** Lock discipline of a trace *)

(** [lock_discipline ok held evs] runs through [evs] keeping track of whether
    the exclusive lock is held, and checks [ok held e] on every other
    event. *)
Fixpoint lock_discipline (ok : bool -> event -> bool) (held : bool)
    (evs : trace) : bool :=
  match evs with
  | [] => true
  | EvLock :: rest => lock_discipline ok true rest
  | EvUnlock :: rest => lock_discipline ok false rest
  | e :: rest => ok held e && lock_discipline ok held rest
  end.

(** Whether the exclusive lock is held after [evs]. *)
Fixpoint held_after (held : bool) (evs : trace) : bool :=
  match evs with
  | [] => held
  | EvLock :: rest => held_after true rest
  | EvUnlock :: rest => held_after false rest
  | _ :: rest => held_after held rest
  end.

(** Health probes: pings of a pool. *)
Definition is_probe (e : event) : bool :=
  match e with EvPoolPing _ _ _ => true | _ => false end.

(** Events that go to the network or wait. *)
Definition is_network (e : event) : bool :=
  match e with
  | EvAttempt _ _ _ | EvPoolPing _ _ _ | EvPoolClose _ | EvConnClose _ _
  | EvSleep _ | EvTimer _ | EvCtxDone _ _ => true
  | _ => false
  end.

(** C8 as the specification has it: no probe while the exclusive lock is
    held. *)
Definition probes_unlocked (evs : trace) : bool :=
  lock_discipline (fun held e => negb (held && is_probe e)) false evs.

(** What the code does instead: nothing touches the network unless the
    exclusive lock is held. *)
Definition network_locked (evs : trace) : bool :=
  lock_discipline (fun held e => held || negb (is_network e)) false evs.

(** Writes to the role. *)
Definition is_role_store (e : event) : bool :=
  match e with EvStoreRole _ => true | _ => false end.

(** Every write to the role happens with the exclusive lock held. *)
Definition role_writes_locked (evs : trace) : bool :=
  lock_discipline (fun held e => held || negb (is_role_store e)) false evs.

(** A write to the role writes one of its two values. *)
Definition role_store_ok (e : event) : Prop :=
  forall r, e = EvStoreRole r -> r = "master" \/ r = "slave".

(** The role is one of its two values. *)
Definition role_ok (c : MasterSlave.MasterSlaveConnection) : Prop :=
  MasterSlave.role c = "master" \/ MasterSlave.role c = "slave".

(** ** Operations and reachable states *)

(** The operations of a manager.  (The remaining accessors, [BeginTx],
    [GetPool], [Stats] and the like, read [masterConn] under the read lock as
    [Ping] does.) *)
Inductive op : Type :=
| OpConnect (ctx : context)
| OpClose
| OpPing (ctx : context)
| OpIsHealthy (ctx : context)
| OpGetMasterClient
| OpGetSlaveClient
| OpHasSlaveConnected
| OpIsMaster
| OpIsSlave
| OpTick.               (* the health-check goroutine takes a tick *)

(** Running an operation, its result dropped. *)
Definition exec (env : Env) (o : op)
    : M MasterSlave.MasterSlaveConnection unit :=
  match o with
  | OpConnect ctx => _ <- MasterSlave.Connect env ctx ;; ret tt
  | OpClose => _ <- MasterSlave.Close env ;; ret tt
  | OpPing ctx => _ <- MasterSlave.Ping env ctx ;; ret tt
  | OpIsHealthy ctx => _ <- MasterSlave.IsHealthy env ctx ;; ret tt
  | OpGetMasterClient => _ <- MasterSlave.GetMasterClient ;; ret tt
  | OpGetSlaveClient => _ <- MasterSlave.GetSlaveClient ;; ret tt
  | OpHasSlaveConnected => _ <- MasterSlave.HasSlaveConnected ;; ret tt
  | OpIsMaster => _ <- MasterSlave.IsMaster ;; ret tt
  | OpIsSlave => _ <- MasterSlave.IsSlave ;; ret tt
  | OpTick => _ <- MasterSlave.healthLoopIteration env MasterSlave.TickCase ;; ret tt
  end.

(** A tick needs the goroutine, which [startHealthCheck] starts. *)
Definition enabled (o : op) (c : MasterSlave.MasterSlaveConnection) : Prop :=
  match o with
  | OpTick => MasterSlave.healthTicker c <> None
  | _ => True
  end.

(** The methods hold the mutex from their first to their last action (only
    [Connect] takes no lock), so the runs of a manager shared by several
    goroutines are sequences of whole operations. *)
Inductive reachable (env : Env) (cfg : MasterSlaveConfig)
    : MasterSlave.MasterSlaveConnection -> trace -> Prop :=
| reach_new :
    reachable env cfg (MasterSlave.NewMasterSlaveConnection cfg) []
| reach_step o c tr r c' tr' :
    reachable env cfg c tr ->
    enabled o c ->
    exec env o c tr = (r, c', tr') ->
    reachable env cfg c' tr'.

(** ** The reconnect routines *)

(** Events of the builds that a reconnect loop tries from time [t0] on,
    with the sleeps and the log lines in between. *)
Definition retry_event (t0 : nat) (e : event) : Prop :=
  match e with
  | EvSleep _ | EvPrintln _ => True
  | _ => build_event t0 e
  end.

(** One side of the manager: [body] is the body of its reconnect loop,
    [finish] what a success leaves in the manager, [closing] what closing
    the old handle logs, [installed] what is logged from the store on.  One
    turn of the loop either fails and goes on, or panics, or succeeds: then
    the old handle is closed right before the new one is stored. *)
Definition turn_spec (t0 : nat)
    (body : M MasterSlave.MasterSlaveConnection (ctl unit unit))
    (finish : Pgx.Connection -> MasterSlave.MasterSlaveConnection ->
              MasterSlave.MasterSlaveConnection)
    (closing : MasterSlave.MasterSlaveConnection -> nat -> trace)
    (installed : Pgx.Connection -> trace) : Prop :=
  forall c tr, t0 <= List.length tr ->
    exists pre, Forall (retry_event t0) pre /\
      (body c tr = (Ok (Next tt), c, tr ++ pre) \/
       (exists msg, body c tr = (Panic msg, c, tr ++ pre)) \/
       (exists new,
          body c tr =
            (Ok (Return tt), finish new c,
             tr ++ pre ++ closing c (List.length (tr ++ pre)) ++ installed new))).

(** The two sides of the manager. *)
Inductive side : Type := MasterSide | SlaveSide.

(** The reconnect routine, the slot and the store event of a side. *)
Definition attemptReconnect (env : Env) (ctx : context) (sd : side)
    : M MasterSlave.MasterSlaveConnection unit :=
  match sd with
  | MasterSide => MasterSlave.attemptMasterReconnect env ctx
  | SlaveSide => MasterSlave.attemptSlaveReconnect env ctx
  end.

Definition slot_of (sd : side) (c : MasterSlave.MasterSlaveConnection)
    : option Pgx.Connection :=
  match sd with
  | MasterSide => MasterSlave.masterConn c
  | SlaveSide => MasterSlave.slaveConn c
  end.

Definition store_event (sd : side) (v : option Pgx.Connection) : event :=
  match sd with
  | MasterSide => EvStoreMaster v
  | SlaveSide => EvStoreSlave v
  end.

(** What a successful reconnect logs after the store. *)
Definition after_store (sd : side) : trace :=
  match sd with
  | MasterSide =>
    [EvStoreRole "master"; EvPrintln "Successfully reconnected to master"]
  | SlaveSide => [EvPrintln "Successfully reconnected to slave"]
  end.

Definition failure_line (sd : side) : event :=
  match sd with
  | MasterSide =>
    EvPrintln "Failed to reconnect to master after multiple attempts"
  | SlaveSide =>
    EvPrintln "Failed to reconnect to slave after multiple attempts"
  end.

(** The manager after a successful reconnect of side [sd] with [new]. *)
Definition reconnected (sd : side) (new : Pgx.Connection)
    (c : MasterSlave.MasterSlaveConnection) : MasterSlave.MasterSlaveConnection :=
  match sd with
  | MasterSide =>
    MasterSlave.set_role "master" (MasterSlave.set_masterConn (Some new) c)
  | SlaveSide => MasterSlave.set_slaveConn (Some new) c
  end.

(** The events of [Close] on the handle in the slot, if there is one. *)
Definition old_close_events (env : Env) (sd : side)
    (c : MasterSlave.MasterSlaveConnection) (t : nat) : trace :=
  match slot_of sd c with
  | Some old => close_events env t old
  | None => []
  end.

Definition closes_handle_of (old : Pgx.Connection) (e : event) : Prop :=
  match e with
  | EvPoolClose p => Pgx.pool old = Some p
  | EvConnClose q _ => Pgx.conn old = Some q
  | _ => False
  end.

Definition is_store (e : event) : Prop :=
  match e with
  | EvStoreMaster _ | EvStoreSlave _ | EvStoreRole _ => True
  | _ => False
  end.

(** The handles of [old] were made before time [t]. *)
Definition created_before (t : nat) (old : Pgx.Connection) : Prop :=
  (forall p, Pgx.pool old = Some p -> p < t) /\
  (forall q, Pgx.conn old = Some q -> q < t).

(** How often the pool [p] is closed in a trace. *)
Definition pool_closes (p : handle) (evs : trace) : nat :=
  List.length
    (filter (fun e => match e with EvPoolClose p' => Nat.eqb p' p | _ => false end)
       evs).

(** How often the direct connection [q] is closed in a trace. *)
Definition conn_closes (q : handle) (evs : trace) : nat :=
  List.length
    (filter (fun e => match e with EvConnClose q' _ => Nat.eqb q' q | _ => false end)
       evs).

Definition same_handle (x : option handle) (h : handle) : bool :=
  match x with
  | Some h' => Nat.eqb h' h
  | None => false
  end.

(** C4 as the specification has it: a handle of [old] is closed only once a
    new handle has been stored in a slot. *)
Fixpoint closed_only_after_install (old : Pgx.Connection) (installed : bool)
    (evs : trace) : bool :=
  match evs with
  | [] => true
  | EvStoreMaster (Some _) :: rest | EvStoreSlave (Some _) :: rest =>
    closed_only_after_install old true rest
  | EvPoolClose p :: rest =>
    (installed || negb (same_handle (Pgx.pool old) p))
    && closed_only_after_install old installed rest
  | EvConnClose q _ :: rest =>
    (installed || negb (same_handle (Pgx.conn old) q))
    && closed_only_after_install old installed rest
  | _ :: rest => closed_only_after_install old installed rest
  end.

(** ** Samples *)

(** Sample configurations and environments, used to run the model. *)
Module Sample.

Local Open Scope Z_scope.

(** A valid endpoint configuration with two retries, 10ns apart. *)
Definition endpoint : Config := {|
  Host := "db"; Port := 5432; User := "app"; Password := "";
  Database := "main"; SSLMode := "disable";
  MaxOpenConns := 4; MaxIdleConns := 1;
  ConnMaxLifetime := 0; ConnMaxIdleTime := 0;
  ConnectTimeout := 7; QueryTimeout := 9;
  MaxRetries := 2; RetryInterval := 10
|}.

Definition gorm_endpoint : GormConfig := {|
  Base := endpoint; LogLevel := 1; SlowThreshold := 200;
  SkipDefaultTransaction := false; PrepareStmt := true;
  DisableForeignKeyConstraintWhenMigrating := false
|}.

(** The same endpoint with a negative retry count. *)
Definition no_attempt_endpoint : Config := {|
  Host := "db"; Port := 5432; User := "app"; Password := "";
  Database := "main"; SSLMode := "disable";
  MaxOpenConns := 4; MaxIdleConns := 1;
  ConnMaxLifetime := 0; ConnMaxIdleTime := 0;
  ConnectTimeout := 7; QueryTimeout := 9;
  MaxRetries := -1; RetryInterval := 10
|}.

(** The replica: same settings, other host. *)
Definition replica_endpoint : Config := {|
  Host := "replica"; Port := 5432; User := "app"; Password := "";
  Database := "main"; SSLMode := "disable";
  MaxOpenConns := 4; MaxIdleConns := 1;
  ConnMaxLifetime := 0; ConnMaxIdleTime := 0;
  ConnectTimeout := 7; QueryTimeout := 9;
  MaxRetries := 2; RetryInterval := 10
|}.

(** Primary and replica, failover and health check on. *)
Definition cluster : MasterSlaveConfig := {|
  Master := Some endpoint;
  Slave := Some replica_endpoint;
  UseSlaveConnection := true;
  SlaveReadOnly := true;
  AutoFailover := true;
  FailoverRetries := 3;
  FailoverInterval := 5;
  HealthCheckEnabled := true;
  HealthCheckInterval := 30
|}.

(** The same with the replica's configuration left out. *)
Definition cluster_without_slave_config : MasterSlaveConfig := {|
  Master := Some endpoint;
  Slave := None;
  UseSlaveConnection := true;
  SlaveReadOnly := true;
  AutoFailover := true;
  FailoverRetries := 3;
  FailoverInterval := 5;
  HealthCheckEnabled := true;
  HealthCheckInterval := 30
|}.

Definition refused : error := externalError 111.

(** Nothing answers: every attempt fails, every ping fails, no context is
    ever cancelled. *)
Definition unreachable : Env := {|
  dial := fun _ _ _ => PoolPingFails refused;
  gorm_open := fun _ _ _ => PingFails refused;
  db_DB := fun _ _ => None;
  pool_ping := fun _ _ _ => Some refused;
  conn_close := fun _ _ => None;
  sql_close := fun _ _ => None;
  ctx_done := fun _ _ => None
|}.

(** Everything answers. *)
Definition reachable : Env := {|
  dial := fun _ _ _ => Established;
  gorm_open := fun _ _ _ => Opened;
  db_DB := fun _ _ => None;
  pool_ping := fun _ _ _ => None;
  conn_close := fun _ _ => None;
  sql_close := fun _ _ => None;
  ctx_done := fun _ _ => None
|}.

End Sample.

(** Sample states of the manager. *)
Module SampleManager.

Import Pgx MasterSlave.

(** The manager of [Sample.cluster] after a [Connect] that went through at
    once on both sides, health check started. *)
Definition connected : MasterSlaveConnection := {|
  config := Sample.cluster;
  masterConn := Some (mkConnection (Some 1) (Some 1) (Some Sample.endpoint));
  slaveConn :=
    Some (mkConnection (Some 3) (Some 3) (Some Sample.replica_endpoint));
  role := "master";
  healthTicker := Some 30%Z;
  stopChan := ChanOpen
|}.

(** The same in the degraded state. *)
Definition degraded : MasterSlaveConnection := set_role "slave" connected.

(** The primary's pool (handle 1) does not answer pings, the replica's does;
    new connections to either side get through. *)
Definition primary_pool_down : Env := {|
  dial := fun _ _ _ => Established;
  gorm_open := fun _ _ _ => Opened;
  db_DB := fun _ _ => None;
  pool_ping := fun _ _ p => if Nat.eqb p 1 then Some Sample.refused else None;
  conn_close := fun _ _ => None;
  sql_close := fun _ _ => None;
  ctx_done := fun _ _ => None
|}.

(** No pool answers pings; new connections get through. *)
Definition pools_down : Env := {|
  dial := fun _ _ _ => Established;
  gorm_open := fun _ _ _ => Opened;
  db_DB := fun _ _ => None;
  pool_ping := fun _ _ _ => Some Sample.refused;
  conn_close := fun _ _ => None;
  sql_close := fun _ _ => None;
  ctx_done := fun _ _ => None
|}.

(** The primary answers, the replica's host refuses connections. *)
Definition replica_unreachable : Env := {|
  dial := fun _ _ cfg =>
    if String.eqb (Host cfg) "replica" then PoolFails Sample.refused
    else Established;
  gorm_open := fun _ _ _ => Opened;
  db_DB := fun _ _ => None;
  pool_ping := fun _ _ _ => None;
  conn_close := fun _ _ => None;
  sql_close := fun _ _ => None;
  ctx_done := fun _ _ => None
|}.


End SampleManager.

(** The trace of the [Connect] that leads to [SampleManager.connected]. *)
Definition connected_trace : trace :=
  Eval vm_compute in
    snd (MasterSlave.Connect Sample.reachable (CallerCtx 0)
           (MasterSlave.NewMasterSlaveConnection Sample.cluster) []).

(** A run: [Connect] goes through, then a tick finds the primary's pool
    down and the replica's up. *)
Definition sample_run : trace :=
  Eval vm_compute in
    snd (exec SampleManager.primary_pool_down OpTick SampleManager.connected
           (snd (exec SampleManager.primary_pool_down (OpConnect (CallerCtx 0))
                   (MasterSlave.NewMasterSlaveConnection Sample.cluster) []))).

(** The trace of the sample run up to the slave's failure. *)
Definition slave_failure_tr1 : trace :=
  Eval vm_compute in
    snd (PgxConnection.Connect SampleManager.replica_unreachable (CallerCtx 0)
           (Pgx.NewConnection (Some Sample.endpoint))
           [EvStoreMaster (Some (Pgx.NewConnection (Some Sample.endpoint)))]).

Definition slave_failure_tr2 : trace :=
  Eval vm_compute in
    snd (PgxConnection.Connect SampleManager.replica_unreachable (CallerCtx 0)
           (Pgx.NewConnection (Some Sample.replica_endpoint))
           (slave_failure_tr1 ++
            [EvStoreSlave
               (Some (Pgx.NewConnection (Some Sample.replica_endpoint)))])).

(** ** Further vocabulary: configurations *)

(** What [Validate] asks of an endpoint configuration. *)
Definition valid_endpoint (c : Config) : Prop :=
  Host c <> "" /\
  (1 <= Port c <= 65535)%Z /\
  User c <> "" /\
  Database c <> "" /\
  (0 < MaxOpenConns c)%Z /\
  (0 <= MaxIdleConns c <= MaxOpenConns c)%Z.

(** Two manager configurations with the same endpoints and the same
    [UseSlaveConnection]; the failover and health-check settings may
    differ, and so may the slave configuration when it is not used. *)
Definition same_endpoints (c c' : MasterSlaveConfig) : Prop :=
  Master c = Master c' /\
  UseSlaveConnection c = UseSlaveConnection c' /\
  (UseSlaveConnection c = true -> Slave c = Slave c').

(** ** Further vocabulary: the read-only methods of the manager *)

Inductive accessor : Type :=
| APing (ctx : context)
| AIsHealthy (ctx : context)
| AGetMasterClient
| AGetSlaveClient
| AHasSlaveConnected
| AIsMaster
| AIsSlave
| AGetPool
| AGetConn
| AGetMasterPool
| AGetSlavePool.

(** Running a read-only method, its result dropped. *)
Definition run_accessor (env : Env) (a : accessor)
    : M MasterSlave.MasterSlaveConnection unit :=
  match a with
  | APing ctx => _ <- MasterSlave.Ping env ctx ;; ret tt
  | AIsHealthy ctx => _ <- MasterSlave.IsHealthy env ctx ;; ret tt
  | AGetMasterClient => _ <- MasterSlave.GetMasterClient ;; ret tt
  | AGetSlaveClient => _ <- MasterSlave.GetSlaveClient ;; ret tt
  | AHasSlaveConnected => _ <- MasterSlave.HasSlaveConnected ;; ret tt
  | AIsMaster => _ <- MasterSlave.IsMaster ;; ret tt
  | AIsSlave => _ <- MasterSlave.IsSlave ;; ret tt
  | AGetPool => _ <- MasterSlave.GetPool ;; ret tt
  | AGetConn => _ <- MasterSlave.GetConn ;; ret tt
  | AGetMasterPool => _ <- MasterSlave.GetMasterPool ;; ret tt
  | AGetSlavePool => _ <- MasterSlave.GetSlavePool ;; ret tt
  end.

(** What [Ping] of the manager returns at time [t]. *)
Definition ping_result (env : Env) (ctx : context)
    (x : option Pgx.Connection) (t : nat) : option error :=
  match x with
  | None => Some (errorString "master connection not established")
  | Some {| Pgx.pool := None |} => Some (errorString "database not connected")
  | Some {| Pgx.pool := Some p |} => pool_ping env t ctx p
  end.

(** The primary is connected and answers its probes from time [t] on. *)
Definition master_up (env : Env) (t : nat)
    (c : MasterSlave.MasterSlaveConnection) : Prop :=
  exists cn p, MasterSlave.masterConn c = Some cn /\ Pgx.pool cn = Some p /\
    forall t' ctx, t <= t' -> pool_ping env t' ctx p = None.

(** ** Further vocabulary: runs of [Connect] *)

(** A linear backoff that ends well: attempts that fail with [errs], each
    followed by its wait, and a last attempt that gets through. *)
Fixpoint backoff_then_success (interval : Duration) (k0 : Z) (errs : list error)
    : list step :=
  match errs with
  | [] => [SAttempt None]
  | e :: rest =>
    SAttempt (Some e) :: SWait (dur_mul interval k0)
      :: backoff_then_success interval (k0 + 1)%Z rest
  end.

(** The waits of a schedule, added up. *)
Definition total_wait (st : list step) : Z :=
  fold_right (fun s acc => match s with SWait d => (d + acc)%Z | _ => acc end)
    0%Z st.

(** The events of a retry loop whose attempts start at times from [t0] up to
    but not including [t1]: the waits of the loop, and events [e] with
    [P t e] for the starting time [t] of an attempt. *)
Definition attempt_event_within (P : nat -> event -> Prop) (t0 t1 : nat)
    (e : event) : Prop :=
  match e with
  | EvTimer _ | EvCtxDone _ _ => True
  | _ => exists t, t0 <= t < t1 /\ P t e
  end.

(** The events of one call of the pgx [connectWithTimeout] started at time
    [t] on a connection with configuration [cfg] and context [ctx]: the
    attempt itself, and the closing of the pool and of the direct connection
    that this attempt made. *)
Definition pgx_attempt_event (ctx : context) (cfg : Config) (t : nat)
    (e : event) : Prop :=
  match e with
  | EvAttempt ctx' cfg' _ =>
    ctx' = WithTimeout ctx (ConnectTimeout cfg) /\ cfg' = cfg
  | EvPoolClose p => p = t
  | EvConnClose q _ => q = t
  | _ => False
  end.

(** Likewise for the gorm [connectWithTimeout]. *)
Definition gorm_attempt_event (ctx : context) (gcfg : GormConfig) (t : nat)
    (e : event) : Prop :=
  match e with
  | EvAttempt ctx' cfg' _ =>
    ctx' = WithTimeout ctx (ConnectTimeout (Base gcfg)) /\ cfg' = Base gcfg
  | EvSqlClose h _ => h = t
  | _ => False
  end.

(** How far one call of the pgx [connectWithTimeout] got: whether
    [pgxpool.NewWithConfig] returned a pool, and whether [pgx.Connect]
    returned a direct connection. *)
Definition pool_opened (o : dial_outcome) : bool :=
  match o with
  | ParseFails _ | PoolFails _ => false
  | PoolPingFails _ | DirectFails _ | DirectPingFails _ | Established => true
  end.

Definition conn_opened (o : dial_outcome) : bool :=
  match o with
  | DirectPingFails _ | Established => true
  | _ => false
  end.

(** What one call of the pgx [connectWithTimeout] started at time [t]
    returns: on success the pool and the direct connection made at [t],
    after a single attempt event; on failure no handle at all. *)
Definition pgx_attempt_result (env : Env) (ctx : context) (cfg : Config)
    (t : nat) (v : option handle * option handle) (e : option error)
    (evs : trace) : Prop :=
  let ctx' := WithTimeout ctx (ConnectTimeout cfg) in
  match e with
  | None =>
    v = (Some t, Some t) /\ evs = [EvAttempt ctx' cfg None] /\
    dial env t ctx' cfg = Established
  | Some _ => v = (None, None) /\ dial env t ctx' cfg <> Established
  end.

(** Likewise for the gorm [connectWithTimeout]. *)
Definition gorm_attempt_result (env : Env) (ctx : context) (gcfg : GormConfig)
    (t : nat) (v : option handle) (e : option error) (evs : trace) : Prop :=
  let ctx' := WithTimeout ctx (ConnectTimeout (Base gcfg)) in
  match e with
  | None =>
    v = Some t /\ evs = [EvAttempt ctx' (Base gcfg) None] /\
    gorm_open env t ctx' gcfg = Opened
  | Some _ => v = None /\ gorm_open env t ctx' gcfg <> Opened
  end.

(** How a [Connect] that returned the error [e] failed: all [n + 1]
    attempts failed, with the waits of the linear backoff in between, and [e]
    wraps the last attempt's error; or the context was done during a wait
    and [e] is its error. *)
Definition connect_failure (env : Env) (ctx : context) (interval : Duration)
    (n : Z) (evs : trace) (e : error) : Prop :=
  (exists errs err,
     Z.of_nat (List.length errs) = n /\
     schedule evs = linear_backoff interval 1%Z (errs ++ [err]) /\
     e = wrapRetries n err)
  \/
  (exists errs e0 t,
     (Z.of_nat (List.length errs) < n)%Z /\
     schedule evs = linear_backoff interval 1%Z (errs ++ [e0]) ++ [SCancel e] /\
     ctx_done env t ctx = Some e).

(** More sample environments. *)
Module MoreSamples.

(** The first connection attempt (at time 0) is refused when the pool is
    pinged; later ones get through. *)
Definition flaky : Env := {|
  dial := fun t _ _ =>
    if Nat.eqb t 0 then PoolPingFails Sample.refused else Established;
  gorm_open := fun t _ _ =>
    if Nat.eqb t 0 then PingFails Sample.refused else Opened;
  db_DB := fun _ _ => None;
  pool_ping := fun _ _ _ => None;
  conn_close := fun _ _ => None;
  sql_close := fun _ _ => None;
  ctx_done := fun _ _ => None
|}.

(** A primary alone: no slave connection is wanted, and the slave's
    configuration is left out. *)
Definition master_only : MasterSlaveConfig := {|
  Master := Some Sample.endpoint;
  Slave := None;
  UseSlaveConnection := false;
  SlaveReadOnly := true;
  AutoFailover := true;
  FailoverRetries := 3%Z;
  FailoverInterval := 5%Z;
  HealthCheckEnabled := true;
  HealthCheckInterval := 30%Z
|}.

(** [Sample.cluster] with a health-check interval of zero. *)
Definition cluster_zero_interval : MasterSlaveConfig := {|
  Master := Some Sample.endpoint;
  Slave := Some Sample.replica_endpoint;
  UseSlaveConnection := true;
  SlaveReadOnly := true;
  AutoFailover := true;
  FailoverRetries := 3%Z;
  FailoverInterval := 5%Z;
  HealthCheckEnabled := true;
  HealthCheckInterval := 0%Z
|}.

End MoreSamples.

(** How often the [sql.DB] with handle [h] is closed in a trace. *)
Definition sql_closes (h : handle) (evs : trace) : nat :=
  List.length
    (filter (fun e => match e with EvSqlClose h' _ => Nat.eqb h' h | _ => false end)
       evs).

(** [db.DB()] fails after the loop, once: the call that follows the first
    attempt. *)
Module GormSamples.

Definition refused_DB : Env := {|
  dial := fun _ _ _ => Established;
  gorm_open := fun _ _ _ => Opened;
  db_DB := fun _ _ => Some Sample.refused;
  pool_ping := fun _ _ _ => None;
  conn_close := fun _ _ => None;
  sql_close := fun _ _ => None;
  ctx_done := fun _ _ => None
|}.

(** [gorm.Open] itself is refused, every time. *)
Definition open_refused : Env := {|
  dial := fun _ _ _ => PoolPingFails Sample.refused;
  gorm_open := fun _ _ _ => OpenFails Sample.refused;
  db_DB := fun _ _ => None;
  pool_ping := fun _ _ _ => Some Sample.refused;
  conn_close := fun _ _ => None;
  sql_close := fun _ _ => None;
  ctx_done := fun _ _ => None
|}.

(** [Sample.gorm_endpoint] with gorm's log level [Info]. *)
Definition verbose : GormConfig := {|
  Base := Sample.endpoint; LogLevel := 4%Z; SlowThreshold := 200%Z;
  SkipDefaultTransaction := false; PrepareStmt := true;
  DisableForeignKeyConstraintWhenMigrating := false
|}.

End GormSamples.

(** ** Further vocabulary: what a tick can change *)

(** The endpoint configuration of a side. *)
Definition side_config (sd : side) (cfg : MasterSlaveConfig) : option Config :=
  match sd with
  | MasterSide => Master cfg
  | SlaveSide => Slave cfg
  end.

(** The manager [c] after a tick: unchanged; or in the slave role; or with a
    new slave handle in a slot that was not nil; or with a new master handle
    and the master role; or both. *)
Inductive tick_outcome (c : MasterSlave.MasterSlaveConnection)
    : MasterSlave.MasterSlaveConnection -> Prop :=
| tick_unchanged :
    tick_outcome c c
| tick_demoted :
    AutoFailover (MasterSlave.config c) = true ->
    MasterSlave.slaveConn c <> None ->
    tick_outcome c (MasterSlave.set_role "slave" c)
| tick_slave_reconnected new :
    MasterSlave.slaveConn c <> None ->
    tick_outcome c (reconnected SlaveSide new c)
| tick_master_reconnected new :
    tick_outcome c (reconnected MasterSide new c)
| tick_both_reconnected new new' :
    MasterSlave.slaveConn c <> None ->
    tick_outcome c (reconnected SlaveSide new' (reconnected MasterSide new c)).

(** ** Further vocabulary: the steps of the manager's [Connect] *)

(** The master's [Connect], as the manager's [Connect] started at [tr] runs
    it: on a new connection, right after that connection was stored in the
    master slot. *)
Definition master_attempt (env : Env) (ctx : context)
    (c : MasterSlave.MasterSlaveConnection) (tr : trace)
    : result (option error) * Pgx.Connection * trace :=
  let nm := Pgx.NewConnection (Master (MasterSlave.config c)) in
  PgxConnection.Connect env ctx nm (tr ++ [EvStoreMaster (Some nm)]).

(** The slave's [Connect], run once the master's has left the trace [tr1]. *)
Definition slave_attempt (env : Env) (ctx : context)
    (c : MasterSlave.MasterSlaveConnection) (tr1 : trace)
    : result (option error) * Pgx.Connection * trace :=
  let ns := Pgx.NewConnection (Slave (MasterSlave.config c)) in
  PgxConnection.Connect env ctx ns (tr1 ++ [EvStoreSlave (Some ns)]).

(** The end of a [Connect] whose connections are made: the health checker
    is started if it is enabled, and [time.NewTicker] panics when the
    interval is not positive. *)
Definition start_result (c : MasterSlave.MasterSlaveConnection) (tr : trace)
    : result (option error) * MasterSlave.MasterSlaveConnection * trace :=
  let d := HealthCheckInterval (MasterSlave.config c) in
  if HealthCheckEnabled (MasterSlave.config c) then
    if (d <=? 0)%Z then (Panic "non-positive interval for NewTicker", c, tr)
    else (Ok None, MasterSlave.set_healthTicker (Some d) c,
          tr ++ [EvNewTicker d; EvGo])
  else (Ok None, c, tr).

(** What holds of a manager made with configuration [cfg], whatever has
    been done with it: the configuration stays; the health checker runs, and
    the slave slot is filled, only if the configuration was accepted, and
    the slave slot only if a slave connection is wanted. *)
Definition manager_inv (cfg : MasterSlaveConfig)
    (c : MasterSlave.MasterSlaveConnection) : Prop :=
  MasterSlave.config c = cfg /\
  (MasterSlave.healthTicker c <> None -> ValidateMasterSlave cfg = None) /\
  (MasterSlave.slaveConn c <> None ->
   ValidateMasterSlave cfg = None /\ UseSlaveConnection cfg = true).

(** Events of a [Connect] that deals with the master alone: every attempt is
    made with the master's configuration and nothing is stored in the slave
    slot. *)
Definition master_only_event (cfg : MasterSlaveConfig) (e : event) : Prop :=
  match e with
  | EvAttempt _ m _ => Master cfg = Some m
  | EvStoreSlave _ => False
  | _ => True
  end.

(** ** Further vocabulary: the mutex along a run *)

(** [c.mu] as one goroutine after the other sees it: not held, held by a
    reader, held by the writer. *)
Inductive lock_state : Type := Unheld | ReadHeld | WriteHeld.

(** A lock is taken only when none is held ([sync.RWMutex] is not
    reentrant: a method that locked twice would wait for itself), and
    released only by the unlock that matches it (anything else is a fatal
    error of the runtime). *)
Definition lock_step (st : lock_state) (e : event) : option lock_state :=
  match e with
  | EvLock => match st with Unheld => Some WriteHeld | _ => None end
  | EvUnlock => match st with WriteHeld => Some Unheld | _ => None end
  | EvRLock => match st with Unheld => Some ReadHeld | _ => None end
  | EvRUnlock => match st with ReadHeld => Some Unheld | _ => None end
  | _ => Some st
  end.

(** The state of the mutex after a trace; [None] when the trace misuses
    it. *)
Fixpoint lock_run (st : lock_state) (evs : trace) : option lock_state :=
  match evs with
  | [] => Some st
  | e :: rest =>
    match lock_step st e with
    | Some st' => lock_run st' rest
    | None => None
    end
  end.

(** A run that ends in a panic: [Connect], [Close], and [Close] again. *)
Definition close_twice_run : trace :=
  Eval vm_compute in
    snd (exec Sample.reachable OpClose (closed SampleManager.connected)
           (snd (exec Sample.reachable OpClose SampleManager.connected
                   connected_trace))).

(** ** Further vocabulary: handles along a run *)

(** [handles_ok seen evs]: after the events [seen], the events [evs] close
    no pool and no direct connection that was closed before, and ping no
    pool that was closed before. *)
Fixpoint handles_ok (seen evs : trace) : bool :=
  match evs with
  | [] => true
  | e :: rest =>
    match e with
    | EvPoolPing _ p _ | EvPoolClose p => Nat.eqb (pool_closes p seen) 0
    | EvConnClose q _ => Nat.eqb (conn_closes q seen) 0
    | _ => true
    end && handles_ok (seen ++ [e]) rest
  end.

Definition is_ping (e : event) : Prop :=
  match e with EvPoolPing _ _ _ => True | _ => False end.

Definition is_close (e : event) : Prop :=
  match e with EvPoolClose _ | EvConnClose _ _ => True | _ => False end.

(** The handles of [cn] were made at times from [t0] up to but not
    including [t1]. *)
Definition made_within (t0 t1 : nat) (cn : Pgx.Connection) : Prop :=
  (forall p, Pgx.pool cn = Some p -> t0 <= p < t1) /\
  (forall q, Pgx.conn cn = Some q -> t0 <= q < t1).

(** No handle of [cn] is closed in [tr]. *)
Definition unclosed (tr : trace) (cn : Pgx.Connection) : Prop :=
  (forall p, Pgx.pool cn = Some p -> pool_closes p tr = 0) /\
  (forall q, Pgx.conn cn = Some q -> conn_closes q tr = 0).

(** What a slot holds after the run [tr]: nothing, or a connection whose
    handles were made during the run and are still open. *)
Definition slot_open (tr : trace) (x : option Pgx.Connection) : Prop :=
  forall cn, x = Some cn -> made_within 0 (List.length tr) cn /\ unclosed tr cn.

(** Two slots share no handle. *)
Definition apart (x y : option Pgx.Connection) : Prop :=
  forall a b, x = Some a -> y = Some b ->
    (forall p, Pgx.pool a = Some p -> Pgx.pool b <> Some p) /\
    (forall q, Pgx.conn a = Some q -> Pgx.conn b <> Some q).

(** Every handle is closed at most once, and none is closed before it is
    made. *)
Definition closes_once (tr : trace) : Prop :=
  forall h, pool_closes h tr <= 1 /\ conn_closes h tr <= 1.

Definition no_later_close (tr : trace) : Prop :=
  forall h, List.length tr <= h -> pool_closes h tr = 0 /\ conn_closes h tr = 0.

Definition slots_inv (m s : option Pgx.Connection) (tr : trace) : Prop :=
  closes_once tr /\ no_later_close tr /\
  slot_open tr m /\ slot_open tr s /\ apart m s.

Definition handles_inv (c : MasterSlave.MasterSlaveConnection) (tr : trace)
    : Prop :=
  slots_inv (MasterSlave.masterConn c) (MasterSlave.slaveConn c) tr.

(** The closes of a piece of trace that starts at time [t]: only of handles
    made in that piece, each at most once. *)
Definition fresh_closes (t : nat) (evs : trace) : Prop :=
  forall h,
    pool_closes h evs <= 1 /\ conn_closes h evs <= 1 /\
    (h < t \/ t + List.length evs <= h ->
     pool_closes h evs = 0 /\ conn_closes h evs = 0).
(** A method of the manager keeps the invariant on the handles, and pings
    nothing. *)
Definition keeps_handles {A} (m : M MasterSlave.MasterSlaveConnection A)
    : Prop :=
  forall c tr, handles_inv c tr ->
    exists r c' evs,
      m c tr = (r, c', tr ++ evs) /\
      Forall (fun e => ~ is_ping e) evs /\
      handles_inv c' (tr ++ evs).

(** A ping of a pool that is open after [tr], or an event that is neither a
    ping nor a close. *)
Definition open_ping (tr : trace) (e : event) : Prop :=
  ~ is_close e /\
  forall ctx p r, e = EvPoolPing ctx p r -> pool_closes p tr = 0.
(** A run with a reconnect: [Connect], then a tick that finds both pools
    down and replaces both connections, then [Ping].  The manager at its
    end, and its trace. *)
Definition reconnect_run : MasterSlave.MasterSlaveConnection * trace :=
  Eval vm_compute in
    let env := SampleManager.pools_down in
    let '(_, c1, t1) :=
      exec env (OpConnect (CallerCtx 0))
        (MasterSlave.NewMasterSlaveConnection Sample.cluster) [] in
    let '(_, c2, t2) := exec env OpTick c1 t1 in
    let '(_, c3, t3) := exec env (OpPing (CallerCtx 0)) c2 t2 in
    (c3, t3).

(** ** Further vocabulary: a manager that was closed *)

(** Sequences of whole operations that lead from one state of a manager to
    another. *)
Inductive runs (env : Env)
    : MasterSlave.MasterSlaveConnection -> trace ->
      MasterSlave.MasterSlaveConnection -> trace -> Prop :=
| runs_nil c tr : runs env c tr c tr
| runs_step o c tr c1 tr1 r c2 tr2 :
    runs env c tr c1 tr1 ->
    enabled o c1 ->
    exec env o c1 tr1 = (r, c2, tr2) ->
    runs env c tr c2 tr2.

(** The health checker was started once and stopped since: the ticker is
    set and the stop channel is closed. *)
Definition stopped (c : MasterSlave.MasterSlaveConnection) : Prop :=
  MasterSlave.healthTicker c <> None /\
  MasterSlave.stopChan c = MasterSlave.ChanClosed.

(** [Connect], [Close] and [Connect] again: the trace after the [Close],
    and the manager and the trace at the end. *)
Definition reuse_run
    : trace * (MasterSlave.MasterSlaveConnection * trace) :=
  Eval vm_compute in
    let env := Sample.reachable in
    let '(_, c1, t1) :=
      MasterSlave.Close env SampleManager.connected connected_trace in
    let '(_, c2, t2) := exec env (OpConnect (CallerCtx 0)) c1 t1 in
    (t1, (c2, t2)).

(** ** Further vocabulary: what [Connect] leaves behind *)

(** A piece of trace closes no handle made before time [t]. *)
Definition closes_nothing_before (t : nat) (evs : trace) : Prop :=
  forall h, h < t -> pool_closes h evs = 0 /\ conn_closes h evs = 0.

(** * Reasoning about methods *)

(** ** Rules of the program logic *)

Section Rules.

Context {S : Type}.
Variable t0 : nat.
Variable I : S -> Prop.
Variable P : event -> Prop.

Lemma sat_ret {A} (a : A) : sat t0 (ret a) I P.
Proof.
  intros s tr _ Hs. exists (Ok a), s, []. rewrite app_nil_r. auto.
Qed.

Lemma sat_panic {A} msg : sat t0 (@panic S A msg) I P.
Proof.
  intros s tr _ Hs. exists (Panic msg), s, []. rewrite app_nil_r. auto.
Qed.

Lemma sat_get : sat t0 get I P.
Proof.
  intros s tr _ Hs. exists (Ok s), s, []. rewrite app_nil_r. auto.
Qed.

Lemma sat_gets {A} (f : S -> A) : sat t0 (gets f) I P.
Proof.
  intros s tr _ Hs. exists (Ok (f s)), s, []. rewrite app_nil_r. auto.
Qed.

Lemma sat_now : sat t0 now I P.
Proof.
  intros s tr _ Hs. exists (Ok (List.length tr)), s, [].
  rewrite app_nil_r. auto.
Qed.

Lemma sat_deref {A} (p : option A) : sat t0 (deref p) I P.
Proof.
  destruct p; [apply sat_ret | apply sat_panic].
Qed.

Lemma sat_modify (f : S -> S) :
  (forall s, I s -> I (f s)) -> sat t0 (modify f) I P.
Proof.
  intros Hf s tr _ Hs. exists (Ok tt), (f s), []. rewrite app_nil_r. auto.
Qed.

Lemma sat_emit e : P e -> sat t0 (emit e) I P.
Proof.
  intros He s tr _ Hs. exists (Ok tt), s, [e]. auto.
Qed.

Lemma sat_bind {A B} (m : M S A) (k : A -> M S B) :
  sat t0 m I P -> (forall a, sat t0 (k a) I P) -> sat t0 (bind m k) I P.
Proof.
  intros Hm Hk s tr Ht Hs. unfold bind.
  destruct (Hm s tr Ht Hs) as (r & s1 & evs1 & E1 & I1 & F1). rewrite E1.
  destruct r as [a | msg].
  - destruct (Hk a s1 (tr ++ evs1)) as (r2 & s2 & evs2 & E2 & I2 & F2);
      [rewrite length_app; lia | assumption |].
    rewrite E2. exists r2, s2, (evs1 ++ evs2).
    rewrite app_assoc. split; [reflexivity | split; [assumption |]].
    apply Forall_app; auto.
  - exists (Panic msg), s1, evs1. auto.
Qed.

Lemma sat_defer {A} (cleanup : M S unit) (body : M S A) :
  sat t0 cleanup I P -> sat t0 body I P -> sat t0 (defer cleanup body) I P.
Proof.
  intros Hc Hb s tr Ht Hs. unfold defer.
  destruct (Hb s tr Ht Hs) as (r & s1 & evs1 & E1 & I1 & F1). rewrite E1.
  destruct (Hc s1 (tr ++ evs1)) as (r2 & s2 & evs2 & E2 & I2 & F2);
    [rewrite length_app; lia | assumption |].
  rewrite E2, <- app_assoc.
  destruct r2; eexists _, s2, (evs1 ++ evs2);
    (split; [reflexivity | split; [assumption | apply Forall_app; auto]]).
Qed.

Lemma sat_call {T A} (obj : T) (m : M T A) :
  sat t0 m (fun _ => True) P -> sat t0 (call obj m) I P.
Proof.
  intros Hm s tr Ht Hs. unfold call.
  destruct (Hm obj tr Ht Logic.I) as (r & o' & evs & E & _ & F). rewrite E.
  destruct r; eexists _, s, evs; auto.
Qed.

Lemma sat_for_loop {A R} (body : Z -> A -> M S (ctl A R)) :
  (forall i a, sat t0 (body i a) I P) ->
  forall n i a, sat t0 (for_loop n i body a) I P.
Proof.
  intros Hbody. induction n as [| n IH]; intros i a; simpl.
  - apply sat_ret.
  - apply sat_bind; [apply Hbody |].
    intros [a' | a' | r]; [apply IH | apply sat_ret | apply sat_ret].
Qed.

End Rules.

Lemma sat_weaken {S A} t0 t1 (m : M S A) (I : S -> Prop) (P Q : event -> Prop) :
  t0 <= t1 -> (forall e, P e -> Q e) -> sat t0 m I P -> sat t1 m I Q.
Proof.
  intros Ht HPQ Hm s tr Hl Hs.
  destruct (Hm s tr) as (r & s' & evs & E & I' & F); [lia | assumption |].
  exists r, s', evs. repeat split; auto.
  eapply Forall_impl; eauto.
Qed.

(** Breaks a goal [sat t0 m I P] along the structure of [m]; what is left
    are the side conditions on single events and on field updates. *)
Ltac sat_step :=
  match goal with
  | |- sat _ (bind _ _) _ _ => apply sat_bind; [| intros ?]
  | |- sat _ (defer _ _) _ _ => apply sat_defer
  | |- sat _ (call _ _) _ _ => apply sat_call
  | |- sat _ (for_loop _ _ _ _) _ _ => apply sat_for_loop; intros ? ?
  | |- sat _ (emit _) _ _ => apply sat_emit
  | |- sat _ (modify _) _ _ => apply sat_modify
  | |- sat _ (ret _) _ _ => apply sat_ret
  | |- sat _ (panic _) _ _ => apply sat_panic
  | |- sat _ get _ _ => apply sat_get
  | |- sat _ (gets _) _ _ => apply sat_gets
  | |- sat _ now _ _ => apply sat_now
  | |- sat _ (deref _) _ _ => apply sat_deref
  | |- sat _ (match ?x with _ => _ end) _ _ => destruct x
  | |- sat _ (if ?x then _ else _) _ _ => destruct x
  | |- sat _ (let _ := _ in _) _ _ => cbv zeta
  end.

Ltac sat_auto := repeat sat_step.

(** ** Loops and traces *)

Lemma for_loop_S {S A R} n i (body : Z -> A -> M S (ctl A R)) a s tr :
  for_loop (Datatypes.S n) i body a s tr =
  match body i a s tr with
  | (Ok (Next a'), s', tr') => for_loop n (i + 1)%Z body a' s' tr'
  | (Ok (Break a'), s', tr') => (Ok (inl a'), s', tr')
  | (Ok (Return r), s', tr') => (Ok (inr r), s', tr')
  | (Panic msg, s', tr') => (Panic msg, s', tr')
  end.
Proof.
  simpl. unfold bind.
  destruct (body i a s tr) as [[[c | msg] s'] tr']; [destruct c |]; reflexivity.
Qed.

Lemma schedule_app a b : schedule (a ++ b) = schedule a ++ schedule b.
Proof. apply flat_map_app. Qed.

Lemma linear_backoff_cons interval k e errs e' :
  linear_backoff interval k (e :: errs ++ [e']) =
  SAttempt (Some e) :: SWait (dur_mul interval k)
    :: linear_backoff interval (k + 1)%Z (errs ++ [e']).
Proof.
  simpl. destruct (errs ++ [e']) eqn:E; [| reflexivity].
  destruct errs; discriminate.
Qed.

Lemma attempts_linear_backoff interval errs : forall k,
  List.length (filter is_attempt (linear_backoff interval k errs)) =
  List.length errs.
Proof.
  induction errs as [| e rest IH]; intros k; [reflexivity |].
  destruct rest as [| e2 rest]; [reflexivity |].
  change (linear_backoff interval k (e :: e2 :: rest))
    with (SAttempt (Some e) :: SWait (dur_mul interval k)
            :: linear_backoff interval (k + 1)%Z (e2 :: rest)).
  cbn [filter is_attempt List.length]. now rewrite IH.
Qed.

(** ** The retry loop when every attempt fails *)

Lemma selects_follow_app env ctx a : forall b t,
  selects_follow env ctx t (a ++ b) <->
  selects_follow env ctx t a /\
  selects_follow env ctx (t + List.length a) b.
Proof.
  induction a as [| e a IH]; intros b t.
  - cbn [app List.length selects_follow]. rewrite Nat.add_0_r. tauto.
  - assert (Ht : t + List.length (e :: a) = Datatypes.S t + List.length a)
      by (simpl; lia).
    rewrite Ht.
    destruct e; cbn [app selects_follow]; rewrite IH; tauto.
Qed.

(** The events of one attempt hold no [select]. *)
Lemma selects_follow_attempt env ctx evs x :
  schedule evs = [SAttempt x] -> forall t, selects_follow env ctx t evs.
Proof.
  intros Hs.
  assert (Hno : Forall (fun e => match e with
                                 | EvTimer _ | EvCtxDone _ _ => False
                                 | _ => True
                                 end) evs).
  { apply Forall_forall. intros e Hin. destruct e; try exact I.
    - assert (Hin' : In (SWait d) (schedule evs))
        by (apply in_flat_map; eexists; split; [exact Hin | simpl; auto]).
      rewrite Hs in Hin'. destruct Hin' as [Hin' | []]. discriminate.
    - assert (Hin' : In (SCancel e) (schedule evs))
        by (apply in_flat_map; eexists; split; [exact Hin | simpl; auto]).
      rewrite Hs in Hin'. destruct Hin' as [Hin' | []]. discriminate. }
  clear Hs. induction Hno as [| e evs He _ IH]; intros t; [exact I |].
  destruct e; cbn [selects_follow]; try contradiction; apply IH.
Qed.

Section RetryFacts.

Variable env : Env.
Context {S V : Type}.
Variable attempt : M S (V * option error).
Variable ctx : context.
Variable maxRetries : Z.
Variable interval : Duration.
Variable s0 : S.

(** The attempt always fails on receiver [s0], leaves it as it is, and shows
    in the trace as one attempt. *)
Hypothesis attempt_fails : forall tr, exists v e evs,
  attempt s0 tr = (Ok (v, Some e), s0, tr ++ evs) /\
  schedule evs = [SAttempt (Some e)].

Lemma retry_body_fails i a tr :
  exists v e evs, schedule evs = [SAttempt (Some e)] /\
    retry_body env attempt ctx maxRetries interval i a s0 tr =
    if (i <? maxRetries)%Z then
      match ctx_done env (List.length (tr ++ evs)) ctx with
      | Some e' =>
        (Ok (Return (Some e')), s0, (tr ++ evs) ++ [EvCtxDone ctx e'])
      | None =>
        (Ok (Next (v, Some e)), s0,
         (tr ++ evs) ++ [EvTimer (dur_mul interval (i + 1)%Z)])
      end
    else (Ok (Next (v, Some e)), s0, tr ++ evs).
Proof.
  destruct (attempt_fails tr) as (v & e & evs & E & Hs).
  exists v, e, evs. split; [assumption |].
  unfold retry_body, bind. rewrite E. cbn [snd].
  destruct (i <? maxRetries)%Z; [| reflexivity].
  unfold now. destruct (ctx_done env _ ctx); reflexivity.
Qed.

Lemma retry_loop_fails : forall m i a tr,
  (i + Z.of_nat m = maxRetries)%Z ->
  exists evs out,
    for_loop (Datatypes.S m) i (retry_body env attempt ctx maxRetries interval)
      a s0 tr = (Ok out, s0, tr ++ evs) /\
    selects_follow env ctx (List.length tr) evs /\
    ((exists errs e v,
        List.length errs = m /\
        schedule evs = linear_backoff interval (i + 1)%Z (errs ++ [e]) /\
        out = inl (v, Some e))
     \/
     (exists errs e0 e t,
        List.length errs < m /\
        schedule evs =
          linear_backoff interval (i + 1)%Z (errs ++ [e0]) ++ [SCancel e] /\
        ctx_done env t ctx = Some e /\
        out = inr (Some e))).
Proof.
  induction m as [| m IH]; intros i a tr Hi; rewrite for_loop_S;
    destruct (retry_body_fails i a tr) as (v & e & evs & Hs & E); rewrite E;
    pose proof (selects_follow_attempt env ctx evs _ Hs (List.length tr)) as Hsel.
  - replace (i <? maxRetries)%Z with false
      by (symmetry; apply Z.ltb_ge; lia).
    exists evs, (inl (v, Some e)). split; [reflexivity |].
    split; [exact Hsel |].
    left. exists [], e, v. auto.
  - replace (i <? maxRetries)%Z with true
      by (symmetry; apply Z.ltb_lt; lia).
    destruct (ctx_done env (List.length (tr ++ evs)) ctx) as [e' |] eqn:Hd;
      rewrite length_app in Hd.
    + exists (evs ++ [EvCtxDone ctx e']), (inr (Some e')).
      rewrite app_assoc. split; [reflexivity |].
      split.
      { apply selects_follow_app. split; [exact Hsel |].
        cbn [selects_follow]. auto. }
      right. exists [], e, e', (List.length tr + List.length evs).
      rewrite schedule_app, Hs. repeat split; auto. simpl; lia.
    + destruct (IH (i + 1)%Z (v, Some e)
                  ((tr ++ evs) ++ [EvTimer (dur_mul interval (i + 1)%Z)]))
        as (evs1 & out & E1 & Hsel1 & Hout); [lia |].
      exists (evs ++ EvTimer (dur_mul interval (i + 1)%Z) :: evs1), out.
      split.
      { rewrite E1. now rewrite <- !app_assoc. }
      split.
      { apply selects_follow_app. split; [exact Hsel |].
        cbn [selects_follow]. split; [exact Hd |].
        rewrite !length_app in Hsel1. cbn [List.length] in Hsel1.
        rewrite Nat.add_1_r in Hsel1. exact Hsel1. }
      rewrite schedule_app, Hs. cbn [app schedule flat_map step_of].
      fold (schedule evs1).
      destruct Hout as [(errs & e1 & v1 & Hl & Hs1 & Ho)
                       | (errs & e0 & e1 & t & Hl & Hs1 & Hc & Ho)].
      * left. exists (e :: errs), e1, v1.
        rewrite <- app_comm_cons, linear_backoff_cons, Hs1.
        repeat split; auto. simpl; lia.
      * right. exists (e :: errs), e0, e1, t.
        rewrite <- app_comm_cons, linear_backoff_cons, Hs1.
        repeat split; auto. simpl; lia.
Qed.

End RetryFacts.

Lemma retry_loop_bounded env {S V} (attempt : M S (V * option error)) ctx n
    interval (s0 : S) zero tr :
  (0 <= n)%Z ->
  (forall tr, exists v e evs,
      attempt s0 tr = (Ok (v, Some e), s0, tr ++ evs) /\
      schedule evs = [SAttempt (Some e)]) ->
  exists evs out,
    retry_loop env attempt ctx n interval zero s0 tr = (Ok out, s0, tr ++ evs) /\
    ((exists v e, out = inl (v, Some e) /\
        bounded_retry env ctx interval n (List.length tr) evs
          (Some (wrapRetries n e)))
     \/ (exists e, out = inr (Some e) /\
        bounded_retry env ctx interval n (List.length tr) evs (Some e))).
Proof.
  intros Hn Hfail. unfold retry_loop.
  replace (Z.to_nat (n + 1)) with (Datatypes.S (Z.to_nat n)) by lia.
  destruct (retry_loop_fails env attempt ctx n interval s0 Hfail
              (Z.to_nat n) 0%Z (zero, None) tr)
    as (evs & out & E & Hsel & H); [lia |].
  exists evs, out. split; [exact E |].
  destruct H as [(errs & e & v & Hl & Hs & Ho)
                | (errs & e0 & e & t & Hl & Hs & Hc & Ho)].
  - left. exists v, e. split; [exact Ho |].
    assert (Hex : retries_exhausted interval n evs (Some (wrapRetries n e))).
    { exists errs, e. repeat split; auto; [lia |].
      unfold attempts. rewrite Hs, attempts_linear_backoff, length_app.
      simpl; lia. }
    split; [auto | split; [exact Hsel | auto]].
  - right. exists e. split; [exact Ho |]. split; [| split; [exact Hsel |]].
    + right. exists errs, e0, e, t. repeat split; auto. lia.
    + intros Hnever. rewrite Hnever in Hc. discriminate.
Qed.

(** ** C3: bounded retry with linear backoff *)

Lemma pgx_attempt_fails env ctx (c : Pgx.Connection) cfg :
  Pgx.config c = Some cfg ->
  (forall t c', dial env t c' cfg <> Established) ->
  forall tr, exists v e evs,
    PgxConnection.connectWithTimeout env ctx c tr =
      (Ok (v, Some e), c, tr ++ evs) /\
    schedule evs = [SAttempt (Some e)].
Proof.
  intros Hc Hfail tr.
  unfold PgxConnection.connectWithTimeout, bind, get, deref, now.
  rewrite Hc. unfold ret.
  destruct (dial env (List.length tr) _ cfg) eqn:Hd;
    try (exfalso; eapply Hfail; eassumption);
    unfold emit, now; repeat rewrite <- app_assoc; cbn [app];
    do 3 eexists; (split; [reflexivity | reflexivity]).
Qed.

(** [Logger.Error] returns when the level is below [Error]. *)
Lemma logger_Error_quiet {S} level (s : S) tr :
  (level < 2)%Z -> GormConnection.logger_Error level s tr = (Ok tt, s, tr).
Proof.
  intros Hl. unfold GormConnection.logger_Error.
  replace (2 <=? level)%Z with false by (symmetry; apply Z.leb_gt; exact Hl).
  reflexivity.
Qed.

Lemma gorm_attempt_fails env ctx (g : GormConnection.Connection) gcfg :
  GormConnection.config g = Some gcfg ->
  open_failure_returns env gcfg ->
  (forall t c', gorm_open env t c' gcfg <> Opened) ->
  forall tr, exists v e evs,
    GormConnection.connectWithTimeout env ctx g tr =
      (Ok (v, Some e), g, tr ++ evs) /\
    schedule evs = [SAttempt (Some e)].
Proof.
  intros Hc Hq Hfail tr.
  unfold GormConnection.connectWithTimeout, bind, get, deref, now.
  rewrite Hc. unfold ret. cbv zeta.
  destruct (gorm_open env (List.length tr) _ gcfg) eqn:Hd;
    try (exfalso; eapply Hfail; eassumption).
  - destruct Hq as [Hl | Hno]; [| exfalso; eapply Hno; eassumption].
    unfold emit. unfold GormConnection.getLogger.
    rewrite (logger_Error_quiet _ _ _ Hl).
    do 3 eexists; (split; [reflexivity | reflexivity]).
  - unfold emit, now; repeat rewrite <- app_assoc; cbn [app];
      do 3 eexists; (split; [reflexivity | reflexivity]).
  - unfold emit, now; repeat rewrite <- app_assoc; cbn [app];
      do 3 eexists; (split; [reflexivity | reflexivity]).
Qed.

Example pgx_Connect_unreachable :
  let '(r, _, evs) :=
    PgxConnection.Connect Sample.unreachable (CallerCtx 0)
      (Pgx.NewConnection (Some Sample.endpoint)) [] in
  r = Ok (Some (wrapRetries 2
                  (wrapError "failed to ping pool" Sample.refused))) /\
  attempts evs = 3 /\
  schedule evs =
    [SAttempt (Some (wrapError "failed to ping pool" Sample.refused));
     SWait 10%Z;
     SAttempt (Some (wrapError "failed to ping pool" Sample.refused));
     SWait 20%Z;
     SAttempt (Some (wrapError "failed to ping pool" Sample.refused))].
Proof. vm_compute. auto. Qed.

(** [Validate] does not look at [MaxRetries].  With a negative value the
    loop body never runs: [Connect] returns nil without any attempt and
    leaves the pool nil. *)
Example pgx_Connect_negative_retries :
  PgxConnection.Connect Sample.unreachable (CallerCtx 0)
    (Pgx.NewConnection (Some Sample.no_attempt_endpoint)) [] =
  (Ok None, Pgx.NewConnection (Some Sample.no_attempt_endpoint), []).
Proof. reflexivity. Qed.

(** C3 as the specification has it fails in two places.  [Validate]
    accepts a negative [MaxRetries]: the loop body never runs, no attempt is
    made and [Connect] returns nil, not an error.  And with a log level of 2
    or more the gorm [Connect] does not get past the first attempt that
    fails in [gorm.Open]: it panics in gorm's logger, whose writer is nil,
    after one attempt instead of [n + 1 = 3], and returns nothing. *)
Lemma Connect_retry_count_fails :
  (Validate Sample.no_attempt_endpoint = None /\
   MaxRetries Sample.no_attempt_endpoint = (-1)%Z /\
   PgxConnection.Connect Sample.unreachable (CallerCtx 0)
     (Pgx.NewConnection (Some Sample.no_attempt_endpoint)) [] =
   (Ok None, Pgx.NewConnection (Some Sample.no_attempt_endpoint), []))
  /\
  (Validate (Base GormSamples.verbose) = None /\
   MaxRetries (Base GormSamples.verbose) = 2%Z /\
   GormConnection.Connect GormSamples.open_refused (CallerCtx 0)
     (GormConnection.NewConnection (Some GormSamples.verbose)) [] =
   (Panic "invalid memory address or nil pointer dereference",
    GormConnection.NewConnection (Some GormSamples.verbose),
    [EvAttempt (WithTimeout (CallerCtx 0) 7%Z) Sample.endpoint
       (Some Sample.refused)])).
Proof. repeat split; vm_compute; reflexivity. Qed.

(** C3, amended.  For a valid configuration with [MaxRetries = n >= 0]
    whose attempts all fail, the pgx [Connect] leaves the connection as it
    was and makes exactly [n + 1] attempts, waiting [RetryInterval * k]
    after the [k]-th one for [k = 1 .. n], and returns the last attempt's
    error wrapped; unless the context is done at one of the waits: then it
    returns the context's error at that wait and attempts nothing more.
    Which of the two happens is decided by the context: a wait is sat out
    only when the context is not done then.  The gorm [Connect] does the
    same whenever a failure of [gorm.Open] comes back as an error (log level
    below 2, or attempts that fail after [gorm.Open]). *)
Theorem Connect_bounded_retry (env : Env) (ctx : context) (cfg : Config)
    (gcfg : GormConfig) (c : Pgx.Connection) (g : GormConnection.Connection)
    (tr : trace) :
  Pgx.config c = Some cfg ->
  GormConnection.config g = Some gcfg ->
  Base gcfg = cfg ->
  Validate cfg = None ->
  (0 <= MaxRetries cfg)%Z ->
  (forall t c', dial env t c' cfg <> Established) ->
  (forall t c', gorm_open env t c' gcfg <> Opened) ->
  (exists evs r,
     PgxConnection.Connect env ctx c tr = (Ok r, c, tr ++ evs) /\
     bounded_retry env ctx (RetryInterval cfg) (MaxRetries cfg)
       (List.length tr) evs r)
  /\
  (open_failure_returns env gcfg ->
   exists evs r,
     GormConnection.Connect env ctx g tr = (Ok r, g, tr ++ evs) /\
     bounded_retry env ctx (RetryInterval cfg) (MaxRetries cfg)
       (List.length tr) evs r).
Proof.
  intros Hc Hg Hbase Hvalid Hn Hdial Hopen. split.
  - unfold PgxConnection.Connect, bind at 1, get. unfold bind at 1, deref.
    rewrite Hc. unfold ret at 1. rewrite Hvalid. unfold bind.
    destruct (retry_loop_bounded env (PgxConnection.connectWithTimeout env ctx)
                ctx (MaxRetries cfg) (RetryInterval cfg) c (None, None) tr Hn
                (pgx_attempt_fails env ctx c cfg Hc Hdial))
      as (evs & out & E & H).
    rewrite E. exists evs.
    destruct H as [(v & e & -> & Hb) | (e & -> & Hb)].
    + destruct v as [p q]. eexists. split; [reflexivity | exact Hb].
    + eexists. split; [reflexivity | exact Hb].
  - intros Hq. subst cfg.
    unfold GormConnection.Connect, bind at 1, get. unfold bind at 1, deref.
    rewrite Hg. unfold ret at 1. rewrite Hvalid. unfold bind.
    destruct (retry_loop_bounded env (GormConnection.connectWithTimeout env ctx)
                ctx (MaxRetries (Base gcfg)) (RetryInterval (Base gcfg)) g None
                tr Hn (gorm_attempt_fails env ctx g gcfg Hg Hq Hopen))
      as (evs & out & E & H).
    rewrite E. exists evs.
    destruct H as [(v & e & -> & Hb) | (e & -> & Hb)].
    + eexists. split; [reflexivity | exact Hb].
    + eexists. split; [reflexivity | exact Hb].
Qed.

Lemma Connect_bounded_retry_witness :
  (exists evs r,
     PgxConnection.Connect Sample.unreachable (CallerCtx 0)
       (Pgx.NewConnection (Some Sample.endpoint)) [] =
       (Ok r, Pgx.NewConnection (Some Sample.endpoint), [] ++ evs) /\
     bounded_retry Sample.unreachable (CallerCtx 0) 10%Z 2%Z 0 evs r)
  /\
  (exists evs r,
     GormConnection.Connect Sample.unreachable (CallerCtx 0)
       (GormConnection.NewConnection (Some Sample.gorm_endpoint)) [] =
       (Ok r, GormConnection.NewConnection (Some Sample.gorm_endpoint),
        [] ++ evs) /\
     bounded_retry Sample.unreachable (CallerCtx 0) 10%Z 2%Z 0 evs r).
Proof.
  pose proof (Connect_bounded_retry Sample.unreachable (CallerCtx 0)
                Sample.endpoint Sample.gorm_endpoint
                (Pgx.NewConnection (Some Sample.endpoint))
                (GormConnection.NewConnection (Some Sample.gorm_endpoint))
                [] eq_refl eq_refl eq_refl eq_refl) as H.
  destruct H as [Hp Hg].
  - simpl. lia.
  - intros t c'. simpl. discriminate.
  - intros t c'. simpl. discriminate.
  - split; [exact Hp |]. apply Hg. left. simpl. lia.
Defined.

(** ** C7: the configuration is validated before anything else *)

Lemma ValidateMasterSlave_rejects cfg :
  config_rejected cfg <-> ValidateMasterSlave cfg <> None.
Proof.
  unfold ValidateMasterSlave. split.
  - intros H.
    destruct (Master cfg) as [m |] eqn:Hm; [| discriminate].
    destruct (Validate m) eqn:Hv; [discriminate |].
    destruct H as [H | m' H Hv' | Hu Hs | s Hu Hs Hv'];
      try congruence; rewrite Hu, Hs; [discriminate |].
    destruct (Validate s); [discriminate | congruence].
  - destruct (Master cfg) as [m |] eqn:Hm; [| intros _; now apply master_missing].
    destruct (Validate m) eqn:Hv.
    { intros _. apply (master_invalid cfg m); congruence. }
    destruct (UseSlaveConnection cfg) eqn:Hu; [| congruence].
    destruct (Slave cfg) as [s |] eqn:Hs; [| intros _; now apply slave_missing].
    destruct (Validate s) eqn:Hv'; [| congruence].
    intros _. apply (slave_invalid cfg s); congruence.
Qed.

(** C7.  On a configuration it refuses, the manager's [Connect] returns the
    validation error, wrapped, and does nothing else: the manager is left as
    it was and no event (so no connection attempt, no wait, no retry) is
    added to the trace. *)
Theorem Connect_validates_first (env : Env) (ctx : context)
    (c : MasterSlave.MasterSlaveConnection) (tr : trace) :
  config_rejected (MasterSlave.config c) ->
  exists err,
    ValidateMasterSlave (MasterSlave.config c) = Some err /\
    MasterSlave.Connect env ctx c tr =
      (Ok (Some (wrapError "invalid master-slave config" err)), c, tr).
Proof.
  intros H. apply ValidateMasterSlave_rejects in H.
  destruct (ValidateMasterSlave (MasterSlave.config c)) as [err |] eqn:Hv;
    [| congruence].
  exists err. split; [reflexivity |].
  unfold MasterSlave.Connect, bind, get. now rewrite Hv.
Qed.

Lemma Connect_validates_first_witness :
  exists err,
    ValidateMasterSlave
      Sample.cluster_without_slave_config = Some err /\
    MasterSlave.Connect Sample.reachable (CallerCtx 0)
      (MasterSlave.NewMasterSlaveConnection
         Sample.cluster_without_slave_config) [] =
      (Ok (Some (wrapError "invalid master-slave config" err)),
       MasterSlave.NewMasterSlaveConnection
         Sample.cluster_without_slave_config, []).
Proof.
  apply (Connect_validates_first Sample.reachable (CallerCtx 0)
           (MasterSlave.NewMasterSlaveConnection
              Sample.cluster_without_slave_config) []).
  apply slave_missing; reflexivity.
Defined.

(** ** What the pgx [Connection] methods do *)

Section PgxFacts.

Import Pgx.
Variable env : Env.

Lemma build_event_mono t0 t1 e : t0 <= t1 -> build_event t1 e -> build_event t0 e.
Proof. destruct e; simpl; auto; lia. Qed.

Lemma connectWithTimeout_sat t0 ctx (c : Connection) :
  sat t0 (PgxConnection.connectWithTimeout env ctx) (eq c) (build_event t0).
Proof.
  intros s tr Ht <-.
  unfold PgxConnection.connectWithTimeout, bind, get, deref, now.
  destruct (config c) as [cfg |]; unfold ret, panic.
  - destruct (dial env (List.length tr) _ cfg);
      unfold emit, now; repeat rewrite <- app_assoc; cbn [app];
      do 3 eexists; (split; [reflexivity | split; [reflexivity |]]);
      repeat constructor; simpl; auto.
  - exists (Panic "invalid memory address or nil pointer dereference"), c, [].
    rewrite app_nil_r. auto.
Qed.

Lemma pgx_retry_loop_sat t0 ctx (c : Connection) n interval zero :
  sat t0 (retry_loop env (PgxConnection.connectWithTimeout env ctx) ctx n
            interval zero) (eq c) (build_event t0).
Proof.
  unfold retry_loop. apply sat_for_loop. intros i a. unfold retry_body.
  apply sat_bind; [apply connectWithTimeout_sat |]. intros r.
  sat_auto; simpl; auto.
Qed.

(** [Connect] only adds build events; unless it returns nil it leaves the
    connection as it was, and it never changes the configuration. *)
Lemma pgx_Connect_events ctx (c : Connection) tr :
  exists r c' evs,
    PgxConnection.Connect env ctx c tr = (r, c', tr ++ evs) /\
    Forall (build_event (List.length tr)) evs /\
    (r <> Ok None -> c' = c) /\
    config c' = config c.
Proof.
  unfold PgxConnection.Connect, bind at 1, get. unfold bind at 1, deref.
  destruct (config c) as [cfg |] eqn:Hc; unfold ret at 1, panic.
  2:{ exists (Panic "invalid memory address or nil pointer dereference"), c, [].
      rewrite app_nil_r. auto. }
  destruct (Validate cfg).
  { eexists _, c, []. rewrite app_nil_r. unfold ret. auto. }
  unfold bind.
  destruct (pgx_retry_loop_sat (List.length tr) ctx c (MaxRetries cfg)
              (RetryInterval cfg) (None, None) c tr (le_n _) eq_refl)
    as (r & c' & evs & E & <- & F).
  rewrite E.
  destruct r as [[[[p q] [err |]] | e] | msg]; unfold ret, modify;
    eexists _, _, evs; (split; [reflexivity | split; [exact F |]]);
    split; auto; congruence.
Qed.

(** When the first attempt gets through, [Connect] on a fresh connection
    returns nil after that single attempt. *)
Lemma pgx_Connect_first_attempt ctx cfg tr :
  Validate cfg = None ->
  (0 <= MaxRetries cfg)%Z ->
  dial env (List.length tr) (WithTimeout ctx (ConnectTimeout cfg)) cfg
    = Established ->
  PgxConnection.Connect env ctx (NewConnection (Some cfg)) tr =
    (Ok None,
     {| pool := Some (List.length tr); conn := Some (List.length tr);
        config := Some cfg |},
     tr ++ [EvAttempt (WithTimeout ctx (ConnectTimeout cfg)) cfg None]).
Proof.
  intros Hv Hn Hd.
  unfold PgxConnection.Connect, bind at 1, get. unfold bind at 1, deref.
  cbn [config NewConnection]. unfold ret at 1. rewrite Hv.
  unfold bind at 1, retry_loop.
  replace (Z.to_nat (MaxRetries cfg + 1)) with (Datatypes.S (Z.to_nat (MaxRetries cfg)))
    by lia.
  rewrite for_loop_S. unfold retry_body at 1, bind at 1.
  unfold PgxConnection.connectWithTimeout, bind at 1, get.
  unfold bind at 1, deref. cbn [config NewConnection]. unfold ret at 1.
  unfold bind at 1, now. rewrite Hd. reflexivity.
Qed.

Lemma pgx_Close_run (c : Connection) tr :
  PgxConnection.Close env c tr =
    (Ok (close_result env (List.length tr) c), c,
     tr ++ close_events env (List.length tr) c).
Proof.
  unfold PgxConnection.Close, close_events, close_result, bind, get, emit,
    now, ret.
  destruct (pool c), (conn c); cbn [app];
    rewrite ?length_app, ?app_nil_r, <- ?app_assoc; cbn [app List.length];
    rewrite ?Nat.add_1_r; reflexivity.
Qed.

Lemma probe_run ctx x (c : MasterSlave.MasterSlaveConnection) tr :
  MasterSlave.probe env ctx x c tr =
    (Ok (probe_result env ctx x (List.length tr)), c,
     tr ++ probe_events env ctx x (List.length tr)).
Proof.
  unfold MasterSlave.probe, probe_result, probe_events.
  destruct x as [[[p |] q cfg] |]; unfold ret; rewrite ?app_nil_r; reflexivity.
Qed.

End PgxFacts.

(** ** [Close] of the manager *)

(** Brings a trace built by appending into right-nested form. *)
Ltac norm_trace := repeat (progress (rewrite <- ?app_assoc; cbn [app])).

Section ManagerCloseFacts.

Import Pgx MasterSlave.
Variable env : Env.

Lemma Close_run (c : MasterSlaveConnection) tr :
  healthTicker c = None \/ stopChan c = ChanOpen ->
  let tr1 := tr ++ EvLock :: stop_events c in
  let mev := slot_close_events env (List.length tr1) (masterConn c)
               (EvStoreMaster None) in
  let tr2 := tr1 ++ mev in
  let sev := slot_close_events env (List.length tr2) (slaveConn c)
               (EvStoreSlave None) in
  Close env c tr =
    (Ok (close_error (slot_close_result env (List.length tr1) (masterConn c))
                     (slot_close_result env (List.length tr2) (slaveConn c))),
     closed c,
     tr2 ++ sev ++ [EvUnlock]).
Proof.
  intros Hfirst. destruct c as [cfg mc sc rl tk ch]. cbn in Hfirst.
  assert (Hch : tk = None \/ ch = ChanOpen) by exact Hfirst. clear Hfirst.
  cbv zeta.
  unfold Close, stop_events, closed, slot_close_events, slot_close_result.
  cbn [healthTicker masterConn slaveConn stopChan config role].
  unfold bind at 1, emit at 1, defer. unfold bind at 1, get.
  destruct tk as [d |].
  - destruct Hch as [Hch | ->]; [discriminate |].
    unfold bind at 1. unfold bind at 1, emit at 1, close_stopChan.
    unfold bind at 1, get. cbn [stopChan]. unfold bind at 1, modify, emit at 1.
    cbn [set_stopChan config masterConn slaveConn role healthTicker stopChan].
    destruct mc as [mcn |], sc as [scn |];
      unfold bind, call, store_masterConn, store_slaveConn, bind, modify, emit, ret;
      rewrite ?pgx_Close_run;
      cbn [set_masterConn set_slaveConn config masterConn slaveConn role
           healthTicker stopChan];
      rewrite ?pgx_Close_run;
      repeat rewrite <- app_assoc; cbn [app]; rewrite ?app_nil_r;
      unfold close_error;
      repeat match goal with
      | |- context [match close_result ?e ?t ?x with _ => _ end] =>
        destruct (close_result e t x)
      end; norm_trace; reflexivity.
  - unfold bind at 1, ret at 1.
    destruct mc as [mcn |], sc as [scn |];
      unfold bind, call, store_masterConn, store_slaveConn, bind, modify, emit, ret;
      rewrite ?pgx_Close_run;
      cbn [set_masterConn set_slaveConn config masterConn slaveConn role
           healthTicker stopChan];
      rewrite ?pgx_Close_run;
      repeat rewrite <- app_assoc; cbn [app]; rewrite ?app_nil_r;
      unfold close_error;
      repeat match goal with
      | |- context [match close_result ?e ?t ?x with _ => _ end] =>
        destruct (close_result e t x)
      end; norm_trace; reflexivity.
Qed.

End ManagerCloseFacts.

Example Connect_reachable :
  exists evs,
    MasterSlave.Connect Sample.reachable (CallerCtx 0)
      (MasterSlave.NewMasterSlaveConnection Sample.cluster) [] =
    (Ok None, SampleManager.connected, evs) /\
    attempts evs = 2.
Proof. eexists. split; [vm_compute; reflexivity | reflexivity]. Qed.

(** ** C6: [Close] attempts both closes and reports the first error *)






(** ** C5: a second [Close] *)

(** C5 fails on the code.  Once the health checker has been started,
    [healthTicker] stays non-nil for ever, so a second [Close] closes
    [stopChan] again: it panics, under the lock, before it gets to the
    handles. *)
Theorem Close_twice_panics (env : Env)
    (c : MasterSlave.MasterSlaveConnection) (tr : trace) :
  MasterSlave.healthTicker c <> None ->
  MasterSlave.stopChan c = MasterSlave.ChanOpen ->
  exists r c1 tr1,
    MasterSlave.Close env c tr = (Ok r, c1, tr1) /\
    MasterSlave.Close env c1 tr1 =
      (Panic "close of closed channel", c1,
       tr1 ++ [EvLock; EvTickerStop; EvUnlock]).
Proof.
  intros Htk Hch.
  pose proof (Close_run env c tr (or_intror Hch)) as E. cbv zeta in E.
  eexists _, (closed c), _. split; [exact E |].
  destruct c as [cfg mc sc rl [d |] ch]; [| exfalso; apply Htk; reflexivity].
  unfold MasterSlave.Close, closed, bind, emit, defer, get,
    MasterSlave.close_stopChan, bind, get, panic.
  cbn. norm_trace. reflexivity.
Qed.

Lemma Close_twice_panics_witness :
  exists r c1 tr1,
    MasterSlave.Close Sample.reachable SampleManager.connected [] =
      (Ok r, c1, tr1) /\
    MasterSlave.Close Sample.reachable c1 tr1 =
      (Panic "close of closed channel", c1,
       tr1 ++ [EvLock; EvTickerStop; EvUnlock]).
Proof.
  apply (Close_twice_panics Sample.reachable SampleManager.connected []).
  - simpl. discriminate.
  - reflexivity.
Defined.

(** Without a health checker the second [Close] finds both slots nil: it
    returns nil and closes nothing. *)
Lemma Close_twice_without_health_check (env : Env)
    (c : MasterSlave.MasterSlaveConnection) (tr : trace) :
  MasterSlave.healthTicker c = None ->
  exists r c1 tr1,
    MasterSlave.Close env c tr = (Ok r, c1, tr1) /\
    MasterSlave.Close env c1 tr1 = (Ok None, c1, tr1 ++ [EvLock; EvUnlock]).
Proof.
  intros Htk.
  pose proof (Close_run env c tr (or_introl Htk)) as E. cbv zeta in E.
  eexists _, (closed c), _. split; [exact E |].
  rewrite (Close_run env (closed c)); [| left; exact Htk].
  unfold closed, stop_events, slot_close_events, slot_close_result, close_error.
  cbn. rewrite Htk. cbn. norm_trace. reflexivity.
Qed.

(** ** The health check *)

(** [checkHealth] up to its decision: the lock is taken, the master is
    probed, then the slave; the decision runs before the deferred unlock. *)
Lemma checkHealth_run (env : Env) (c : MasterSlave.MasterSlaveConnection) tr :
  let tr1 := tr ++ [EvLock] in
  let mh := probe_result env health_ctx (MasterSlave.masterConn c) (List.length tr1) in
  let tr2 := tr1 ++ probe_events env health_ctx (MasterSlave.masterConn c)
                      (List.length tr1) in
  let sh := probe_result env health_ctx (MasterSlave.slaveConn c) (List.length tr2) in
  let tr3 := tr2 ++ probe_events env health_ctx (MasterSlave.slaveConn c)
                      (List.length tr2) in
  MasterSlave.checkHealth env c tr =
  defer (emit EvUnlock) (health_decision env c mh sh) c tr3.
Proof.
  cbv zeta. unfold MasterSlave.checkHealth, health_decision.
  unfold bind at 1, emit at 1, defer.
  unfold bind at 1, get. unfold bind at 1.
  fold health_ctx. rewrite probe_run. unfold bind at 1. rewrite probe_run.
  reflexivity.
Qed.

Lemma master_down_probe env t c ctx t' :
  master_down env t c -> t <= t' ->
  probe_result env ctx (MasterSlave.masterConn c) t' = false.
Proof.
  intros H Ht. unfold probe_result.
  destruct (MasterSlave.masterConn c) as [[[p |] q cfg] |] eqn:Hc;
    try reflexivity.
  specialize (H _ p Hc eq_refl t' ctx Ht).
  destruct (pool_ping env t' ctx p); [reflexivity | congruence].
Qed.

Lemma replica_up_probe env t c ctx t' :
  replica_up env t c -> t <= t' ->
  probe_result env ctx (MasterSlave.slaveConn c) t' = true /\
  exists p, probe_events env ctx (MasterSlave.slaveConn c) t' =
            [EvPoolPing ctx p None].
Proof.
  intros (cn & p & Hs & Hp & H) Ht. unfold probe_result, probe_events.
  rewrite Hs. destruct cn as [p' q cfg]. cbn in Hp. subst p'.
  rewrite (H t' ctx Ht). split; [reflexivity | now exists p].
Qed.

(** C1.  With [AutoFailover] on, a tick that finds the primary failing its
    probe and the connected replica answering sets the role to the degraded
    value in that very tick: it probes, stores the role, logs, and returns,
    without any attempt, sleep or timer.  In the degraded state [IsHealthy]
    returns true for as long as the replica answers. *)
Theorem failover_promotion (env : Env)
    (c : MasterSlave.MasterSlaveConnection) (tr : trace) :
  AutoFailover (MasterSlave.config c) = true ->
  master_down env (List.length tr) c ->
  replica_up env (List.length tr) c ->
  exists p,
    MasterSlave.checkHealth env c tr =
      (Ok tt, MasterSlave.set_role "slave" c,
       tr ++ EvLock
          :: probe_events env health_ctx (MasterSlave.masterConn c)
               (Datatypes.S (List.length tr))
          ++ [EvPoolPing health_ctx p None;
              EvStoreRole "slave";
              EvPrintln "Master connection is down, operating in slave-only mode";
              EvUnlock]) /\
    MasterSlave.role (MasterSlave.set_role "slave" c) = "slave" /\
    forall ctx tr', List.length tr <= List.length tr' ->
      exists evs,
        MasterSlave.IsHealthy env ctx (MasterSlave.set_role "slave" c) tr' =
          (Ok true, MasterSlave.set_role "slave" c, tr' ++ evs).
Proof.
  intros Hauto Hdown Hup.
  rewrite checkHealth_run. cbv zeta.
  rewrite (master_down_probe env (List.length tr) c); [| assumption |
    rewrite length_app; simpl; lia].
  destruct (replica_up_probe env (List.length tr) c health_ctx
              (List.length ((tr ++ [EvLock]) ++
                 probe_events env health_ctx (MasterSlave.masterConn c)
                   (List.length (tr ++ [EvLock])))) Hup)
    as (Hsh & p & Hev); [rewrite !length_app; simpl; lia |].
  rewrite Hsh, Hev. unfold health_decision. rewrite Hauto. cbn [negb andb].
  exists p. split; [| split; [reflexivity |]].
  - unfold defer, MasterSlave.store_role, bind, modify, emit.
    rewrite length_app, Nat.add_1_r. norm_trace. reflexivity.
  - intros ctx tr' Hlen.
    unfold MasterSlave.IsHealthy. unfold bind at 1, emit at 1, defer.
    unfold bind at 1, get. unfold bind at 1. rewrite probe_run.
    cbn [MasterSlave.masterConn MasterSlave.set_role MasterSlave.config
         MasterSlave.slaveConn].
    rewrite (master_down_probe env (List.length tr) c); [| assumption |
      rewrite length_app; simpl; lia].
    rewrite Hauto. unfold bind at 1. rewrite probe_run.
    destruct (replica_up_probe env (List.length tr) c ctx
                (List.length ((tr' ++ [EvRLock]) ++
                   probe_events env ctx (MasterSlave.masterConn c)
                     (List.length (tr' ++ [EvRLock])))) Hup)
      as (Hsh' & p' & Hev'); [rewrite !length_app; simpl; lia |].
    rewrite Hsh'. unfold ret, emit. norm_trace. eexists. reflexivity.
Qed.

Lemma failover_promotion_witness :
  exists p,
    MasterSlave.checkHealth SampleManager.primary_pool_down
      SampleManager.connected [] =
      (Ok tt, SampleManager.degraded,
       [] ++ EvLock
          :: probe_events SampleManager.primary_pool_down health_ctx
               (MasterSlave.masterConn SampleManager.connected) 1
          ++ [EvPoolPing health_ctx p None;
              EvStoreRole "slave";
              EvPrintln "Master connection is down, operating in slave-only mode";
              EvUnlock]) /\
    MasterSlave.role SampleManager.degraded = "slave" /\
    forall ctx tr', 0 <= List.length tr' ->
      exists evs,
        MasterSlave.IsHealthy SampleManager.primary_pool_down ctx
          SampleManager.degraded tr' =
          (Ok true, SampleManager.degraded, tr' ++ evs).
Proof.
  apply (failover_promotion SampleManager.primary_pool_down
           SampleManager.connected []).
  - reflexivity.
  - intros cn p Hc Hp t' ctx _. injection Hc as <-. injection Hp as <-.
    simpl. discriminate.
  - exists (Pgx.mkConnection (Some 3) (Some 3) (Some Sample.replica_endpoint)), 3.
    repeat split; reflexivity.
Defined.

(** ** Event classes of the methods *)

Lemma pgx_Connect_sat env t0 ctx :
  sat t0 (PgxConnection.Connect env ctx) (fun _ => True) conn_event.
Proof.
  intros c tr _ _.
  destruct (pgx_Connect_events env ctx c tr) as (r & c' & evs & E & F & _).
  exists r, c', evs. repeat split; auto.
  eapply Forall_impl; [| exact F]. intros [] H; simpl in *; auto.
Qed.

Lemma pgx_Close_sat env t0 :
  sat t0 (PgxConnection.Close env) (fun _ => True) conn_event.
Proof. unfold PgxConnection.Close. sat_auto; simpl; auto. Qed.

Lemma pgx_Ping_sat env t0 ctx :
  sat t0 (PgxConnection.Ping env ctx) (fun _ => True) conn_event.
Proof. unfold PgxConnection.Ping. sat_auto; simpl; auto. Qed.

Lemma pgx_IsHealthy_sat env t0 ctx :
  sat t0 (PgxConnection.IsHealthy env ctx) (fun _ => True) conn_event.
Proof.
  unfold PgxConnection.IsHealthy. apply sat_bind; [apply pgx_Ping_sat |].
  intros r. apply sat_ret.
Qed.

Lemma conn_event_inner e : conn_event e -> inner_event e.
Proof. destruct e; simpl; tauto. Qed.

Lemma conn_event_quiet e : conn_event e -> quiet_event e.
Proof. destruct e; simpl; tauto. Qed.

(** Finishes the goals [sat_auto] leaves: calls of [Connection] methods,
    single events, field updates. *)
Ltac sat_close lift :=
  first
    [ eapply sat_weaken; [apply Nat.le_refl | exact lift | apply pgx_Connect_sat]
    | eapply sat_weaken; [apply Nat.le_refl | exact lift | apply pgx_Close_sat]
    | eapply sat_weaken; [apply Nat.le_refl | exact lift | apply pgx_Ping_sat]
    | eapply sat_weaken; [apply Nat.le_refl | exact lift | apply pgx_IsHealthy_sat]
    | solve [simpl; auto] ].

Section ManagerEvents.

Import MasterSlave.
Variable env : Env.
Variable t0 : nat.

(** An invariant of the manager that the writes of [checkHealth] keep. *)
Variable I : MasterSlaveConnection -> Prop.
Hypothesis I_masterConn : forall v c, I c -> I (set_masterConn v c).
Hypothesis I_slaveConn : forall v c, I c -> I (set_slaveConn v c).
Hypothesis I_role_master : forall c, I c -> I (set_role "master" c).
Hypothesis I_role_slave : forall c, I c -> I (set_role "slave" c).

Lemma attemptMasterReconnect_sat ctx :
  sat t0 (attemptMasterReconnect env ctx) I inner_event.
Proof.
  unfold attemptMasterReconnect, store_masterConn, store_role.
  sat_auto; try sat_close conn_event_inner; auto.
Qed.

Lemma attemptSlaveReconnect_sat ctx :
  sat t0 (attemptSlaveReconnect env ctx) I inner_event.
Proof.
  unfold attemptSlaveReconnect, store_slaveConn.
  sat_auto; try sat_close conn_event_inner; auto.
Qed.

Lemma probe_sat ctx x : sat t0 (probe env ctx x) I inner_event.
Proof.
  unfold probe. sat_auto; try sat_close conn_event_inner.
Qed.

End ManagerEvents.

Lemma probe_events_inner env ctx x t :
  Forall inner_event (probe_events env ctx x t).
Proof.
  unfold probe_events. destruct x as [[[p |] q cfg] |]; repeat constructor.
Qed.

Section CheckHealthEvents.

Import MasterSlave.
Variable env : Env.
Variable I : MasterSlaveConnection -> Prop.
Hypothesis I_masterConn : forall v c, I c -> I (set_masterConn v c).
Hypothesis I_slaveConn : forall v c, I c -> I (set_slaveConn v c).
Hypothesis I_role_master : forall c, I c -> I (set_role "master" c).
Hypothesis I_role_slave : forall c, I c -> I (set_role "slave" c).

Lemma health_decision_sat t0 c mh sh :
  sat t0 (health_decision env c mh sh) I inner_event.
Proof.
  unfold health_decision, store_role.
  sat_auto;
    try apply attemptMasterReconnect_sat;
    try apply attemptSlaveReconnect_sat; auto; simpl; auto.
Qed.

(** [checkHealth] is one locked region: it takes the lock, probes the master
    and the slave, acts on what it saw, and releases the lock last. *)
Lemma checkHealth_shape c tr :
  I c ->
  let pm := probe_events env health_ctx (masterConn c)
              (Datatypes.S (List.length tr)) in
  let ps := probe_events env health_ctx (slaveConn c)
              (Datatypes.S (List.length tr) + List.length pm) in
  exists r c' rest,
    checkHealth env c tr =
      (r, c', tr ++ EvLock :: (pm ++ ps ++ rest) ++ [EvUnlock]) /\
    I c' /\ Forall inner_event rest.
Proof.
  intros Hc pm ps. rewrite checkHealth_run. cbv zeta.
  rewrite !length_app. cbn [List.length]. rewrite Nat.add_1_r.
  fold pm. rewrite Nat.add_comm with (m := List.length pm). fold ps.
  rewrite Nat.add_comm with (n := List.length pm).
  match goal with
  | |- context [defer _ (health_decision env c ?mh ?sh) c ?tr3] =>
    destruct (health_decision_sat 0 c mh sh c tr3 (Nat.le_0_l _) Hc)
      as (r & c' & rest & E & Hc' & F)
  end.
  unfold defer. rewrite E. unfold emit.
  exists r, c', rest. norm_trace. auto.
Qed.

End CheckHealthEvents.

(** ** Facts about the lock discipline *)

Lemma lock_discipline_app ok : forall a b held,
  lock_discipline ok held (a ++ b) =
  lock_discipline ok held a && lock_discipline ok (held_after held a) b.
Proof.
  induction a as [| e a IH]; intros b held; [reflexivity |].
  destruct e; cbn [app lock_discipline held_after]; rewrite ?IH;
    auto using andb_assoc.
Qed.

(** Events that are fine whether or not the lock is held. *)
Lemma lock_discipline_free ok evs :
  Forall (fun e => ok false e = true /\ ok true e = true) evs ->
  forall held, lock_discipline ok held evs = true.
Proof.
  induction 1 as [| e evs [Hf Ht] _ IH]; intros held; [reflexivity |].
  destruct e; cbn [lock_discipline]; rewrite ?IH; auto;
    destruct held; rewrite ?Hf, ?Ht; reflexivity.
Qed.

(** A locked region without lock operations inside. *)
Lemma lock_discipline_region ok body :
  Forall (fun e => e <> EvLock /\ e <> EvUnlock /\ ok true e = true) body ->
  forall held, lock_discipline ok held (EvLock :: body ++ [EvUnlock]) = true.
Proof.
  intros H held. cbn [lock_discipline]. clear held.
  induction H as [| e body (Hl & Hu & Hok) _ IH]; [reflexivity |].
  destruct e; try congruence; cbn [app lock_discipline];
    rewrite Hok, IH; reflexivity.
Qed.

(** ** C8: probing and the exclusive lock *)

(** C8 fails on the code: a tick on a connected manager probes both pools
    between [Lock] and [Unlock]. *)
Lemma checkHealth_probes_under_lock :
  MasterSlave.checkHealth Sample.reachable SampleManager.connected [] =
    (Ok tt, SampleManager.connected,
     [EvLock; EvPoolPing health_ctx 1 None; EvPoolPing health_ctx 3 None;
      EvUnlock]) /\
  probes_unlocked
    [EvLock; EvPoolPing health_ctx 1 None; EvPoolPing health_ctx 3 None;
     EvUnlock] = false.
Proof. split; vm_compute; reflexivity. Qed.

(** C8 as amended.  [checkHealth] takes the exclusive lock before it probes
    and releases it only when it returns: its events are [Lock], the probe of
    the master, the probe of the slave, whatever the decision does
    (reconnect attempts and sleeps included), and [Unlock]; there is no lock
    operation in between, so every network action of the routine happens
    with the exclusive lock held. *)
Theorem checkHealth_holds_lock (env : Env)
    (c : MasterSlave.MasterSlaveConnection) (tr : trace) :
  let pm := probe_events env health_ctx (MasterSlave.masterConn c)
              (Datatypes.S (List.length tr)) in
  let ps := probe_events env health_ctx (MasterSlave.slaveConn c)
              (Datatypes.S (List.length tr) + List.length pm) in
  exists r c' rest,
    MasterSlave.checkHealth env c tr =
      (r, c', tr ++ EvLock :: (pm ++ ps ++ rest) ++ [EvUnlock]) /\
    Forall (fun e => e <> EvLock /\ e <> EvUnlock) (pm ++ ps ++ rest) /\
    network_locked (EvLock :: (pm ++ ps ++ rest) ++ [EvUnlock]) = true.
Proof.
  intros pm ps.
  destruct (checkHealth_shape env (fun _ => True)
              (fun _ _ _ => I) (fun _ _ _ => I) (fun _ _ => I) (fun _ _ => I)
              c tr I) as (r & c' & rest & E & _ & F).
  exists r, c', rest. split; [exact E |].
  assert (Hin : Forall inner_event (pm ++ ps ++ rest)).
  { apply Forall_app; split; [apply probe_events_inner |].
    apply Forall_app; split; [apply probe_events_inner | exact F]. }
  split.
  - eapply Forall_impl; [| exact Hin].
    intros e He; split; intros ->; exact He.
  - apply lock_discipline_region.
    eapply Forall_impl; [| exact Hin].
    intros e He; repeat split; try (intros ->; exact He).
Qed.

(** ** C9: the role *)

Lemma exec_quiet env t0 o :
  o <> OpTick -> sat t0 (exec env o) role_ok quiet_event.
Proof.
  intros Ho.
  destruct o; try congruence; unfold exec;
    unfold MasterSlave.Connect, MasterSlave.Close, MasterSlave.Ping,
      MasterSlave.IsHealthy, MasterSlave.GetMasterClient,
      MasterSlave.GetSlaveClient, MasterSlave.HasSlaveConnected,
      MasterSlave.IsMaster, MasterSlave.IsSlave,
      MasterSlave.store_masterConn, MasterSlave.store_slaveConn,
      MasterSlave.on_masterConn, MasterSlave.on_slaveConn,
      MasterSlave.startHealthCheck, MasterSlave.close_stopChan,
      MasterSlave.probe;
    sat_auto; try sat_close conn_event_quiet; auto.
Qed.

Lemma quiet_role_writes evs held :
  Forall quiet_event evs ->
  lock_discipline (fun held e => held || negb (is_role_store e)) held evs = true.
Proof.
  intros H. apply lock_discipline_free.
  eapply Forall_impl; [| exact H].
  intros [] He; simpl in *; auto; contradiction.
Qed.

Lemma inner_role_writes body held :
  Forall inner_event body ->
  lock_discipline (fun held e => held || negb (is_role_store e)) held
    (EvLock :: body ++ [EvUnlock]) = true.
Proof.
  intros H. apply lock_discipline_region.
  eapply Forall_impl; [| exact H].
  intros e He; repeat split; try (intros ->; exact He).
Qed.

Lemma quiet_step env o c tr r c' tr' :
  o <> OpTick -> role_ok c ->
  exec env o c tr = (r, c', tr') ->
  exists evs, tr' = tr ++ evs /\ role_ok c' /\ Forall quiet_event evs.
Proof.
  intros Ho Hrole Hex.
  destruct (exec_quiet env 0 o Ho c tr (Nat.le_0_l _) Hrole)
    as (r0 & c0 & evs & E & Hrole' & F).
  rewrite E in Hex. injection Hex as <- <- <-.
  exists evs. auto.
Qed.

Lemma tick_step env c tr r c' tr' :
  role_ok c ->
  exec env OpTick c tr = (r, c', tr') ->
  exists body,
    tr' = tr ++ EvLock :: body ++ [EvUnlock] /\ role_ok c' /\
    Forall inner_event body.
Proof.
  intros Hrole Hex.
  destruct (checkHealth_shape env role_ok) with (c := c) (tr := tr)
    as (r0 & c0 & rest & E & Hrole' & F);
    try (intros; unfold role_ok in *; simpl; auto; fail).
  unfold exec, MasterSlave.healthLoopIteration, bind in Hex.
  rewrite E in Hex.
  assert (Hc : c0 = c' /\ tr ++ EvLock ::
                (probe_events env health_ctx (MasterSlave.masterConn c)
                   (Datatypes.S (List.length tr)) ++
                 probe_events env health_ctx (MasterSlave.slaveConn c)
                   (Datatypes.S (List.length tr) +
                    List.length (probe_events env health_ctx
                      (MasterSlave.masterConn c) (Datatypes.S (List.length tr)))) ++
                 rest) ++ [EvUnlock] = tr').
  { destruct r0; unfold ret in Hex; injection Hex as _ Hc Ht; auto. }
  destruct Hc as [<- <-].
  eexists. split; [reflexivity | split; [exact Hrole' |]].
  apply Forall_app; split; [apply probe_events_inner |].
  apply Forall_app; split; [apply probe_events_inner | exact F].
Qed.

(** C9.  In every state a manager can reach, the role is one of the two
    strings (it starts as the master value); every write to it recorded in
    the trace writes one of the two and happens while the exclusive lock is
    held; and of [IsMaster] and [IsSlave] exactly one returns true. *)
Theorem role_exclusive (env : Env) (cfg : MasterSlaveConfig)
    (c : MasterSlave.MasterSlaveConnection) (tr : trace) :
  reachable env cfg c tr ->
  MasterSlave.role (MasterSlave.NewMasterSlaveConnection cfg) = "master" /\
  (MasterSlave.role c = "master" \/ MasterSlave.role c = "slave") /\
  Forall role_store_ok tr /\
  role_writes_locked tr = true /\
  exists m s evm evs,
    MasterSlave.IsMaster c tr = (Ok m, c, tr ++ evm) /\
    MasterSlave.IsSlave c tr = (Ok s, c, tr ++ evs) /\
    xorb m s = true.
Proof.
  intros H. split; [reflexivity |].
  assert (Hinv : role_ok c /\ Forall role_store_ok tr /\
                 role_writes_locked tr = true).
  { induction H as [| o c tr r c' tr' Hreach IH Hen Hex].
    - repeat split; [left; reflexivity | constructor].
    - destruct IH as (Hrole & Hst & Hlk).
      assert (Ho : o = OpTick \/ o <> OpTick)
        by (destruct o; (left; reflexivity) || (right; discriminate)).
      destruct Ho as [-> | Ho].
      + destruct (tick_step env c tr r c' tr' Hrole Hex)
          as (body & -> & Hrole' & F).
        split; [exact Hrole' | split].
        * apply Forall_app; split; [exact Hst |].
          constructor; [intros r1; discriminate |].
          apply Forall_app; split;
            [| constructor; [intros r1; discriminate | constructor]].
          eapply Forall_impl; [| exact F].
          intros e He r1 ->; exact He.
        * unfold role_writes_locked. rewrite lock_discipline_app.
          fold (role_writes_locked tr). rewrite Hlk.
          now apply inner_role_writes.
      + destruct (quiet_step env o c tr r c' tr' Ho Hrole Hex)
          as (evs & -> & Hrole' & F).
        split; [exact Hrole' | split].
        * apply Forall_app; split; [exact Hst |].
          eapply Forall_impl; [| exact F].
          intros e He r1 ->; contradiction.
        * unfold role_writes_locked. rewrite lock_discipline_app.
          fold (role_writes_locked tr). rewrite Hlk.
          now apply quiet_role_writes. }
  destruct Hinv as (Hrole & Hst & Hlk).
  repeat split; auto.
  unfold MasterSlave.IsMaster, MasterSlave.IsSlave, bind, emit, defer, get, ret.
  do 4 eexists. norm_trace. split; [reflexivity | split; [reflexivity |]].
  destruct Hrole as [-> | ->]; reflexivity.
Qed.

Lemma sample_run_reachable :
  reachable SampleManager.primary_pool_down Sample.cluster
    SampleManager.degraded sample_run.
Proof.
  eapply reach_step with (o := OpTick) (c := SampleManager.connected).
  - eapply reach_step with (o := OpConnect (CallerCtx 0)).
    + apply reach_new.
    + exact I.
    + vm_compute. reflexivity.
  - simpl. discriminate.
  - vm_compute. reflexivity.
Qed.

Lemma role_exclusive_witness :
  MasterSlave.role (MasterSlave.NewMasterSlaveConnection Sample.cluster)
    = "master" /\
  (MasterSlave.role SampleManager.degraded = "master" \/
   MasterSlave.role SampleManager.degraded = "slave") /\
  Forall role_store_ok sample_run /\
  role_writes_locked sample_run = true /\
  exists m s evm evs,
    MasterSlave.IsMaster SampleManager.degraded sample_run =
      (Ok m, SampleManager.degraded, sample_run ++ evm) /\
    MasterSlave.IsSlave SampleManager.degraded sample_run =
      (Ok s, SampleManager.degraded, sample_run ++ evs) /\
    xorb m s = true.
Proof.
  apply (role_exclusive SampleManager.primary_pool_down Sample.cluster
           SampleManager.degraded sample_run).
  exact sample_run_reachable.
Defined.

(** ** C10: [Connect] when the slave cannot be reached *)

(** C10 fails on the code in its last part: after a [Connect] that got the
    master and not the slave, [GetSlaveClient] does not return nil.  The
    slave slot was assigned before the connection was tried and is not
    reset. *)
Lemma Connect_slave_failure_keeps_slave_slot :
  exists e c' tr',
    MasterSlave.Connect SampleManager.replica_unreachable (CallerCtx 0)
      (MasterSlave.NewMasterSlaveConnection Sample.cluster) [] =
      (Ok (Some (wrapError "failed to connect to slave" e)), c', tr') /\
    fst (fst (MasterSlave.GetMasterClient c' tr')) = Ok None /\
    fst (fst (MasterSlave.GetSlaveClient c' tr')) =
      Ok (Some (Pgx.NewConnection (Some Sample.replica_endpoint))) /\
    fst (fst (MasterSlave.GetSlaveClient c' tr')) <> Ok None.
Proof.
  do 3 eexists. split; [vm_compute; reflexivity |].
  split; [reflexivity | split; [reflexivity | discriminate]].
Qed.

(** C10 as amended.  When the configuration is valid and asks for a slave,
    the master's [Connect] returns nil and the slave's returns an error,
    the manager's [Connect] runs the master handle's [Close], resets the
    master slot to nil and returns the slave's error wrapped.  It starts no
    health checker.  No live handle is left: [GetMasterClient] returns nil,
    and the slave slot holds the connection object whose connect failed,
    without pool and without direct connection. *)
Theorem Connect_slave_failure (env : Env) (ctx : context)
    (c : MasterSlave.MasterSlaveConnection) (tr tr1 tr2 : trace)
    (mc sc : Pgx.Connection) (e : error) :
  ValidateMasterSlave (MasterSlave.config c) = None ->
  UseSlaveConnection (MasterSlave.config c) = true ->
  PgxConnection.Connect env ctx
    (Pgx.NewConnection (Master (MasterSlave.config c)))
    (tr ++ [EvStoreMaster
              (Some (Pgx.NewConnection (Master (MasterSlave.config c))))])
    = (Ok None, mc, tr1) ->
  PgxConnection.Connect env ctx
    (Pgx.NewConnection (Slave (MasterSlave.config c)))
    (tr1 ++ [EvStoreSlave
               (Some (Pgx.NewConnection (Slave (MasterSlave.config c))))])
    = (Ok (Some e), sc, tr2) ->
  let c' := MasterSlave.set_masterConn None
              (MasterSlave.set_slaveConn (Some sc) c) in
  let tr' := tr2 ++ close_events env (List.length tr2) mc
                 ++ [EvStoreMaster None] in
  MasterSlave.Connect env ctx c tr =
    (Ok (Some (wrapError "failed to connect to slave" e)), c', tr') /\
  MasterSlave.healthTicker c' = MasterSlave.healthTicker c /\
  Pgx.pool sc = None /\ Pgx.conn sc = None /\
  fst (fst (MasterSlave.GetMasterClient c' tr')) = Ok None /\
  fst (fst (MasterSlave.GetSlaveClient c' tr')) = Ok (Some sc).
Proof.
  intros Hv Hu Hm Hs c' tr'.
  assert (Hsc : sc = Pgx.NewConnection (Slave (MasterSlave.config c))).
  { destruct (pgx_Connect_events env ctx
                (Pgx.NewConnection (Slave (MasterSlave.config c)))
                (tr1 ++ [EvStoreSlave
                   (Some (Pgx.NewConnection (Slave (MasterSlave.config c))))]))
      as (r & c0 & evs & E & _ & Hsame & _).
    rewrite Hs in E. injection E as <- <- _. apply Hsame. discriminate. }
  split; [| repeat split; try reflexivity; subst sc; reflexivity].
  unfold MasterSlave.Connect. unfold bind at 1, get. rewrite Hv.
  unfold bind at 1, MasterSlave.store_masterConn, bind at 1, modify, emit at 1.
  unfold bind at 1, MasterSlave.on_masterConn, bind at 1, get.
  cbn [MasterSlave.masterConn MasterSlave.set_masterConn].
  unfold bind at 1, deref, ret at 1. unfold bind at 1, call at 1.
  rewrite Hm. unfold bind at 1, modify, ret at 1.
  rewrite Hu.
  unfold bind at 1. unfold bind at 1, MasterSlave.store_slaveConn, bind at 1,
    modify, emit at 1.
  unfold bind at 1, MasterSlave.on_slaveConn, bind at 1, get.
  cbn [MasterSlave.slaveConn MasterSlave.set_slaveConn MasterSlave.set_masterConn].
  unfold bind at 1, deref, ret at 1. unfold bind at 1, call at 1.
  rewrite Hs. unfold bind at 1, modify, ret at 1.
  unfold bind at 1. unfold bind at 1, MasterSlave.on_masterConn, bind at 1, get.
  cbn [MasterSlave.slaveConn MasterSlave.set_slaveConn MasterSlave.set_masterConn
       MasterSlave.masterConn].
  unfold bind at 1, deref, ret at 1. unfold bind at 1, call at 1.
  rewrite pgx_Close_run. unfold bind at 1, modify, ret at 1.
  unfold bind at 1, MasterSlave.store_masterConn, bind at 1, modify, emit at 1.
  unfold ret. subst c' tr'. norm_trace.
  destruct c; reflexivity.
Qed.

Lemma Connect_slave_failure_witness :
  let c := MasterSlave.NewMasterSlaveConnection Sample.cluster in
  let sc := Pgx.NewConnection (Some Sample.replica_endpoint) in
  let e := wrapRetries 2
             (wrapError "failed to create connection pool" Sample.refused) in
  let c' := MasterSlave.set_masterConn None
              (MasterSlave.set_slaveConn (Some sc) c) in
  let tr' := slave_failure_tr2
               ++ [EvPoolClose 1; EvConnClose 1 None; EvStoreMaster None] in
  MasterSlave.Connect SampleManager.replica_unreachable (CallerCtx 0) c [] =
    (Ok (Some (wrapError "failed to connect to slave" e)), c', tr') /\
  MasterSlave.healthTicker c' = MasterSlave.healthTicker c /\
  Pgx.pool sc = None /\ Pgx.conn sc = None /\
  fst (fst (MasterSlave.GetMasterClient c' tr')) = Ok None /\
  fst (fst (MasterSlave.GetSlaveClient c' tr')) = Ok (Some sc).
Proof.
  apply (Connect_slave_failure SampleManager.replica_unreachable (CallerCtx 0)
           (MasterSlave.NewMasterSlaveConnection Sample.cluster) []
           slave_failure_tr1 slave_failure_tr2
           (Pgx.mkConnection (Some 1) (Some 1) (Some Sample.endpoint))
           (Pgx.NewConnection (Some Sample.replica_endpoint))).
  - reflexivity.
  - reflexivity.
  - vm_compute. reflexivity.
  - vm_compute. reflexivity.
Defined.

(** ** The reconnect loops *)

Lemma retry_event_mono t0 t1 e : t0 <= t1 -> retry_event t1 e -> retry_event t0 e.
Proof. destruct e; simpl; auto; lia. Qed.

Lemma build_retry_event t0 e : build_event t0 e -> retry_event t0 e.
Proof. destruct e; simpl; auto. Qed.

Section ReconnectLoop.

Import MasterSlave.
Variable env : Env.
Variable t0 : nat.

(** The four parameters of [turn_spec]. *)
Variable body : M MasterSlaveConnection (ctl unit unit).
Variable finish : Pgx.Connection -> MasterSlaveConnection -> MasterSlaveConnection.
Variable closing : MasterSlaveConnection -> nat -> trace.
Variable installed : Pgx.Connection -> trace.

Hypothesis body_turn : turn_spec t0 body finish closing installed.

Lemma reconnect_loop_spec : forall n i c tr,
  t0 <= List.length tr ->
  exists pre, Forall (retry_event t0) pre /\
    (for_loop n i (fun _ _ => body) tt c tr = (Ok (inl tt), c, tr ++ pre) \/
     (exists msg,
        for_loop n i (fun _ _ => body) tt c tr = (Panic msg, c, tr ++ pre)) \/
     (exists new,
        for_loop n i (fun _ _ => body) tt c tr =
          (Ok (inr tt), finish new c,
           tr ++ pre ++ closing c (List.length (tr ++ pre)) ++ installed new))).
Proof.
  induction n as [| n IH]; intros i c tr Ht.
  - exists []. split; [constructor |]. left. simpl. unfold ret.
    now rewrite app_nil_r.
  - rewrite for_loop_S.
    destruct (body_turn c tr Ht) as (pre & F & [E | [(msg & E) | (new & E)]]);
      rewrite E.
    + destruct (IH (i + 1)%Z c (tr ++ pre)) as (pre2 & F2 & H);
        [rewrite length_app; lia |].
      exists (pre ++ pre2). split; [apply Forall_app; auto |].
      rewrite !app_assoc in *.
      destruct H as [E2 | [(msg & E2) | (new & E2)]].
      * left. exact E2.
      * right; left. exists msg. exact E2.
      * right; right. exists new. rewrite E2. now rewrite <- !app_assoc.
    + exists pre. split; [exact F |]. right; left. now exists msg.
    + exists pre. split; [exact F |]. right; right. now exists new.
Qed.

End ReconnectLoop.

Lemma master_turn env ctx (c0 : MasterSlave.MasterSlaveConnection) t0 :
  turn_spec t0
    ('(err, conn) <- call (Pgx.NewConnection (Master (MasterSlave.config c0)))
                          (PgxConnection.Connect env ctx) ;;
     match err with
     | None =>
       c <- get ;;
       match MasterSlave.masterConn c with
       | Some old => _ <- call old (PgxConnection.Close env) ;; ret tt
       | None => ret tt
       end ;;
       MasterSlave.store_masterConn (Some conn) ;;
       MasterSlave.store_role "master" ;;
       emit (EvPrintln "Successfully reconnected to master") ;;
       ret (Return tt)
     | Some _ =>
       emit (EvSleep (FailoverInterval (MasterSlave.config c0))) ;;
       ret (Next tt)
     end)
    (reconnected MasterSide)
    (old_close_events env MasterSide)
    (fun new => store_event MasterSide (Some new) :: after_store MasterSide).
Proof.
  intros c tr Ht.
  destruct (pgx_Connect_events env ctx
              (Pgx.NewConnection (Master (MasterSlave.config c0))) tr)
    as (r & conn' & evs & E & F & _).
  assert (F' : Forall (retry_event t0) evs).
  { eapply Forall_impl; [| exact F]. intros e He.
    apply build_retry_event. eapply build_event_mono; eauto. }
  destruct r as [[err |] | msg].
  - exists (evs ++ [EvSleep (FailoverInterval (MasterSlave.config c0))]).
    split; [apply Forall_app; split; [exact F' | repeat constructor] |].
    left. unfold bind at 1, call at 1. rewrite E.
    unfold bind, emit, ret. now rewrite app_assoc.
  - exists evs. split; [exact F' |]. right; right. exists conn'.
    unfold bind at 1, call at 1. rewrite E.
    unfold old_close_events, slot_of, reconnected, store_event, after_store.
    unfold bind at 1, get. unfold bind at 1.
    destruct (MasterSlave.masterConn c) as [old |];
      unfold bind, call, MasterSlave.store_masterConn, MasterSlave.store_role,
        bind, modify, emit, ret; rewrite ?pgx_Close_run;
      norm_trace; rewrite ?app_nil_r; reflexivity.
  - exists evs. split; [exact F' |]. right; left. exists msg.
    unfold bind at 1, call at 1. now rewrite E.
Qed.

Lemma slave_turn env ctx (c0 : MasterSlave.MasterSlaveConnection) t0 :
  turn_spec t0
    ('(err, conn) <- call (Pgx.NewConnection (Slave (MasterSlave.config c0)))
                          (PgxConnection.Connect env ctx) ;;
     match err with
     | None =>
       c <- get ;;
       match MasterSlave.slaveConn c with
       | Some old => _ <- call old (PgxConnection.Close env) ;; ret tt
       | None => ret tt
       end ;;
       MasterSlave.store_slaveConn (Some conn) ;;
       emit (EvPrintln "Successfully reconnected to slave") ;;
       ret (Return tt)
     | Some _ =>
       emit (EvSleep (FailoverInterval (MasterSlave.config c0))) ;;
       ret (Next tt)
     end)
    (reconnected SlaveSide)
    (old_close_events env SlaveSide)
    (fun new => store_event SlaveSide (Some new) :: after_store SlaveSide).
Proof.
  intros c tr Ht.
  destruct (pgx_Connect_events env ctx
              (Pgx.NewConnection (Slave (MasterSlave.config c0))) tr)
    as (r & conn' & evs & E & F & _).
  assert (F' : Forall (retry_event t0) evs).
  { eapply Forall_impl; [| exact F]. intros e He.
    apply build_retry_event. eapply build_event_mono; eauto. }
  destruct r as [[err |] | msg].
  - exists (evs ++ [EvSleep (FailoverInterval (MasterSlave.config c0))]).
    split; [apply Forall_app; split; [exact F' | repeat constructor] |].
    left. unfold bind at 1, call at 1. rewrite E.
    unfold bind, emit, ret. now rewrite app_assoc.
  - exists evs. split; [exact F' |]. right; right. exists conn'.
    unfold bind at 1, call at 1. rewrite E.
    unfold old_close_events, slot_of, reconnected, store_event, after_store.
    unfold bind at 1, get. unfold bind at 1.
    destruct (MasterSlave.slaveConn c) as [old |];
      unfold bind, call, MasterSlave.store_slaveConn,
        bind, modify, emit, ret; rewrite ?pgx_Close_run;
      norm_trace; rewrite ?app_nil_r; reflexivity.
  - exists evs. split; [exact F' |]. right; left. exists msg.
    unfold bind at 1, call at 1. now rewrite E.
Qed.

(** A reconnect routine gives up (the manager is left as it was), panics
    (likewise), or succeeds: then the events of the old handle's [Close]
    come right before the store of the new handle. *)
Lemma attemptReconnect_spec env ctx sd (c : MasterSlave.MasterSlaveConnection) tr :
  exists pre, Forall (retry_event (List.length tr)) pre /\
    (attemptReconnect env ctx sd c tr = (Ok tt, c, tr ++ pre ++ [failure_line sd]) \/
     (exists msg, attemptReconnect env ctx sd c tr = (Panic msg, c, tr ++ pre)) \/
     (exists new,
        attemptReconnect env ctx sd c tr =
          (Ok tt, reconnected sd new c,
           tr ++ pre ++ old_close_events env sd c (List.length (tr ++ pre))
              ++ store_event sd (Some new) :: after_store sd))).
Proof.
  destruct sd; unfold attemptReconnect.
  - remember (MasterSlave.attemptMasterReconnect env ctx c tr) as run eqn:Hrun.
    unfold MasterSlave.attemptMasterReconnect in Hrun.
    unfold bind at 1, get in Hrun. unfold bind at 1 in Hrun.
    match type of Hrun with
    | context [for_loop ?n ?i (fun _ _ => ?B) tt c tr] =>
      destruct (reconnect_loop_spec (List.length tr) B _ _ _
                  (master_turn env ctx c (List.length tr)) n i c tr (le_n _))
        as (pre & F & [E | [(msg & E) | (new & E)]])
    end; exists pre; (split; [exact F |]); rewrite E in Hrun; subst run.
    + left. unfold emit. now rewrite app_assoc.
    + right; left. now exists msg.
    + right; right. exists new. reflexivity.
  - remember (MasterSlave.attemptSlaveReconnect env ctx c tr) as run eqn:Hrun.
    unfold MasterSlave.attemptSlaveReconnect in Hrun.
    unfold bind at 1, get in Hrun. unfold bind at 1 in Hrun.
    match type of Hrun with
    | context [for_loop ?n ?i (fun _ _ => ?B) tt c tr] =>
      destruct (reconnect_loop_spec (List.length tr) B _ _ _
                  (slave_turn env ctx c (List.length tr)) n i c tr (le_n _))
        as (pre & F & [E | [(msg & E) | (new & E)]])
    end; exists pre; (split; [exact F |]); rewrite E in Hrun; subst run.
    + left. unfold emit. now rewrite app_assoc.
    + right; left. now exists msg.
    + right; right. exists new. reflexivity.
Qed.

(** ** How long a reconnect routine sleeps *)

Lemma sleeps_app a b : sleeps (a ++ b) = sleeps a ++ sleeps b.
Proof. apply flat_map_app. Qed.

Lemma sleeps_build_events t0 evs : Forall (build_event t0) evs -> sleeps evs = [].
Proof.
  induction 1 as [| e evs He _ IH]; [reflexivity |].
  destruct e; simpl in *; try contradiction; exact IH.
Qed.

Lemma sleeps_close_events env t cn : sleeps (close_events env t cn) = [].
Proof.
  unfold close_events. destruct (Pgx.pool cn), (Pgx.conn cn); reflexivity.
Qed.

(** A loop whose turns sleep [d] when they go on and do not sleep when they
    end the loop sleeps [d] at most once per turn. *)
Lemma loop_sleeps {S} (body : M S (ctl unit unit)) (d : Duration) :
  (forall s tr, exists r s' evs,
      body s tr = (r, s', tr ++ evs) /\
      sleeps evs = match r with Ok (Next _) => [d] | _ => [] end) ->
  forall n i s tr, exists r s' evs k,
    for_loop n i (fun _ _ => body) tt s tr = (r, s', tr ++ evs) /\
    sleeps evs = repeat d k /\ k <= n /\
    (r = Ok (inl tt) \/ k < n).
Proof.
  intros Hbody. induction n as [| n IH]; intros i s tr.
  - exists (Ok (inl tt)), s, [], 0. simpl. unfold ret. rewrite app_nil_r. auto.
  - rewrite for_loop_S.
    destruct (Hbody s tr) as (r & s1 & evs & E & Hs). rewrite E.
    destruct r as [[[] | [] | []] | msg].
    + destruct (IH (i + 1)%Z s1 (tr ++ evs)) as (r2 & s2 & evs2 & k & E2 & Hs2 & Hk & Hr).
      exists r2, s2, (evs ++ evs2), (Datatypes.S k).
      rewrite E2, app_assoc, sleeps_app, Hs, Hs2.
      repeat split; auto; [lia |]. destruct Hr; [auto | right; lia].
    + exists (Ok (inl tt)), s1, evs, 0. rewrite Hs.
      repeat split; auto. lia.
    + exists (Ok (inr tt)), s1, evs, 0. rewrite Hs.
      repeat split; auto; [lia | right; lia].
    + exists (Panic msg), s1, evs, 0. rewrite Hs.
      repeat split; auto; [lia | right; lia].
Qed.

(** A reconnect routine makes at most [FailoverRetries] builds and sleeps
    [FailoverInterval] after each build that failed, and at no other time:
    [k] sleeps, with [k] at most the number of retries. *)
Lemma attemptReconnect_sleeps env ctx sd (c : MasterSlave.MasterSlaveConnection) tr :
  exists r c' evs k,
    attemptReconnect env ctx sd c tr = (r, c', tr ++ evs) /\
    sleeps evs = repeat (FailoverInterval (MasterSlave.config c)) k /\
    k <= Z.to_nat (FailoverRetries (MasterSlave.config c)).
Proof.
  destruct sd; unfold attemptReconnect.
  - remember (MasterSlave.attemptMasterReconnect env ctx c tr) as run eqn:Hrun.
    unfold MasterSlave.attemptMasterReconnect in Hrun.
    unfold bind at 1, get in Hrun. unfold bind at 1 in Hrun.
    match type of Hrun with
    | context [for_loop ?n ?i (fun _ _ => ?B) tt c tr] =>
      pose proof (fun Hb => loop_sleeps B
                    (FailoverInterval (MasterSlave.config c)) Hb n i c tr) as L
    end.
    destruct L as (r & c' & evs & k & E & Hs & Hk & _).
    { intros s tr0.
      destruct (pgx_Connect_events env ctx
                  (Pgx.NewConnection (Master (MasterSlave.config c))) tr0)
        as (r & conn' & evs & E & F & _).
      apply sleeps_build_events in F.
      unfold bind at 1, call at 1. rewrite E.
      destruct r as [[err |] | msg].
      - unfold bind, emit, ret. do 3 eexists. rewrite <- app_assoc.
        split; [reflexivity |]. now rewrite sleeps_app, F.
      - unfold bind at 1, get. unfold bind at 1.
        destruct (MasterSlave.masterConn s) as [old |];
          unfold bind, call, MasterSlave.store_masterConn,
            MasterSlave.store_role, bind, modify, emit, ret;
          rewrite ?pgx_Close_run; norm_trace; do 3 eexists;
          (split; [reflexivity |]);
          rewrite ?sleeps_app, ?F, ?sleeps_close_events; reflexivity.
      - do 3 eexists. split; [reflexivity | exact F]. }
    rewrite E in Hrun. subst run.
    destruct r as [[[] | []] | msg]; unfold emit, ret.
    + exists (Ok tt), c', (evs ++ [failure_line MasterSide]), k.
      rewrite app_assoc, sleeps_app, Hs. simpl. rewrite app_nil_r. auto.
    + exists (Ok tt), c', evs, k. auto.
    + exists (Panic msg), c', evs, k. auto.
  - remember (MasterSlave.attemptSlaveReconnect env ctx c tr) as run eqn:Hrun.
    unfold MasterSlave.attemptSlaveReconnect in Hrun.
    unfold bind at 1, get in Hrun. unfold bind at 1 in Hrun.
    match type of Hrun with
    | context [for_loop ?n ?i (fun _ _ => ?B) tt c tr] =>
      pose proof (fun Hb => loop_sleeps B
                    (FailoverInterval (MasterSlave.config c)) Hb n i c tr) as L
    end.
    destruct L as (r & c' & evs & k & E & Hs & Hk & _).
    { intros s tr0.
      destruct (pgx_Connect_events env ctx
                  (Pgx.NewConnection (Slave (MasterSlave.config c))) tr0)
        as (r & conn' & evs & E & F & _).
      apply sleeps_build_events in F.
      unfold bind at 1, call at 1. rewrite E.
      destruct r as [[err |] | msg].
      - unfold bind, emit, ret. do 3 eexists. rewrite <- app_assoc.
        split; [reflexivity |]. now rewrite sleeps_app, F.
      - unfold bind at 1, get. unfold bind at 1.
        destruct (MasterSlave.slaveConn s) as [old |];
          unfold bind, call, MasterSlave.store_slaveConn,
            bind, modify, emit, ret;
          rewrite ?pgx_Close_run; norm_trace; do 3 eexists;
          (split; [reflexivity |]);
          rewrite ?sleeps_app, ?F, ?sleeps_close_events; reflexivity.
      - do 3 eexists. split; [reflexivity | exact F]. }
    rewrite E in Hrun. subst run.
    destruct r as [[[] | []] | msg]; unfold emit, ret.
    + exists (Ok tt), c', (evs ++ [failure_line SlaveSide]), k.
      rewrite app_assoc, sleeps_app, Hs. simpl. rewrite app_nil_r. auto.
    + exists (Ok tt), c', evs, k. auto.
    + exists (Panic msg), c', evs, k. auto.
Qed.

(** ** C4: the old handle and the new one *)

(** C4 fails on the code: in a successful reconnect of the master, the old
    pool (handle 1) and the old direct connection are closed while the old
    handle is still in the slot; the new handle (handle 6) is stored
    afterwards. *)
Lemma reconnect_closes_old_before_store :
  let old := Pgx.mkConnection (Some 1) (Some 1) (Some Sample.endpoint) in
  let new := Pgx.mkConnection (Some 6) (Some 6) (Some Sample.endpoint) in
  let evs :=
    [EvAttempt (WithTimeout health_ctx 7%Z) Sample.endpoint None;
     EvPoolClose 1; EvConnClose 1 None;
     EvStoreMaster (Some new); EvStoreRole "master";
     EvPrintln "Successfully reconnected to master"] in
  MasterSlave.masterConn SampleManager.connected = Some old /\
  attemptReconnect SampleManager.pools_down health_ctx MasterSide
    SampleManager.connected connected_trace =
    (Ok tt, reconnected MasterSide new SampleManager.connected,
     connected_trace ++ evs) /\
  closed_only_after_install old false evs = false.
Proof. repeat split; vm_compute; reflexivity. Qed.

Lemma retry_event_not_close t old e :
  created_before t old -> retry_event t e -> ~ closes_handle_of old e.
Proof.
  intros [Hp Hq] He Hc. destruct e; simpl in *; try contradiction.
  - apply Hp in Hc. lia.
  - apply Hq in Hc. lia.
Qed.

Lemma retry_event_not_store t e : retry_event t e -> ~ is_store e.
Proof. destruct e; simpl; auto. Qed.

Lemma pool_closes_app p a b :
  pool_closes p (a ++ b) = pool_closes p a + pool_closes p b.
Proof. unfold pool_closes. now rewrite filter_app, length_app. Qed.

Lemma conn_closes_app q a b :
  conn_closes q (a ++ b) = conn_closes q a + conn_closes q b.
Proof. unfold conn_closes. now rewrite filter_app, length_app. Qed.

Lemma pool_closes_none old p evs :
  Pgx.pool old = Some p ->
  Forall (fun e => ~ closes_handle_of old e) evs ->
  pool_closes p evs = 0.
Proof.
  intros Hp. induction 1 as [| e evs He _ IH]; [reflexivity |].
  unfold pool_closes in *. cbn [filter].
  destruct e; try exact IH.
  destruct (Nat.eqb_spec p0 p) as [-> | _]; [| exact IH].
  exfalso. apply He. exact Hp.
Qed.

Lemma conn_closes_none old q evs :
  Pgx.conn old = Some q ->
  Forall (fun e => ~ closes_handle_of old e) evs ->
  conn_closes q evs = 0.
Proof.
  intros Hq. induction 1 as [| e evs He _ IH]; [reflexivity |].
  unfold conn_closes in *. cbn [filter].
  destruct e; try exact IH.
  destruct (Nat.eqb_spec q0 q) as [-> | _]; [| exact IH].
  exfalso. apply He. exact Hq.
Qed.

Lemma store_event_in_tail sd new new0 :
  In (store_event sd (Some new)) (store_event sd (Some new0) :: after_store sd) ->
  new = new0.
Proof.
  destruct sd; simpl; intros [H | H]; try (injection H; congruence);
    repeat (destruct H as [H | H]; try discriminate); contradiction.
Qed.

(** C4 as amended.  In a successful reconnect of either side (one that
    stores a new handle), the events are: builds that failed, with their
    sleeps; the old handle's [Close]; the store of the new handle (and, on
    the master side, of the role); a log line.  So the old handle's [Close]
    runs exactly once, and it runs immediately before the new handle is
    stored, not after. *)
Theorem reconnect_closes_then_swaps (env : Env) (ctx : context) (sd : side)
    (c c' : MasterSlave.MasterSlaveConnection) (tr evs : trace)
    (old new : Pgx.Connection) (r : result unit) :
  slot_of sd c = Some old ->
  created_before (List.length tr) old ->
  attemptReconnect env ctx sd c tr = (r, c', tr ++ evs) ->
  In (store_event sd (Some new)) evs ->
  exists pre,
    evs = pre ++ close_events env (List.length (tr ++ pre)) old
              ++ store_event sd (Some new) :: after_store sd /\
    Forall (fun e => ~ closes_handle_of old e /\ ~ is_store e) pre /\
    slot_of sd c' = Some new /\
    (forall p, Pgx.pool old = Some p -> pool_closes p evs = 1) /\
    (forall q, Pgx.conn old = Some q -> conn_closes q evs = 1).
Proof.
  intros Hold Hcb Hrun Hin.
  destruct (attemptReconnect_spec env ctx sd c tr)
    as (pre & F & [E | [(msg & E) | (new0 & E)]]);
    rewrite E in Hrun; injection Hrun as _ Hc Hevs;
    apply app_inv_head in Hevs; subst evs.
  - exfalso. apply in_app_or in Hin. destruct Hin as [Hin | [Hin | []]].
    + rewrite Forall_forall in F. apply F in Hin.
      apply retry_event_not_store in Hin. destruct sd; apply Hin; exact I.
    + destruct sd; discriminate.
  - exfalso. rewrite Forall_forall in F. apply F in Hin.
    apply retry_event_not_store in Hin. destruct sd; apply Hin; exact I.
  - unfold old_close_events in *. rewrite Hold in *.
    assert (new = new0) as <-.
    { apply in_app_or in Hin. destruct Hin as [Hin | Hin].
      { exfalso. rewrite Forall_forall in F. apply F in Hin.
        apply retry_event_not_store in Hin. destruct sd; apply Hin; exact I. }
      apply in_app_or in Hin. destruct Hin as [Hin | Hin].
      { exfalso. unfold close_events in Hin.
        destruct sd, (Pgx.pool old), (Pgx.conn old); simpl in Hin;
          repeat (destruct Hin as [Hin | Hin]; try discriminate); contradiction. }
      eapply store_event_in_tail; eauto. }
    assert (Fc : Forall (fun e => ~ closes_handle_of old e) pre).
    { eapply Forall_impl; [| exact F]. intros e He.
      eapply retry_event_not_close; eauto. }
    subst c'. exists pre. split; [reflexivity |]. split; [| split; [| split]].
    + rewrite Forall_forall in *. intros e He. split; [now apply Fc |].
      eapply retry_event_not_store. now apply F.
    + destruct sd; reflexivity.
    + intros p Hp. rewrite !pool_closes_app, (pool_closes_none old p pre Hp Fc).
      unfold close_events. rewrite Hp.
      destruct sd, (Pgx.conn old); unfold pool_closes; simpl;
        rewrite Nat.eqb_refl; reflexivity.
    + intros q Hq. rewrite !conn_closes_app, (conn_closes_none old q pre Hq Fc).
      unfold close_events. rewrite Hq.
      destruct sd, (Pgx.pool old); unfold conn_closes; simpl;
        rewrite Nat.eqb_refl; reflexivity.
Qed.

Lemma reconnect_closes_then_swaps_witness :
  let old := Pgx.mkConnection (Some 1) (Some 1) (Some Sample.endpoint) in
  let new := Pgx.mkConnection (Some 6) (Some 6) (Some Sample.endpoint) in
  let evs :=
    [EvAttempt (WithTimeout health_ctx 7%Z) Sample.endpoint None;
     EvPoolClose 1; EvConnClose 1 None;
     EvStoreMaster (Some new); EvStoreRole "master";
     EvPrintln "Successfully reconnected to master"] in
  exists pre,
    evs = pre ++ close_events SampleManager.pools_down
                   (List.length (connected_trace ++ pre)) old
              ++ store_event MasterSide (Some new) :: after_store MasterSide /\
    Forall (fun e => ~ closes_handle_of old e /\ ~ is_store e) pre /\
    slot_of MasterSide (reconnected MasterSide new SampleManager.connected)
      = Some new /\
    (forall p, Pgx.pool old = Some p -> pool_closes p evs = 1) /\
    (forall q, Pgx.conn old = Some q -> conn_closes q evs = 1).
Proof.
  apply (reconnect_closes_then_swaps SampleManager.pools_down health_ctx
           MasterSide SampleManager.connected _ connected_trace _ _ _ (Ok tt)).
  - reflexivity.
  - split; intros h Hh; injection Hh as <-; vm_compute; lia.
  - vm_compute. reflexivity.
  - simpl. auto.
Defined.

(** ** C2: leaving the degraded state *)

Lemma replica_down_probe env t c ctx t' :
  replica_down env t c -> t <= t' ->
  probe_result env ctx (MasterSlave.slaveConn c) t' = false.
Proof.
  intros H Ht. unfold probe_result.
  destruct (MasterSlave.slaveConn c) as [[[p |] q cfg] |] eqn:Hc;
    try reflexivity.
  specialize (H _ p Hc eq_refl t' ctx Ht).
  destruct (pool_ping env t' ctx p); [reflexivity | congruence].
Qed.

(** C2 fails on the code: in the degraded state, with the old primary pool
    still failing its probe, the replica answering and the primary endpoint
    accepting new connections, a tick makes no connection attempt and leaves
    the role as it is. *)
Lemma degraded_tick_makes_no_attempt :
  MasterSlave.role SampleManager.degraded = "slave" /\
  probe_result SampleManager.primary_pool_down health_ctx
    (MasterSlave.masterConn SampleManager.degraded) 7 = false /\
  (forall t ctx cfg,
     dial SampleManager.primary_pool_down t ctx cfg = Established) /\
  exists evs,
    MasterSlave.checkHealth SampleManager.primary_pool_down
      SampleManager.degraded connected_trace =
      (Ok tt, SampleManager.degraded, connected_trace ++ evs) /\
    attempts evs = 0 /\
    MasterSlave.role SampleManager.degraded <> "master".
Proof.
  split; [reflexivity |]. split; [reflexivity |]. split; [reflexivity |].
  eexists. split; [vm_compute; reflexivity |].
  split; [reflexivity | discriminate].
Qed.

(** While the replica answers, a tick never tries to reconnect: it sets the
    role to the degraded value or leaves the manager alone. *)
Lemma no_reconnect_while_replica_up env (c : MasterSlave.MasterSlaveConnection) tr :
  replica_up env (List.length tr) c ->
  exists c' evs,
    MasterSlave.checkHealth env c tr = (Ok tt, c', tr ++ evs) /\
    attempts evs = 0 /\
    (c' = c \/ c' = MasterSlave.set_role "slave" c).
Proof.
  intros Hup. rewrite checkHealth_run. cbv zeta.
  destruct (replica_up_probe env (List.length tr) c health_ctx
              (List.length ((tr ++ [EvLock]) ++
                 probe_events env health_ctx (MasterSlave.masterConn c)
                   (List.length (tr ++ [EvLock])))) Hup)
    as (Hsh & p & Hev); [rewrite !length_app; simpl; lia |].
  rewrite Hsh, Hev. unfold health_decision.
  set (mh := probe_result env health_ctx (MasterSlave.masterConn c)
               (List.length (tr ++ [EvLock]))).
  assert (Hpm : attempts (probe_events env health_ctx (MasterSlave.masterConn c)
                  (List.length (tr ++ [EvLock]))) = 0).
  { unfold probe_events. destruct (MasterSlave.masterConn c) as [[[q |] ? ?] |];
      reflexivity. }
  assert (Happ : forall a b, attempts (a ++ b) = attempts a + attempts b).
  { intros a b. unfold attempts. now rewrite schedule_app, filter_app, length_app. }
  destruct mh, (AutoFailover (MasterSlave.config c)); cbn [negb andb];
    unfold defer, MasterSlave.store_role, bind, modify, emit, ret;
    norm_trace; do 2 eexists;
    (split; [reflexivity | split; [| auto]]);
    (change (EvLock :: ?x) with ([EvLock] ++ x) ||
     idtac);
    rewrite ?Happ, ?Hpm; reflexivity.
Qed.

(** When the primary endpoint accepts the first build, the master's
    reconnect routine succeeds with it, without any sleep. *)
Lemma attemptMasterReconnect_first_build env ctx
    (c : MasterSlave.MasterSlaveConnection) tr m :
  Master (MasterSlave.config c) = Some m ->
  Validate m = None ->
  (0 <= MaxRetries m)%Z ->
  (1 <= FailoverRetries (MasterSlave.config c))%Z ->
  dial env (List.length tr) (WithTimeout ctx (ConnectTimeout m)) m = Established ->
  let new := Pgx.mkConnection (Some (List.length tr)) (Some (List.length tr))
               (Some m) in
  MasterSlave.attemptMasterReconnect env ctx c tr =
    (Ok tt, reconnected MasterSide new c,
     tr ++ EvAttempt (WithTimeout ctx (ConnectTimeout m)) m None
        :: old_close_events env MasterSide c (Datatypes.S (List.length tr))
        ++ store_event MasterSide (Some new) :: after_store MasterSide).
Proof.
  intros Hm Hv Hn Hf Hd new.
  unfold MasterSlave.attemptMasterReconnect. unfold bind at 1, get.
  unfold bind at 1.
  replace (Z.to_nat (FailoverRetries (MasterSlave.config c)))
    with (Datatypes.S (Z.to_nat (FailoverRetries (MasterSlave.config c) - 1)))
    by lia.
  rewrite for_loop_S. unfold bind at 1, call at 1.
  rewrite Hm, (pgx_Connect_first_attempt env ctx m tr Hv Hn Hd).
  unfold bind at 1, get. unfold bind at 1.
  unfold old_close_events, slot_of, reconnected, store_event, after_store.
  destruct (MasterSlave.masterConn c) as [old |];
    unfold bind, call, MasterSlave.store_masterConn, MasterSlave.store_role,
      bind, modify, emit, ret; rewrite ?pgx_Close_run;
    rewrite ?length_app; cbn [List.length]; rewrite ?Nat.add_1_r;
    norm_trace; reflexivity.
Qed.

Lemma attempts_app a b : attempts (a ++ b) = attempts a + attempts b.
Proof. unfold attempts. now rewrite schedule_app, filter_app, length_app. Qed.

Lemma attempts_probe_events env ctx x t : attempts (probe_events env ctx x t) = 0.
Proof.
  unfold probe_events. destruct x as [[[p |] q cfg] |]; reflexivity.
Qed.

Lemma attempts_close_events env t cn : attempts (close_events env t cn) = 0.
Proof.
  unfold close_events. destruct (Pgx.pool cn), (Pgx.conn cn); reflexivity.
Qed.

Lemma no_sleep_probe_events env ctx x t :
  Forall (fun e => ~ is_sleep e) (probe_events env ctx x t).
Proof.
  unfold probe_events. destruct x as [[[p |] q cfg] |]; repeat constructor; auto.
Qed.

Lemma no_sleep_close_events env t cn :
  Forall (fun e => ~ is_sleep e) (close_events env t cn).
Proof.
  unfold close_events.
  destruct (Pgx.pool cn), (Pgx.conn cn); repeat constructor; auto.
Qed.

(** C2 as amended.  In the degraded state, on a tick that finds the primary
    failing its probe:
    - if the replica answers, no reconnect is attempted and the role stays
      degraded;
    - if the replica fails its probe too (or there is none), the primary's
      reconnect is attempted; with a valid master configuration whose
      [MaxRetries] is not negative, at least one failover retry and a
      primary endpoint that accepts new connections, the first build
      succeeds: after one attempt and before any sleep the new handle is
      stored and the role is set back to the master value, and both are
      still so when the tick returns. *)
Theorem degraded_recovery (env : Env)
    (c : MasterSlave.MasterSlaveConnection) (tr : trace) :
  MasterSlave.role c = "slave" ->
  master_down env (List.length tr) c ->
  (replica_up env (List.length tr) c ->
   exists c' evs,
     MasterSlave.checkHealth env c tr = (Ok tt, c', tr ++ evs) /\
     attempts evs = 0 /\
     MasterSlave.role c' = "slave")
  /\
  (forall m,
     replica_down env (List.length tr) c ->
     Master (MasterSlave.config c) = Some m ->
     Validate m = None ->
     (0 <= MaxRetries m)%Z ->
     (1 <= FailoverRetries (MasterSlave.config c))%Z ->
     endpoint_reachable env (List.length tr) m ->
     exists r c' pre new post,
       MasterSlave.checkHealth env c tr =
         (r, c',
          tr ++ pre ++ EvStoreMaster (Some new) :: EvStoreRole "master" :: post) /\
       attempts pre = 1 /\
       Forall (fun e => ~ is_sleep e) pre /\
       Pgx.pool new <> None /\
       MasterSlave.masterConn c' = Some new /\
       MasterSlave.role c' = "master").
Proof.
  intros Hrole Hdown. split.
  - intros Hup.
    destruct (no_reconnect_while_replica_up env c tr Hup)
      as (c' & evs & E & Ha & Hc).
    exists c', evs. repeat split; auto.
    destruct Hc as [-> | ->]; [exact Hrole | reflexivity].
  - intros m Hrdown Hm Hv Hn Hf Hreach.
    rewrite checkHealth_run. cbv zeta.
    rewrite (master_down_probe env (List.length tr) c); [| assumption |
      rewrite length_app; simpl; lia].
    rewrite (replica_down_probe env (List.length tr) c); [| assumption |
      rewrite !length_app; simpl; lia].
    unfold health_decision. cbn [negb andb].
    set (pm := probe_events env health_ctx (MasterSlave.masterConn c)
                 (List.length (tr ++ [EvLock]))).
    set (ps := probe_events env health_ctx (MasterSlave.slaveConn c)
                 (List.length ((tr ++ [EvLock]) ++ pm))).
    set (tr4 := (((tr ++ [EvLock]) ++ pm) ++ ps) ++
                [EvPrintln
                   "Both master and slave connections are down, attempting to reconnect"]).
    set (new := Pgx.mkConnection (Some (List.length tr4)) (Some (List.length tr4))
                  (Some m)).
    assert (Hlen : List.length tr <= List.length tr4).
    { unfold tr4. rewrite !length_app. lia. }
    unfold defer. unfold bind at 1, emit at 1. fold tr4.
    unfold bind at 1.
    rewrite (attemptMasterReconnect_first_build env health_ctx c tr4 m
               Hm Hv Hn Hf (Hreach _ _ Hlen)).
    fold new.
    set (I := fun c0 : MasterSlave.MasterSlaveConnection =>
                MasterSlave.role c0 = "master" /\
                MasterSlave.masterConn c0 = Some new).
    assert (Hs : sat 0
              (c0 <- get ;;
               if negb (MasterSlave.is_nil (MasterSlave.slaveConn c0))
               then MasterSlave.attemptSlaveReconnect env health_ctx
               else ret tt) I inner_event).
    { sat_auto. apply attemptSlaveReconnect_sat.
      intros v c0 [H1 H2]. split; assumption. }
    match goal with
    | |- context [(c0 <- get ;; _) ?c1 ?tr5] =>
      destruct (Hs c1 tr5 (Nat.le_0_l _)) as (r & c' & evs & E & [Hr Hmc] & _);
        [split; reflexivity |]
    end.
    rewrite E.
    exists r, c',
      (EvLock :: pm ++ ps ++
       [EvPrintln
          "Both master and slave connections are down, attempting to reconnect";
        EvAttempt (WithTimeout health_ctx (ConnectTimeout m)) m None] ++
       old_close_events env MasterSide c (Datatypes.S (List.length tr4))),
      new,
      (EvPrintln "Successfully reconnected to master" :: evs ++ [EvUnlock]).
    split; [| split; [| split; [| split; [discriminate | split; assumption]]]].
    + unfold emit, tr4, store_event, after_store. norm_trace.
      destruct r; norm_trace; reflexivity.
    + change (EvLock :: ?x) with ([EvLock] ++ x).
      rewrite !attempts_app. unfold pm, ps. rewrite !attempts_probe_events.
      unfold old_close_events. destruct (slot_of MasterSide c);
        rewrite ?attempts_close_events; reflexivity.
    + constructor; [simpl; auto |].
      apply Forall_app; split; [apply no_sleep_probe_events |].
      apply Forall_app; split; [apply no_sleep_probe_events |].
      apply Forall_app; split; [repeat constructor; simpl; auto |].
      unfold old_close_events. destruct (slot_of MasterSide c);
        [apply no_sleep_close_events | constructor].
Qed.

Lemma degraded_recovery_witness :
  (exists c' evs,
     MasterSlave.checkHealth SampleManager.primary_pool_down
       SampleManager.degraded connected_trace =
       (Ok tt, c', connected_trace ++ evs) /\
     attempts evs = 0 /\
     MasterSlave.role c' = "slave")
  /\
  (exists r c' pre new post,
     MasterSlave.checkHealth SampleManager.pools_down
       SampleManager.degraded connected_trace =
       (r, c',
        connected_trace ++ pre
          ++ EvStoreMaster (Some new) :: EvStoreRole "master" :: post) /\
     attempts pre = 1 /\
     Forall (fun e => ~ is_sleep e) pre /\
     Pgx.pool new <> None /\
     MasterSlave.masterConn c' = Some new /\
     MasterSlave.role c' = "master").
Proof.
  split.
  - refine (proj1 (degraded_recovery SampleManager.primary_pool_down
                     SampleManager.degraded connected_trace eq_refl _) _).
    + intros cn p Hc Hp t' ctx _. injection Hc as <-. injection Hp as <-.
      simpl. discriminate.
    + exists (Pgx.mkConnection (Some 3) (Some 3) (Some Sample.replica_endpoint)), 3.
      repeat split; reflexivity.
  - refine (proj2 (degraded_recovery SampleManager.pools_down
                     SampleManager.degraded connected_trace eq_refl _)
              Sample.endpoint _ eq_refl eq_refl _ _ _).
    + intros cn p _ _ t' ctx _. simpl. discriminate.
    + intros cn p _ _ t' ctx _. simpl. discriminate.
    + simpl. lia.
    + simpl. lia.
    + intros t' ctx _. reflexivity.
Defined.

(** * Further properties of the code

    Properties of the code beyond the statements C1 to C10: what the
    validators accept, what the accessors leave alone, how [Connect],
    [Close] and the health check compose, and what holds along every run of
    a manager. *)

(** ** Configurations *)

(** X1.  [Validate] accepts a configuration exactly when host, user and
    database are not empty, the port is between 1 and 65535, at least one
    open connection is allowed, and the number of idle connections is
    between 0 and the number of open ones.  Password, SSL mode, timeouts and
    retry settings are not looked at.  What it returns otherwise is a plain
    error, not a wrapped one. *)
Theorem Validate_accepts (c : Config) :
  (Validate c = None <-> valid_endpoint c) /\
  (forall e, Validate c = Some e -> exists msg, e = errorString msg).
Proof.
  unfold Validate, valid_endpoint. split.
  - destruct (String.eqb (Host c) "") eqn:Hh.
    { apply String.eqb_eq in Hh. split; [discriminate | tauto]. }
    apply String.eqb_neq in Hh.
    destruct ((Port c <=? 0)%Z || (65535 <? Port c)%Z) eqn:Hp.
    { apply orb_true_iff in Hp. split; [discriminate |].
      intros (_ & Hr & _). destruct Hp as [Hp | Hp]; lia. }
    apply orb_false_iff in Hp. destruct Hp as [Hp1 Hp2].
    destruct (String.eqb (User c) "") eqn:Hu.
    { apply String.eqb_eq in Hu. split; [discriminate | tauto]. }
    apply String.eqb_neq in Hu.
    destruct (String.eqb (Database c) "") eqn:Hd.
    { apply String.eqb_eq in Hd. split; [discriminate | tauto]. }
    apply String.eqb_neq in Hd.
    destruct (MaxOpenConns c <=? 0)%Z eqn:Ho.
    { split; [discriminate |]. intros (_ & _ & _ & _ & H & _). lia. }
    destruct (MaxIdleConns c <? 0)%Z eqn:Hi.
    { split; [discriminate |]. intros (_ & _ & _ & _ & _ & H). lia. }
    destruct (MaxOpenConns c <? MaxIdleConns c)%Z eqn:Hio.
    { split; [discriminate |]. intros (_ & _ & _ & _ & _ & H). lia. }
    split; [intros _ | reflexivity].
    repeat split; auto; lia.
  - intros e.
    repeat match goal with
    | |- context [if ?b then _ else _] => destruct b
    end; intros H; inversion H; eexists; reflexivity.
Qed.

(** X2.  The manager's configuration is accepted exactly when the master
    configuration is there and valid and, if a slave connection is wanted,
    the slave configuration is there and valid.  Without
    [UseSlaveConnection] the slave configuration is not looked at, and the
    failover and health-check settings never are: two configurations with
    the same endpoints get the same verdict. *)
Theorem ValidateMasterSlave_accepts (c : MasterSlaveConfig) :
  (ValidateMasterSlave c = None <->
   (exists m, Master c = Some m /\ Validate m = None) /\
   (UseSlaveConnection c = true ->
    exists s, Slave c = Some s /\ Validate s = None)) /\
  (forall c', same_endpoints c c' ->
     ValidateMasterSlave c' = ValidateMasterSlave c).
Proof.
  unfold ValidateMasterSlave. split.
  - destruct (Master c) as [m |].
    2:{ split; [discriminate |]. intros [(m & H & _) _]. discriminate. }
    destruct (Validate m) eqn:Hm.
    { split; [discriminate |]. intros [(m' & H & Hv) _]. congruence. }
    destruct (UseSlaveConnection c).
    2:{ split; [| reflexivity]. intros _. split; [eauto | discriminate]. }
    destruct (Slave c) as [s |].
    2:{ split; [discriminate |]. intros [_ H].
        destruct (H eq_refl) as (s & Hs & _). discriminate. }
    destruct (Validate s) eqn:Hs.
    { split; [discriminate |]. intros [_ H].
      destruct (H eq_refl) as (s' & Hs' & Hv). congruence. }
    split; [| reflexivity]. intros _. split; eauto.
  - intros c' (Hm & Hu & Hs). rewrite <- Hm, <- Hu.
    destruct (Master c) as [m |]; [| reflexivity].
    destruct (Validate m); [reflexivity |].
    destruct (UseSlaveConnection c); [| reflexivity].
    now rewrite <- Hs.
Qed.

(** ** The read-only methods *)

(** [Ping] of the manager: the read lock, the ping of the master's pool if
    there is one, the read unlock. *)
Lemma Ping_run env ctx (c : MasterSlave.MasterSlaveConnection) tr :
  MasterSlave.Ping env ctx c tr =
    (Ok (ping_result env ctx (MasterSlave.masterConn c)
           (Datatypes.S (List.length tr))), c,
     tr ++ EvRLock
        :: probe_events env ctx (MasterSlave.masterConn c)
             (Datatypes.S (List.length tr))
        ++ [EvRUnlock]).
Proof.
  unfold MasterSlave.Ping, ping_result, probe_events.
  unfold bind at 1, emit at 1, defer. unfold bind at 1, get.
  destruct (MasterSlave.masterConn c) as [[[p |] q cfg] |];
    unfold bind, call, PgxConnection.Ping, bind, get, now, emit, ret;
    cbn [Pgx.pool]; rewrite ?length_app; cbn [List.length];
    rewrite ?Nat.add_1_r; norm_trace; reflexivity.
Qed.

(** [IsHealthy] of the manager: the master is probed first; the slave is
    probed only when that fails and [AutoFailover] is on. *)
Lemma IsHealthy_run env ctx (c : MasterSlave.MasterSlaveConnection) tr :
  let t1 := Datatypes.S (List.length tr) in
  let mh := probe_result env ctx (MasterSlave.masterConn c) t1 in
  let pm := probe_events env ctx (MasterSlave.masterConn c) t1 in
  let t2 := t1 + List.length pm in
  let sh := probe_result env ctx (MasterSlave.slaveConn c) t2 in
  let ps := probe_events env ctx (MasterSlave.slaveConn c) t2 in
  MasterSlave.IsHealthy env ctx c tr =
    (Ok (mh || (AutoFailover (MasterSlave.config c) && sh)), c,
     tr ++ EvRLock
        :: pm
        ++ (if negb mh && AutoFailover (MasterSlave.config c) then ps else [])
        ++ [EvRUnlock]).
Proof.
  cbv zeta. unfold MasterSlave.IsHealthy.
  unfold bind at 1, emit at 1, defer. unfold bind at 1, get.
  unfold bind at 1. rewrite probe_run.
  rewrite length_app. cbn [List.length]. rewrite Nat.add_1_r.
  destruct (probe_result env ctx (MasterSlave.masterConn c)
              (Datatypes.S (List.length tr))) eqn:Hm; cbn [negb andb orb].
  { unfold ret, emit. norm_trace. reflexivity. }
  destruct (AutoFailover (MasterSlave.config c)); cbn [andb].
  2:{ unfold ret, emit. norm_trace. reflexivity. }
  unfold bind at 1. rewrite probe_run.
  rewrite !length_app. cbn [List.length].
  replace (List.length tr + 1 +
           List.length (probe_events env ctx (MasterSlave.masterConn c)
                          (Datatypes.S (List.length tr))))
    with (Datatypes.S (List.length tr) +
          List.length (probe_events env ctx (MasterSlave.masterConn c)
                         (Datatypes.S (List.length tr)))) by lia.
  destruct (probe_result env ctx (MasterSlave.slaveConn c) _);
    unfold ret, emit; norm_trace; reflexivity.
Qed.

Lemma probe_events_probes env ctx x t :
  Forall (fun e => is_probe e = true) (probe_events env ctx x t) /\
  List.length (probe_events env ctx x t) <= 1.
Proof.
  unfold probe_events. destruct x as [[[p |] q cfg] |]; simpl; auto.
Qed.

(** X3.  Every read-only method of the manager returns without panic and
    leaves the manager as it was.  It takes the read lock first and releases
    it last; in between it does nothing but ping a pool, at most twice: no
    connection attempt, no close, no write to a slot or to the role, and
    never the exclusive lock. *)
Theorem accessor_read_only (env : Env) (a : accessor)
    (c : MasterSlave.MasterSlaveConnection) (tr : trace) :
  exists pings,
    run_accessor env a c tr = (Ok tt, c, tr ++ EvRLock :: pings ++ [EvRUnlock]) /\
    Forall (fun e => is_probe e = true) pings /\
    List.length pings <= 2.
Proof.
  destruct a; cbn [run_accessor]; unfold bind at 1.
  - rewrite Ping_run. eexists. split; [reflexivity |].
    destruct (probe_events_probes env ctx (MasterSlave.masterConn c)
                (Datatypes.S (List.length tr))). split; [assumption | lia].
  - rewrite IsHealthy_run. cbv zeta.
    set (pm := probe_events env ctx (MasterSlave.masterConn c)
                 (Datatypes.S (List.length tr))).
    destruct (probe_events_probes env ctx (MasterSlave.masterConn c)
                (Datatypes.S (List.length tr))) as [F1 L1]. fold pm in F1, L1.
    destruct (probe_events_probes env ctx (MasterSlave.slaveConn c)
                (Datatypes.S (List.length tr) + List.length pm)) as [F2 L2].
    match goal with
    | |- context [pm ++ ?x ++ [EvRUnlock]] => exists (pm ++ x)
    end.
    rewrite <- app_assoc. split; [reflexivity |].
    destruct (negb _ && _); rewrite ?app_nil_r.
    + split; [apply Forall_app; auto | rewrite length_app; lia].
    + split; [assumption | lia].
  - exists []. unfold MasterSlave.GetMasterClient, bind, emit, defer, gets.
    norm_trace. auto.
  - exists []. unfold MasterSlave.GetSlaveClient, bind, emit, defer, gets.
    norm_trace. auto.
  - exists []. unfold MasterSlave.HasSlaveConnected, bind, emit, defer, get, ret.
    norm_trace. auto.
  - exists []. unfold MasterSlave.IsMaster, bind, emit, defer, get, ret.
    norm_trace. auto.
  - exists []. unfold MasterSlave.IsSlave, bind, emit, defer, get, ret.
    norm_trace. auto.
  - exists []. unfold MasterSlave.GetPool, bind, emit, defer, get.
    destruct (MasterSlave.masterConn c);
      unfold bind, call, PgxConnection.GetPool, gets, ret; norm_trace; auto.
  - exists []. unfold MasterSlave.GetConn, bind, emit, defer, get.
    destruct (MasterSlave.masterConn c);
      unfold bind, call, PgxConnection.GetConn, gets, ret; norm_trace; auto.
  - exists []. unfold MasterSlave.GetMasterPool, bind, emit, defer, get.
    destruct (MasterSlave.masterConn c);
      unfold bind, call, PgxConnection.GetPool, gets, ret; norm_trace; auto.
  - exists []. unfold MasterSlave.GetSlavePool, bind, emit, defer, get.
    destruct (MasterSlave.slaveConn c);
      unfold bind, call, PgxConnection.GetPool, gets, ret; norm_trace; auto.
Qed.

Lemma probe_result_true env ctx x t :
  probe_result env ctx x t = true <->
  exists p, In (EvPoolPing ctx p None) (probe_events env ctx x t).
Proof.
  unfold probe_result, probe_events.
  destruct x as [[[p |] q cfg] |]; simpl.
  - destruct (pool_ping env t ctx p) as [e |]; simpl.
    + split; [discriminate |]. intros (p' & [H | []]). discriminate.
    + split; [eauto | reflexivity].
  - split; [discriminate | intros (p' & [])].
  - split; [discriminate | intros (p' & [])].
Qed.

(** X4.  [IsHealthy] of the manager returns true exactly when one of the
    pings it made came back without error.  It pings the master's pool
    first; when that ping succeeds, and whenever [AutoFailover] is off, the
    slave is not pinged at all. *)
Theorem IsHealthy_short_circuit (env : Env) (ctx : context)
    (c : MasterSlave.MasterSlaveConnection) (tr : trace) :
  let t1 := Datatypes.S (List.length tr) in
  let pm := probe_events env ctx (MasterSlave.masterConn c) t1 in
  exists b evs,
    MasterSlave.IsHealthy env ctx c tr = (Ok b, c, tr ++ evs) /\
    (b = true <-> exists p, In (EvPoolPing ctx p None) evs) /\
    (AutoFailover (MasterSlave.config c) = false ->
     evs = EvRLock :: pm ++ [EvRUnlock] /\
     b = probe_result env ctx (MasterSlave.masterConn c) t1) /\
    (probe_result env ctx (MasterSlave.masterConn c) t1 = true ->
     evs = EvRLock :: pm ++ [EvRUnlock] /\ b = true).
Proof.
  intros t1 pm. rewrite IsHealthy_run. cbv zeta. fold t1. fold pm.
  set (mh := probe_result env ctx (MasterSlave.masterConn c) t1).
  set (t2 := t1 + List.length pm).
  set (sh := probe_result env ctx (MasterSlave.slaveConn c) t2).
  set (ps := probe_events env ctx (MasterSlave.slaveConn c) t2).
  do 2 eexists. split; [reflexivity |].
  assert (Hm : mh = true <-> exists p, In (EvPoolPing ctx p None) pm)
    by apply probe_result_true.
  assert (Hs : sh = true <-> exists p, In (EvPoolPing ctx p None) ps)
    by apply probe_result_true.
  split; [| split].
  - destruct mh; cbn [negb andb orb].
    + split; [intros _ | reflexivity].
      destruct (proj1 Hm eq_refl) as (p & Hp). exists p.
      right. apply in_or_app. now left.
    + destruct (AutoFailover (MasterSlave.config c)); cbn [andb].
      * rewrite Hs. split.
        { intros (p & Hp). exists p. right. apply in_or_app. right.
          apply in_or_app. now left. }
        intros (p & [Hp | Hp]); [discriminate |].
        apply in_app_or in Hp. destruct Hp as [Hp | Hp].
        { exfalso. assert (false = true) by (apply Hm; eauto). discriminate. }
        apply in_app_or in Hp. destruct Hp as [Hp | [Hp | []]];
          [eauto | discriminate].
      * split; [discriminate |].
        intros (p & [Hp | Hp]); [discriminate |].
        apply in_app_or in Hp. destruct Hp as [Hp | [Hp | []]];
          [| discriminate].
        apply Hm. eauto.
  - intros ->. rewrite andb_false_r. cbn [app]. rewrite orb_false_r. auto.
  - intros ->. auto.
Qed.

Lemma master_up_probe env t c ctx t' :
  master_up env t c -> t <= t' ->
  probe_result env ctx (MasterSlave.masterConn c) t' = true /\
  exists p, probe_events env ctx (MasterSlave.masterConn c) t' =
            [EvPoolPing ctx p None].
Proof.
  intros (cn & p & Hs & Hp & H) Ht. unfold probe_result, probe_events.
  rewrite Hs. destruct cn as [p' q cfg]. cbn in Hp. subst p'.
  rewrite (H t' ctx Ht). split; [reflexivity | now exists p].
Qed.

Lemma master_down_ping env t c ctx t' :
  master_down env t c -> t <= t' ->
  exists e, ping_result env ctx (MasterSlave.masterConn c) t' = Some e.
Proof.
  intros H Ht. unfold ping_result.
  destruct (MasterSlave.masterConn c) as [[[p |] q cfg] |] eqn:Hc; eauto.
  specialize (H _ p Hc eq_refl t' ctx Ht).
  destruct (pool_ping env t' ctx p); [eauto | congruence].
Qed.

(** X5.  [Ping] of the manager reports on the master alone, whatever the
    role.  After a failover, with the primary failing its probes and the
    replica answering, [IsHealthy] returns true while [Ping] returns an
    error. *)
Theorem degraded_Ping_fails (env : Env) (ctx : context)
    (c : MasterSlave.MasterSlaveConnection) (tr : trace) :
  AutoFailover (MasterSlave.config c) = true ->
  master_down env (List.length tr) c ->
  replica_up env (List.length tr) c ->
  exists e evs evs',
    MasterSlave.Ping env ctx c tr = (Ok (Some e), c, tr ++ evs) /\
    MasterSlave.IsHealthy env ctx c tr = (Ok true, c, tr ++ evs').
Proof.
  intros Hauto Hdown Hup.
  destruct (master_down_ping env (List.length tr) c ctx
              (Datatypes.S (List.length tr)) Hdown) as (e & He); [lia |].
  rewrite Ping_run, He, IsHealthy_run. cbv zeta.
  rewrite (master_down_probe env (List.length tr) c); [| assumption | lia].
  rewrite Hauto.
  destruct (replica_up_probe env (List.length tr) c ctx
              (Datatypes.S (List.length tr) +
               List.length (probe_events env ctx (MasterSlave.masterConn c)
                              (Datatypes.S (List.length tr)))) Hup)
    as (Hsh & _); [lia |].
  rewrite Hsh. do 3 eexists. split; reflexivity.
Qed.

Lemma degraded_Ping_fails_witness :
  exists e evs evs',
    MasterSlave.Ping SampleManager.primary_pool_down (CallerCtx 0)
      SampleManager.degraded sample_run =
      (Ok (Some e), SampleManager.degraded, sample_run ++ evs) /\
    MasterSlave.IsHealthy SampleManager.primary_pool_down (CallerCtx 0)
      SampleManager.degraded sample_run =
      (Ok true, SampleManager.degraded, sample_run ++ evs').
Proof.
  apply (degraded_Ping_fails SampleManager.primary_pool_down (CallerCtx 0)
           SampleManager.degraded sample_run).
  - reflexivity.
  - intros cn p Hc Hp t' ctx _. injection Hc as <-. injection Hp as <-.
    simpl. discriminate.
  - exists (Pgx.mkConnection (Some 3) (Some 3) (Some Sample.replica_endpoint)), 3.
    repeat split; reflexivity.
Defined.

(** ** Ticks of the health check *)

(** X6.  A tick that finds the master answering, and the slave answering
    or absent, changes nothing: it takes the lock, pings, and releases the
    lock.  In particular it leaves the role alone: a manager that went to
    the slave role stays there when the old master pool answers again. *)
Theorem healthy_tick_changes_nothing (env : Env)
    (c : MasterSlave.MasterSlaveConnection) (tr : trace) :
  master_up env (List.length tr) c ->
  MasterSlave.slaveConn c = None \/ replica_up env (List.length tr) c ->
  exists pings,
    MasterSlave.checkHealth env c tr =
      (Ok tt, c, tr ++ EvLock :: pings ++ [EvUnlock]) /\
    Forall (fun e => is_probe e = true) pings.
Proof.
  intros Hm Hs. rewrite checkHealth_run. cbv zeta.
  destruct (master_up_probe env (List.length tr) c health_ctx
              (List.length (tr ++ [EvLock])) Hm) as (Hmh & pm & Hpm);
    [rewrite length_app; lia |].
  rewrite Hmh, Hpm. unfold health_decision. cbn [negb andb].
  destruct Hs as [Hs | Hs].
  - rewrite Hs. cbn [probe_result probe_events MasterSlave.is_nil negb andb].
    unfold defer, ret, emit. exists [EvPoolPing health_ctx pm None].
    norm_trace. split; [reflexivity | repeat constructor].
  - destruct (replica_up_probe env (List.length tr) c health_ctx
                (List.length ((tr ++ [EvLock]) ++ [EvPoolPing health_ctx pm None]))
                Hs) as (Hsh & ps & Hps); [rewrite !length_app; lia |].
    rewrite Hsh, Hps. cbn [negb andb].
    unfold defer, ret, emit.
    exists [EvPoolPing health_ctx pm None; EvPoolPing health_ctx ps None].
    norm_trace. split; [reflexivity | repeat constructor].
Qed.

Lemma healthy_tick_changes_nothing_witness :
  MasterSlave.role SampleManager.degraded = "slave" /\
  exists pings,
    MasterSlave.checkHealth Sample.reachable SampleManager.degraded sample_run =
      (Ok tt, SampleManager.degraded,
       sample_run ++ EvLock :: pings ++ [EvUnlock]) /\
    Forall (fun e => is_probe e = true) pings.
Proof.
  split; [reflexivity |].
  apply (healthy_tick_changes_nothing Sample.reachable SampleManager.degraded
           sample_run).
  - exists (Pgx.mkConnection (Some 1) (Some 1) (Some Sample.endpoint)), 1.
    repeat split; reflexivity.
  - right.
    exists (Pgx.mkConnection (Some 3) (Some 3) (Some Sample.replica_endpoint)), 3.
    repeat split; reflexivity.
Defined.

(** ** After [Close] *)

(** X7.  After a first [Close] the manager answers as one that was never
    connected: [Ping] returns its own error without touching the network,
    [IsHealthy] returns false without a ping, the pool and connection
    getters return nil and [HasSlaveConnected] returns false.  The role is
    not reset. *)
Theorem closed_manager_not_connected (env : Env)
    (c : MasterSlave.MasterSlaveConnection) (tr : trace) :
  MasterSlave.healthTicker c = None \/
  MasterSlave.stopChan c = MasterSlave.ChanOpen ->
  exists r c1 tr1,
    MasterSlave.Close env c tr = (Ok r, c1, tr1) /\
    MasterSlave.role c1 = MasterSlave.role c /\
    forall ctx tr2,
      MasterSlave.Ping env ctx c1 tr2 =
        (Ok (Some (errorString "master connection not established")), c1,
         tr2 ++ [EvRLock; EvRUnlock]) /\
      MasterSlave.IsHealthy env ctx c1 tr2 =
        (Ok false, c1, tr2 ++ [EvRLock; EvRUnlock]) /\
      MasterSlave.GetPool c1 tr2 = (Ok None, c1, tr2 ++ [EvRLock; EvRUnlock]) /\
      MasterSlave.GetConn c1 tr2 = (Ok None, c1, tr2 ++ [EvRLock; EvRUnlock]) /\
      MasterSlave.GetMasterPool c1 tr2 =
        (Ok None, c1, tr2 ++ [EvRLock; EvRUnlock]) /\
      MasterSlave.GetSlavePool c1 tr2 =
        (Ok None, c1, tr2 ++ [EvRLock; EvRUnlock]) /\
      MasterSlave.HasSlaveConnected c1 tr2 =
        (Ok false, c1, tr2 ++ [EvRLock; EvRUnlock]).
Proof.
  intros Hfirst.
  pose proof (Close_run env c tr Hfirst) as E. cbv zeta in E.
  eexists _, (closed c), _. split; [exact E |]. split; [reflexivity |].
  intros ctx tr2.
  rewrite Ping_run, IsHealthy_run. cbv zeta.
  unfold closed, MasterSlave.GetPool, MasterSlave.GetConn,
    MasterSlave.GetMasterPool, MasterSlave.GetSlavePool,
    MasterSlave.HasSlaveConnected, bind, emit, defer, get, ret.
  cbn [MasterSlave.masterConn MasterSlave.slaveConn MasterSlave.config
       probe_result probe_events ping_result MasterSlave.is_nil negb andb orb app].
  rewrite andb_false_r.
  destruct (AutoFailover (MasterSlave.config c)); cbn [app];
    norm_trace; repeat split; reflexivity.
Qed.

Lemma closed_manager_not_connected_witness :
  exists r c1 tr1,
    MasterSlave.Close Sample.reachable SampleManager.connected connected_trace =
      (Ok r, c1, tr1) /\
    MasterSlave.role c1 = MasterSlave.role SampleManager.connected /\
    forall ctx tr2,
      MasterSlave.Ping Sample.reachable ctx c1 tr2 =
        (Ok (Some (errorString "master connection not established")), c1,
         tr2 ++ [EvRLock; EvRUnlock]) /\
      MasterSlave.IsHealthy Sample.reachable ctx c1 tr2 =
        (Ok false, c1, tr2 ++ [EvRLock; EvRUnlock]) /\
      MasterSlave.GetPool c1 tr2 = (Ok None, c1, tr2 ++ [EvRLock; EvRUnlock]) /\
      MasterSlave.GetConn c1 tr2 = (Ok None, c1, tr2 ++ [EvRLock; EvRUnlock]) /\
      MasterSlave.GetMasterPool c1 tr2 =
        (Ok None, c1, tr2 ++ [EvRLock; EvRUnlock]) /\
      MasterSlave.GetSlavePool c1 tr2 =
        (Ok None, c1, tr2 ++ [EvRLock; EvRUnlock]) /\
      MasterSlave.HasSlaveConnected c1 tr2 =
        (Ok false, c1, tr2 ++ [EvRLock; EvRUnlock]).
Proof.
  apply (closed_manager_not_connected Sample.reachable SampleManager.connected
           connected_trace).
  right. reflexivity.
Defined.

(** ** The retry loop, whatever the attempts do *)

Section RetryTotal.

Variable env : Env.
Context {S V : Type}.
Variable attempt : M S (V * option error).
Variable ctx : context.
Variable maxRetries : Z.
Variable interval : Duration.
Variable s0 : S.

(** What is known of an attempt started at time [t]: [P t] holds of its
    events, [Q t v e evs] of its results [v] and [e] and its events. *)
Variable P : nat -> event -> Prop.
Variable Q : nat -> V -> option error -> trace -> Prop.

(** On receiver [s0] an attempt returns, leaves the receiver as it is, and
    shows in the trace as one attempt. *)
Hypothesis attempt_runs : forall tr, exists v e evs,
  attempt s0 tr = (Ok (v, e), s0, tr ++ evs) /\
  schedule evs = [SAttempt e] /\
  Forall (P (List.length tr)) evs /\
  Q (List.length tr) v e evs.

Lemma attempt_event_within_mono t0 t1 t0' t1' e :
  t0' <= t0 -> t1 <= t1' ->
  attempt_event_within P t0 t1 e -> attempt_event_within P t0' t1' e.
Proof.
  intros H0 H1. destruct e; simpl; auto;
    intros (t & Ht & He); exists t; (split; [lia | exact He]).
Qed.

Lemma attempt_events_within tr evs :
  evs <> [] ->
  Forall (P (List.length tr)) evs ->
  Forall (attempt_event_within P (List.length tr) (List.length (tr ++ evs))) evs.
Proof.
  intros Hne F. eapply Forall_impl; [| exact F].
  intros e He.
  assert (Hlt : List.length tr < List.length (tr ++ evs)).
  { rewrite length_app. destruct evs; [congruence | simpl; lia]. }
  destruct e; simpl; auto; exists (List.length tr); (split; [lia | exact He]).
Qed.

Lemma schedule_nonempty evs e : schedule evs = [SAttempt e] -> evs <> [].
Proof. intros H ->. discriminate. Qed.

Lemma retry_body_run i a tr :
  exists v e evs,
    schedule evs = [SAttempt e] /\
    Forall (P (List.length tr)) evs /\
    Q (List.length tr) v e evs /\
    retry_body env attempt ctx maxRetries interval i a s0 tr =
    match e with
    | None => (Ok (Break (v, None)), s0, tr ++ evs)
    | Some err =>
      if (i <? maxRetries)%Z then
        match ctx_done env (List.length (tr ++ evs)) ctx with
        | Some e' =>
          (Ok (Return (Some e')), s0, (tr ++ evs) ++ [EvCtxDone ctx e'])
        | None =>
          (Ok (Next (v, Some err)), s0,
           (tr ++ evs) ++ [EvTimer (dur_mul interval (i + 1)%Z)])
        end
      else (Ok (Next (v, Some err)), s0, tr ++ evs)
    end.
Proof.
  destruct (attempt_runs tr) as (v & e & evs & E & Hs & F & HQ).
  exists v, e, evs. repeat (split; [assumption |]).
  unfold retry_body, bind. rewrite E. cbn [snd].
  destruct e as [err |]; [| reflexivity].
  destruct (i <? maxRetries)%Z; [| reflexivity].
  unfold now. destruct (ctx_done env _ ctx); reflexivity.
Qed.

(** The loop ends in one of three ways: every attempt failed; a wait was cut
    short by the context; or an attempt got through, and then it was the
    last one. *)
Lemma retry_loop_total : forall m i a tr,
  (i + Z.of_nat m = maxRetries)%Z ->
  exists evs out,
    for_loop (Datatypes.S m) i (retry_body env attempt ctx maxRetries interval)
      a s0 tr = (Ok out, s0, tr ++ evs) /\
    Forall (attempt_event_within P (List.length tr) (List.length (tr ++ evs))) evs /\
    ((exists errs e v,
        List.length errs = m /\
        schedule evs = linear_backoff interval (i + 1)%Z (errs ++ [e]) /\
        out = inl (v, Some e))
     \/
     (exists errs e0 e t,
        List.length errs < m /\
        schedule evs =
          linear_backoff interval (i + 1)%Z (errs ++ [e0]) ++ [SCancel e] /\
        ctx_done env t ctx = Some e /\
        out = inr (Some e))
     \/
     (exists errs v pre last,
        List.length errs <= m /\
        evs = pre ++ last /\
        schedule evs = backoff_then_success interval (i + 1)%Z errs /\
        Forall (attempt_event_within P (List.length tr)
                  (List.length (tr ++ pre))) pre /\
        Q (List.length (tr ++ pre)) v None last /\
        out = inl (v, None))).
Proof.
  induction m as [| m IH]; intros i a tr Hi; rewrite for_loop_S;
    destruct (retry_body_run i a tr) as (v & e & evs & Hs & F & HQ & E);
    rewrite E; clear E;
    pose proof (attempt_events_within tr evs (schedule_nonempty evs e Hs) F)
      as Fw.
  - destruct e as [err |].
    + replace (i <? maxRetries)%Z with false
        by (symmetry; apply Z.ltb_ge; lia).
      exists evs, (inl (v, Some err)). split; [reflexivity |].
      split; [exact Fw |]. left. exists [], err, v. auto.
    + exists evs, (inl (v, None)). split; [reflexivity |].
      split; [exact Fw |]. right; right.
      exists [], v, [], evs. rewrite app_nil_r.
      repeat split; auto.
  - destruct e as [err |].
    2:{ exists evs, (inl (v, None)). split; [reflexivity |].
        split; [exact Fw |]. right; right.
        exists [], v, [], evs. rewrite app_nil_r.
        repeat split; auto. simpl; lia. }
    replace (i <? maxRetries)%Z with true
      by (symmetry; apply Z.ltb_lt; lia).
    destruct (ctx_done env (List.length (tr ++ evs)) ctx) as [e' |] eqn:Hd.
    + exists (evs ++ [EvCtxDone ctx e']), (inr (Some e')).
      rewrite app_assoc. split; [reflexivity |]. split.
      { apply Forall_app. split; [| repeat constructor].
        eapply Forall_impl; [| exact Fw]. intros e0.
        apply attempt_event_within_mono; [lia |].
        rewrite !length_app. lia. }
      right; left. exists [], err, e', (List.length (tr ++ evs)).
      rewrite schedule_app, Hs. repeat split; auto. simpl; lia.
    + set (tr1 := (tr ++ evs) ++ [EvTimer (dur_mul interval (i + 1)%Z)]).
      destruct (IH (i + 1)%Z (v, Some err) tr1)
        as (evs1 & out & E1 & F1 & Hout); [lia |].
      assert (Hlen : List.length tr1 =
                     List.length tr + List.length evs + 1).
      { unfold tr1. rewrite !length_app. simpl. lia. }
      exists (evs ++ EvTimer (dur_mul interval (i + 1)%Z) :: evs1), out.
      split.
      { rewrite E1. unfold tr1. now rewrite <- !app_assoc. }
      split.
      { apply Forall_app. split.
        - eapply Forall_impl; [| exact Fw]. intros e0.
          apply attempt_event_within_mono; [lia |].
          rewrite !length_app. lia.
        - constructor; [exact I |].
          eapply Forall_impl; [| exact F1]. intros e0.
          apply attempt_event_within_mono; [lia |].
          rewrite !length_app. simpl. lia. }
      rewrite schedule_app, Hs. cbn [app schedule flat_map step_of].
      fold (schedule evs1).
      destruct Hout as [(errs & e1 & v1 & Hl & Hs1 & Ho)
                       | [(errs & e0 & e1 & t & Hl & Hs1 & Hc & Ho)
                         | (errs & v1 & pre & last & Hl & Hev & Hs1 & Fp & HQ1 & Ho)]].
      * left. exists (err :: errs), e1, v1.
        rewrite <- app_comm_cons, linear_backoff_cons, Hs1.
        repeat split; auto. simpl; lia.
      * right; left. exists (err :: errs), e0, e1, t.
        rewrite <- app_comm_cons, linear_backoff_cons, Hs1.
        repeat split; auto. simpl; lia.
      * right; right.
        exists (err :: errs), v1,
          (evs ++ EvTimer (dur_mul interval (i + 1)%Z) :: pre), last.
        assert (Htr : tr ++ evs ++ EvTimer (dur_mul interval (i + 1)%Z) :: pre
                      = tr1 ++ pre).
        { unfold tr1. now rewrite <- !app_assoc. }
        split; [simpl; lia |]. split; [subst evs1; now rewrite <- app_assoc |].
        split; [rewrite Hs1; reflexivity |]. split; [| split; [| exact Ho]].
        -- rewrite Htr. apply Forall_app. split.
           ++ eapply Forall_impl; [| exact Fw]. intros e0.
              apply attempt_event_within_mono; [lia |].
              rewrite !length_app. lia.
           ++ constructor; [exact I |].
              eapply Forall_impl; [| exact Fp]. intros e0.
              apply attempt_event_within_mono; lia.
        -- rewrite Htr. exact HQ1.
Qed.

End RetryTotal.
(** ** The pgx [Connect], whatever the network does *)

Lemma pgx_attempt_runs env ctx (c : Pgx.Connection) cfg :
  Pgx.config c = Some cfg ->
  forall tr, exists v e evs,
    PgxConnection.connectWithTimeout env ctx c tr = (Ok (v, e), c, tr ++ evs) /\
    schedule evs = [SAttempt e] /\
    Forall (pgx_attempt_event ctx cfg (List.length tr)) evs /\
    pgx_attempt_result env ctx cfg (List.length tr) v e evs.
Proof.
  intros Hc tr.
  unfold PgxConnection.connectWithTimeout, bind, get, deref, now,
    pgx_attempt_result.
  rewrite Hc. unfold ret.
  destruct (dial env (List.length tr) _ cfg) eqn:Hd;
    unfold emit, now; repeat rewrite <- app_assoc; cbn [app];
    do 3 eexists;
    (split; [reflexivity | split; [reflexivity | split]]);
    try (repeat constructor; simpl; auto; fail);
    cbv zeta; rewrite ?Hd; repeat split; auto; discriminate.
Qed.

Lemma no_close_of_later_handle ctx cfg t0 h evs :
  Forall (attempt_event_within (pgx_attempt_event ctx cfg) t0 h) evs ->
  pool_closes h evs = 0 /\ conn_closes h evs = 0.
Proof.
  induction 1 as [| e evs He _ [IHp IHq]]; [split; reflexivity |].
  unfold pool_closes, conn_closes in *. cbn [filter].
  destruct e; simpl in He; try (split; assumption).
  - destruct He as (t & Ht & ->).
    replace (Nat.eqb t h) with false by (symmetry; apply Nat.eqb_neq; lia).
    split; assumption.
  - destruct He as (t & Ht & ->).
    replace (Nat.eqb t h) with false by (symmetry; apply Nat.eqb_neq; lia).
    split; assumption.
Qed.

(** What a run of the pgx [Connect] with a valid configuration and a
    retry count that is not negative looks like. *)
Lemma pgx_Connect_run env ctx (c : Pgx.Connection) cfg tr :
  Pgx.config c = Some cfg ->
  Validate cfg = None ->
  (0 <= MaxRetries cfg)%Z ->
  let ctx' := WithTimeout ctx (ConnectTimeout cfg) in
  exists r c' evs,
    PgxConnection.Connect env ctx c tr = (Ok r, c', tr ++ evs) /\
    Forall (attempt_event_within (pgx_attempt_event ctx cfg) (List.length tr)
              (List.length (tr ++ evs))) evs /\
    match r with
    | Some e =>
      c' = c /\
      connect_failure env ctx (RetryInterval cfg) (MaxRetries cfg) evs e
    | None =>
      exists errs pre,
        evs = pre ++ [EvAttempt ctx' cfg None] /\
        c' = Pgx.mkConnection (Some (List.length (tr ++ pre)))
               (Some (List.length (tr ++ pre))) (Some cfg) /\
        dial env (List.length (tr ++ pre)) ctx' cfg = Established /\
        (Z.of_nat (List.length errs) <= MaxRetries cfg)%Z /\
        schedule evs = backoff_then_success (RetryInterval cfg) 1%Z errs /\
        Forall (attempt_event_within (pgx_attempt_event ctx cfg)
                  (List.length tr) (List.length (tr ++ pre))) pre
    end.
Proof.
  intros Hc Hv Hn ctx'.
  unfold PgxConnection.Connect, bind at 1, get. unfold bind at 1, deref.
  rewrite Hc. unfold ret at 1. rewrite Hv. unfold bind at 1, retry_loop.
  replace (Z.to_nat (MaxRetries cfg + 1))
    with (Datatypes.S (Z.to_nat (MaxRetries cfg))) by lia.
  destruct (retry_loop_total env (PgxConnection.connectWithTimeout env ctx) ctx
              (MaxRetries cfg) (RetryInterval cfg) c
              (pgx_attempt_event ctx cfg) (pgx_attempt_result env ctx cfg)
              (pgx_attempt_runs env ctx c cfg Hc)
              (Z.to_nat (MaxRetries cfg)) 0%Z ((None, None), None) tr)
    as (evs & out & E & F & H); [lia |].
  rewrite E.
  destruct H as [(errs & e & v & Hl & Hs & ->)
                | [(errs & e0 & e & t & Hl & Hs & Hd & ->)
                  | (errs & v & pre & last & Hl & Hev & Hs & Fp & HQ & ->)]].
  - destruct v as [p q]. unfold ret.
    exists (Some (wrapRetries (MaxRetries cfg) e)), c, evs.
    split; [reflexivity |]. split; [exact F |]. split; [reflexivity |].
    left. exists errs, e. repeat split; auto. lia.
  - unfold ret. exists (Some e), c, evs.
    split; [reflexivity |]. split; [exact F |]. split; [reflexivity |].
    right. exists errs, e0, t. repeat split; auto. lia.
  - destruct HQ as (-> & -> & Hd). unfold bind, modify, ret.
    exists None, (Pgx.mkConnection (Some (List.length (tr ++ pre)))
                    (Some (List.length (tr ++ pre))) (Some cfg)), evs.
    split; [now rewrite Hc |]. split; [exact F |].
    exists errs, pre. repeat split; auto. lia.
Qed.

(** X8.  The pgx [Connect] with a valid configuration and [MaxRetries = n >=
    0] always returns.  It returns nil exactly when an attempt got through:
    that attempt is the last one, at most [n] failed before it, each
    followed by its backoff wait, and the pool and the direct connection
    installed are the ones that attempt made; they are not closed by
    [Connect].  When it returns an error the connection is left as it was,
    and either all [n + 1] attempts failed or the context was done during a
    wait. *)
Theorem pgx_Connect_outcome (env : Env) (ctx : context) (c : Pgx.Connection)
    (cfg : Config) (tr : trace) :
  Pgx.config c = Some cfg ->
  Validate cfg = None ->
  (0 <= MaxRetries cfg)%Z ->
  let ctx' := WithTimeout ctx (ConnectTimeout cfg) in
  exists r c' evs,
    PgxConnection.Connect env ctx c tr = (Ok r, c', tr ++ evs) /\
    match r with
    | Some e =>
      c' = c /\
      connect_failure env ctx (RetryInterval cfg) (MaxRetries cfg) evs e
    | None =>
      exists errs pre h,
        h = List.length (tr ++ pre) /\
        evs = pre ++ [EvAttempt ctx' cfg None] /\
        dial env h ctx' cfg = Established /\
        c' = Pgx.mkConnection (Some h) (Some h) (Some cfg) /\
        (Z.of_nat (List.length errs) <= MaxRetries cfg)%Z /\
        schedule evs = backoff_then_success (RetryInterval cfg) 1%Z errs /\
        pool_closes h evs = 0 /\ conn_closes h evs = 0
    end.
Proof.
  intros Hc Hv Hn ctx'.
  destruct (pgx_Connect_run env ctx c cfg tr Hc Hv Hn)
    as (r & c' & evs & E & _ & H).
  exists r, c', evs. split; [exact E |].
  destruct r as [e |]; [exact H |].
  destruct H as (errs & pre & -> & -> & Hd & Hl & Hs & Fp).
  exists errs, pre, (List.length (tr ++ pre)).
  repeat (split; [auto; fail |]).
  destruct (no_close_of_later_handle ctx cfg _ _ _ Fp) as [Hp Hq].
  rewrite pool_closes_app, conn_closes_app, Hp, Hq. split; reflexivity.
Qed.

Lemma pgx_Connect_outcome_witness :
  PgxConnection.Connect MoreSamples.flaky (CallerCtx 0)
    (Pgx.NewConnection (Some Sample.endpoint)) [] =
    (Ok None, Pgx.mkConnection (Some 3) (Some 3) (Some Sample.endpoint),
     [EvAttempt (WithTimeout (CallerCtx 0) 7%Z) Sample.endpoint
        (Some (wrapError "failed to ping pool" Sample.refused));
      EvPoolClose 0; EvTimer 10%Z;
      EvAttempt (WithTimeout (CallerCtx 0) 7%Z) Sample.endpoint None]) /\
  exists r c' evs,
    PgxConnection.Connect MoreSamples.flaky (CallerCtx 0)
      (Pgx.NewConnection (Some Sample.endpoint)) [] = (Ok r, c', [] ++ evs) /\
    match r with
    | Some e =>
      c' = Pgx.NewConnection (Some Sample.endpoint) /\
      connect_failure MoreSamples.flaky (CallerCtx 0) 10%Z 2%Z evs e
    | None =>
      exists errs pre h,
        h = List.length ([] ++ pre) /\
        evs = pre ++ [EvAttempt (WithTimeout (CallerCtx 0) 7%Z)
                        Sample.endpoint None] /\
        dial MoreSamples.flaky h (WithTimeout (CallerCtx 0) 7%Z)
          Sample.endpoint = Established /\
        c' = Pgx.mkConnection (Some h) (Some h) (Some Sample.endpoint) /\
        (Z.of_nat (List.length errs) <= 2)%Z /\
        schedule evs = backoff_then_success 10%Z 1%Z errs /\
        pool_closes h evs = 0 /\ conn_closes h evs = 0
    end.
Proof.
  split; [vm_compute; reflexivity |].
  apply (pgx_Connect_outcome MoreSamples.flaky (CallerCtx 0)
           (Pgx.NewConnection (Some Sample.endpoint)) Sample.endpoint []).
  - reflexivity.
  - reflexivity.
  - simpl. lia.
Defined.

(** X9.  A call of the pgx [connectWithTimeout] that fails returns no
    handle and leaves nothing open: the pool is closed once if the attempt
    got as far as making one, the direct connection is closed once if the
    attempt got as far as making one, and nothing else is closed. *)
Theorem failed_attempt_closes_what_it_opened (env : Env) (ctx : context)
    (c : Pgx.Connection) (cfg : Config) (tr : trace) :
  Pgx.config c = Some cfg ->
  let t := List.length tr in
  let o := dial env t (WithTimeout ctx (ConnectTimeout cfg)) cfg in
  o <> Established ->
  exists e evs,
    PgxConnection.connectWithTimeout env ctx c tr =
      (Ok ((None, None), Some e), c, tr ++ evs) /\
    pool_closes t evs = (if pool_opened o then 1 else 0) /\
    conn_closes t evs = (if conn_opened o then 1 else 0) /\
    forall h, h <> t -> pool_closes h evs = 0 /\ conn_closes h evs = 0.
Proof.
  intros Hc t o Ho. subst o.
  unfold PgxConnection.connectWithTimeout, bind, get, deref, now.
  rewrite Hc. unfold ret. fold t.
  destruct (dial env t _ cfg) eqn:Hd; try congruence;
    unfold emit, now; repeat rewrite <- app_assoc; cbn [app];
    do 2 eexists; (split; [reflexivity |]);
    unfold pool_closes, conn_closes; cbn [filter pool_opened conn_opened];
    rewrite ?Nat.eqb_refl; cbn [List.length];
    (split; [reflexivity | split; [reflexivity |]]);
    intros h Hh;
    replace (Nat.eqb t h) with false by (symmetry; apply Nat.eqb_neq; lia);
    split; reflexivity.
Qed.

Lemma failed_attempt_closes_what_it_opened_witness :
  exists e evs,
    PgxConnection.connectWithTimeout Sample.unreachable (CallerCtx 0)
      (Pgx.NewConnection (Some Sample.endpoint)) [EvLock; EvUnlock] =
      (Ok ((None, None), Some e), Pgx.NewConnection (Some Sample.endpoint),
       [EvLock; EvUnlock] ++ evs) /\
    pool_closes 2 evs = 1 /\
    conn_closes 2 evs = 0 /\
    forall h, h <> 2 -> pool_closes h evs = 0 /\ conn_closes h evs = 0.
Proof.
  apply (failed_attempt_closes_what_it_opened Sample.unreachable (CallerCtx 0)
           (Pgx.NewConnection (Some Sample.endpoint)) Sample.endpoint
           [EvLock; EvUnlock]).
  - reflexivity.
  - simpl. discriminate.
Defined.

(** ** The gorm [Connection] *)

Lemma gorm_attempt_runs env ctx (g : GormConnection.Connection) gcfg :
  GormConnection.config g = Some gcfg ->
  open_failure_returns env gcfg ->
  forall tr, exists v e evs,
    GormConnection.connectWithTimeout env ctx g tr = (Ok (v, e), g, tr ++ evs) /\
    schedule evs = [SAttempt e] /\
    Forall (gorm_attempt_event ctx gcfg (List.length tr)) evs /\
    gorm_attempt_result env ctx gcfg (List.length tr) v e evs.
Proof.
  intros Hc Hq tr.
  unfold GormConnection.connectWithTimeout, bind, get, deref, now,
    gorm_attempt_result.
  rewrite Hc. unfold ret. cbv zeta.
  destruct (gorm_open env (List.length tr) _ gcfg) eqn:Hd;
    [ destruct Hq as [Hl | Hno]; [| exfalso; eapply Hno; eassumption];
      unfold emit, GormConnection.getLogger;
      rewrite (logger_Error_quiet _ _ _ Hl)
    | | | ];
    unfold emit, now; repeat rewrite <- app_assoc; cbn [app];
    do 3 eexists;
    (split; [reflexivity | split; [reflexivity | split]]);
    try (repeat constructor; simpl; auto; fail);
    cbv zeta; rewrite ?Hd; repeat split; auto; discriminate.
Qed.

(** With a level of 2 or more, a call of [connectWithTimeout] that fails in
    [gorm.Open] panics. *)
Lemma gorm_attempt_panics env ctx (g : GormConnection.Connection) gcfg tr e :
  GormConnection.config g = Some gcfg ->
  (2 <= LogLevel gcfg)%Z ->
  gorm_open env (List.length tr) (WithTimeout ctx (ConnectTimeout (Base gcfg)))
    gcfg = OpenFails e ->
  GormConnection.connectWithTimeout env ctx g tr =
    (Panic "invalid memory address or nil pointer dereference", g,
     tr ++ [EvAttempt (WithTimeout ctx (ConnectTimeout (Base gcfg))) (Base gcfg)
              (Some e)]).
Proof.
  intros Hc Hl Hd.
  unfold GormConnection.connectWithTimeout, bind, get, deref, now.
  rewrite Hc. unfold ret. cbv zeta. rewrite Hd.
  unfold emit, GormConnection.logger_Error, GormConnection.getLogger.
  replace (2 <=? LogLevel gcfg)%Z with true
    by (symmetry; apply Z.leb_le; exact Hl).
  reflexivity.
Qed.

Lemma sql_closes_app h a b :
  sql_closes h (a ++ b) = sql_closes h a + sql_closes h b.
Proof. unfold sql_closes. now rewrite filter_app, length_app. Qed.

Lemma no_sql_close_of_later_handle ctx gcfg t0 h evs :
  Forall (attempt_event_within (gorm_attempt_event ctx gcfg) t0 h) evs ->
  sql_closes h evs = 0.
Proof.
  induction 1 as [| e evs He _ IH]; [reflexivity |].
  unfold sql_closes in *. cbn [filter].
  destruct e; simpl in He; try assumption.
  destruct He as (t & Ht & ->).
  replace (Nat.eqb t h) with false by (symmetry; apply Nat.eqb_neq; lia).
  assumption.
Qed.

(** X10.  Take the gorm [Connect] with a valid configuration and
    [MaxRetries = n >= 0].  When a failure of [gorm.Open] comes back as an
    error (log level below 2, or no attempt that fails inside [gorm.Open]),
    [Connect] returns.  When it returns nil, an attempt got through, it was
    the last one, at most [n] failed before it; [db] and [sqlDB] are the
    ones of that attempt, not closed by [Connect], and the pool limits were
    set right after it.  When it returns an error, either the connection is
    left as it was (all [n + 1] attempts failed, or the context was done
    during a wait), or an attempt got through and [db.DB()] failed
    afterwards: then [db] is set, [sqlDB] is not, and the database that was
    opened is not closed; on a connection that had no [sqlDB], [Ping] then
    answers that the database is not connected and [Close] closes nothing.
    With a log level of 2 or more, a first attempt that fails in
    [gorm.Open] makes [Connect] panic in gorm's logger, whose writer is
    nil: one attempt, no retry, and the connection is left as it was. *)
Theorem gorm_Connect_outcome (env : Env) (ctx : context)
    (g : GormConnection.Connection) (gcfg : GormConfig) (tr : trace) :
  GormConnection.config g = Some gcfg ->
  Validate (Base gcfg) = None ->
  (0 <= MaxRetries (Base gcfg))%Z ->
  let ctx' := WithTimeout ctx (ConnectTimeout (Base gcfg)) in
  (open_failure_returns env gcfg ->
   exists r g' evs,
    GormConnection.Connect env ctx g tr = (Ok r, g', tr ++ evs) /\
    match r with
    | None =>
      exists errs pre h,
        h = List.length (tr ++ pre) /\
        evs = pre ++ [EvAttempt ctx' (Base gcfg) None; EvSetPoolLimits h] /\
        gorm_open env h ctx' gcfg = Opened /\
        g' = GormConnection.mkConnection (Some h) (Some h) (Some gcfg) /\
        (Z.of_nat (List.length errs) <= MaxRetries (Base gcfg))%Z /\
        schedule evs =
          backoff_then_success (RetryInterval (Base gcfg)) 1%Z errs /\
        sql_closes h evs = 0
    | Some e =>
      (g' = g /\
       connect_failure env ctx (RetryInterval (Base gcfg))
         (MaxRetries (Base gcfg)) evs e)
      \/
      (exists h err,
         e = wrapError "failed to get underlying sql.DB" err /\
         db_DB env (List.length (tr ++ evs)) h = Some err /\
         g' = GormConnection.mkConnection (Some h) (GormConnection.sqlDB g)
                (Some gcfg) /\
         sql_closes h evs = 0 /\
         (GormConnection.sqlDB g = None ->
          forall ctx2 tr2,
            GormConnection.Ping env ctx2 g' tr2 =
              (Ok (Some (errorString "database not connected")), g', tr2) /\
            GormConnection.Close env g' tr2 = (Ok None, g', tr2)))
    end)
  /\
  (forall e,
     (2 <= LogLevel gcfg)%Z ->
     gorm_open env (List.length tr) ctx' gcfg = OpenFails e ->
     GormConnection.Connect env ctx g tr =
       (Panic "invalid memory address or nil pointer dereference", g,
        tr ++ [EvAttempt ctx' (Base gcfg) (Some e)])).
Proof.
  intros Hc Hv Hn ctx'. split.
  2:{ intros e Hl Hd.
      unfold GormConnection.Connect, bind at 1, get. unfold bind at 1, deref.
      rewrite Hc. unfold ret at 1. rewrite Hv. unfold bind at 1, retry_loop.
      replace (Z.to_nat (MaxRetries (Base gcfg) + 1))
        with (Datatypes.S (Z.to_nat (MaxRetries (Base gcfg)))) by lia.
      rewrite for_loop_S. unfold retry_body at 1, bind at 1.
      rewrite (gorm_attempt_panics env ctx g gcfg tr e Hc Hl Hd).
      reflexivity. }
  intros Hq.
  unfold GormConnection.Connect, bind at 1, get. unfold bind at 1, deref.
  rewrite Hc. unfold ret at 1. rewrite Hv. unfold bind at 1, retry_loop.
  replace (Z.to_nat (MaxRetries (Base gcfg) + 1))
    with (Datatypes.S (Z.to_nat (MaxRetries (Base gcfg)))) by lia.
  destruct (retry_loop_total env (GormConnection.connectWithTimeout env ctx) ctx
              (MaxRetries (Base gcfg)) (RetryInterval (Base gcfg)) g
              (gorm_attempt_event ctx gcfg) (gorm_attempt_result env ctx gcfg)
              (gorm_attempt_runs env ctx g gcfg Hc Hq)
              (Z.to_nat (MaxRetries (Base gcfg))) 0%Z (None, None) tr)
    as (evs & out & E & F & H); [lia |].
  rewrite E.
  destruct H as [(errs & e & v & Hl & Hs & ->)
                | [(errs & e0 & e & t & Hl & Hs & Hd & ->)
                  | (errs & v & pre & last & Hl & Hev & Hs & Fp & HQ & ->)]].
  - unfold ret.
    exists (Some (wrapRetries (MaxRetries (Base gcfg)) e)), g, evs.
    split; [reflexivity |]. left. split; [reflexivity |].
    left. exists errs, e. repeat split; auto. lia.
  - unfold ret. exists (Some e), g, evs.
    split; [reflexivity |]. left. split; [reflexivity |].
    right. exists errs, e0, t. repeat split; auto. lia.
  - destruct HQ as (-> & -> & Hd). subst evs.
    pose proof (no_sql_close_of_later_handle ctx gcfg _ _ _ Fp) as Hcl.
    unfold bind at 1, modify. unfold bind at 1, deref, ret at 1.
    unfold bind at 1, now.
    destruct (db_DB env _ (List.length (tr ++ pre))) as [err |] eqn:Hdb.
    + unfold ret.
      exists (Some (wrapError "failed to get underlying sql.DB" err)),
        (GormConnection.mkConnection (Some (List.length (tr ++ pre)))
           (GormConnection.sqlDB g) (GormConnection.config g)),
        (pre ++ [EvAttempt ctx' (Base gcfg) None]).
      split; [reflexivity |]. right.
      exists (List.length (tr ++ pre)), err.
      split; [reflexivity |]. split; [exact Hdb |].
      split; [now rewrite Hc |].
      split; [rewrite sql_closes_app, Hcl; reflexivity |].
      intros Hsql ctx2 tr2. rewrite Hsql.
      split; reflexivity.
    + unfold bind, modify, emit, ret. cbn [GormConnection.db GormConnection.config].
      exists None,
        (GormConnection.mkConnection (Some (List.length (tr ++ pre)))
           (Some (List.length (tr ++ pre))) (GormConnection.config g)),
        (pre ++ [EvAttempt ctx' (Base gcfg) None;
                 EvSetPoolLimits (List.length (tr ++ pre))]).
      split.
      { rewrite <- !app_assoc. reflexivity. }
      exists errs, pre, (List.length (tr ++ pre)).
      split; [reflexivity |]. split; [reflexivity |]. split; [exact Hd |].
      split; [now rewrite Hc |]. split; [lia |].
      split.
      { rewrite schedule_app in *. exact Hs. }
      rewrite sql_closes_app, Hcl. reflexivity.
Qed.

Lemma gorm_Connect_outcome_witness :
  (exists r g' evs,
    GormConnection.Connect MoreSamples.flaky (CallerCtx 0)
      (GormConnection.NewConnection (Some Sample.gorm_endpoint)) [] =
      (Ok r, g', [] ++ evs) /\
    match r with
    | None =>
      exists errs pre h,
        h = List.length ([] ++ pre) /\
        evs = pre ++ [EvAttempt (WithTimeout (CallerCtx 0) 7%Z) Sample.endpoint
                        None; EvSetPoolLimits h] /\
        gorm_open MoreSamples.flaky h (WithTimeout (CallerCtx 0) 7%Z)
          Sample.gorm_endpoint = Opened /\
        g' = GormConnection.mkConnection (Some h) (Some h)
               (Some Sample.gorm_endpoint) /\
        (Z.of_nat (List.length errs) <= 2)%Z /\
        schedule evs = backoff_then_success 10%Z 1%Z errs /\
        sql_closes h evs = 0
    | Some e =>
      (g' = GormConnection.NewConnection (Some Sample.gorm_endpoint) /\
       connect_failure MoreSamples.flaky (CallerCtx 0) 10%Z 2%Z evs e)
      \/
      (exists h err,
         e = wrapError "failed to get underlying sql.DB" err /\
         db_DB MoreSamples.flaky (List.length ([] ++ evs)) h = Some err /\
         g' = GormConnection.mkConnection (Some h) None
                (Some Sample.gorm_endpoint) /\
         sql_closes h evs = 0 /\
         (@None handle = None ->
          forall ctx2 tr2,
            GormConnection.Ping MoreSamples.flaky ctx2 g' tr2 =
              (Ok (Some (errorString "database not connected")), g', tr2) /\
            GormConnection.Close MoreSamples.flaky g' tr2 = (Ok None, g', tr2)))
    end) /\
  GormConnection.Connect MoreSamples.flaky (CallerCtx 0)
    (GormConnection.NewConnection (Some Sample.gorm_endpoint)) [] =
    (Ok None,
     GormConnection.mkConnection (Some 3) (Some 3) (Some Sample.gorm_endpoint),
     [EvAttempt (WithTimeout (CallerCtx 0) 7%Z) Sample.endpoint
        (Some Sample.refused);
      EvSqlClose 0 None; EvTimer 10%Z;
      EvAttempt (WithTimeout (CallerCtx 0) 7%Z) Sample.endpoint None;
      EvSetPoolLimits 3]) /\
  GormConnection.Connect GormSamples.refused_DB (CallerCtx 0)
    (GormConnection.NewConnection (Some Sample.gorm_endpoint)) [] =
    (Ok (Some (wrapError "failed to get underlying sql.DB" Sample.refused)),
     GormConnection.mkConnection (Some 0) None (Some Sample.gorm_endpoint),
     [EvAttempt (WithTimeout (CallerCtx 0) 7%Z) Sample.endpoint None]) /\
  GormConnection.Connect GormSamples.open_refused (CallerCtx 0)
    (GormConnection.NewConnection (Some GormSamples.verbose)) [] =
    (Panic "invalid memory address or nil pointer dereference",
     GormConnection.NewConnection (Some GormSamples.verbose),
     [EvAttempt (WithTimeout (CallerCtx 0) 7%Z) Sample.endpoint
        (Some Sample.refused)]).
Proof.
  split; [| split; [| split]].
  - apply (gorm_Connect_outcome MoreSamples.flaky (CallerCtx 0)
             (GormConnection.NewConnection (Some Sample.gorm_endpoint))
             Sample.gorm_endpoint []).
    + reflexivity.
    + reflexivity.
    + simpl. lia.
    + left. simpl. lia.
  - vm_compute. reflexivity.
  - vm_compute. reflexivity.
  - apply (gorm_Connect_outcome GormSamples.open_refused (CallerCtx 0)
             (GormConnection.NewConnection (Some GormSamples.verbose))
             GormSamples.verbose [] eq_refl eq_refl).
    + simpl. lia.
    + simpl. lia.
    + reflexivity.
Defined.

(** ** How long [Connect] waits before it gives up *)

Lemma wrap64_small z : (- 2 ^ 63 <= z < 2 ^ 63)%Z -> wrap64 z = z.
Proof.
  intros H. unfold wrap64. rewrite Z.mod_small; lia.
Qed.

Lemma total_wait_linear_backoff interval e : forall errs k,
  (0 <= interval)%Z -> (0 <= k)%Z ->
  (interval * (k + Z.of_nat (List.length errs)) < 2 ^ 63 + interval)%Z ->
  (2 * total_wait (linear_backoff interval k (errs ++ [e])) =
   interval * Z.of_nat (List.length errs)
     * (2 * k + Z.of_nat (List.length errs) - 1))%Z.
Proof.
  induction errs as [| e1 errs IH]; intros k Hi Hk Hb.
  - simpl. lia.
  - rewrite <- app_comm_cons, linear_backoff_cons.
    cbn [total_wait fold_right]. fold (total_wait
      (linear_backoff interval (k + 1) (errs ++ [e]))).
    cbn [List.length] in *. rewrite Nat2Z.inj_succ in *.
    assert (Hm : dur_mul interval k = (interval * k)%Z).
    { unfold dur_mul. apply wrap64_small. nia. }
    rewrite Hm.
    specialize (IH (k + 1)%Z Hi ltac:(lia) ltac:(nia)).
    nia.
Qed.

(** X11.  When every attempt of the pgx [Connect] fails and the context is
    never done, the waits between the [n + 1] attempts add up to
    [RetryInterval * n * (n + 1) / 2], provided the interval is not negative
    and [RetryInterval * n] fits in 64 bits. *)
Theorem Connect_total_backoff (env : Env) (ctx : context) (c : Pgx.Connection)
    (cfg : Config) (tr : trace) :
  Pgx.config c = Some cfg ->
  Validate cfg = None ->
  (0 <= MaxRetries cfg)%Z ->
  (forall t c', dial env t c' cfg <> Established) ->
  (forall t, ctx_done env t ctx = None) ->
  (0 <= RetryInterval cfg)%Z ->
  (RetryInterval cfg * MaxRetries cfg < 2 ^ 63)%Z ->
  exists e evs,
    PgxConnection.Connect env ctx c tr = (Ok (Some e), c, tr ++ evs) /\
    attempts evs = Z.to_nat (MaxRetries cfg + 1) /\
    (2 * total_wait (schedule evs) =
     RetryInterval cfg * MaxRetries cfg * (MaxRetries cfg + 1))%Z.
Proof.
  intros Hc Hv Hn Hdial Hctx Hi Hb.
  destruct (pgx_Connect_run env ctx c cfg tr Hc Hv Hn)
    as (r & c' & evs & E & _ & H).
  destruct r as [e |].
  2:{ destruct H as (errs & pre & _ & _ & Hd & _). exfalso.
      eapply Hdial; exact Hd. }
  destruct H as [-> [(errs & err & Hl & Hs & ->) | (errs & e0 & t & _ & _ & Hd)]].
  2:{ rewrite Hctx in Hd. discriminate. }
  exists (wrapRetries (MaxRetries cfg) err), evs. split; [exact E |].
  rewrite Hs. split.
  - unfold attempts. rewrite Hs, attempts_linear_backoff, length_app.
    simpl. lia.
  - rewrite total_wait_linear_backoff; rewrite ?Hl; lia.
Qed.

Lemma Connect_total_backoff_witness :
  exists e evs,
    PgxConnection.Connect Sample.unreachable (CallerCtx 0)
      (Pgx.NewConnection (Some Sample.endpoint)) [] =
      (Ok (Some e), Pgx.NewConnection (Some Sample.endpoint), [] ++ evs) /\
    attempts evs = 3 /\
    (2 * total_wait (schedule evs) = 10 * 2 * (2 + 1))%Z.
Proof.
  apply (Connect_total_backoff Sample.unreachable (CallerCtx 0)
           (Pgx.NewConnection (Some Sample.endpoint)) Sample.endpoint []).
  - reflexivity.
  - reflexivity.
  - simpl. lia.
  - intros t c'. simpl. discriminate.
  - reflexivity.
  - simpl. lia.
  - simpl. lia.
Defined.

(** ** The pgx [Connect] never panics on a connection that has a configuration *)

Lemma pgx_Connect_total env ctx (c : Pgx.Connection) cfg tr :
  Pgx.config c = Some cfg ->
  exists r c' evs,
    PgxConnection.Connect env ctx c tr = (Ok r, c', tr ++ evs) /\
    Forall (attempt_event_within (pgx_attempt_event ctx cfg) (List.length tr)
              (List.length (tr ++ evs))) evs /\
    (r <> None -> c' = c) /\
    Pgx.config c' = Some cfg.
Proof.
  intros Hc.
  destruct (Validate cfg) as [err |] eqn:Hv.
  { unfold PgxConnection.Connect, bind, get, deref. rewrite Hc. unfold ret.
    rewrite Hv. eexists _, c, []. rewrite app_nil_r. auto. }
  destruct (Z_lt_le_dec (MaxRetries cfg) 0) as [Hn | Hn].
  - unfold PgxConnection.Connect, bind at 1, get. unfold bind at 1, deref.
    rewrite Hc. unfold ret at 1. rewrite Hv. unfold bind at 1, retry_loop.
    replace (Z.to_nat (MaxRetries cfg + 1)) with 0 by lia.
    cbn [for_loop]. unfold ret at 1. unfold bind, modify, ret.
    eexists None, _, []. rewrite app_nil_r.
    split; [reflexivity |]. split; [constructor |]. split; [congruence |].
    exact Hc.
  - destruct (pgx_Connect_run env ctx c cfg tr Hc Hv Hn)
      as (r & c' & evs & E & F & H).
    exists r, c', evs. split; [exact E |]. split; [exact F |].
    destruct r as [e |].
    + destruct H as [-> _]. auto.
    + destruct H as (errs & pre & _ & -> & _). split; [congruence | reflexivity].
Qed.

(** ** The reconnect routines never panic on a side that has a configuration *)

Lemma for_loop_returns {S} (body : M S (ctl unit unit)) :
  (forall s tr, exists c s' tr', body s tr = (Ok c, s', tr')) ->
  forall n i s tr, exists out s' tr',
    for_loop n i (fun _ _ => body) tt s tr = (Ok out, s', tr').
Proof.
  intros Hbody. induction n as [| n IH]; intros i s tr.
  - simpl. unfold ret. eauto.
  - rewrite for_loop_S. destruct (Hbody s tr) as (c & s1 & tr1 & E). rewrite E.
    destruct c as [[] | [] | []]; eauto.
Qed.

Lemma attemptReconnect_returns env ctx sd
    (c : MasterSlave.MasterSlaveConnection) tr m :
  side_config sd (MasterSlave.config c) = Some m ->
  exists c' tr', attemptReconnect env ctx sd c tr = (Ok tt, c', tr').
Proof.
  intros Hm. destruct sd; unfold attemptReconnect; cbn [side_config] in Hm.
  - unfold MasterSlave.attemptMasterReconnect.
    unfold bind at 1, get. unfold bind at 1.
    match goal with
    | |- context [for_loop ?n ?i (fun _ _ => ?B) tt c tr] =>
      pose proof (fun Hb => for_loop_returns B Hb n i c tr) as L
    end.
    destruct L as (out & c' & tr' & E).
    { intros s tr0. unfold bind at 1, call at 1. rewrite Hm.
      destruct (pgx_Connect_total env ctx (Pgx.NewConnection (Some m)) m tr0
                  eq_refl) as (r & cn & evs & E & _).
      rewrite E. destruct r as [err |].
      - unfold bind, emit, ret. eauto.
      - unfold bind at 1, get. unfold bind at 1.
        destruct (MasterSlave.masterConn s) as [old |];
          unfold bind, call, MasterSlave.store_masterConn,
            MasterSlave.store_role, bind, modify, emit, ret;
          rewrite ?pgx_Close_run; eauto. }
    rewrite E. destruct out as [[] | []]; unfold emit, ret; eauto.
  - unfold MasterSlave.attemptSlaveReconnect.
    unfold bind at 1, get. unfold bind at 1.
    match goal with
    | |- context [for_loop ?n ?i (fun _ _ => ?B) tt c tr] =>
      pose proof (fun Hb => for_loop_returns B Hb n i c tr) as L
    end.
    destruct L as (out & c' & tr' & E).
    { intros s tr0. unfold bind at 1, call at 1. rewrite Hm.
      destruct (pgx_Connect_total env ctx (Pgx.NewConnection (Some m)) m tr0
                  eq_refl) as (r & cn & evs & E & _).
      rewrite E. destruct r as [err |].
      - unfold bind, emit, ret. eauto.
      - unfold bind at 1, get. unfold bind at 1.
        destruct (MasterSlave.slaveConn s) as [old |];
          unfold bind, call, MasterSlave.store_slaveConn,
            bind, modify, emit, ret;
          rewrite ?pgx_Close_run; eauto. }
    rewrite E. destruct out as [[] | []]; unfold emit, ret; eauto.
Qed.

(** A reconnect routine leaves the manager as it was or with a new handle
    on its side; if the side has a configuration it returns. *)
Lemma attemptReconnect_outcome env ctx sd
    (c : MasterSlave.MasterSlaveConnection) tr :
  exists r c' evs,
    attemptReconnect env ctx sd c tr = (r, c', tr ++ evs) /\
    Forall inner_event evs /\
    (c' = c \/ exists new, r = Ok tt /\ c' = reconnected sd new c) /\
    (side_config sd (MasterSlave.config c) <> None -> r = Ok tt).
Proof.
  assert (Hin : forall t e, retry_event t e -> inner_event e).
  { intros t e. destruct e; simpl; auto; try contradiction. }
  assert (Hcl : forall t x, Forall inner_event
            (match x with Some old => close_events env t old | None => [] end)).
  { intros t [old |]; [| constructor]. unfold close_events.
    destruct (Pgx.pool old), (Pgx.conn old); repeat constructor. }
  destruct (attemptReconnect_spec env ctx sd c tr)
    as (pre & F & [E | [(msg & E) | (new & E)]]).
  - exists (Ok tt), c, (pre ++ [failure_line sd]).
    split; [exact E |]. split; [| split; [auto | reflexivity]].
    apply Forall_app. split.
    + eapply Forall_impl; [| exact F]. apply Hin.
    + destruct sd; repeat constructor.
  - exists (Panic msg), c, pre.
    split; [exact E |]. split; [| split; [auto |]].
    + eapply Forall_impl; [| exact F]. apply Hin.
    + intros Hm. destruct (side_config sd (MasterSlave.config c)) as [m |] eqn:Hs;
        [| congruence].
      destruct (attemptReconnect_returns env ctx sd c tr m Hs) as (c' & tr' & E').
      rewrite E in E'. discriminate.
  - exists (Ok tt), (reconnected sd new c),
      (pre ++ old_close_events env sd c (List.length (tr ++ pre))
           ++ store_event sd (Some new) :: after_store sd).
    split; [exact E |]. split; [| split; [eauto | reflexivity]].
    apply Forall_app. split.
    + eapply Forall_impl; [| exact F]. apply Hin.
    + apply Forall_app. split; [apply Hcl |].
      destruct sd; repeat constructor; simpl; auto.
Qed.

(** What the decision of [checkHealth] can leave behind. *)
Lemma health_decision_outcome env (c : MasterSlave.MasterSlaveConnection)
    mh sh tr :
  (sh = true -> MasterSlave.slaveConn c <> None) ->
  exists r c' evs,
    health_decision env c mh sh c tr = (r, c', tr ++ evs) /\
    Forall inner_event evs /\
    tick_outcome c c' /\
    (Master (MasterSlave.config c) <> None ->
     (MasterSlave.slaveConn c <> None -> Slave (MasterSlave.config c) <> None) ->
     r = Ok tt).
Proof.
  intros Hsh. unfold health_decision.
  destruct mh, sh; cbn [negb andb].
  - (* both healthy *)
    exists (Ok tt), c, []. unfold ret. rewrite app_nil_r.
    repeat split; auto; constructor.
  - (* master healthy, slave not *)
    destruct (MasterSlave.slaveConn c) as [sc |] eqn:Hsc;
      cbn [MasterSlave.is_nil negb].
    2:{ exists (Ok tt), c, []. unfold ret. rewrite app_nil_r.
        repeat split; auto; constructor. }
    unfold bind at 1, emit at 1.
    destruct (attemptReconnect_outcome env health_ctx SlaveSide c
                (tr ++ [EvPrintln "Slave connection is down, attempting to reconnect"]))
      as (r & c' & evs & E & F & Hc & Hr).
    cbn [attemptReconnect] in E. rewrite E.
    exists r, c', (EvPrintln "Slave connection is down, attempting to reconnect" :: evs).
    split; [now rewrite <- app_assoc |]. split; [constructor; [exact I | exact F] |].
    split.
    + destruct Hc as [-> | (new & _ & ->)]; [constructor |].
      apply tick_slave_reconnected. congruence.
    + intros _ Hs. apply Hr. cbn [side_config]. apply Hs. congruence.
  - (* master down, slave healthy *)
    destruct (AutoFailover (MasterSlave.config c)) eqn:Ha.
    + unfold MasterSlave.store_role, bind, modify, emit.
      eexists (Ok tt), _, _. rewrite <- !app_assoc. cbn [app].
      split; [reflexivity |].
      split; [constructor; [right; reflexivity | constructor; [exact I | constructor]] |].
      split; [apply tick_demoted; auto | reflexivity].
    + exists (Ok tt), c, []. unfold ret. rewrite app_nil_r.
      repeat split; auto; constructor.
  - (* both down *)
    unfold bind at 1, emit at 1.
    set (line := EvPrintln
      "Both master and slave connections are down, attempting to reconnect").
    destruct (attemptReconnect_outcome env health_ctx MasterSide c (tr ++ [line]))
      as (r & c1 & evs & E & F & Hc & Hr).
    cbn [attemptReconnect] in E. unfold bind at 1. rewrite E.
    destruct r as [[] | msg].
    2:{ exists (Panic msg), c1, (line :: evs).
        split; [now rewrite <- app_assoc |].
        split; [constructor; [exact I | exact F] |].
        split.
        - destruct Hc as [-> | (new & Hn & _)]; [constructor | discriminate].
        - intros Hm _. specialize (Hr Hm). discriminate. }
    unfold bind at 1, get.
    assert (Hsl : MasterSlave.slaveConn c1 = MasterSlave.slaveConn c).
    { destruct Hc as [-> | (new & _ & ->)]; reflexivity. }
    assert (Hcf : MasterSlave.config c1 = MasterSlave.config c).
    { destruct Hc as [-> | (new & _ & ->)]; reflexivity. }
    rewrite Hsl.
    destruct (MasterSlave.slaveConn c) as [sc |] eqn:Hsc;
      cbn [MasterSlave.is_nil negb].
    2:{ exists (Ok tt), c1, (line :: evs). unfold ret.
        split; [now rewrite <- app_assoc |].
        split; [constructor; [exact I | exact F] |].
        split; [| reflexivity].
        destruct Hc as [-> | (new & _ & ->)]; constructor. }
    destruct (attemptReconnect_outcome env health_ctx SlaveSide c1
                ((tr ++ [line]) ++ evs))
      as (r2 & c2 & evs2 & E2 & F2 & Hc2 & Hr2).
    cbn [attemptReconnect] in E2. rewrite E2.
    exists r2, c2, (line :: evs ++ evs2).
    split; [now rewrite <- !app_assoc |].
    split; [constructor; [exact I | apply Forall_app; auto] |].
    split.
    + destruct Hc as [-> | (new & _ & ->)];
        destruct Hc2 as [-> | (new2 & _ & ->)].
      * constructor.
      * apply tick_slave_reconnected. congruence.
      * constructor.
      * apply tick_both_reconnected. congruence.
    + intros _ Hs. apply Hr2. rewrite Hcf. cbn [side_config]. apply Hs. congruence.
Qed.

Lemma probe_result_slot env ctx x t : probe_result env ctx x t = true -> x <> None.
Proof. destruct x; [discriminate | intros H; discriminate H]. Qed.

(** A tick, whatever the state and the network. *)
Lemma checkHealth_outcome env (c : MasterSlave.MasterSlaveConnection) tr :
  exists r c' body,
    MasterSlave.checkHealth env c tr = (r, c', tr ++ EvLock :: body ++ [EvUnlock]) /\
    Forall inner_event body /\
    tick_outcome c c' /\
    (Master (MasterSlave.config c) <> None ->
     (MasterSlave.slaveConn c <> None -> Slave (MasterSlave.config c) <> None) ->
     r = Ok tt).
Proof.
  rewrite checkHealth_run. cbv zeta.
  match goal with
  | |- context [defer _ (health_decision env c ?mh ?sh) c ?tr3] =>
    destruct (health_decision_outcome env c mh sh tr3)
      as (r & c' & evs & E & F & Ho & Hr);
      [apply probe_result_slot |]
  end.
  unfold defer. rewrite E. unfold emit.
  exists r, c',
    (probe_events env health_ctx (MasterSlave.masterConn c)
       (List.length (tr ++ [EvLock])) ++
     probe_events env health_ctx (MasterSlave.slaveConn c)
       (List.length ((tr ++ [EvLock]) ++
          probe_events env health_ctx (MasterSlave.masterConn c)
            (List.length (tr ++ [EvLock])))) ++ evs).
  split; [norm_trace; reflexivity |].
  split; [| split; assumption].
  apply Forall_app; split; [apply probe_events_inner |].
  apply Forall_app; split; [apply probe_events_inner | exact F].
Qed.

(** X12.  Whatever the state of the manager and of the network, a tick of
    the health check leaves the manager as it was, or in the slave role
    (only with [AutoFailover] and a slave handle), or with a new handle in
    the master slot and the master role, or with a new handle in a slave
    slot that was not nil, or both.  So a tick never changes the
    configuration, the ticker or the stop channel; it never empties a slot;
    and it never fills a slave slot that was nil.  All its events lie
    between one [Lock] and one [Unlock]. *)
Theorem tick_frame (env : Env) (c : MasterSlave.MasterSlaveConnection)
    (tr : trace) :
  exists r c' body,
    MasterSlave.checkHealth env c tr =
      (r, c', tr ++ EvLock :: body ++ [EvUnlock]) /\
    Forall (fun e => e <> EvLock /\ e <> EvUnlock) body /\
    tick_outcome c c' /\
    MasterSlave.config c' = MasterSlave.config c /\
    MasterSlave.healthTicker c' = MasterSlave.healthTicker c /\
    MasterSlave.stopChan c' = MasterSlave.stopChan c /\
    (MasterSlave.masterConn c <> None -> MasterSlave.masterConn c' <> None) /\
    (MasterSlave.slaveConn c = None <-> MasterSlave.slaveConn c' = None).
Proof.
  destruct (checkHealth_outcome env c tr) as (r & c' & body & E & F & Ho & _).
  exists r, c', body. split; [exact E |].
  split.
  { eapply Forall_impl; [| exact F].
    intros e He; split; intros ->; exact He. }
  split; [exact Ho |].
  destruct Ho as [| Ha Hs | new Hs | new | new new' Hs];
    cbn [reconnected MasterSlave.set_role MasterSlave.set_masterConn
         MasterSlave.set_slaveConn MasterSlave.config MasterSlave.healthTicker
         MasterSlave.stopChan MasterSlave.masterConn MasterSlave.slaveConn];
    repeat split; auto; try discriminate; try contradiction;
    intros H; congruence.
Qed.

(** ** A reconnect routine that gets nowhere *)

Lemma sleeps_attempt_events {P : nat -> event -> Prop} t0 t1 evs :
  (forall t d, ~ P t (EvSleep d)) ->
  Forall (attempt_event_within P t0 t1) evs -> sleeps evs = [].
Proof.
  intros HP. induction 1 as [| e evs He _ IH]; [reflexivity |].
  destruct e; simpl in *; try exact IH.
  destruct He as (t & _ & He). exfalso. eapply HP. exact He.
Qed.

Lemma no_store_attempt_events ctx cfg t0 t1 evs :
  Forall (attempt_event_within (pgx_attempt_event ctx cfg) t0 t1) evs ->
  Forall (fun e => ~ is_store e) evs.
Proof.
  intros F. eapply Forall_impl; [| exact F].
  intros e He. destruct e; simpl in *; auto;
    destruct He as (t & _ & []).
Qed.

(** The pgx [Connect] when every attempt fails and the context is never
    done. *)
Lemma pgx_Connect_exhausted env ctx (c : Pgx.Connection) cfg tr :
  Pgx.config c = Some cfg ->
  Validate cfg = None ->
  (0 <= MaxRetries cfg)%Z ->
  (forall t c', dial env t c' cfg <> Established) ->
  (forall t, ctx_done env t ctx = None) ->
  exists e evs,
    PgxConnection.Connect env ctx c tr = (Ok (Some e), c, tr ++ evs) /\
    attempts evs = Z.to_nat (MaxRetries cfg + 1) /\
    sleeps evs = [] /\
    Forall (fun e => ~ is_store e) evs.
Proof.
  intros Hc Hv Hn Hdial Hctx.
  destruct (pgx_Connect_run env ctx c cfg tr Hc Hv Hn)
    as (r & c' & evs & E & F & H).
  destruct r as [e |].
  2:{ destruct H as (errs & pre & _ & _ & Hd & _). exfalso.
      eapply Hdial; exact Hd. }
  destruct H as [-> [(errs & err & Hl & Hs & ->) | (errs & e0 & t & _ & _ & Hd)]].
  2:{ rewrite Hctx in Hd. discriminate. }
  exists (wrapRetries (MaxRetries cfg) err), evs. split; [exact E |].
  split; [| split].
  - unfold attempts. rewrite Hs, attempts_linear_backoff, length_app.
    simpl. lia.
  - eapply sleeps_attempt_events; [| exact F]. intros t d H. exact H.
  - eapply no_store_attempt_events. exact F.
Qed.

(** A loop whose every turn goes on, leaves the receiver alone, makes [a]
    attempts and sleeps [d] once. *)
Lemma for_loop_all_next {S} (body : M S (ctl unit unit)) (s : S) (a : nat)
    (d : Duration) (P : event -> Prop) :
  (forall tr, exists evs,
      body s tr = (Ok (Next tt), s, tr ++ evs) /\
      attempts evs = a /\ sleeps evs = [d] /\ Forall P evs) ->
  forall n i tr, exists evs,
    for_loop n i (fun _ _ => body) tt s tr = (Ok (inl tt), s, tr ++ evs) /\
    attempts evs = n * a /\ sleeps evs = repeat d n /\ Forall P evs.
Proof.
  intros Hbody. induction n as [| n IH]; intros i tr.
  - exists []. simpl. unfold ret. rewrite app_nil_r. auto.
  - rewrite for_loop_S.
    destruct (Hbody tr) as (evs & E & Ha & Hs & F). rewrite E.
    destruct (IH (i + 1)%Z (tr ++ evs)) as (evs2 & E2 & Ha2 & Hs2 & F2).
    exists (evs ++ evs2). rewrite E2, app_assoc.
    split; [reflexivity |].
    rewrite attempts_app, sleeps_app, Ha, Ha2, Hs, Hs2.
    split; [simpl; lia |]. split; [reflexivity |].
    apply Forall_app; auto.
Qed.

(** X13.  Take a side whose configuration is there and valid, with
    [MaxRetries >= 0].  When its endpoint refuses every attempt (and the
    context of the routine is never done), the reconnect routine of that
    side builds [FailoverRetries] connections, each with its [MaxRetries + 1]
    attempts, sleeps [FailoverInterval] after each of them, the last one
    included, logs its failure and returns; the manager is left as it was
    and nothing is stored.  With [FailoverRetries <= 0] that is no attempt
    and no sleep. *)
Theorem reconnect_gives_up (env : Env) (ctx : context) (sd : side)
    (c : MasterSlave.MasterSlaveConnection) (tr : trace) (m : Config) :
  side_config sd (MasterSlave.config c) = Some m ->
  Validate m = None ->
  (0 <= MaxRetries m)%Z ->
  (forall t c', dial env t c' m <> Established) ->
  (forall t, ctx_done env t ctx = None) ->
  let k := Z.to_nat (FailoverRetries (MasterSlave.config c)) in
  exists evs,
    attemptReconnect env ctx sd c tr =
      (Ok tt, c, tr ++ evs ++ [failure_line sd]) /\
    attempts evs = k * Z.to_nat (MaxRetries m + 1) /\
    sleeps evs = repeat (FailoverInterval (MasterSlave.config c)) k /\
    Forall (fun e => ~ is_store e) evs.
Proof.
  intros Hm Hv Hn Hdial Hctx k.
  assert (Hturn : forall (s : MasterSlave.MasterSlaveConnection)
            (K : (option error * Pgx.Connection) ->
                 M MasterSlave.MasterSlaveConnection (ctl unit unit)) tr0,
            (forall e cn s1 tr1,
               K (Some e, cn) s1 tr1 =
               (Ok (Next tt), s1,
                tr1 ++ [EvSleep (FailoverInterval (MasterSlave.config c))])) ->
            exists evs,
              bind (call (Pgx.NewConnection (Some m))
                      (PgxConnection.Connect env ctx)) K s tr0 =
                (Ok (Next tt), s, tr0 ++ evs) /\
              attempts evs = Z.to_nat (MaxRetries m + 1) /\
              sleeps evs = [FailoverInterval (MasterSlave.config c)] /\
              Forall (fun e => ~ is_store e) evs).
  { intros s K tr0 HK.
    destruct (pgx_Connect_exhausted env ctx (Pgx.NewConnection (Some m)) m tr0
                eq_refl Hv Hn Hdial Hctx) as (e & evs & E & Ha & Hs & F).
    exists (evs ++ [EvSleep (FailoverInterval (MasterSlave.config c))]).
    unfold bind at 1, call at 1. rewrite E, HK, app_assoc.
    split; [reflexivity |].
    rewrite attempts_app, sleeps_app, Ha, Hs.
    split; [unfold attempts at 1; cbn [schedule flat_map step_of filter app
                                        List.length]; lia |].
    split; [reflexivity |].
    apply Forall_app. split; [exact F | repeat constructor; simpl; auto]. }
  destruct sd; unfold attemptReconnect; cbn [side_config] in Hm.
  - unfold MasterSlave.attemptMasterReconnect.
    unfold bind at 1, get. unfold bind at 1. rewrite Hm.
    match goal with
    | |- context [for_loop ?n ?i (fun _ _ => ?B) tt c tr] =>
      pose proof (fun Hb => for_loop_all_next B c
                    (Z.to_nat (MaxRetries m + 1))
                    (FailoverInterval (MasterSlave.config c))
                    (fun e => ~ is_store e) Hb n i tr) as L
    end.
    destruct L as (evs & E & Ha & Hs & F).
    { intros tr0. apply Hturn. intros e cn s1 tr1. reflexivity. }
    rewrite E. exists evs. unfold emit. rewrite app_assoc. fold k in Ha, Hs.
    auto.
  - unfold MasterSlave.attemptSlaveReconnect.
    unfold bind at 1, get. unfold bind at 1. rewrite Hm.
    match goal with
    | |- context [for_loop ?n ?i (fun _ _ => ?B) tt c tr] =>
      pose proof (fun Hb => for_loop_all_next B c
                    (Z.to_nat (MaxRetries m + 1))
                    (FailoverInterval (MasterSlave.config c))
                    (fun e => ~ is_store e) Hb n i tr) as L
    end.
    destruct L as (evs & E & Ha & Hs & F).
    { intros tr0. apply Hturn. intros e cn s1 tr1. reflexivity. }
    rewrite E. exists evs. unfold emit. rewrite app_assoc. fold k in Ha, Hs.
    auto.
Qed.

Lemma reconnect_gives_up_witness :
  exists evs,
    attemptReconnect Sample.unreachable health_ctx SlaveSide
      SampleManager.connected connected_trace =
      (Ok tt, SampleManager.connected,
       connected_trace ++ evs ++ [failure_line SlaveSide]) /\
    attempts evs = 3 * 3 /\
    sleeps evs = [5; 5; 5]%Z /\
    Forall (fun e => ~ is_store e) evs.
Proof.
  apply (reconnect_gives_up Sample.unreachable health_ctx SlaveSide
           SampleManager.connected connected_trace Sample.replica_endpoint).
  - reflexivity.
  - reflexivity.
  - simpl. lia.
  - intros t c'. simpl. discriminate.
  - reflexivity.
Defined.

(** ** A tick that runs after [Close] *)

(** X14.  On a manager whose health checker runs (ticker set, stop channel
    open), [Close] stops the ticker and closes the stop channel, but a tick
    that was already taken runs [checkHealth] once the lock is free.  It
    finds both slots nil, takes both sides for down, and tries to reconnect
    the master (never the slave, whose slot is nil): with a valid master
    configuration whose [MaxRetries] is not negative, [FailoverRetries >= 1]
    and a primary endpoint that accepts connections, the closed manager
    holds a connected master handle again after that tick, after one
    attempt. *)
Theorem tick_after_Close_reconnects (env : Env)
    (c : MasterSlave.MasterSlaveConnection) (tr : trace) (m : Config) :
  MasterSlave.healthTicker c <> None ->
  MasterSlave.stopChan c = MasterSlave.ChanOpen ->
  Master (MasterSlave.config c) = Some m ->
  Validate m = None ->
  (0 <= MaxRetries m)%Z ->
  (1 <= FailoverRetries (MasterSlave.config c))%Z ->
  endpoint_reachable env (List.length tr) m ->
  exists r c1 tr1,
    MasterSlave.Close env c tr = (Ok r, c1, tr1) /\
    MasterSlave.masterConn c1 = None /\
    MasterSlave.slaveConn c1 = None /\
    enabled OpTick c1 /\
    exists h,
      let new := Pgx.mkConnection (Some h) (Some h) (Some m) in
      MasterSlave.checkHealth env c1 tr1 =
        (Ok tt, reconnected MasterSide new c1,
         tr1 ++
         [EvLock;
          EvPrintln
            "Both master and slave connections are down, attempting to reconnect";
          EvAttempt (WithTimeout health_ctx (ConnectTimeout m)) m None;
          EvStoreMaster (Some new);
          EvStoreRole "master";
          EvPrintln "Successfully reconnected to master";
          EvUnlock]) /\
      List.length tr1 < h.
Proof.
  intros Htk Hch Hm Hv Hn Hf Hreach.
  pose proof (Close_run env c tr (or_intror Hch)) as E. cbv zeta in E.
  eexists _, (closed c), _. split; [exact E |].
  split; [reflexivity |]. split; [reflexivity |].
  split; [exact Htk |].
  match type of E with
  | _ = (_, _, ?t) => set (tr1 := t) in *
  end.
  assert (Hlen : List.length tr <= List.length tr1).
  { unfold tr1. rewrite !length_app. lia. }
  exists (List.length tr1 + 2). cbv zeta.
  rewrite checkHealth_run. cbv zeta.
  cbn [closed MasterSlave.masterConn MasterSlave.slaveConn probe_result
       probe_events]. rewrite !app_nil_r.
  unfold health_decision. cbn [negb andb].
  unfold defer. unfold bind at 1, emit at 1. unfold bind at 1.
  change (MasterSlave.mkMasterSlaveConnection (MasterSlave.config c) None None
            (MasterSlave.role c) (MasterSlave.healthTicker c)
            match MasterSlave.healthTicker c with
            | Some _ => MasterSlave.ChanClosed
            | None => MasterSlave.stopChan c
            end) with (closed c).
  rewrite (attemptMasterReconnect_first_build env health_ctx (closed c) _ m
             Hm Hv Hn Hf).
  2:{ apply Hreach. rewrite !length_app. lia. }
  unfold bind at 1, get.
  cbn [reconnected MasterSlave.set_role MasterSlave.set_masterConn closed
       MasterSlave.slaveConn MasterSlave.is_nil negb].
  unfold ret, emit, old_close_events, store_event, after_store.
  cbn [slot_of closed MasterSlave.masterConn app].
  rewrite !length_app. cbn [List.length]. rewrite !Nat.add_1_r.
  replace (Datatypes.S (Datatypes.S (List.length tr1)))
    with (List.length tr1 + 2) by lia.
  norm_trace. split; [reflexivity | lia].
Qed.

Lemma tick_after_Close_reconnects_witness :
  exists r c1 tr1,
    MasterSlave.Close Sample.reachable SampleManager.connected connected_trace =
      (Ok r, c1, tr1) /\
    MasterSlave.masterConn c1 = None /\
    MasterSlave.slaveConn c1 = None /\
    enabled OpTick c1 /\
    exists h,
      MasterSlave.checkHealth Sample.reachable c1 tr1 =
        (Ok tt,
         reconnected MasterSide
           (Pgx.mkConnection (Some h) (Some h) (Some Sample.endpoint)) c1,
         tr1 ++
         [EvLock;
          EvPrintln
            "Both master and slave connections are down, attempting to reconnect";
          EvAttempt (WithTimeout health_ctx (ConnectTimeout Sample.endpoint))
            Sample.endpoint None;
          EvStoreMaster
            (Some (Pgx.mkConnection (Some h) (Some h) (Some Sample.endpoint)));
          EvStoreRole "master";
          EvPrintln "Successfully reconnected to master";
          EvUnlock]) /\
      List.length tr1 < h.
Proof.
  apply (tick_after_Close_reconnects Sample.reachable SampleManager.connected
           connected_trace Sample.endpoint).
  - simpl. discriminate.
  - reflexivity.
  - reflexivity.
  - reflexivity.
  - simpl. lia.
  - simpl. lia.
  - intros t' ctx _. reflexivity.
Defined.

(** ** The manager's [Connect], step by step *)

Lemma validated_master cfg :
  ValidateMasterSlave cfg = None -> exists m, Master cfg = Some m.
Proof.
  unfold ValidateMasterSlave. destruct (Master cfg) as [m |]; [eauto | discriminate].
Qed.

Lemma validated_slave cfg :
  ValidateMasterSlave cfg = None -> UseSlaveConnection cfg = true ->
  exists s, Slave cfg = Some s.
Proof.
  unfold ValidateMasterSlave. intros H Hu.
  destruct (Master cfg) as [m |]; [| discriminate].
  destruct (Validate m); [discriminate |]. rewrite Hu in H.
  destruct (Slave cfg) as [s |]; [eauto | discriminate].
Qed.

Lemma startHealthCheck_run (c0 c : MasterSlave.MasterSlaveConnection) tr :
  MasterSlave.config c = MasterSlave.config c0 ->
  ((if HealthCheckEnabled (MasterSlave.config c0)
    then MasterSlave.startHealthCheck else ret tt) ;; ret None) c tr =
  start_result c tr.
Proof.
  intros Hcfg. unfold start_result. cbv zeta. rewrite Hcfg.
  destruct (HealthCheckEnabled (MasterSlave.config c0)); [| reflexivity].
  unfold MasterSlave.startHealthCheck. unfold bind at 1. unfold bind at 1, get.
  rewrite Hcfg.
  destruct (HealthCheckInterval (MasterSlave.config c0) <=? 0)%Z; [reflexivity |].
  unfold bind, modify, emit, ret. norm_trace. reflexivity.
Qed.

(** Every way the manager's [Connect] can go on a configuration it
    accepts. *)
Lemma Connect_cases env ctx (c : MasterSlave.MasterSlaveConnection) tr :
  ValidateMasterSlave (MasterSlave.config c) = None ->
  exists rm mc tr1,
    master_attempt env ctx c tr = (Ok rm, mc, tr1) /\
    match rm with
    | Some e =>
      MasterSlave.Connect env ctx c tr =
        (Ok (Some (wrapError "failed to connect to master" e)),
         MasterSlave.set_masterConn (Some mc) c, tr1)
    | None =>
      if UseSlaveConnection (MasterSlave.config c) then
        exists rs sc tr2,
          slave_attempt env ctx c tr1 = (Ok rs, sc, tr2) /\
          match rs with
          | Some e =>
            MasterSlave.Connect env ctx c tr =
              (Ok (Some (wrapError "failed to connect to slave" e)),
               MasterSlave.set_masterConn None
                 (MasterSlave.set_slaveConn (Some sc) c),
               tr2 ++ close_events env (List.length tr2) mc
                   ++ [EvStoreMaster None])
          | None =>
            MasterSlave.Connect env ctx c tr =
              start_result
                (MasterSlave.set_slaveConn (Some sc)
                   (MasterSlave.set_masterConn (Some mc) c)) tr2
          end
      else
        MasterSlave.Connect env ctx c tr =
          start_result (MasterSlave.set_masterConn (Some mc) c) tr1
    end.
Proof.
  intros Hv.
  destruct (validated_master _ Hv) as (m & Hm).
  unfold master_attempt. cbv zeta.
  destruct (pgx_Connect_total env ctx
              (Pgx.NewConnection (Master (MasterSlave.config c))) m
              (tr ++ [EvStoreMaster
                        (Some (Pgx.NewConnection (Master (MasterSlave.config c))))]))
    as (rm & mc & evs & Em & _); [rewrite Hm; reflexivity |].
  eexists rm, mc, _. split; [exact Em |].
  (* the steps up to the end of the master's [Connect] *)
  assert (Hprefix : forall K : option error ->
                      M MasterSlave.MasterSlaveConnection (option error),
    bind (MasterSlave.store_masterConn
            (Some (Pgx.NewConnection (Master (MasterSlave.config c)))))
      (fun _ => bind (MasterSlave.on_masterConn (PgxConnection.Connect env ctx)) K)
      c tr =
    K rm (MasterSlave.set_masterConn (Some mc) c)
      ((tr ++ [EvStoreMaster
                 (Some (Pgx.NewConnection (Master (MasterSlave.config c))))])
          ++ evs)).
  { intros K.
    unfold bind at 1, MasterSlave.store_masterConn, bind at 1, modify, emit at 1.
    unfold bind at 1, MasterSlave.on_masterConn, bind at 1, get.
    cbn [MasterSlave.masterConn MasterSlave.set_masterConn].
    unfold bind at 1, deref, ret at 1. unfold bind at 1, call at 1.
    rewrite Em. unfold bind at 1, modify, ret at 1.
    destruct c; reflexivity. }
  destruct rm as [e |].
  { unfold MasterSlave.Connect. unfold bind at 1, get. rewrite Hv.
    rewrite Hprefix. reflexivity. }
  destruct (UseSlaveConnection (MasterSlave.config c)) eqn:Hu.
  2:{ unfold MasterSlave.Connect. unfold bind at 1, get. rewrite Hv.
      rewrite Hprefix, Hu. unfold bind at 1, ret at 1.
      apply (startHealthCheck_run c). reflexivity. }
  destruct (validated_slave _ Hv Hu) as (s & Hs).
  unfold slave_attempt. cbv zeta.
  destruct (pgx_Connect_total env ctx
              (Pgx.NewConnection (Slave (MasterSlave.config c))) s
              (((tr ++ [EvStoreMaster
                         (Some (Pgx.NewConnection (Master (MasterSlave.config c))))])
                  ++ evs) ++
               [EvStoreSlave
                  (Some (Pgx.NewConnection (Slave (MasterSlave.config c))))]))
    as (rs & sc & evs2 & Es & _); [rewrite Hs; reflexivity |].
  eexists rs, sc, _. split; [exact Es |].
  assert (Hslave : forall K : option error ->
                      M MasterSlave.MasterSlaveConnection (option error),
    bind (bind (MasterSlave.store_slaveConn
                  (Some (Pgx.NewConnection (Slave (MasterSlave.config c)))))
            (fun _ => bind (MasterSlave.on_slaveConn
                              (PgxConnection.Connect env ctx)) K))
      (fun r => match r with
                | Some err => ret (Some err)
                | None =>
                  (if HealthCheckEnabled (MasterSlave.config c)
                   then MasterSlave.startHealthCheck else ret tt) ;;
                  ret None
                end)
      (MasterSlave.set_masterConn (Some mc) c)
      ((tr ++ [EvStoreMaster
                 (Some (Pgx.NewConnection (Master (MasterSlave.config c))))])
          ++ evs) =
    bind (K rs)
      (fun r => match r with
                | Some err => ret (Some err)
                | None =>
                  (if HealthCheckEnabled (MasterSlave.config c)
                   then MasterSlave.startHealthCheck else ret tt) ;;
                  ret None
                end)
      (MasterSlave.set_slaveConn (Some sc)
         (MasterSlave.set_masterConn (Some mc) c))
      ((((tr ++ [EvStoreMaster
                  (Some (Pgx.NewConnection (Master (MasterSlave.config c))))])
           ++ evs) ++
        [EvStoreSlave
           (Some (Pgx.NewConnection (Slave (MasterSlave.config c))))]) ++ evs2)).
  { intros K. unfold bind at 1.
    unfold bind at 1, MasterSlave.store_slaveConn, bind at 1, modify, emit at 1.
    unfold bind at 1, MasterSlave.on_slaveConn, bind at 1, get.
    cbn [MasterSlave.slaveConn MasterSlave.set_slaveConn].
    unfold bind at 1, deref, ret at 1. unfold bind at 1, call at 1.
    rewrite Es. unfold bind at 1, modify, ret at 1.
    unfold bind at 2.
    destruct c; reflexivity. }
  destruct rs as [e |].
  - unfold MasterSlave.Connect. unfold bind at 1, get. rewrite Hv.
    rewrite Hprefix, Hu, Hslave.
    unfold bind at 1. unfold bind at 1, MasterSlave.on_masterConn, bind at 1, get.
    cbn [MasterSlave.slaveConn MasterSlave.set_slaveConn
         MasterSlave.set_masterConn MasterSlave.masterConn].
    unfold bind at 1, deref, ret at 1. unfold bind at 1, call at 1.
    rewrite pgx_Close_run. unfold bind at 1, modify, ret at 1.
    unfold bind at 1, MasterSlave.store_masterConn, bind at 1, modify, emit at 1.
    unfold ret. norm_trace. destruct c; reflexivity.
  - unfold MasterSlave.Connect. unfold bind at 1, get. rewrite Hv.
    rewrite Hprefix, Hu, Hslave.
    unfold bind at 1, ret at 1.
    apply (startHealthCheck_run c). reflexivity.
Qed.

Lemma validated_master_valid cfg m :
  ValidateMasterSlave cfg = None -> Master cfg = Some m -> Validate m = None.
Proof.
  unfold ValidateMasterSlave. intros H Hm. rewrite Hm in H.
  destruct (Validate m); [discriminate | reflexivity].
Qed.

Lemma validated_slave_valid cfg s :
  ValidateMasterSlave cfg = None -> UseSlaveConnection cfg = true ->
  Slave cfg = Some s -> Validate s = None.
Proof.
  unfold ValidateMasterSlave. intros H Hu Hs.
  destruct (Master cfg) as [m |]; [| discriminate].
  destruct (Validate m); [discriminate |]. rewrite Hu, Hs in H.
  destruct (Validate s); [discriminate | reflexivity].
Qed.

Lemma Connect_rejected env ctx (c : MasterSlave.MasterSlaveConnection) tr err :
  ValidateMasterSlave (MasterSlave.config c) = Some err ->
  MasterSlave.Connect env ctx c tr =
    (Ok (Some (wrapError "invalid master-slave config" err)), c, tr).
Proof.
  intros Hv. unfold MasterSlave.Connect, bind, get. now rewrite Hv.
Qed.

Lemma master_attempt_events env ctx (c : MasterSlave.MasterSlaveConnection) tr m :
  Master (MasterSlave.config c) = Some m ->
  exists rm mc evs,
    master_attempt env ctx c tr =
      (Ok rm, mc,
       tr ++ EvStoreMaster
               (Some (Pgx.NewConnection (Master (MasterSlave.config c)))) :: evs) /\
    Forall (attempt_event_within (pgx_attempt_event ctx m)
              (Datatypes.S (List.length tr))
              (Datatypes.S (List.length tr) + List.length evs)) evs /\
    (rm <> None ->
     mc = Pgx.NewConnection (Master (MasterSlave.config c))).
Proof.
  intros Hm. unfold master_attempt. cbv zeta.
  destruct (pgx_Connect_total env ctx
              (Pgx.NewConnection (Master (MasterSlave.config c))) m
              (tr ++ [EvStoreMaster
                        (Some (Pgx.NewConnection (Master (MasterSlave.config c))))]))
    as (rm & mc & evs & Em & F & Hsame & _); [rewrite Hm; reflexivity |].
  exists rm, mc, evs. rewrite Em. rewrite <- app_assoc. cbn [app].
  split; [reflexivity |]. split; [| exact Hsame].
  rewrite !length_app in F. cbn [List.length] in F.
  rewrite Nat.add_1_r in F. exact F.
Qed.

Lemma attempt_events_master_only ctx cfg m t0 t1 evs :
  Master cfg = Some m ->
  Forall (attempt_event_within (pgx_attempt_event ctx m) t0 t1) evs ->
  Forall (master_only_event cfg) evs.
Proof.
  intros Hm F. eapply Forall_impl; [| exact F].
  intros e He. destruct e; simpl in *; auto.
  - destruct He as (t & _ & _ & ->). exact Hm.
  - destruct He as (t & _ & []).
Qed.

(** X15.  When the configuration is accepted and the master's [Connect]
    returns an error, the manager's [Connect] returns that error wrapped as
    a master error.  The slave is not tried and no health checker is
    started.  The master slot is left holding the connection that could not
    be made: [GetMasterClient] does not return nil, and [Ping] answers that
    the database is not connected, without touching the network. *)
Theorem Connect_master_failure (env : Env) (ctx : context)
    (c : MasterSlave.MasterSlaveConnection) (tr tr1 : trace)
    (mc : Pgx.Connection) (e : error) :
  ValidateMasterSlave (MasterSlave.config c) = None ->
  master_attempt env ctx c tr = (Ok (Some e), mc, tr1) ->
  let nm := Pgx.NewConnection (Master (MasterSlave.config c)) in
  let c' := MasterSlave.set_masterConn (Some nm) c in
  MasterSlave.Connect env ctx c tr =
    (Ok (Some (wrapError "failed to connect to master" e)), c', tr1) /\
  (exists evs,
     tr1 = tr ++ EvStoreMaster (Some nm) :: evs /\
     Forall (master_only_event (MasterSlave.config c)) evs) /\
  MasterSlave.slaveConn c' = MasterSlave.slaveConn c /\
  MasterSlave.healthTicker c' = MasterSlave.healthTicker c /\
  forall ctx2 tr2,
    MasterSlave.GetMasterClient c' tr2 =
      (Ok (Some nm), c', tr2 ++ [EvRLock; EvRUnlock]) /\
    MasterSlave.Ping env ctx2 c' tr2 =
      (Ok (Some (errorString "database not connected")), c',
       tr2 ++ [EvRLock; EvRUnlock]).
Proof.
  intros Hv Hm nm c'.
  destruct (validated_master _ Hv) as (m & Hmc).
  destruct (master_attempt_events env ctx c tr m Hmc)
    as (rm & mc0 & evs & E0 & F & Hsame).
  rewrite Hm in E0. injection E0 as <- <- ->.
  assert (Hmc' : mc = nm) by (apply Hsame; discriminate). subst mc.
  destruct (Connect_cases env ctx c tr Hv) as (rm & mc1 & tr1' & E1 & H).
  rewrite Hm in E1. injection E1 as <- <- <-.
  split; [exact H |]. split.
  { exists evs. split; [reflexivity |].
    eapply attempt_events_master_only; eauto. }
  split; [reflexivity |]. split; [reflexivity |].
  intros ctx2 tr2. split.
  - unfold MasterSlave.GetMasterClient, bind, emit, defer, gets.
    norm_trace. reflexivity.
  - rewrite Ping_run. reflexivity.
Qed.

Lemma Connect_master_failure_witness :
  let c := MasterSlave.NewMasterSlaveConnection Sample.cluster in
  let nm := Pgx.NewConnection (Some Sample.endpoint) in
  let e := wrapRetries 2 (wrapError "failed to ping pool" Sample.refused) in
  let tr1 := snd (master_attempt Sample.unreachable (CallerCtx 0) c []) in
  let c' := MasterSlave.set_masterConn (Some nm) c in
  MasterSlave.Connect Sample.unreachable (CallerCtx 0) c [] =
    (Ok (Some (wrapError "failed to connect to master" e)), c', tr1) /\
  (exists evs,
     tr1 = [] ++ EvStoreMaster (Some nm) :: evs /\
     Forall (master_only_event Sample.cluster) evs) /\
  MasterSlave.slaveConn c' = None /\
  MasterSlave.healthTicker c' = None /\
  forall ctx2 tr2,
    MasterSlave.GetMasterClient c' tr2 =
      (Ok (Some nm), c', tr2 ++ [EvRLock; EvRUnlock]) /\
    MasterSlave.Ping Sample.unreachable ctx2 c' tr2 =
      (Ok (Some (errorString "database not connected")), c',
       tr2 ++ [EvRLock; EvRUnlock]).
Proof.
  apply (Connect_master_failure Sample.unreachable (CallerCtx 0)
           (MasterSlave.NewMasterSlaveConnection Sample.cluster) []
           (snd (master_attempt Sample.unreachable (CallerCtx 0)
                   (MasterSlave.NewMasterSlaveConnection Sample.cluster) []))
           (Pgx.NewConnection (Some Sample.endpoint))
           (wrapRetries 2 (wrapError "failed to ping pool" Sample.refused))).
  - reflexivity.
  - vm_compute. reflexivity.
Defined.

(** X16.  Without [UseSlaveConnection] the manager's [Connect] deals with
    the master alone, whatever happens: every connection attempt is made
    with the master's configuration, and the slave slot is left as it
    was. *)
Theorem Connect_without_slave (env : Env) (ctx : context)
    (c : MasterSlave.MasterSlaveConnection) (tr : trace) :
  UseSlaveConnection (MasterSlave.config c) = false ->
  exists r c' evs,
    MasterSlave.Connect env ctx c tr = (r, c', tr ++ evs) /\
    MasterSlave.slaveConn c' = MasterSlave.slaveConn c /\
    Forall (master_only_event (MasterSlave.config c)) evs.
Proof.
  intros Hu.
  destruct (ValidateMasterSlave (MasterSlave.config c)) as [err |] eqn:Hv.
  { rewrite (Connect_rejected env ctx c tr err Hv).
    eexists _, c, []. rewrite app_nil_r. auto. }
  destruct (validated_master _ Hv) as (m & Hmc).
  destruct (master_attempt_events env ctx c tr m Hmc)
    as (rm & mc & evs & E0 & F & _).
  pose proof (attempt_events_master_only ctx _ m _ _ evs Hmc F) as Fm.
  destruct (Connect_cases env ctx c tr Hv) as (rm' & mc' & tr1' & E1 & H).
  rewrite E0 in E1. injection E1 as <- <- <-.
  destruct rm as [e |].
  { rewrite H. eexists _, _, _. split; [reflexivity |].
    split; [reflexivity |]. constructor; [exact I | exact Fm]. }
  rewrite Hu in H. rewrite H. unfold start_result. cbv zeta.
  cbn [MasterSlave.set_masterConn MasterSlave.config].
  destruct (HealthCheckEnabled (MasterSlave.config c));
    [destruct (HealthCheckInterval (MasterSlave.config c) <=? 0)%Z |].
  - eexists _, _, _. split; [reflexivity |]. split; [reflexivity |].
    constructor; [exact I | exact Fm].
  - eexists _, _, (_ :: evs ++ _). split.
    { rewrite <- app_assoc. cbn [app]. reflexivity. }
    split; [reflexivity |].
    constructor; [exact I |]. apply Forall_app. split; [exact Fm |].
    repeat constructor.
  - eexists _, _, _. split; [reflexivity |]. split; [reflexivity |].
    constructor; [exact I | exact Fm].
Qed.

Lemma Connect_without_slave_witness :
  exists r c' evs,
    MasterSlave.Connect Sample.reachable (CallerCtx 0)
      (MasterSlave.NewMasterSlaveConnection MoreSamples.master_only) [] =
      (r, c', [] ++ evs) /\
    MasterSlave.slaveConn c' = None /\
    Forall (master_only_event MoreSamples.master_only) evs.
Proof.
  apply (Connect_without_slave Sample.reachable (CallerCtx 0)
           (MasterSlave.NewMasterSlaveConnection MoreSamples.master_only) []).
  reflexivity.
Defined.

(** ** A [Connect] that makes its connections *)

Lemma no_close_outside ctx cfg t0 t1 h evs :
  Forall (attempt_event_within (pgx_attempt_event ctx cfg) t0 t1) evs ->
  h < t0 \/ t1 <= h ->
  pool_closes h evs = 0 /\ conn_closes h evs = 0.
Proof.
  intros F Hh. induction F as [| e evs He _ [IHp IHq]]; [split; reflexivity |].
  unfold pool_closes, conn_closes in *. cbn [filter].
  destruct e; simpl in He; try (split; assumption).
  - destruct He as (t & Ht & ->).
    replace (Nat.eqb t h) with false by (symmetry; apply Nat.eqb_neq; lia).
    split; assumption.
  - destruct He as (t & Ht & ->).
    replace (Nat.eqb t h) with false by (symmetry; apply Nat.eqb_neq; lia).
    split; assumption.
Qed.

(** A pgx [Connect] that returns nil on a new connection, with a valid
    configuration and a retry count that is not negative: the handle it
    installs was made during the call, and is not closed by it. *)
Lemma pgx_Connect_installs env ctx m tr0 mc tr1 :
  Validate m = None ->
  (0 <= MaxRetries m)%Z ->
  PgxConnection.Connect env ctx (Pgx.NewConnection (Some m)) tr0 =
    (Ok None, mc, tr1) ->
  exists h evs,
    tr1 = tr0 ++ evs /\
    mc = Pgx.mkConnection (Some h) (Some h) (Some m) /\
    List.length tr0 <= h < List.length tr1 /\
    Forall (attempt_event_within (pgx_attempt_event ctx m) (List.length tr0)
              (List.length tr1)) evs /\
    pool_closes h evs = 0 /\ conn_closes h evs = 0.
Proof.
  intros Hv Hn E.
  destruct (pgx_Connect_run env ctx (Pgx.NewConnection (Some m)) m tr0
              eq_refl Hv Hn) as (r & c' & evs & E' & F & H).
  rewrite E in E'. injection E' as <- <- ->.
  destruct H as (errs & pre & -> & -> & _ & _ & _ & Fp).
  exists (List.length (tr0 ++ pre)), (pre ++ [EvAttempt
    (WithTimeout ctx (ConnectTimeout m)) m None]).
  split; [reflexivity |]. split; [reflexivity |].
  split; [rewrite !length_app; simpl; lia |].
  split; [exact F |].
  destruct (no_close_of_later_handle ctx m _ _ _ Fp) as [Hp Hq].
  rewrite pool_closes_app, conn_closes_app, Hp, Hq. split; reflexivity.
Qed.

(** X17.  When the configuration is accepted, asks for a slave, and both
    [Connect]s return nil (with retry counts that are not negative, and a
    health-check interval that is positive when the health checker is
    enabled: [time.NewTicker] panics on any other), the manager's [Connect]
    returns nil with a connected handle in each slot.
    The two pools are different ones, made during the call, and nothing that
    [Connect] did closed them; [GetMasterPool] and [GetSlavePool] return
    them.  The role is left as it was.  The health checker is started
    exactly when it is enabled. *)
Theorem Connect_both_sides (env : Env) (ctx : context)
    (c : MasterSlave.MasterSlaveConnection) (tr tr1 tr2 : trace)
    (m s : Config) (mc sc : Pgx.Connection) :
  ValidateMasterSlave (MasterSlave.config c) = None ->
  UseSlaveConnection (MasterSlave.config c) = true ->
  Master (MasterSlave.config c) = Some m ->
  Slave (MasterSlave.config c) = Some s ->
  (0 <= MaxRetries m)%Z ->
  (0 <= MaxRetries s)%Z ->
  (HealthCheckEnabled (MasterSlave.config c) = true ->
   (0 < HealthCheckInterval (MasterSlave.config c))%Z) ->
  master_attempt env ctx c tr = (Ok None, mc, tr1) ->
  slave_attempt env ctx c tr1 = (Ok None, sc, tr2) ->
  exists c' evs hm hs,
    MasterSlave.Connect env ctx c tr = (Ok None, c', tr ++ evs) /\
    MasterSlave.masterConn c' =
      Some (Pgx.mkConnection (Some hm) (Some hm) (Some m)) /\
    MasterSlave.slaveConn c' =
      Some (Pgx.mkConnection (Some hs) (Some hs) (Some s)) /\
    List.length tr < hm < hs /\
    pool_closes hm evs = 0 /\ conn_closes hm evs = 0 /\
    pool_closes hs evs = 0 /\ conn_closes hs evs = 0 /\
    MasterSlave.role c' = MasterSlave.role c /\
    MasterSlave.healthTicker c' =
      (if HealthCheckEnabled (MasterSlave.config c)
       then Some (HealthCheckInterval (MasterSlave.config c))
       else MasterSlave.healthTicker c) /\
    forall tr3,
      MasterSlave.GetMasterPool c' tr3 =
        (Ok (Some hm), c', tr3 ++ [EvRLock; EvRUnlock]) /\
      MasterSlave.GetSlavePool c' tr3 =
        (Ok (Some hs), c', tr3 ++ [EvRLock; EvRUnlock]).
Proof.
  intros Hv Hu Hm Hs Hnm Hns Hint Em Es.
  pose proof (validated_master_valid _ m Hv Hm) as Hvm.
  pose proof (validated_slave_valid _ s Hv Hu Hs) as Hvs.
  destruct (Connect_cases env ctx c tr Hv) as (rm & mc' & tr1' & E1 & H).
  rewrite Em in E1. injection E1 as <- <- <-.
  rewrite Hu in H. destruct H as (rs & sc' & tr2' & E2 & H).
  rewrite Es in E2. injection E2 as <- <- <-.
  unfold master_attempt in Em. unfold slave_attempt in Es. cbv zeta in Em, Es.
  rewrite Hm in Em. rewrite Hs in Es.
  destruct (pgx_Connect_installs env ctx m _ mc tr1 Hvm Hnm Em)
    as (hm & evm & -> & -> & Hhm & Fm & Hpm & Hqm).
  destruct (pgx_Connect_installs env ctx s _ sc tr2 Hvs Hns Es)
    as (hs & evs & -> & -> & Hhs & Fs & Hps & Hqs).
  rewrite !length_app in *. cbn [List.length] in *.
  set (stm := EvStoreMaster (Some (Pgx.NewConnection (Some m)))) in *.
  set (sts := EvStoreSlave (Some (Pgx.NewConnection (Some s)))) in *.
  assert (Hclose : forall tail,
            Forall (fun e => match e with
                             | EvPoolClose _ | EvConnClose _ _ => False
                             | _ => True
                             end) tail ->
            pool_closes hm (stm :: evm ++ sts :: evs ++ tail) = 0 /\
            conn_closes hm (stm :: evm ++ sts :: evs ++ tail) = 0 /\
            pool_closes hs (stm :: evm ++ sts :: evs ++ tail) = 0 /\
            conn_closes hs (stm :: evm ++ sts :: evs ++ tail) = 0).
  { intros tail Ft.
    assert (Ht : forall h, pool_closes h tail = 0 /\ conn_closes h tail = 0).
    { intros h. induction Ft as [| e tail He _ [IH1 IH2]]; [split; reflexivity |].
      unfold pool_closes, conn_closes in *. cbn [filter].
      destruct e; try contradiction; split; assumption. }
    destruct (no_close_outside ctx m _ _ hs evm Fm) as [Hpm' Hqm']; [lia |].
    destruct (no_close_outside ctx s _ _ hm evs Fs) as [Hps' Hqs']; [lia |].
    destruct (Ht hm) as [Ht1 Ht2]. destruct (Ht hs) as [Ht3 Ht4].
    change (stm :: evm ++ sts :: evs ++ tail)
      with ([stm] ++ evm ++ [sts] ++ evs ++ tail).
    rewrite !pool_closes_app, !conn_closes_app.
    rewrite Hpm, Hqm, Hps, Hqs, Hpm', Hqm', Hps', Hqs', Ht1, Ht2, Ht3, Ht4.
    repeat split; reflexivity. }
  rewrite H. unfold start_result. cbv zeta.
  cbn [MasterSlave.set_masterConn MasterSlave.set_slaveConn MasterSlave.config].
  destruct (HealthCheckEnabled (MasterSlave.config c)) eqn:He.
  - specialize (Hint eq_refl).
    replace (HealthCheckInterval (MasterSlave.config c) <=? 0)%Z with false
      by (symmetry; apply Z.leb_gt; lia).
    eexists _, (stm :: evm ++ sts :: evs ++
                [EvNewTicker (HealthCheckInterval (MasterSlave.config c)); EvGo]),
      hm, hs.
    split; [norm_trace; reflexivity |].
    split; [reflexivity |]. split; [reflexivity |]. split; [lia |].
    destruct (Hclose [EvNewTicker (HealthCheckInterval (MasterSlave.config c));
                      EvGo]) as (H1 & H2 & H3 & H4); [repeat constructor |].
    repeat (split; [assumption |]).
    split; [reflexivity |]. split; [reflexivity |].
    intros tr3.
    unfold MasterSlave.GetMasterPool, MasterSlave.GetSlavePool, bind, emit,
      defer, get, call, PgxConnection.GetPool, gets, ret.
    cbn [MasterSlave.masterConn MasterSlave.slaveConn
         MasterSlave.set_healthTicker MasterSlave.set_slaveConn
         MasterSlave.set_masterConn Pgx.pool].
    norm_trace. split; reflexivity.
  - eexists _, (stm :: evm ++ sts :: evs ++ []), hm, hs.
    split; [rewrite app_nil_r; norm_trace; reflexivity |].
    split; [reflexivity |]. split; [reflexivity |]. split; [lia |].
    destruct (Hclose []) as (H1 & H2 & H3 & H4); [constructor |].
    repeat (split; [assumption |]).
    split; [reflexivity |]. split; [reflexivity |].
    intros tr3.
    unfold MasterSlave.GetMasterPool, MasterSlave.GetSlavePool, bind, emit,
      defer, get, call, PgxConnection.GetPool, gets, ret.
    cbn [MasterSlave.masterConn MasterSlave.slaveConn
         MasterSlave.set_healthTicker MasterSlave.set_slaveConn
         MasterSlave.set_masterConn Pgx.pool].
    norm_trace. split; reflexivity.
Qed.

Lemma Connect_both_sides_witness :
  exists c' evs hm hs,
    MasterSlave.Connect MoreSamples.flaky (CallerCtx 0)
      (MasterSlave.NewMasterSlaveConnection Sample.cluster) [] =
      (Ok None, c', [] ++ evs) /\
    MasterSlave.masterConn c' =
      Some (Pgx.mkConnection (Some hm) (Some hm) (Some Sample.endpoint)) /\
    MasterSlave.slaveConn c' =
      Some (Pgx.mkConnection (Some hs) (Some hs) (Some Sample.replica_endpoint)) /\
    0 < hm < hs /\
    pool_closes hm evs = 0 /\ conn_closes hm evs = 0 /\
    pool_closes hs evs = 0 /\ conn_closes hs evs = 0 /\
    MasterSlave.role c' = "master" /\
    MasterSlave.healthTicker c' = Some 30%Z /\
    forall tr3,
      MasterSlave.GetMasterPool c' tr3 =
        (Ok (Some hm), c', tr3 ++ [EvRLock; EvRUnlock]) /\
      MasterSlave.GetSlavePool c' tr3 =
        (Ok (Some hs), c', tr3 ++ [EvRLock; EvRUnlock]).
Proof.
  apply (Connect_both_sides MoreSamples.flaky (CallerCtx 0)
           (MasterSlave.NewMasterSlaveConnection Sample.cluster) []
           (snd (master_attempt MoreSamples.flaky (CallerCtx 0)
                   (MasterSlave.NewMasterSlaveConnection Sample.cluster) []))
           (snd (slave_attempt MoreSamples.flaky (CallerCtx 0)
                   (MasterSlave.NewMasterSlaveConnection Sample.cluster)
                   (snd (master_attempt MoreSamples.flaky (CallerCtx 0)
                           (MasterSlave.NewMasterSlaveConnection Sample.cluster)
                           []))))
           Sample.endpoint Sample.replica_endpoint
           (Pgx.mkConnection (Some 1) (Some 1) (Some Sample.endpoint))
           (Pgx.mkConnection (Some 3) (Some 3) (Some Sample.replica_endpoint))).
  - reflexivity.
  - reflexivity.
  - reflexivity.
  - reflexivity.
  - simpl. lia.
  - simpl. lia.
  - intros _. simpl. lia.
  - vm_compute. reflexivity.
  - vm_compute. reflexivity.
Defined.

(** X18.  The validation does not look at the health-check interval.  With
    the health checker enabled and an interval that is not positive,
    a [Connect] whose connections are all made panics in [time.NewTicker]:
    it returns nothing, the handles it made stay in their slots, open, and
    no health checker runs. *)
Theorem Connect_nonpositive_interval_panics (env : Env) (ctx : context)
    (c : MasterSlave.MasterSlaveConnection) (tr tr1 : trace)
    (mc : Pgx.Connection) :
  ValidateMasterSlave (MasterSlave.config c) = None ->
  HealthCheckEnabled (MasterSlave.config c) = true ->
  (HealthCheckInterval (MasterSlave.config c) <= 0)%Z ->
  master_attempt env ctx c tr = (Ok None, mc, tr1) ->
  (UseSlaveConnection (MasterSlave.config c) = false ->
   MasterSlave.Connect env ctx c tr =
     (Panic "non-positive interval for NewTicker",
      MasterSlave.set_masterConn (Some mc) c, tr1))
  /\
  (UseSlaveConnection (MasterSlave.config c) = true ->
   forall sc tr2,
     slave_attempt env ctx c tr1 = (Ok None, sc, tr2) ->
     MasterSlave.Connect env ctx c tr =
       (Panic "non-positive interval for NewTicker",
        MasterSlave.set_slaveConn (Some sc)
          (MasterSlave.set_masterConn (Some mc) c), tr2)).
Proof.
  intros Hv He Hi Em.
  destruct (Connect_cases env ctx c tr Hv) as (rm & mc' & tr1' & E1 & H).
  rewrite Em in E1. injection E1 as <- <- <-.
  assert (Hstart : forall c1 tr3,
            MasterSlave.config c1 = MasterSlave.config c ->
            start_result c1 tr3 =
              (Panic "non-positive interval for NewTicker", c1, tr3)).
  { intros c1 tr3 Hc. unfold start_result. cbv zeta. rewrite Hc, He.
    replace (HealthCheckInterval (MasterSlave.config c) <=? 0)%Z with true
      by (symmetry; apply Z.leb_le; lia).
    reflexivity. }
  split.
  - intros Hu. rewrite Hu in H. rewrite H. apply Hstart. reflexivity.
  - intros Hu sc tr2 Es. rewrite Hu in H.
    destruct H as (rs & sc' & tr2' & E2 & H).
    rewrite Es in E2. injection E2 as <- <- <-.
    rewrite H. apply Hstart. reflexivity.
Qed.

Lemma Connect_nonpositive_interval_panics_witness :
  ValidateMasterSlave MoreSamples.cluster_zero_interval = None /\
  MasterSlave.Connect Sample.reachable (CallerCtx 0)
    (MasterSlave.NewMasterSlaveConnection MoreSamples.cluster_zero_interval) [] =
    (Panic "non-positive interval for NewTicker",
     MasterSlave.set_slaveConn
       (Some (Pgx.mkConnection (Some 3) (Some 3) (Some Sample.replica_endpoint)))
       (MasterSlave.set_masterConn
          (Some (Pgx.mkConnection (Some 1) (Some 1) (Some Sample.endpoint)))
          (MasterSlave.NewMasterSlaveConnection
             MoreSamples.cluster_zero_interval)),
     [EvStoreMaster (Some (Pgx.NewConnection (Some Sample.endpoint)));
      EvAttempt (WithTimeout (CallerCtx 0) 7%Z) Sample.endpoint None;
      EvStoreSlave (Some (Pgx.NewConnection (Some Sample.replica_endpoint)));
      EvAttempt (WithTimeout (CallerCtx 0) 7%Z) Sample.replica_endpoint None]).
Proof.
  split; [reflexivity |].
  refine (proj2 (Connect_nonpositive_interval_panics Sample.reachable
                   (CallerCtx 0)
                   (MasterSlave.NewMasterSlaveConnection
                      MoreSamples.cluster_zero_interval) []
                   [EvStoreMaster (Some (Pgx.NewConnection (Some Sample.endpoint)));
                    EvAttempt (WithTimeout (CallerCtx 0) 7%Z) Sample.endpoint None]
                   (Pgx.mkConnection (Some 1) (Some 1) (Some Sample.endpoint))
                   eq_refl eq_refl _ _) eq_refl _ _ _).
  - simpl. lia.
  - vm_compute. reflexivity.
  - vm_compute. reflexivity.
Defined.

(** ** What every reachable state satisfies *)

(** Solves the side conditions of the program logic for [manager_inv]:
    writes to the slots, the ticker and the stop channel. *)
Ltac inv_update :=
  let s := fresh "s" in
  let H1 := fresh in let H2 := fresh in let H3 := fresh in
  intros s (H1 & H2 & H3); unfold manager_inv;
  cbn [MasterSlave.set_masterConn MasterSlave.set_slaveConn
       MasterSlave.set_stopChan MasterSlave.set_healthTicker
       MasterSlave.set_role MasterSlave.config MasterSlave.healthTicker
       MasterSlave.slaveConn];
  repeat split; auto; congruence.

Lemma exec_keeps_inv_sat env cfg t0 o :
  o <> OpTick -> (forall ctx, o <> OpConnect ctx) ->
  sat t0 (exec env o) (manager_inv cfg) (fun _ => True).
Proof.
  intros Ht Hc.
  destruct o; try congruence; try (exfalso; eapply Hc; reflexivity);
    unfold exec;
    unfold MasterSlave.Close, MasterSlave.Ping,
      MasterSlave.IsHealthy, MasterSlave.GetMasterClient,
      MasterSlave.GetSlaveClient, MasterSlave.HasSlaveConnected,
      MasterSlave.IsMaster, MasterSlave.IsSlave,
      MasterSlave.store_masterConn, MasterSlave.store_slaveConn,
      MasterSlave.close_stopChan, MasterSlave.probe;
    sat_auto; try sat_close (fun (e : event) (_ : conn_event e) => I);
    try exact I; try inv_update.
Qed.

Lemma tick_outcome_keeps_inv cfg c c' :
  manager_inv cfg c -> tick_outcome c c' -> manager_inv cfg c'.
Proof.
  intros (H1 & H2 & H3) Ho.
  destruct Ho as [| Ha Hs | new Hs | new | new new' Hs]; unfold manager_inv;
    cbn [reconnected MasterSlave.set_role MasterSlave.set_masterConn
         MasterSlave.set_slaveConn MasterSlave.config MasterSlave.healthTicker
         MasterSlave.slaveConn];
    first [ exact (conj H1 (conj H2 H3))
          | split; [exact H1 | split; [exact H2 | intros _; exact (H3 Hs)]] ].
Qed.

Lemma start_result_keeps_inv cfg c tr r c' tr' :
  ValidateMasterSlave cfg = None ->
  manager_inv cfg c -> start_result c tr = (r, c', tr') -> manager_inv cfg c'.
Proof.
  intros Hv (H1 & H2 & H3). unfold start_result. cbv zeta.
  destruct (HealthCheckEnabled (MasterSlave.config c));
    [destruct (HealthCheckInterval (MasterSlave.config c) <=? 0)%Z |];
    intros E; injection E as _ <- _; unfold manager_inv;
    cbn [MasterSlave.set_healthTicker MasterSlave.config
         MasterSlave.healthTicker MasterSlave.slaveConn];
    (split; [exact H1 | split; [intros _; exact Hv | exact H3]]).
Qed.

Lemma Connect_keeps_inv env ctx cfg c tr r c' tr' :
  manager_inv cfg c ->
  MasterSlave.Connect env ctx c tr = (r, c', tr') -> manager_inv cfg c'.
Proof.
  intros Hinv E. pose proof Hinv as (H1 & H2 & H3).
  destruct (ValidateMasterSlave (MasterSlave.config c)) as [err |] eqn:Hv.
  { rewrite (Connect_rejected env ctx c tr err Hv) in E.
    injection E as _ <- _. exact Hinv. }
  assert (Hvc : ValidateMasterSlave cfg = None) by (rewrite <- H1; exact Hv).
  destruct (Connect_cases env ctx c tr Hv) as (rm & mc & tr1 & _ & H).
  destruct rm as [e |].
  { rewrite H in E. injection E as _ <- _. unfold manager_inv.
    cbn [MasterSlave.set_masterConn MasterSlave.config MasterSlave.healthTicker
         MasterSlave.slaveConn]. auto. }
  destruct (UseSlaveConnection (MasterSlave.config c)) eqn:Hu.
  - assert (Huc : UseSlaveConnection cfg = true) by (rewrite <- H1; exact Hu).
    destruct H as (rs & sc & tr2 & _ & H).
    destruct rs as [e |]; rewrite H in E.
    + injection E as _ <- _. unfold manager_inv.
      cbn [MasterSlave.set_masterConn MasterSlave.set_slaveConn
           MasterSlave.config MasterSlave.healthTicker MasterSlave.slaveConn].
      auto.
    + eapply start_result_keeps_inv; [exact Hvc | | exact E].
      unfold manager_inv.
      cbn [MasterSlave.set_masterConn MasterSlave.set_slaveConn
           MasterSlave.config MasterSlave.healthTicker MasterSlave.slaveConn].
      auto.
  - rewrite H in E.
    eapply start_result_keeps_inv; [exact Hvc | | exact E].
    unfold manager_inv.
    cbn [MasterSlave.set_masterConn MasterSlave.config MasterSlave.healthTicker
         MasterSlave.slaveConn]. auto.
Qed.

Lemma exec_keeps_inv env cfg o c tr r c' tr' :
  manager_inv cfg c -> exec env o c tr = (r, c', tr') -> manager_inv cfg c'.
Proof.
  intros Hinv E.
  assert (Hcase : (exists ctx, o = OpConnect ctx) \/ o = OpTick \/
                  (o <> OpTick /\ forall ctx, o <> OpConnect ctx)).
  { destruct o; eauto; right; right; split; intros; discriminate. }
  destruct Hcase as [(ctx & ->) | [-> | [Ht Hc]]].
  - unfold exec, bind in E.
    destruct (MasterSlave.Connect env ctx c tr) as [[rc c1] tr1] eqn:Ec.
    assert (c1 = c') by (destruct rc; unfold ret in E; congruence). subst c1.
    eapply Connect_keeps_inv; eauto.
  - unfold exec, MasterSlave.healthLoopIteration, bind in E.
    destruct (checkHealth_outcome env c tr) as (r0 & c0 & body & E0 & _ & Ho & _).
    rewrite E0 in E.
    assert (c0 = c') by (destruct r0; unfold ret in E; congruence). subst c0.
    eapply tick_outcome_keeps_inv; eauto.
  - destruct (exec_keeps_inv_sat env cfg 0 o Ht Hc c tr (Nat.le_0_l _) Hinv)
      as (r0 & c0 & evs & E0 & Hinv' & _).
    rewrite E0 in E. injection E as _ <- _. exact Hinv'.
Qed.

Lemma reachable_inv env cfg c tr :
  reachable env cfg c tr -> manager_inv cfg c.
Proof.
  induction 1 as [| o c tr r c' tr' _ IH _ Hex].
  - unfold manager_inv. cbn. repeat split; congruence.
  - eapply exec_keeps_inv; eauto.
Qed.

(** X19.  In every state a manager can reach, the configuration is the one
    it was made with; a health checker runs, or the slave slot is filled,
    only if that configuration was accepted.  So a tick of the health check
    always returns: neither reconnect routine is ever run on a side whose
    configuration is nil.  It leaves the manager in one of the states a
    tick can leave. *)
Theorem reachable_tick_returns (env : Env) (cfg : MasterSlaveConfig)
    (c : MasterSlave.MasterSlaveConnection) (tr : trace) :
  reachable env cfg c tr ->
  manager_inv cfg c /\
  (enabled OpTick c ->
   exists c' body,
     MasterSlave.checkHealth env c tr =
       (Ok tt, c', tr ++ EvLock :: body ++ [EvUnlock]) /\
     tick_outcome c c' /\
     reachable env cfg c' (tr ++ EvLock :: body ++ [EvUnlock])).
Proof.
  intros Hreach. pose proof (reachable_inv env cfg c tr Hreach) as Hinv.
  split; [exact Hinv |].
  intros Hen. destruct Hinv as (H1 & H2 & H3).
  destruct (checkHealth_outcome env c tr) as (r & c' & body & E & _ & Ho & Hr).
  assert (Hok : r = Ok tt).
  { specialize (H2 Hen). apply Hr.
    - rewrite H1. destruct (validated_master _ H2) as (m & ->). discriminate.
    - intros Hs. destruct (H3 Hs) as [Hv Hu]. rewrite H1.
      destruct (validated_slave _ Hv Hu) as (s & ->). discriminate. }
  subst r. exists c', body. split; [exact E |]. split; [exact Ho |].
  eapply reach_step with (o := OpTick); [exact Hreach | exact Hen |].
  unfold exec, MasterSlave.healthLoopIteration, bind. rewrite E. reflexivity.
Qed.

Lemma reachable_tick_returns_witness :
  manager_inv Sample.cluster SampleManager.degraded /\
  (enabled OpTick SampleManager.degraded ->
   exists c' body,
     MasterSlave.checkHealth SampleManager.primary_pool_down
       SampleManager.degraded sample_run =
       (Ok tt, c', sample_run ++ EvLock :: body ++ [EvUnlock]) /\
     tick_outcome SampleManager.degraded c' /\
     reachable SampleManager.primary_pool_down Sample.cluster c'
       (sample_run ++ EvLock :: body ++ [EvUnlock])).
Proof.
  apply (reachable_tick_returns SampleManager.primary_pool_down Sample.cluster
           SampleManager.degraded sample_run).
  exact sample_run_reachable.
Defined.

(** ** The mutex along a run *)

Lemma lock_run_app a b : forall st,
  lock_run st (a ++ b) =
  match lock_run st a with
  | Some st' => lock_run st' b
  | None => None
  end.
Proof.
  induction a as [| e a IH]; intros st; [reflexivity |].
  cbn [app lock_run]. destruct (lock_step st e); [apply IH | reflexivity].
Qed.

Lemma lock_run_inner evs st :
  Forall inner_event evs -> lock_run st evs = Some st.
Proof.
  induction 1 as [| e evs He _ IH]; [reflexivity |].
  cbn [lock_run]. destruct e; try contradiction; cbn [lock_step]; exact IH.
Qed.

(** A method that takes a lock, defers its release and runs [body]: the
    events of [body] lie between the two lock operations, whether [body]
    returns or panics. *)
Lemma locked_region {S A} (l u : event) (body : M S A) (P : event -> Prop) :
  sat 0 body (fun _ => True) P ->
  forall s tr, exists r s' mid,
    (emit l ;; defer (emit u) body) s tr = (r, s', tr ++ l :: mid ++ [u]) /\
    Forall P mid.
Proof.
  intros Hb s tr.
  destruct (Hb s (tr ++ [l]) (Nat.le_0_l _) I) as (r & s' & mid & E & _ & F).
  exists r, s', mid. split; [| exact F].
  unfold bind, emit at 1, defer. rewrite E. unfold emit.
  rewrite <- !app_assoc. reflexivity.
Qed.

(** Every operation but [Connect] is one locked region. *)
Lemma exec_locked_region env o c tr :
  (forall ctx, o <> OpConnect ctx) ->
  exists r c' l u mid,
    exec env o c tr = (r, c', tr ++ l :: mid ++ [u]) /\
    ((l = EvLock /\ u = EvUnlock) \/ (l = EvRLock /\ u = EvRUnlock)) /\
    Forall inner_event mid.
Proof.
  intros Hc.
  assert (Hcase : o = OpTick \/ o <> OpTick) by (destruct o; auto; right; discriminate).
  destruct Hcase as [-> | Ht].
  - destruct (checkHealth_shape env (fun _ => True)) with (c := c) (tr := tr)
      as (r0 & c0 & rest & E & _ & F); auto.
    unfold exec, MasterSlave.healthLoopIteration, bind. rewrite E.
    exists (match r0 with Ok _ => Ok tt | Panic msg => Panic msg end), c0,
      EvLock, EvUnlock. eexists. split.
    + destruct r0; reflexivity.
    + split; [left; split; reflexivity |].
      apply Forall_app; split; [apply probe_events_inner |].
      apply Forall_app; split; [apply probe_events_inner | exact F].
  - destruct o; try congruence; try (exfalso; eapply Hc; reflexivity);
      unfold exec;
      unfold MasterSlave.Close, MasterSlave.Ping,
        MasterSlave.IsHealthy, MasterSlave.GetMasterClient,
        MasterSlave.GetSlaveClient, MasterSlave.HasSlaveConnected,
        MasterSlave.IsMaster, MasterSlave.IsSlave;
      match goal with
      | |- context [bind (emit ?l) (fun _ => defer (emit ?u) ?body)] =>
        let Hb := fresh "Hb" in
        assert (Hb : sat 0 body (fun _ => True) inner_event);
          [ unfold MasterSlave.store_masterConn, MasterSlave.store_slaveConn,
              MasterSlave.close_stopChan, MasterSlave.probe;
            sat_auto; try sat_close conn_event_inner; auto
          | destruct (locked_region l u body inner_event Hb c tr)
              as (r0 & c0 & mid & E & F);
            unfold bind at 1; rewrite E;
            exists (match r0 with Ok _ => Ok tt | Panic msg => Panic msg end),
              c0, l, u, mid;
            split; [destruct r0; reflexivity | split; [auto | exact F]] ]
      end.
Qed.

(** [Connect] takes no lock. *)
Lemma Connect_no_lock env ctx c tr :
  exists r c' evs,
    exec env (OpConnect ctx) c tr = (r, c', tr ++ evs) /\
    Forall inner_event evs.
Proof.
  assert (Hs : sat 0 (exec env (OpConnect ctx)) (fun _ => True) inner_event).
  { unfold exec, MasterSlave.Connect, MasterSlave.store_masterConn,
      MasterSlave.store_slaveConn, MasterSlave.on_masterConn,
      MasterSlave.on_slaveConn, MasterSlave.startHealthCheck.
    sat_auto; try sat_close conn_event_inner; auto. }
  destruct (Hs c tr (Nat.le_0_l _) I) as (r & c' & evs & E & _ & F).
  exists r, c', evs. auto.
Qed.

Lemma exec_lock_run env o c tr r c' tr' :
  exec env o c tr = (r, c', tr') ->
  exists evs, tr' = tr ++ evs /\ lock_run Unheld evs = Some Unheld.
Proof.
  intros E.
  assert (Hcase : (exists ctx, o = OpConnect ctx) \/ forall ctx, o <> OpConnect ctx).
  { destruct o; eauto; right; intros; discriminate. }
  destruct Hcase as [(ctx & ->) | Hc].
  - destruct (Connect_no_lock env ctx c tr) as (r0 & c0 & evs & E0 & F).
    rewrite E0 in E. injection E as _ _ <-.
    exists evs. split; [reflexivity | apply lock_run_inner; exact F].
  - destruct (exec_locked_region env o c tr Hc)
      as (r0 & c0 & l & u & mid & E0 & Hlu & F).
    rewrite E0 in E. injection E as _ _ <-.
    eexists. split; [reflexivity |].
    destruct Hlu as [[-> ->] | [-> ->]]; cbn [lock_run lock_step];
      rewrite lock_run_app, (lock_run_inner mid _ F); reflexivity.
Qed.

Lemma close_twice_run_reachable :
  reachable Sample.reachable Sample.cluster (closed SampleManager.connected)
    close_twice_run /\
  fst (fst (exec Sample.reachable OpClose (closed SampleManager.connected)
              (snd (exec Sample.reachable OpClose SampleManager.connected
                      connected_trace)))) =
    Panic "close of closed channel".
Proof.
  split; [| vm_compute; reflexivity].
  eapply reach_step with (o := OpClose) (c := closed SampleManager.connected).
  - eapply reach_step with (o := OpClose) (c := SampleManager.connected).
    + eapply reach_step with (o := OpConnect (CallerCtx 0)).
      * apply reach_new.
      * exact I.
      * vm_compute. reflexivity.
    + exact I.
    + vm_compute. reflexivity.
  - exact I.
  - vm_compute. reflexivity.
Qed.

(** X20.  Along any sequence of whole operations the mutex is used as it
    must be: a lock is taken only when none is held, it is released by the
    unlock that matches it, and none is held when an operation has ended,
    also when it ended in a panic (the unlock is deferred). *)
Theorem operations_release_the_lock (env : Env) (cfg : MasterSlaveConfig)
    (c : MasterSlave.MasterSlaveConnection) (tr : trace) :
  reachable env cfg c tr -> lock_run Unheld tr = Some Unheld.
Proof.
  induction 1 as [| o c tr r c' tr' _ IH _ Hex]; [reflexivity |].
  destruct (exec_lock_run env o c tr r c' tr' Hex) as (evs & -> & Hevs).
  rewrite lock_run_app, IH. exact Hevs.
Qed.

Lemma operations_release_the_lock_witness :
  lock_run Unheld close_twice_run = Some Unheld.
Proof.
  apply (operations_release_the_lock Sample.reachable Sample.cluster
           (closed SampleManager.connected) close_twice_run).
  exact (proj1 close_twice_run_reachable).
Defined.

(** ** Handles along a run *)

Lemma closes_cons e evs h :
  pool_closes h (e :: evs) =
    (match e with EvPoolClose p => if Nat.eqb p h then 1 else 0 | _ => 0 end)
    + pool_closes h evs /\
  conn_closes h (e :: evs) =
    (match e with EvConnClose q _ => if Nat.eqb q h then 1 else 0 | _ => 0 end)
    + conn_closes h evs.
Proof.
  unfold pool_closes, conn_closes.
  destruct e; cbn [filter]; try (split; reflexivity);
    destruct (Nat.eqb _ h); split; reflexivity.
Qed.

Lemma closes_quiet evs h :
  Forall (fun e => ~ is_close e) evs ->
  pool_closes h evs = 0 /\ conn_closes h evs = 0.
Proof.
  induction 1 as [| e evs He _ IH]; [split; reflexivity |].
  destruct (closes_cons e evs h) as [-> ->].
  destruct e; simpl in He; try tauto; exact IH.
Qed.

Lemma closes_of_close_events env t old h :
  pool_closes h (close_events env t old) =
    (if same_handle (Pgx.pool old) h then 1 else 0) /\
  conn_closes h (close_events env t old) =
    (if same_handle (Pgx.conn old) h then 1 else 0).
Proof.
  unfold close_events, same_handle.
  destruct (Pgx.pool old) as [p |], (Pgx.conn old) as [q |]; cbn [app];
    repeat match goal with
    | |- context [pool_closes h (?e :: ?l)] =>
      let H1 := fresh in let H2 := fresh in
      destruct (closes_cons e l h) as [H1 H2]; rewrite H1, H2; clear H1 H2
    end;
    cbn [pool_closes conn_closes filter List.length];
    repeat match goal with |- context [Nat.eqb ?a h] => destruct (Nat.eqb a h) end;
    split; reflexivity.
Qed.

Lemma same_handle_true x h : same_handle x h = true <-> x = Some h.
Proof.
  unfold same_handle. destruct x as [h' |]; [| split; discriminate].
  rewrite Nat.eqb_eq. split; congruence.
Qed.

Lemma fresh_closes_quiet t evs :
  Forall (fun e => ~ is_close e) evs -> fresh_closes t evs.
Proof.
  intros F h. destruct (closes_quiet evs h F) as [-> ->]. repeat split; lia.
Qed.

Lemma fresh_closes_app t a b :
  fresh_closes t a -> fresh_closes (t + List.length a) b ->
  fresh_closes t (a ++ b).
Proof.
  intros Fa Fb h. rewrite pool_closes_app, conn_closes_app, length_app.
  destruct (Fa h) as (A1 & A2 & A3), (Fb h) as (B1 & B2 & B3).
  destruct (le_lt_dec (t + List.length a) h) as [Hle | Hlt].
  - destruct (A3 (or_intror Hle)) as [Ea Eb]. rewrite Ea, Eb.
    repeat split; try lia; intros Hh;
      (destruct B3 as [Ec Ed]; [lia |]); lia.
  - destruct (B3 (or_introl Hlt)) as [Ea Eb]. rewrite Ea, Eb.
    repeat split; try lia; intros Hh;
      (destruct A3 as [Ec Ed]; [lia |]); lia.
Qed.

Lemma slot_open_ext tr evs x :
  slot_open tr x -> fresh_closes (List.length tr) evs -> slot_open (tr ++ evs) x.
Proof.
  intros Hx F cn Hcn. destruct (Hx cn Hcn) as [[Mp Mq] [Up Uq]].
  rewrite length_app. split; split; intros h Hh.
  - specialize (Mp h Hh). lia.
  - specialize (Mq h Hh). lia.
  - rewrite pool_closes_app, (Up h Hh). specialize (Mp h Hh).
    destruct (F h) as (_ & _ & Z). destruct Z as [Ea _]; lia.
  - rewrite conn_closes_app, (Uq h Hh). specialize (Mq h Hh).
    destruct (F h) as (_ & _ & Z). destruct Z as [_ Eb]; lia.
Qed.

(** The invariant goes through a piece of trace that closes only what it
    made itself. *)
Lemma slots_inv_ext m s tr evs :
  slots_inv m s tr -> fresh_closes (List.length tr) evs ->
  slots_inv m s (tr ++ evs).
Proof.
  intros (K1 & K2 & Km & Ks & Ka) F.
  split; [| split; [| split; [| split]]]; auto using slot_open_ext.
  - intros h. rewrite pool_closes_app, conn_closes_app.
    destruct (K1 h) as [P1 Q1], (F h) as (P2 & Q2 & Z).
    destruct (le_lt_dec (List.length tr) h) as [Hle | Hlt].
    + destruct (K2 h Hle) as [Ea Eb]. lia.
    + destruct Z as [Ea Eb]; lia.
  - intros h Hh. rewrite length_app in Hh.
    rewrite pool_closes_app, conn_closes_app.
    destruct (K2 h) as [Ea Eb]; [lia |].
    destruct (F h) as (_ & _ & Z). destruct Z as [Ec Ed]; lia.
Qed.

Lemma apart_sym x y : apart x y -> apart y x.
Proof.
  intros H b a Hb Ha. destruct (H a b Ha Hb) as [Hp Hq].
  split; intros h Hh Hh'; [eapply Hp | eapply Hq]; eauto.
Qed.

Lemma slots_inv_sym m s tr : slots_inv m s tr -> slots_inv s m tr.
Proof.
  intros (K1 & K2 & Km & Ks & Ka).
  split; [exact K1 | split; [exact K2 | split; [exact Ks | split; [exact Km |]]]].
  apply apart_sym. exact Ka.
Qed.

Lemma slots_inv_drop m s tr : slots_inv m s tr -> slots_inv None s tr.
Proof.
  intros (K1 & K2 & Km & Ks & Ka).
  split; [exact K1 | split; [exact K2 | split; [| split; [exact Ks |]]]].
  - intros cn Hcn. discriminate.
  - intros a b Ha. discriminate.
Qed.

(** Closing the connection in a slot and emptying the slot. *)
Lemma slots_inv_close env t old s tr :
  slots_inv (Some old) s tr ->
  slots_inv None s (tr ++ close_events env t old).
Proof.
  intros (K1 & K2 & Km & Ks & Ka).
  destruct (Km old eq_refl) as [[Mp Mq] [Up Uq]].
  assert (Hcount : forall h,
    (pool_closes h (close_events env t old) = 0 \/
     (pool_closes h (close_events env t old) = 1 /\ Pgx.pool old = Some h)) /\
    (conn_closes h (close_events env t old) = 0 \/
     (conn_closes h (close_events env t old) = 1 /\ Pgx.conn old = Some h))).
  { intros h. destruct (closes_of_close_events env t old h) as [-> ->].
    split.
    - destruct (same_handle (Pgx.pool old) h) eqn:E; [right | left; reflexivity].
      split; [reflexivity | now apply same_handle_true].
    - destruct (same_handle (Pgx.conn old) h) eqn:E; [right | left; reflexivity].
      split; [reflexivity | now apply same_handle_true]. }
  split; [| split; [| split; [| split]]].
  - intros h. rewrite pool_closes_app, conn_closes_app.
    destruct (K1 h) as [P1 Q1], (Hcount h) as [[-> | [-> Hp]] [-> | [-> Hq]]];
      rewrite ?(Up h), ?(Uq h) by assumption; lia.
  - intros h Hh. rewrite length_app in Hh.
    rewrite pool_closes_app, conn_closes_app.
    destruct (K2 h) as [Ea Eb]; [lia |]. rewrite Ea, Eb.
    destruct (Hcount h) as [[-> | [_ Hp]] [-> | [_ Hq]]];
      try (split; reflexivity);
      try (specialize (Mp h Hp)); try (specialize (Mq h Hq)); lia.
  - intros cn Hcn. discriminate.
  - intros cn Hcn. destruct (Ks cn Hcn) as [[Np Nq] [Vp Vq]].
    destruct (Ka old cn eq_refl Hcn) as [Ap Aq].
    rewrite length_app. split; split; intros h Hh.
    + specialize (Np h Hh). lia.
    + specialize (Nq h Hh). lia.
    + rewrite pool_closes_app, (Vp h Hh).
      destruct (Hcount h) as [[-> | [_ Hp]] _]; [reflexivity |].
      exfalso. exact (Ap h Hp Hh).
    + rewrite conn_closes_app, (Vq h Hh).
      destruct (Hcount h) as [_ [-> | [_ Hq]]]; [reflexivity |].
      exfalso. exact (Aq h Hq Hh).
  - intros a b Ha. discriminate.
Qed.

(** Putting a connection made from time [t0] on into an empty slot, when
    what the other slot holds was made before [t0]. *)
Lemma slots_inv_install new s tr t0 :
  slots_inv None s tr ->
  made_within t0 (List.length tr) new -> unclosed tr new ->
  (forall b, s = Some b -> made_within 0 t0 b) ->
  slots_inv (Some new) s tr.
Proof.
  intros (K1 & K2 & _ & Ks & _) [Mp Mq] Hu Hs.
  split; [exact K1 | split; [exact K2 | split; [| split; [exact Ks |]]]].
  - intros cn [= <-]. split; [| exact Hu].
    split; intros h Hh; [specialize (Mp h Hh) | specialize (Mq h Hh)]; lia.
  - intros a b [= <-] Hb. destruct (Hs b Hb) as [Np Nq].
    split; intros h Hh Hh';
      [specialize (Mp h Hh); specialize (Np h Hh')
      | specialize (Mq h Hh); specialize (Nq h Hh')]; lia.
Qed.
(** One call of [connectWithTimeout]: it pings nothing, closes only what it
    made itself, and what it returns on success is open. *)
Lemma pgx_attempt_segment env ctx (c : Pgx.Connection) cfg :
  Pgx.config c = Some cfg ->
  forall tr, exists v e evs,
    PgxConnection.connectWithTimeout env ctx c tr = (Ok (v, e), c, tr ++ evs) /\
    schedule evs = [SAttempt e] /\
    Forall ((fun _ e => ~ is_ping e) (List.length tr)) evs /\
    (fun t v e evs =>
       fresh_closes t evs /\
       (e = None ->
        v = (Some t, Some t) /\
        pool_closes t evs = 0 /\ conn_closes t evs = 0))
      (List.length tr) v e evs.
Proof.
  intros Hc tr.
  unfold PgxConnection.connectWithTimeout, bind, get, deref, now.
  rewrite Hc. unfold ret.
  destruct (dial env (List.length tr) _ cfg) eqn:Hd;
    unfold emit, now; repeat rewrite <- app_assoc; cbn [app];
    do 3 eexists;
    (split; [reflexivity | split; [reflexivity | split; [| split]]]);
    try (repeat constructor; simpl; tauto);
    try (intros ?; discriminate);
    try (intros h); try (intros _);
    unfold pool_closes, conn_closes; cbn [filter List.length];
    try (destruct (Nat.eqb_spec (List.length tr) h)); cbn [List.length];
    repeat split; intros; try reflexivity; lia.
Qed.

(** The retry loop of the pgx [Connect]. *)
Lemma pgx_retry_segment env ctx (c : Pgx.Connection) cfg maxR interval :
  Pgx.config c = Some cfg ->
  forall n i a tr, exists out evs,
    for_loop n i
      (retry_body env (PgxConnection.connectWithTimeout env ctx) ctx maxR interval)
      a c tr = (Ok out, c, tr ++ evs) /\
    Forall (fun e => ~ is_ping e) evs /\
    fresh_closes (List.length tr) evs /\
    (forall v, out = inl (v, None) ->
       (evs = [] /\ a = (v, None)) \/
       exists h, v = (Some h, Some h) /\
         List.length tr <= h < List.length (tr ++ evs) /\
         pool_closes h evs = 0 /\ conn_closes h evs = 0).
Proof.
  intros Hc. induction n as [| n IH]; intros i a tr.
  - exists (inl a), []. cbn [for_loop]. unfold ret. rewrite app_nil_r.
    split; [reflexivity |]. split; [constructor |].
    split; [apply fresh_closes_quiet; constructor |].
    intros v [= ->]. left. auto.
  - rewrite for_loop_S.
    destruct (retry_body_run env (PgxConnection.connectWithTimeout env ctx) ctx
                maxR interval c _ _ (pgx_attempt_segment env ctx c cfg Hc) i a tr)
      as (v & e & evs & Hs & F & [Fr Hv] & E).
    rewrite E. clear E.
    assert (Hne : evs <> []) by (eapply schedule_nonempty; eassumption).
    assert (Hlen : List.length tr < List.length (tr ++ evs)).
    { rewrite length_app. destruct evs; [congruence | simpl; lia]. }
    destruct e as [err |].
    + assert (Hnext : forall mid, Forall (fun e => ~ is_close e /\ ~ is_ping e) mid ->
        exists out evs0,
          for_loop n (i + 1)%Z
            (retry_body env (PgxConnection.connectWithTimeout env ctx) ctx maxR
               interval) (v, Some err) c ((tr ++ evs) ++ mid) =
            (Ok out, c, tr ++ evs0) /\
          Forall (fun e => ~ is_ping e) evs0 /\
          fresh_closes (List.length tr) evs0 /\
          (forall v0, out = inl (v0, None) ->
             (evs0 = [] /\ a = (v0, None)) \/
             exists h, v0 = (Some h, Some h) /\
               List.length tr <= h < List.length (tr ++ evs0) /\
               pool_closes h evs0 = 0 /\ conn_closes h evs0 = 0)).
      { intros mid Hmid.
        assert (Hq : Forall (fun e => ~ is_close e) mid)
          by (eapply Forall_impl; [| exact Hmid]; intros ? [? ?]; assumption).
        assert (Hp : Forall (fun e => ~ is_ping e) mid)
          by (eapply Forall_impl; [| exact Hmid]; intros ? [? ?]; assumption).
        destruct (IH (i + 1)%Z (v, Some err) ((tr ++ evs) ++ mid))
          as (out & evs2 & E2 & F2 & Fr2 & H2).
        exists out, (evs ++ mid ++ evs2).
        split; [rewrite E2; now rewrite <- !app_assoc |].
        split; [repeat (apply Forall_app; split); assumption |].
        assert (Hl2 : List.length ((tr ++ evs) ++ mid) =
                      List.length tr + List.length evs + List.length mid)
          by (rewrite !length_app; lia).
        rewrite Hl2 in Fr2.
        split.
        { apply fresh_closes_app; [exact Fr |].
          apply fresh_closes_app; [apply fresh_closes_quiet; exact Hq |].
          exact Fr2. }
        intros v0 Ho. right.
        destruct (H2 v0 Ho) as [[_ Ha] | (h & -> & Hh & Hp0 & Hq0)];
          [discriminate |].
        exists h. split; [reflexivity |].
        rewrite !length_app in *. split; [lia |].
        rewrite !pool_closes_app, !conn_closes_app, Hp0, Hq0.
        destruct (closes_quiet mid h Hq) as [-> ->].
        destruct (Fr h) as (_ & _ & Z). destruct Z as [-> ->]; [lia |].
        split; reflexivity. }
      destruct (i <? maxR)%Z.
      * destruct (ctx_done env (List.length (tr ++ evs)) ctx) as [e' |].
        -- exists (inr (Some e')), (evs ++ [EvCtxDone ctx e']).
           split; [unfold ret; now rewrite <- app_assoc |].
           split; [apply Forall_app; split; [exact F | repeat constructor; simpl; tauto] |].
           split; [| intros ? ?; discriminate].
           apply fresh_closes_app; [exact Fr |].
           apply fresh_closes_quiet. repeat constructor; simpl; tauto.
        -- apply Hnext. repeat constructor; simpl; tauto.
      * destruct (Hnext []) as (out & evs0 & E0 & H0); [constructor |].
        rewrite app_nil_r in E0. exists out, evs0. split; [exact E0 | exact H0].
    + exists (inl (v, None)), evs. split; [reflexivity |].
      split; [exact F |]. split; [exact Fr |].
      intros v0 [= <-]. right. destruct (Hv eq_refl) as (-> & Hp & Hq).
      exists (List.length tr). repeat split; auto; lia.
Qed.

(** [Connect] on a new connection: it pings nothing, closes only handles it
    made itself, each once, and the handles it leaves in the connection were
    made by it and are open. *)
Lemma pgx_Connect_fresh env ctx cfg tr :
  exists r new evs,
    PgxConnection.Connect env ctx (Pgx.NewConnection cfg) tr =
      (r, new, tr ++ evs) /\
    Forall (fun e => ~ is_ping e) evs /\
    fresh_closes (List.length tr) evs /\
    made_within (List.length tr) (List.length (tr ++ evs)) new /\
    unclosed evs new.
Proof.
  assert (Hnone : forall t0 t1 evs,
            made_within t0 t1 (Pgx.NewConnection cfg) /\
            unclosed evs (Pgx.NewConnection cfg)).
  { intros. split; split; intros h Hh; discriminate. }
  unfold PgxConnection.Connect, bind at 1, get. unfold bind at 1, deref.
  cbn [Pgx.config Pgx.NewConnection].
  destruct cfg as [m |].
  2:{ unfold panic. exists (Panic "invalid memory address or nil pointer dereference"),
        (Pgx.NewConnection None), [].
      rewrite app_nil_r. split; [reflexivity |]. split; [constructor |].
      split; [apply fresh_closes_quiet; constructor | apply Hnone]. }
  unfold ret at 1.
  destruct (Validate m) as [err |].
  { unfold ret. eexists _, (Pgx.NewConnection (Some m)), []. rewrite app_nil_r.
    split; [reflexivity |]. split; [constructor |].
    split; [apply fresh_closes_quiet; constructor | apply Hnone]. }
  unfold bind at 1, retry_loop.
  destruct (pgx_retry_segment env ctx (Pgx.NewConnection (Some m)) m
              (MaxRetries m) (RetryInterval m) eq_refl
              (Z.to_nat (MaxRetries m + 1)) 0%Z ((None, None), None) tr)
    as (out & evs & E & F & Fr & H).
  change (Pgx.mkConnection None None (Some m)) with (Pgx.NewConnection (Some m)).
  rewrite E.
  destruct out as [[[p q] [err |]] | e].
  - unfold ret. eexists _, _, evs. split; [reflexivity |].
    split; [exact F |]. split; [exact Fr | apply Hnone].
  - unfold bind, modify, ret. eexists _, _, evs. split; [reflexivity |].
    split; [exact F |]. split; [exact Fr |].
    destruct (H (p, q) eq_refl) as [[_ [= <- <-]] | (h & [= -> ->] & Hh & Hp & Hq)].
    + split; split; intros h Hh; discriminate.
    + split; split; intros h' [= <-]; assumption.
  - unfold ret. eexists _, _, evs. split; [reflexivity |].
    split; [exact F |]. split; [exact Fr | apply Hnone].
Qed.
Lemma close_events_no_ping env t old :
  Forall (fun e => ~ is_ping e) (close_events env t old).
Proof.
  unfold close_events.
  destruct (Pgx.pool old), (Pgx.conn old); repeat constructor; simpl; tauto.
Qed.

(** A new connection, made by the piece [evs], takes the place of what the
    first slot held, which is closed at the end of [evs] or dropped. *)
Lemma slots_inv_connect m s tr evs new :
  slots_inv m s tr ->
  fresh_closes (List.length tr) evs ->
  made_within (List.length tr) (List.length (tr ++ evs)) new ->
  unclosed evs new ->
  slots_inv (Some new) s (tr ++ evs).
Proof.
  intros K Fr Mw [Up Uq].
  pose proof K as (_ & K2 & _ & Ks & _).
  apply slots_inv_install with (t0 := List.length tr).
  - apply slots_inv_ext; [| exact Fr]. eapply slots_inv_drop; exact K.
  - exact Mw.
  - destruct Mw as [Mp Mq].
    split; intros h Hh; rewrite ?pool_closes_app, ?conn_closes_app.
    + rewrite (Up h Hh). destruct (K2 h) as [-> _]; [| reflexivity].
      specialize (Mp h Hh). lia.
    + rewrite (Uq h Hh). destruct (K2 h) as [_ ->]; [| reflexivity].
      specialize (Mq h Hh). lia.
  - intros b Hb. exact (proj1 (Ks b Hb)).
Qed.

Lemma slots_inv_replace env t m s tr evs new :
  slots_inv m s tr ->
  fresh_closes (List.length tr) evs ->
  made_within (List.length tr) (List.length (tr ++ evs)) new ->
  unclosed evs new ->
  slots_inv (Some new) s
    ((tr ++ evs) ++
     match m with Some old => close_events env t old | None => [] end).
Proof.
  intros K Fr Mw [Up Uq].
  destruct m as [old |].
  2:{ rewrite app_nil_r. eapply slots_inv_connect; eauto. split; assumption. }
  pose proof K as (_ & K2 & Km & Ks & _).
  destruct (Km old eq_refl) as [[Op Oq] _].
  destruct Mw as [Mp Mq].
  apply slots_inv_install with (t0 := List.length tr).
  - apply slots_inv_close. apply slots_inv_ext; assumption.
  - rewrite length_app. split; intros h Hh;
      [specialize (Mp h Hh) | specialize (Mq h Hh)]; lia.
  - split; intros h Hh; rewrite ?pool_closes_app, ?conn_closes_app;
      destruct (closes_of_close_events env t old h) as [Ep Eq].
    + rewrite (Up h Hh), Ep. specialize (Mp h Hh).
      destruct (K2 h) as [-> _]; [lia |].
      destruct (same_handle (Pgx.pool old) h) eqn:E; [| reflexivity].
      apply same_handle_true in E. specialize (Op h E). lia.
    + rewrite (Uq h Hh), Eq. specialize (Mq h Hh).
      destruct (K2 h) as [_ ->]; [lia |].
      destruct (same_handle (Pgx.conn old) h) eqn:E; [| reflexivity].
      apply same_handle_true in E. specialize (Oq h E). lia.
  - intros b Hb. exact (proj1 (Ks b Hb)).
Qed.

Lemma keeps_loop (body : M MasterSlave.MasterSlaveConnection (ctl unit unit)) :
  keeps_handles body ->
  forall n i, keeps_handles (for_loop n i (fun _ _ => body) tt).
Proof.
  intros Hb. induction n as [| n IH]; intros i c tr K.
  - exists (Ok (inl tt)), c, []. cbn [for_loop]. unfold ret. rewrite app_nil_r.
    auto.
  - rewrite for_loop_S.
    destruct (Hb c tr K) as (r & c1 & evs & E & F & K1). rewrite E.
    destruct r as [[[] | [] | []] | msg].
    + destruct (IH (i + 1)%Z c1 (tr ++ evs) K1) as (r2 & c2 & evs2 & E2 & F2 & K2).
      exists r2, c2, (evs ++ evs2). rewrite app_assoc.
      split; [exact E2 |]. split; [apply Forall_app; auto | exact K2].
    + exists (Ok (inl tt)), c1, evs. auto.
    + exists (Ok (inr tt)), c1, evs. auto.
    + exists (Panic msg), c1, evs. auto.
Qed.

Lemma handles_inv_ext c tr evs :
  handles_inv c tr -> Forall (fun e => ~ is_close e) evs ->
  handles_inv c (tr ++ evs).
Proof.
  intros K F. apply slots_inv_ext; [exact K | apply fresh_closes_quiet; exact F].
Qed.

(** Solves [Forall] goals on lists of events given by their elements. *)
Ltac quiet_events := repeat constructor; simpl; tauto.

Lemma attemptMasterReconnect_handles env ctx :
  keeps_handles (MasterSlave.attemptMasterReconnect env ctx).
Proof.
  intros c tr K. unfold MasterSlave.attemptMasterReconnect.
  unfold bind at 1, get. unfold bind at 1.
  match goal with
  | |- context [for_loop ?n ?i (fun _ _ => ?B) tt c tr] =>
    assert (HB : keeps_handles B);
      [| destruct (keeps_loop B HB n i c tr K) as (r & c1 & evs & E & F & K1) ]
  end.
  { intros c1 tr1 K1.
    destruct (pgx_Connect_fresh env ctx (Master (MasterSlave.config c)) tr1)
      as (r & new & evs & E & F & Fr & Mw & U).
    unfold bind at 1, call at 1. rewrite E.
    destruct r as [[err |] | msg].
    - unfold bind, emit, ret. eexists _, _, _.
      split; [rewrite <- app_assoc; reflexivity |].
      split; [apply Forall_app; split; [exact F | quiet_events] |].
      rewrite app_assoc. apply handles_inv_ext; [| quiet_events].
      apply slots_inv_ext; assumption.
    - unfold bind at 1, get. unfold bind at 1.
      unfold handles_inv in K1.
      pose proof (slots_inv_replace env (List.length (tr1 ++ evs)) _ _ _ _ _
                    K1 Fr Mw U) as K2.
      destruct (MasterSlave.masterConn c1) as [old |];
        unfold bind, call, MasterSlave.store_masterConn, MasterSlave.store_role,
          bind, modify, emit, ret; rewrite ?pgx_Close_run;
        eexists _, _, _;
        (split; [norm_trace; reflexivity |]);
        (split;
         [ apply Forall_app; split; [exact F |];
           first [ apply Forall_app; split;
                   [apply close_events_no_ping | quiet_events]
                 | quiet_events ]
         | unfold handles_inv;
           cbn [MasterSlave.masterConn MasterSlave.slaveConn
                MasterSlave.set_role MasterSlave.set_masterConn];
           rewrite ?app_nil_r in K2; rewrite !app_assoc;
           apply slots_inv_ext; [exact K2 | apply fresh_closes_quiet; quiet_events] ]).
    - exists (Panic msg), c1, evs. split; [reflexivity |].
      split; [exact F | apply slots_inv_ext; assumption]. }
  rewrite E. destruct r as [[[] | []] | msg].
  - unfold emit. eexists _, _, _. split; [rewrite <- app_assoc; reflexivity |].
    split; [apply Forall_app; split; [exact F | quiet_events] |].
    rewrite app_assoc. apply handles_inv_ext; [exact K1 | quiet_events].
  - exists (Ok tt), c1, evs. auto.
  - exists (Panic msg), c1, evs. auto.
Qed.

Lemma attemptSlaveReconnect_handles env ctx :
  keeps_handles (MasterSlave.attemptSlaveReconnect env ctx).
Proof.
  intros c tr K. unfold MasterSlave.attemptSlaveReconnect.
  unfold bind at 1, get. unfold bind at 1.
  match goal with
  | |- context [for_loop ?n ?i (fun _ _ => ?B) tt c tr] =>
    assert (HB : keeps_handles B);
      [| destruct (keeps_loop B HB n i c tr K) as (r & c1 & evs & E & F & K1) ]
  end.
  { intros c1 tr1 K1.
    destruct (pgx_Connect_fresh env ctx (Slave (MasterSlave.config c)) tr1)
      as (r & new & evs & E & F & Fr & Mw & U).
    unfold bind at 1, call at 1. rewrite E.
    destruct r as [[err |] | msg].
    - unfold bind, emit, ret. eexists _, _, _.
      split; [rewrite <- app_assoc; reflexivity |].
      split; [apply Forall_app; split; [exact F | quiet_events] |].
      rewrite app_assoc. apply handles_inv_ext; [| quiet_events].
      apply slots_inv_ext; assumption.
    - unfold bind at 1, get. unfold bind at 1.
      unfold handles_inv in K1. apply slots_inv_sym in K1.
      pose proof (slots_inv_replace env (List.length (tr1 ++ evs)) _ _ _ _ _
                    K1 Fr Mw U) as K2.
      destruct (MasterSlave.slaveConn c1) as [old |];
        unfold bind, call, MasterSlave.store_slaveConn,
          bind, modify, emit, ret; rewrite ?pgx_Close_run;
        eexists _, _, _;
        (split; [norm_trace; reflexivity |]);
        (split;
         [ apply Forall_app; split; [exact F |];
           first [ apply Forall_app; split;
                   [apply close_events_no_ping | quiet_events]
                 | quiet_events ]
         | unfold handles_inv;
           cbn [MasterSlave.masterConn MasterSlave.slaveConn
                MasterSlave.set_slaveConn];
           rewrite ?app_nil_r in K2; rewrite !app_assoc;
           apply slots_inv_sym;
           apply slots_inv_ext; [exact K2 | apply fresh_closes_quiet; quiet_events] ]).
    - exists (Panic msg), c1, evs. split; [reflexivity |].
      split; [exact F | apply slots_inv_ext; assumption]. }
  rewrite E. destruct r as [[[] | []] | msg].
  - unfold emit. eexists _, _, _. split; [rewrite <- app_assoc; reflexivity |].
    split; [apply Forall_app; split; [exact F | quiet_events] |].
    rewrite app_assoc. apply handles_inv_ext; [exact K1 | quiet_events].
  - exists (Ok tt), c1, evs. auto.
  - exists (Panic msg), c1, evs. auto.
Qed.
(** Solves goals [Forall (fun e => ~ is_ping e) l] where [l] is put together
    from single events and lists known to hold no ping. *)
Ltac no_pings :=
  repeat match goal with
  | H : Forall _ ?l |- Forall _ ?l => exact H
  | |- Forall _ [] => constructor
  | |- Forall _ (_ :: _) => constructor; [simpl; tauto |]
  | |- Forall _ (_ ++ _) => apply Forall_app; split
  | |- Forall _ (close_events _ _ _) => apply close_events_no_ping
  end.

Lemma keeps_intro {A} (m : M MasterSlave.MasterSlaveConnection A) c tr r c' tr' evs :
  m c tr = (r, c', tr') -> tr' = tr ++ evs ->
  Forall (fun e => ~ is_ping e) evs -> handles_inv c' tr' ->
  exists r c' evs,
    m c tr = (r, c', tr ++ evs) /\
    Forall (fun e => ~ is_ping e) evs /\ handles_inv c' (tr ++ evs).
Proof. intros E -> F K. exists r, c', evs. auto. Qed.

Lemma keeps_ret {A} (a : A) : keeps_handles (ret a).
Proof.
  intros c tr K. exists (Ok a), c, []. unfold ret. rewrite app_nil_r. auto.
Qed.

Lemma keeps_emit e : ~ is_close e -> ~ is_ping e -> keeps_handles (emit e).
Proof.
  intros Hc Hp c tr K. exists (Ok tt), c, [e]. unfold emit.
  split; [reflexivity |]. split; [no_pings |].
  apply handles_inv_ext; [exact K | repeat constructor; exact Hc].
Qed.

Lemma keeps_bind {A B} (m : M MasterSlave.MasterSlaveConnection A)
    (k : A -> M MasterSlave.MasterSlaveConnection B) :
  keeps_handles m -> (forall a, keeps_handles (k a)) -> keeps_handles (bind m k).
Proof.
  intros Hm Hk c tr K. destruct (Hm c tr K) as (r & c1 & evs & E & F & K1).
  unfold bind. rewrite E. destruct r as [a | msg].
  - destruct (Hk a c1 (tr ++ evs) K1) as (r2 & c2 & evs2 & E2 & F2 & K2).
    exists r2, c2, (evs ++ evs2). rewrite app_assoc.
    split; [exact E2 |]. split; [apply Forall_app; auto | exact K2].
  - exists (Panic msg), c1, evs. auto.
Qed.

Lemma keeps_get : keeps_handles get.
Proof.
  intros c tr K. exists (Ok c), c, []. unfold get. rewrite app_nil_r. auto.
Qed.

Lemma keeps_store_role v : keeps_handles (MasterSlave.store_role v).
Proof.
  intros c tr K. exists (Ok tt), (MasterSlave.set_role v c), [EvStoreRole v].
  split; [reflexivity |]. split; [no_pings |].
  apply (handles_inv_ext c); [exact K | repeat constructor; simpl; tauto].
Qed.

Lemma health_decision_handles env c0 mh sh :
  keeps_handles (health_decision env c0 mh sh).
Proof.
  unfold health_decision.
  repeat match goal with
  | |- keeps_handles (if ?b then _ else _) => destruct b
  | |- keeps_handles (bind _ _) => apply keeps_bind; [| intros ?]
  | |- keeps_handles (ret _) => apply keeps_ret
  | |- keeps_handles get => apply keeps_get
  | |- keeps_handles (emit _) => apply keeps_emit; simpl; tauto
  | |- keeps_handles (MasterSlave.store_role _) => apply keeps_store_role
  | |- keeps_handles (MasterSlave.attemptMasterReconnect _ _) =>
    apply attemptMasterReconnect_handles
  | |- keeps_handles (MasterSlave.attemptSlaveReconnect _ _) =>
    apply attemptSlaveReconnect_handles
  end.
Qed.

Lemma start_result_handles c tr :
  handles_inv c tr ->
  exists r c' evs,
    start_result c tr = (r, c', tr ++ evs) /\
    Forall (fun e => ~ is_ping e) evs /\ handles_inv c' (tr ++ evs).
Proof.
  intros K. unfold start_result. cbv zeta.
  destruct (HealthCheckEnabled (MasterSlave.config c));
    [destruct (HealthCheckInterval (MasterSlave.config c) <=? 0)%Z |].
  - eexists _, c, []. rewrite app_nil_r. auto.
  - eexists _, _, _. split; [reflexivity |]. split; [no_pings |].
    apply (handles_inv_ext c); [exact K | repeat constructor; simpl; tauto].
  - eexists _, c, []. rewrite app_nil_r. auto.
Qed.

Lemma keeps_after {A} (x : result A * MasterSlave.MasterSlaveConnection * trace)
    tr evs0 :
  Forall (fun e => ~ is_ping e) evs0 ->
  (exists r c' evs,
     x = (r, c', (tr ++ evs0) ++ evs) /\
     Forall (fun e => ~ is_ping e) evs /\ handles_inv c' ((tr ++ evs0) ++ evs)) ->
  exists r c' evs,
    x = (r, c', tr ++ evs) /\
    Forall (fun e => ~ is_ping e) evs /\ handles_inv c' (tr ++ evs).
Proof.
  intros F0 (r & c' & evs & E & F & K). exists r, c', (evs0 ++ evs).
  rewrite app_assoc. split; [exact E |]. split; [apply Forall_app; auto | exact K].
Qed.

(** [Connect] of the manager. *)
Lemma Connect_handles env ctx : keeps_handles (MasterSlave.Connect env ctx).
Proof.
  intros c tr K.
  destruct (ValidateMasterSlave (MasterSlave.config c)) as [err |] eqn:Hv.
  { rewrite (Connect_rejected env ctx c tr err Hv).
    eexists _, c, []. rewrite app_nil_r. auto. }
  destruct (Connect_cases env ctx c tr Hv) as (rm & mc & tr1 & Em & H).
  unfold master_attempt in Em. cbv zeta in Em.
  set (sm := EvStoreMaster
               (Some (Pgx.NewConnection (Master (MasterSlave.config c))))) in *.
  destruct (pgx_Connect_fresh env ctx (Master (MasterSlave.config c)) (tr ++ [sm]))
    as (r1 & new1 & evs1 & E1 & F1 & Fr1 & Mw1 & U1).
  rewrite E1 in Em. injection Em as -> -> <-.
  assert (K1 : slots_inv (Some mc) (MasterSlave.slaveConn c) ((tr ++ [sm]) ++ evs1)).
  { apply slots_inv_connect with (m := MasterSlave.masterConn c); try assumption.
    apply slots_inv_ext; [exact K | apply fresh_closes_quiet].
    repeat constructor; simpl; tauto. }
  assert (F01 : Forall (fun e => ~ is_ping e) ([sm] ++ evs1)).
  { apply Forall_app; split; [| exact F1]. repeat constructor; simpl; tauto. }
  rewrite <- app_assoc in K1, H.
  destruct rm as [e |].
  { rewrite H. eexists _, _, _. split; [reflexivity |]. split; [exact F01 |].
    exact K1. }
  destruct (UseSlaveConnection (MasterSlave.config c)) eqn:Hu.
  2:{ rewrite H. apply keeps_after with (evs0 := [sm] ++ evs1); [exact F01 |].
      apply start_result_handles. exact K1. }
  destruct H as (rs & sc & tr2 & Es & H).
  unfold slave_attempt in Es. cbv zeta in Es.
  set (ss := EvStoreSlave
               (Some (Pgx.NewConnection (Slave (MasterSlave.config c))))) in *.
  destruct (pgx_Connect_fresh env ctx (Slave (MasterSlave.config c))
              ((tr ++ [sm] ++ evs1) ++ [ss]))
    as (r2 & new2 & evs2 & E2 & F2 & Fr2 & Mw2 & U2).
  rewrite E2 in Es. injection Es as -> -> <-.
  assert (K2 : slots_inv (Some mc) (Some sc)
                 (((tr ++ [sm] ++ evs1) ++ [ss]) ++ evs2)).
  { apply slots_inv_sym.
    apply slots_inv_connect with (m := MasterSlave.slaveConn c); try assumption.
    apply slots_inv_ext; [apply slots_inv_sym; exact K1 | apply fresh_closes_quiet].
    repeat constructor; simpl; tauto. }
  assert (F02 : Forall (fun e => ~ is_ping e) (([sm] ++ evs1) ++ [ss] ++ evs2)).
  { apply Forall_app; split; [exact F01 |].
    apply Forall_app; split; [| exact F2]. repeat constructor; simpl; tauto. }
  assert (Htr : ((tr ++ [sm] ++ evs1) ++ [ss]) ++ evs2 =
                tr ++ ([sm] ++ evs1) ++ [ss] ++ evs2)
    by now rewrite <- !app_assoc.
  change (tr ++ sm :: evs1) with (tr ++ [sm] ++ evs1) in H.
  rewrite Htr in K2, H.
  destruct rs as [e |].
  - rewrite H.
    apply keeps_after with (evs0 := ([sm] ++ evs1) ++ [ss] ++ evs2); [exact F02 |].
    eexists _, _, _. split; [reflexivity |].
    split; [apply Forall_app; split; [apply close_events_no_ping | no_pings] |].
    unfold handles_inv.
    cbn [MasterSlave.masterConn MasterSlave.slaveConn MasterSlave.set_masterConn
         MasterSlave.set_slaveConn].
    rewrite app_assoc. apply slots_inv_ext.
    + apply slots_inv_close. exact K2.
    + apply fresh_closes_quiet. repeat constructor; simpl; tauto.
  - rewrite H.
    apply keeps_after with (evs0 := ([sm] ++ evs1) ++ [ss] ++ evs2); [exact F02 |].
    apply start_result_handles. exact K2.
Qed.

Lemma slots_inv_slot_close env t m s tr reset :
  ~ is_close reset -> slots_inv m s tr ->
  slots_inv None s (tr ++ slot_close_events env t m reset).
Proof.
  intros Hr K. unfold slot_close_events. destruct m as [old |].
  - rewrite app_assoc. apply slots_inv_ext.
    + apply slots_inv_close. exact K.
    + apply fresh_closes_quiet. repeat constructor; exact Hr.
  - rewrite app_nil_r. eapply slots_inv_drop. exact K.
Qed.

Lemma slot_close_events_no_ping env t m reset :
  ~ is_ping reset ->
  Forall (fun e => ~ is_ping e) (slot_close_events env t m reset).
Proof.
  intros Hr. unfold slot_close_events. destruct m as [old |]; [| constructor].
  apply Forall_app; split; [apply close_events_no_ping | repeat constructor; exact Hr].
Qed.

Lemma stop_events_quiet c :
  Forall (fun e => ~ is_close e /\ ~ is_ping e) (stop_events c).
Proof.
  unfold stop_events. destruct (MasterSlave.healthTicker c);
    repeat constructor; simpl; tauto.
Qed.

(** [Close] of the manager. *)
Lemma Close_handles env : keeps_handles (MasterSlave.Close env).
Proof.
  intros c tr K.
  assert (Hcase : (MasterSlave.healthTicker c = None \/
                   MasterSlave.stopChan c = MasterSlave.ChanOpen) \/
                  (exists d, MasterSlave.healthTicker c = Some d /\
                             MasterSlave.stopChan c = MasterSlave.ChanClosed)).
  { destruct (MasterSlave.healthTicker c) as [d |]; [| auto].
    destruct (MasterSlave.stopChan c); eauto. }
  destruct Hcase as [Hfirst | (d & Ht & Hs)].
  - pose proof (Close_run env c tr Hfirst) as E. cbv zeta in E.
    pose proof (stop_events_quiet c) as Hq.
    assert (Hq1 : Forall (fun e => ~ is_close e) (EvLock :: stop_events c)).
    { constructor; [simpl; tauto |].
      eapply Forall_impl; [| exact Hq]. intros ? [? ?]; assumption. }
    assert (Hq2 : Forall (fun e => ~ is_ping e) (EvLock :: stop_events c)).
    { constructor; [simpl; tauto |].
      eapply Forall_impl; [| exact Hq]. intros ? [? ?]; assumption. }
    eapply keeps_intro; [exact E | rewrite <- !app_assoc; reflexivity | |].
    + apply Forall_app; split; [exact Hq2 |].
      apply Forall_app; split; [apply slot_close_events_no_ping; simpl; tauto |].
      apply Forall_app; split; [apply slot_close_events_no_ping; simpl; tauto |].
      repeat constructor; simpl; tauto.
    + unfold handles_inv. cbn [MasterSlave.masterConn MasterSlave.slaveConn closed].
      rewrite app_assoc. apply slots_inv_ext;
        [| apply fresh_closes_quiet; repeat constructor; simpl; tauto].
      apply slots_inv_slot_close; [simpl; tauto |].
      apply slots_inv_sym.
      apply slots_inv_slot_close; [simpl; tauto |].
      apply slots_inv_ext; [exact K | apply fresh_closes_quiet; exact Hq1].
  - exists (Panic "close of closed channel"), c, [EvLock; EvTickerStop; EvUnlock].
    split.
    + destruct c as [cfg mc sc rl tk ch]. cbn in Ht, Hs. subst tk ch.
      unfold MasterSlave.Close, bind, emit, defer, get,
        MasterSlave.close_stopChan, bind, get, panic.
      cbn. norm_trace. reflexivity.
    + split; [no_pings |].
      apply handles_inv_ext; [exact K | repeat constructor; simpl; tauto].
Qed.

Lemma probe_events_open env ctx x t tr :
  slot_open tr x -> Forall (open_ping tr) (probe_events env ctx x t).
Proof.
  intros Hx. unfold probe_events.
  destruct x as [cn |]; [| constructor].
  destruct (Hx cn eq_refl) as [_ [Up _]].
  destruct cn as [[p |] q cfg]; constructor; [| constructor].
  split; [simpl; tauto |].
  intros ctx' p' r [= _ <- _]. apply Up. reflexivity.
Qed.

Lemma open_ping_other tr e : ~ is_close e -> ~ is_ping e -> open_ping tr e.
Proof.
  intros Hc Hp. split; [exact Hc |]. intros ctx p r ->. exfalso. apply Hp. exact I.
Qed.

Lemma open_ping_not_close tr evs :
  Forall (open_ping tr) evs -> Forall (fun e => ~ is_close e) evs.
Proof. intros F. eapply Forall_impl; [| exact F]. intros e [H _]. exact H. Qed.

(** The accessors: the manager is left as it is, and only open pools are
    pinged. *)
Lemma accessor_handles env o c tr r c' tr' :
  o <> OpTick -> o <> OpClose -> (forall ctx, o <> OpConnect ctx) ->
  handles_inv c tr ->
  exec env o c tr = (r, c', tr') ->
  c' = c /\ exists evs, tr' = tr ++ evs /\ Forall (open_ping tr) evs.
Proof.
  intros Ht Hcl Hc (_ & _ & Km & Ks & _) E.
  assert (Hl : open_ping tr EvRLock) by (apply open_ping_other; simpl; tauto).
  assert (Hu : open_ping tr EvRUnlock) by (apply open_ping_other; simpl; tauto).
  destruct o; try congruence; try (exfalso; eapply Hc; reflexivity);
    unfold exec, bind at 1 in E.
  - rewrite Ping_run in E. injection E as _ <- <-.
    split; [reflexivity |]. eexists. split; [reflexivity |].
    constructor; [exact Hl |]. apply Forall_app; split;
      [apply probe_events_open; exact Km | constructor; [exact Hu | constructor]].
  - rewrite IsHealthy_run in E. cbv zeta in E. injection E as _ <- <-.
    split; [reflexivity |]. eexists. split; [reflexivity |].
    constructor; [exact Hl |]. apply Forall_app; split;
      [apply probe_events_open; exact Km |].
    apply Forall_app; split; [| constructor; [exact Hu | constructor]].
    destruct (negb _ && _); [apply probe_events_open; exact Ks | constructor].
  - unfold MasterSlave.GetMasterClient, bind, emit, defer, gets, ret in E.
    injection E as _ <- <-. split; [reflexivity |]. eexists.
    split; [norm_trace; reflexivity |].
    constructor; [exact Hl | constructor; [exact Hu | constructor]].
  - unfold MasterSlave.GetSlaveClient, bind, emit, defer, gets, ret in E.
    injection E as _ <- <-. split; [reflexivity |]. eexists.
    split; [norm_trace; reflexivity |].
    constructor; [exact Hl | constructor; [exact Hu | constructor]].
  - unfold MasterSlave.HasSlaveConnected, bind, emit, defer, get, ret in E.
    injection E as _ <- <-. split; [reflexivity |]. eexists.
    split; [norm_trace; reflexivity |].
    constructor; [exact Hl | constructor; [exact Hu | constructor]].
  - unfold MasterSlave.IsMaster, bind, emit, defer, get, ret in E.
    injection E as _ <- <-. split; [reflexivity |]. eexists.
    split; [norm_trace; reflexivity |].
    constructor; [exact Hl | constructor; [exact Hu | constructor]].
  - unfold MasterSlave.IsSlave, bind, emit, defer, get, ret in E.
    injection E as _ <- <-. split; [reflexivity |]. eexists.
    split; [norm_trace; reflexivity |].
    constructor; [exact Hl | constructor; [exact Hu | constructor]].
Qed.
(** A tick of the health check: it pings what the slots hold, and pings
    nothing once it has started to reconnect. *)
Lemma checkHealth_handles env c tr :
  handles_inv c tr ->
  exists r c' A B,
    MasterSlave.checkHealth env c tr = (r, c', tr ++ A ++ B) /\
    Forall (open_ping tr) A /\ Forall (fun e => ~ is_ping e) B /\
    handles_inv c' (tr ++ A ++ B).
Proof.
  intros K. pose proof K as (_ & _ & Km & Ks & _).
  rewrite checkHealth_run. cbv zeta.
  match goal with
  | |- context [defer _ (health_decision env c ?mh ?sh) c
                  (((tr ++ [EvLock]) ++ ?pm) ++ ?ps)] =>
    assert (FA : Forall (open_ping tr) (EvLock :: pm ++ ps));
      [ constructor; [apply open_ping_other; simpl; tauto |];
        apply Forall_app; split; apply probe_events_open; assumption
      | assert (K3 : handles_inv c (((tr ++ [EvLock]) ++ pm) ++ ps));
        [ repeat apply handles_inv_ext;
          [ exact K
          | repeat constructor; simpl; tauto
          | apply (open_ping_not_close tr); apply probe_events_open; assumption
          | apply (open_ping_not_close tr); apply probe_events_open; assumption ]
        | destruct (health_decision_handles env c mh sh c _ K3)
            as (r & c' & evs & E & F & K');
          exists r, c', (EvLock :: pm ++ ps), (evs ++ [EvUnlock]) ]
      ]
  end.
  unfold defer. rewrite E. unfold emit.
  match goal with
  | |- (_, _, ?t1) = (_, _, ?t2) /\ _ =>
    assert (Htr : t1 = t2) by (norm_trace; reflexivity)
  end.
  rewrite <- Htr. split; [reflexivity |]. split; [exact FA |].
  split; [apply Forall_app; split; [exact F | repeat constructor; simpl; tauto] |].
  apply handles_inv_ext; [exact K' | repeat constructor; simpl; tauto].
Qed.

(** Every operation keeps the invariant; the pools it pings are open, and
    it pings them before it closes anything. *)
Lemma exec_handles env o c tr r c' tr' :
  handles_inv c tr -> exec env o c tr = (r, c', tr') ->
  exists A B,
    tr' = tr ++ A ++ B /\
    Forall (open_ping tr) A /\ Forall (fun e => ~ is_ping e) B /\
    handles_inv c' tr'.
Proof.
  intros K E.
  assert (Hcase : (exists ctx, o = OpConnect ctx) \/ o = OpClose \/ o = OpTick \/
                  (o <> OpTick /\ o <> OpClose /\ forall ctx, o <> OpConnect ctx)).
  { destruct o; eauto; right; right; right; repeat split; intros; discriminate. }
  destruct Hcase as [(ctx & ->) | [-> | [-> | (Ht & Hcl & Hc)]]].
  - destruct (Connect_handles env ctx c tr K) as (r0 & c0 & evs & E0 & F & K0).
    unfold exec, bind in E. rewrite E0 in E.
    assert (H : c0 = c' /\ tr ++ evs = tr')
      by (destruct r0; unfold ret in E; injection E; auto).
    destruct H as [<- <-]. exists [], evs. cbn [app]. auto.
  - destruct (Close_handles env c tr K) as (r0 & c0 & evs & E0 & F & K0).
    unfold exec, bind in E. rewrite E0 in E.
    assert (H : c0 = c' /\ tr ++ evs = tr')
      by (destruct r0; unfold ret in E; injection E; auto).
    destruct H as [<- <-]. exists [], evs. cbn [app]. auto.
  - destruct (checkHealth_handles env c tr K) as (r0 & c0 & A & B & E0 & FA & FB & K0).
    unfold exec, MasterSlave.healthLoopIteration, bind in E. rewrite E0 in E.
    assert (H : c0 = c' /\ tr ++ A ++ B = tr')
      by (destruct r0; unfold ret in E; injection E; auto).
    destruct H as [<- <-]. exists A, B. auto.
  - destruct (accessor_handles env o c tr r c' tr' Ht Hcl Hc K E)
      as (-> & evs & -> & F).
    exists evs, []. rewrite app_nil_r. split; [reflexivity |].
    split; [exact F |]. split; [constructor |].
    apply handles_inv_ext; [exact K | eapply open_ping_not_close; exact F].
Qed.

Lemma handles_ok_app a b : forall seen,
  handles_ok seen (a ++ b) = handles_ok seen a && handles_ok (seen ++ a) b.
Proof.
  induction a as [| e a IH]; intros seen; cbn [app handles_ok].
  - now rewrite app_nil_r.
  - rewrite IH, <- app_assoc. cbn [app]. now rewrite andb_assoc.
Qed.

Lemma handles_ok_pings evs : forall seen,
  Forall (open_ping seen) evs -> handles_ok seen evs = true.
Proof.
  induction evs as [| e evs IH]; intros seen F; [reflexivity |].
  inversion F as [| ? ? [Hc Hp] F']; subst. cbn [handles_ok].
  apply andb_true_intro; split.
  - destruct e; try reflexivity;
      try (exfalso; apply Hc; exact I).
    apply Nat.eqb_eq. eapply Hp. reflexivity.
  - apply IH. eapply Forall_impl; [| exact F'].
    intros e' [Hc' Hp']. split; [exact Hc' |].
    intros ctx p r ->. rewrite pool_closes_app, (Hp' _ _ _ eq_refl).
    destruct (closes_quiet [e] p) as [-> _]; [| reflexivity].
    repeat constructor. exact Hc.
Qed.

Lemma handles_ok_closes evs : forall seen,
  Forall (fun e => ~ is_ping e) evs -> closes_once (seen ++ evs) ->
  handles_ok seen evs = true.
Proof.
  induction evs as [| e evs IH]; intros seen F K; [reflexivity |].
  inversion F as [| ? ? He F']; subst. cbn [handles_ok].
  apply andb_true_intro; split.
  - destruct e; try reflexivity.
    + exfalso. apply He. exact I.
    + apply Nat.eqb_eq. destruct (K p) as [Kp _].
      rewrite pool_closes_app in Kp.
      destruct (closes_cons (EvPoolClose p) evs p) as [E _].
      rewrite E, Nat.eqb_refl in Kp. lia.
    + apply Nat.eqb_eq. destruct (K q) as [_ Kq].
      rewrite conn_closes_app in Kq.
      destruct (closes_cons (EvConnClose q r) evs q) as [_ E].
      rewrite E, Nat.eqb_refl in Kq. lia.
  - apply IH; [exact F' |]. rewrite <- app_assoc. exact K.
Qed.

Lemma reachable_handles env cfg c tr :
  reachable env cfg c tr -> handles_ok [] tr = true /\ handles_inv c tr.
Proof.
  induction 1 as [| o c tr r c' tr' _ [IH1 IH2] _ Hex].
  - split; [reflexivity |].
    unfold handles_inv, slots_inv, closes_once, no_later_close, slot_open, apart.
    cbn. repeat split; intros; try discriminate; lia.
  - destruct (exec_handles env o c tr r c' tr' IH2 Hex)
      as (A & B & -> & FA & FB & K').
    split; [| exact K'].
    rewrite handles_ok_app. cbn [app]. rewrite IH1. cbn [andb].
    rewrite handles_ok_app, (handles_ok_pings A tr FA). cbn [andb].
    apply handles_ok_closes; [exact FB |].
    rewrite <- app_assoc. exact (proj1 K').
Qed.

Lemma reconnect_run_reachable :
  reachable SampleManager.pools_down Sample.cluster
    (fst reconnect_run) (snd reconnect_run).
Proof.
  eapply reach_step with (o := OpPing (CallerCtx 0)).
  - eapply reach_step with (o := OpTick).
    + eapply reach_step with (o := OpConnect (CallerCtx 0)).
      * apply reach_new.
      * exact I.
      * vm_compute. reflexivity.
    + simpl. discriminate.
    + vm_compute. reflexivity.
  - exact I.
  - vm_compute. reflexivity.
Qed.

(** X21.  Along any sequence of whole operations no pool and no direct
    connection is closed twice, and no pool is pinged after it was closed.
    What the two slots hold at the end was made during the run and is still
    open, and the two slots share no handle. *)
Theorem handles_used_in_order (env : Env) (cfg : MasterSlaveConfig)
    (c : MasterSlave.MasterSlaveConnection) (tr : trace) :
  reachable env cfg c tr ->
  handles_ok [] tr = true /\
  slot_open tr (MasterSlave.masterConn c) /\
  slot_open tr (MasterSlave.slaveConn c) /\
  apart (MasterSlave.masterConn c) (MasterSlave.slaveConn c).
Proof.
  intros Hr.
  destruct (reachable_handles env cfg c tr Hr) as [H1 (_ & _ & Km & Ks & Ka)].
  auto.
Qed.

Lemma handles_used_in_order_witness :
  handles_ok [] (snd reconnect_run) = true /\
  slot_open (snd reconnect_run) (MasterSlave.masterConn (fst reconnect_run)) /\
  slot_open (snd reconnect_run) (MasterSlave.slaveConn (fst reconnect_run)) /\
  apart (MasterSlave.masterConn (fst reconnect_run))
    (MasterSlave.slaveConn (fst reconnect_run)).
Proof.
  apply (handles_used_in_order SampleManager.pools_down Sample.cluster
           (fst reconnect_run) (snd reconnect_run)).
  exact reconnect_run_reachable.
Defined.

(** ** A manager that was closed is not closed again *)

(** No operation makes a new stop channel or resets the ticker. *)
Lemma exec_keeps_stopped env t0 o :
  sat t0 (exec env o) stopped (fun _ => True).
Proof.
  assert (Hupd : forall f : MasterSlave.MasterSlaveConnection ->
                            MasterSlave.MasterSlaveConnection,
            (forall c, MasterSlave.healthTicker c <> None ->
                       MasterSlave.healthTicker (f c) <> None) ->
            (forall c, MasterSlave.stopChan c = MasterSlave.ChanClosed ->
                       MasterSlave.stopChan (f c) = MasterSlave.ChanClosed) ->
            forall c, stopped c -> stopped (f c)).
  { intros f H1 H2 c [Ht Hs]. split; auto. }
  destruct o; unfold exec;
    unfold MasterSlave.healthLoopIteration, MasterSlave.checkHealth,
      MasterSlave.attemptMasterReconnect, MasterSlave.attemptSlaveReconnect,
      MasterSlave.Connect, MasterSlave.Close, MasterSlave.Ping,
      MasterSlave.IsHealthy, MasterSlave.GetMasterClient,
      MasterSlave.GetSlaveClient, MasterSlave.HasSlaveConnected,
      MasterSlave.IsMaster, MasterSlave.IsSlave,
      MasterSlave.store_masterConn, MasterSlave.store_slaveConn,
      MasterSlave.store_role,
      MasterSlave.on_masterConn, MasterSlave.on_slaveConn,
      MasterSlave.startHealthCheck, MasterSlave.close_stopChan,
      MasterSlave.probe;
    sat_auto; try sat_close (fun (e : event) (_ : conn_event e) => I);
    try exact I;
    try (apply Hupd; intros c0 H0; cbn; (exact H0 || discriminate || reflexivity)).
Qed.

Lemma runs_keep_stopped env c tr c' tr' :
  stopped c -> runs env c tr c' tr' -> stopped c'.
Proof.
  intros Hc. induction 1 as [| o c tr c1 tr1 r c2 tr2 _ IH _ Hex]; [exact Hc |].
  destruct (exec_keeps_stopped env 0 o c1 tr1 (Nat.le_0_l _) (IH Hc))
    as (r0 & c0 & evs & E & Hs & _).
  rewrite E in Hex. injection Hex as _ <- _. exact Hs.
Qed.

Lemma stopped_Close_panics env c tr :
  stopped c ->
  MasterSlave.Close env c tr =
    (Panic "close of closed channel", c, tr ++ [EvLock; EvTickerStop; EvUnlock]).
Proof.
  intros [Ht Hs]. destruct c as [cfg mc sc rl [d |] ch];
    [| exfalso; apply Ht; reflexivity].
  cbn in Hs. subst ch.
  unfold MasterSlave.Close, bind, emit, defer, get,
    MasterSlave.close_stopChan, bind, get, panic.
  cbn. norm_trace. reflexivity.
Qed.

(** A manager closed once and connected again. *)
Lemma reuse_run_runs :
  MasterSlave.Close Sample.reachable SampleManager.connected connected_trace =
    (Ok None, closed SampleManager.connected, fst reuse_run) /\
  runs Sample.reachable (closed SampleManager.connected) (fst reuse_run)
    (fst (snd reuse_run)) (snd (snd reuse_run)).
Proof.
  split; [vm_compute; reflexivity |].
  eapply runs_step with (o := OpConnect (CallerCtx 0)).
  - apply runs_nil.
  - exact I.
  - vm_compute. reflexivity.
Qed.

(** X22.  A manager with a health checker can be closed once.  After a
    [Close] that returned, whatever is done with the manager next, no
    operation makes a new stop channel: the next [Close] panics on the
    closed one before it has closed anything, and leaves the manager as it
    is, with what [Connect] or a reconnect has put into the slots since. *)
Theorem Close_after_Close_panics (env : Env)
    (c : MasterSlave.MasterSlaveConnection) (tr : trace) (r : option error)
    (c1 : MasterSlave.MasterSlaveConnection) (tr1 : trace)
    (c' : MasterSlave.MasterSlaveConnection) (tr' : trace) :
  MasterSlave.healthTicker c <> None ->
  MasterSlave.Close env c tr = (Ok r, c1, tr1) ->
  runs env c1 tr1 c' tr' ->
  MasterSlave.Close env c' tr' =
    (Panic "close of closed channel", c', tr' ++ [EvLock; EvTickerStop; EvUnlock]).
Proof.
  intros Ht Hcl Hr. apply stopped_Close_panics.
  eapply runs_keep_stopped; [| exact Hr].
  destruct (MasterSlave.stopChan c) eqn:Hs.
  - pose proof (Close_run env c tr (or_intror Hs)) as E. cbv zeta in E.
    rewrite E in Hcl. injection Hcl as _ <- _.
    split; cbn [closed MasterSlave.healthTicker MasterSlave.stopChan].
    + exact Ht.
    + destruct (MasterSlave.healthTicker c); [reflexivity | congruence].
  - rewrite (stopped_Close_panics env c tr (conj Ht Hs)) in Hcl. discriminate.
Qed.

Lemma Close_after_Close_panics_witness :
  MasterSlave.Close Sample.reachable (fst (snd reuse_run)) (snd (snd reuse_run)) =
    (Panic "close of closed channel", fst (snd reuse_run),
     snd (snd reuse_run) ++ [EvLock; EvTickerStop; EvUnlock]).
Proof.
  apply (Close_after_Close_panics Sample.reachable SampleManager.connected
           connected_trace None (closed SampleManager.connected) (fst reuse_run)).
  - discriminate.
  - exact (proj1 reuse_run_runs).
  - exact (proj2 reuse_run_runs).
Defined.

(** ** What [Connect] does to the handles the manager holds *)

Lemma closes_nothing_before_app t a b :
  closes_nothing_before t a -> closes_nothing_before t b ->
  closes_nothing_before t (a ++ b).
Proof.
  intros Ha Hb h Hh. rewrite pool_closes_app, conn_closes_app.
  destruct (Ha h Hh) as [-> ->], (Hb h Hh) as [-> ->]. split; reflexivity.
Qed.

Lemma closes_nothing_before_quiet t evs :
  Forall (fun e => ~ is_close e) evs -> closes_nothing_before t evs.
Proof. intros F h _. apply closes_quiet. exact F. Qed.

Lemma closes_nothing_before_fresh t t' evs :
  t <= t' -> fresh_closes t' evs -> closes_nothing_before t evs.
Proof.
  intros Ht F h Hh. destruct (F h) as (_ & _ & Z). apply Z. lia.
Qed.

Lemma closes_nothing_before_close_events env t0 t t' t1 mc :
  t <= t' -> made_within t' t1 mc ->
  closes_nothing_before t (close_events env t0 mc).
Proof.
  intros Ht [Mp Mq] h Hh.
  destruct (closes_of_close_events env t0 mc h) as [-> ->].
  split.
  - destruct (same_handle (Pgx.pool mc) h) eqn:E; [| reflexivity].
    apply same_handle_true in E. specialize (Mp h E). lia.
  - destruct (same_handle (Pgx.conn mc) h) eqn:E; [| reflexivity].
    apply same_handle_true in E. specialize (Mq h E). lia.
Qed.

Lemma start_result_events c tr :
  exists r c' evs,
    start_result c tr = (r, c', tr ++ evs) /\
    Forall (fun e => ~ is_close e /\ ~ is_ping e) evs /\
    MasterSlave.masterConn c' = MasterSlave.masterConn c /\
    MasterSlave.slaveConn c' = MasterSlave.slaveConn c.
Proof.
  unfold start_result. cbv zeta.
  destruct (HealthCheckEnabled (MasterSlave.config c));
    [destruct (HealthCheckInterval (MasterSlave.config c) <=? 0)%Z |].
  - eexists _, c, []. rewrite app_nil_r. repeat split; constructor.
  - eexists _, _, _. split; [reflexivity |].
    split; [repeat constructor; simpl; tauto | split; reflexivity].
  - eexists _, c, []. rewrite app_nil_r. repeat split; constructor.
Qed.

(** X23.  [Connect] of the manager closes no pool and no direct connection
    that was there before the call.  Once the configuration is accepted, the
    master slot holds nothing afterwards, or a connection without handles,
    or one whose handles were made during the call: a connection that was in
    the slot before is dropped, and its pool is not closed. *)
Theorem Connect_closes_nothing_older (env : Env) (ctx : context)
    (c : MasterSlave.MasterSlaveConnection) (tr : trace) :
  exists r c' evs,
    MasterSlave.Connect env ctx c tr = (r, c', tr ++ evs) /\
    closes_nothing_before (List.length tr) evs /\
    (ValidateMasterSlave (MasterSlave.config c) = None ->
     forall mc, MasterSlave.masterConn c' = Some mc ->
       made_within (List.length tr) (List.length (tr ++ evs)) mc).
Proof.
  destruct (ValidateMasterSlave (MasterSlave.config c)) as [err |] eqn:Hv.
  { rewrite (Connect_rejected env ctx c tr err Hv).
    eexists _, c, []. rewrite app_nil_r.
    split; [reflexivity |].
    split; [apply closes_nothing_before_quiet; constructor | discriminate]. }
  destruct (Connect_cases env ctx c tr Hv) as (rm & mc & tr1 & Em & H).
  unfold master_attempt in Em. cbv zeta in Em.
  set (sm := EvStoreMaster
               (Some (Pgx.NewConnection (Master (MasterSlave.config c))))) in *.
  destruct (pgx_Connect_fresh env ctx (Master (MasterSlave.config c)) (tr ++ [sm]))
    as (r1 & new1 & evs1 & E1 & F1 & Fr1 & Mw1 & U1).
  rewrite E1 in Em. injection Em as -> -> <-.
  assert (Hl1 : List.length (tr ++ [sm]) = Datatypes.S (List.length tr))
    by (rewrite length_app; simpl; lia).
  assert (C01 : closes_nothing_before (List.length tr) ([sm] ++ evs1)).
  { apply closes_nothing_before_app.
    - apply closes_nothing_before_quiet. repeat constructor; simpl; tauto.
    - apply closes_nothing_before_fresh with (t' := List.length (tr ++ [sm]));
        [lia | exact Fr1]. }
  assert (M01 : forall more,
            made_within (List.length tr)
              (List.length (tr ++ ([sm] ++ evs1) ++ more)) mc).
  { intros more. destruct Mw1 as [Mp Mq]. rewrite !length_app in *.
    split; intros h Hh; [specialize (Mp h Hh) | specialize (Mq h Hh)]; lia. }
  rewrite <- app_assoc in H.
  destruct rm as [e |].
  { rewrite H. eexists _, _, _. split; [reflexivity |].
    split; [exact C01 |].
    intros _ mc' [= <-]. specialize (M01 []). rewrite app_nil_r in M01. exact M01. }
  destruct (UseSlaveConnection (MasterSlave.config c)) eqn:Hu.
  2:{ rewrite H.
      destruct (start_result_events (MasterSlave.set_masterConn (Some mc) c)
                  (tr ++ [sm] ++ evs1)) as (r & c' & evs & E & Fq & Hm & _).
      rewrite E. exists r, c', (([sm] ++ evs1) ++ evs).
      split; [now rewrite <- !app_assoc |].
      split.
      { apply closes_nothing_before_app; [exact C01 |].
        apply closes_nothing_before_quiet.
        eapply Forall_impl; [| exact Fq]. intros ? [? ?]; assumption. }
      intros _ mc' Hmc. rewrite Hm in Hmc. cbn in Hmc.
      injection Hmc as <-. apply M01. }
  destruct H as (rs & sc & tr2 & Es & H).
  unfold slave_attempt in Es. cbv zeta in Es.
  set (ss := EvStoreSlave
               (Some (Pgx.NewConnection (Slave (MasterSlave.config c))))) in *.
  destruct (pgx_Connect_fresh env ctx (Slave (MasterSlave.config c))
              ((tr ++ [sm] ++ evs1) ++ [ss]))
    as (r2 & new2 & evs2 & E2 & F2 & Fr2 & Mw2 & U2).
  rewrite E2 in Es. injection Es as -> -> <-.
  assert (C02 : closes_nothing_before (List.length tr)
                  (([sm] ++ evs1) ++ [ss] ++ evs2)).
  { apply closes_nothing_before_app; [exact C01 |].
    apply closes_nothing_before_app.
    - apply closes_nothing_before_quiet. repeat constructor; simpl; tauto.
    - apply closes_nothing_before_fresh
        with (t' := List.length ((tr ++ [sm] ++ evs1) ++ [ss]));
        [rewrite !length_app; lia | exact Fr2]. }
  assert (Htr : ((tr ++ [sm] ++ evs1) ++ [ss]) ++ evs2 =
                tr ++ ([sm] ++ evs1) ++ [ss] ++ evs2)
    by now rewrite <- !app_assoc.
  change (tr ++ sm :: evs1) with (tr ++ [sm] ++ evs1) in H.
  rewrite Htr in H.
  destruct rs as [e |].
  - rewrite H.
    eexists _, _,
      ((([sm] ++ evs1) ++ [ss] ++ evs2) ++
       close_events env
         (List.length (tr ++ ([sm] ++ evs1) ++ [ss] ++ evs2)) mc ++
       [EvStoreMaster None]).
    split; [now rewrite <- !app_assoc |].
    split.
    { apply closes_nothing_before_app; [exact C02 |].
      apply closes_nothing_before_app.
      - eapply closes_nothing_before_close_events; [| exact Mw1]. lia.
      - apply closes_nothing_before_quiet. repeat constructor; simpl; tauto. }
    intros _ mc' Hmc. discriminate Hmc.
  - rewrite H.
    destruct (start_result_events
                (MasterSlave.set_slaveConn (Some sc)
                   (MasterSlave.set_masterConn (Some mc) c))
                (tr ++ ([sm] ++ evs1) ++ [ss] ++ evs2))
      as (r & c' & evs & E & Fq & Hm & _).
    rewrite E. exists r, c', ((([sm] ++ evs1) ++ [ss] ++ evs2) ++ evs).
    split; [now rewrite <- !app_assoc |].
    split.
    { apply closes_nothing_before_app; [exact C02 |].
      apply closes_nothing_before_quiet.
      eapply Forall_impl; [| exact Fq]. intros ? [? ?]; assumption. }
    intros _ mc' Hmc. rewrite Hm in Hmc. cbn in Hmc.
    injection Hmc as <-.
    replace ((([sm] ++ evs1) ++ [ss] ++ evs2) ++ evs)
      with (([sm] ++ evs1) ++ ([ss] ++ evs2) ++ evs)
      by now rewrite <- !app_assoc.
    apply M01.
Qed.
